(** * The garbage collector of the Nix store (src/libstore/gc.cc)

    A shallow embedding of the collector: the liveness engine
    [tryToDelete], the orchestration in [collectGarbage], the
    temporary-roots protocol ([addTempRoot], [readTempRoots]) and the
    registration of permanent roots ([addPermRoot]).

    Conventions.
    - A [Path] is a [string]; a [PathSet] (C++ [std::set<string>]) is a
      list kept in the order of [std::string::compare], iterated from
      its head.
    - [unsigned long long] counters are [N] with the wrap-around modulo
      [2^64] written out ([add64]).
    - Code that mutates the store, the file system or the collector's
      [GCState] is written in a state-and-exception monad [M]; C++
      exceptions are [Throw], and [None] stands for a recursion that
      exceeds its depth budget (the C++ code would not return).
    - Logging ([printMsg], [debug], [startNest]) and [checkInterrupt]
      have no effect on the modelled state and are left out. *)

From Stdlib Require Import List String Ascii Bool Arith NArith Lia Permutation.
Import ListNotations.
Local Open Scope list_scope.
Local Open Scope string_scope.

(** ** Paths and path sets *)

Definition Path := string.
Definition Paths := list Path.
Definition PathSet := list Path.

Module PathSet.

Definition mem (x : Path) (s : PathSet) : bool := existsb (String.eqb x) s.

(** [std::set::insert]: the position is found with the ordering of
    [std::string]; an element already present is not inserted. *)
Fixpoint insert (x : Path) (s : PathSet) : PathSet :=
  match s with
  | [] => [x]
  | y :: t =>
      match String.compare x y with
      | Lt => x :: s
      | Eq => s
      | Gt => y :: insert x t
      end
  end.

(** [s.insert(first, last)] over the elements [xs]. *)
Definition insert_all (xs : list Path) (s : PathSet) : PathSet :=
  fold_left (fun acc x => insert x acc) xs s.

Definition of_list (xs : list Path) : PathSet := insert_all xs [].

Definition erase (x : Path) (s : PathSet) : PathSet :=
  filter (fun y => negb (String.eqb x y)) s.

End PathSet.

(** ** Exceptions, outcomes and the monad *)

Inductive Exn : Type :=
| GCLimitReached
| SysError (msg : string)
| Error (msg : string)
| PathInUse (path : Path).

Inductive Outcome (A : Type) : Type :=
| Ret (a : A)
| Throw (e : Exn).
Arguments Ret {A} a.
Arguments Throw {A} e.

Definition M (S A : Type) : Type := S -> option (Outcome A * S).

Definition ret {S A} (a : A) : M S A := fun s => Some (Ret a, s).
Definition throw {S A} (e : Exn) : M S A := fun s => Some (Throw e, s).
Definition diverge {S A} : M S A := fun _ => None.

Definition bind {S A B} (m : M S A) (k : A -> M S B) : M S B :=
  fun s =>
    match m s with
    | None => None
    | Some (Ret a, s') => k a s'
    | Some (Throw e, s') => Some (Throw e, s')
    end.

Definition get {S} : M S S := fun s => Some (Ret s, s).
Definition gets {S A} (f : S -> A) : M S A := fun s => Some (Ret (f s), s).
Definition modify {S} (f : S -> S) : M S unit := fun s => Some (Ret tt, f s).

(** [try { m } catch (GCLimitReached &) { }] *)
Definition catchLimit {S} (m : M S unit) : M S unit :=
  fun s =>
    match m s with
    | Some (Throw GCLimitReached, s') => Some (Ret tt, s')
    | r => r
    end.

Declare Scope gc_scope.
Delimit Scope gc_scope with gc.
Notation "x <- m ;; k" := (bind m (fun x => k))
  (at level 61, m at next level, right associativity) : gc_scope.
Notation "m ;;; k" := (bind m (fun _ => k))
  (at level 61, right associativity) : gc_scope.
Local Open Scope gc_scope.

(** [foreach (i, xs) body(i)] *)
Fixpoint forEach {S A} (xs : list A) (body : A -> M S unit) : M S unit :=
  match xs with
  | [] => ret tt
  | x :: rest => body x ;;; forEach rest body
  end.

(** ** 64-bit counters *)

Definition two64 : N := 2 ^ 64.
Definition add64 (a b : N) : N := ((a + b) mod two64)%N.

(** ** Strings *)

(** Modelled from the spec: [hasSuffix] of util.cc is not part of the
    sources at hand; "its name is a store path followed by the suffix". *)
Definition hasSuffix (s suffix : string) : bool :=
  Nat.leb (String.length suffix) (String.length s)
  && String.eqb (substring (String.length s - String.length suffix)
                           (String.length suffix) s) suffix.

(** [string(path, 0, path.size() - suffix.size())] *)
Definition stripSuffix (s suffix : string) : string :=
  substring 0 (String.length s - String.length suffix) s.

(** ** The metadata store *)

(** Modelled from the spec: the valid-paths database of local-store.cc
    is not part of the sources at hand.  Section 3 and section 6.1 of
    the specification give its queries: validity "is a property checked
    against the metadata store"; [references] and its inverse
    [referrers]; "derivers(p) - valid derivations known to produce p as
    one of their outputs"; "outputs(d) - for a derivation d, the paths
    it is supposed to produce"; [narSize]; and [invalidatePathChecked]
    "removes p from the metadata store, erroring if inbound references
    exist that are themselves still valid".  A path's own reference to
    itself does not count as inbound. *)
Record DB : Type := mkDB {
  validPaths : PathSet;
  refs : list (Path * Path);            (* (referrer, reference) *)
  derivationOutputs : list (Path * Path); (* (derivation, output) *)
  narSizes : Path -> N;
  vacuumed : nat                        (* how often vacuumDB ran *)
}.

Module Db.

Definition isValidPath (d : DB) (p : Path) : bool :=
  PathSet.mem p (validPaths d).

Definition queryReferences (d : DB) (p : Path) : PathSet :=
  PathSet.of_list
    (map snd (filter (fun e => String.eqb (fst e) p) (refs d))).

Definition queryReferrers (d : DB) (p : Path) : PathSet :=
  PathSet.of_list
    (map fst (filter (fun e => String.eqb (snd e) p && isValidPath d (fst e))
                     (refs d))).

Definition queryDerivationOutputs (d : DB) (drv : Path) : PathSet :=
  PathSet.of_list
    (map snd (filter (fun e => String.eqb (fst e) drv) (derivationOutputs d))).

Definition queryValidDerivers (d : DB) (p : Path) : PathSet :=
  PathSet.of_list
    (map fst (filter (fun e => String.eqb (snd e) p && isValidPath d (fst e))
                     (derivationOutputs d))).

Definition narSize (d : DB) (p : Path) : N := (narSizes d p mod two64)%N.

Definition invalidatePath (d : DB) (p : Path) : DB :=
  mkDB (PathSet.erase p (validPaths d)) (refs d) (derivationOutputs d)
       (narSizes d) (vacuumed d).

Definition invalidatePathChecked (d : DB) (p : Path) : Outcome DB :=
  if isValidPath d p then
    match PathSet.erase p (queryReferrers d p) with
    | [] => Ret (invalidatePath d p)
    | _ :: _ => Throw (PathInUse p)
    end
  else Ret d.

Definition vacuumDB (d : DB) : DB :=
  mkDB (validPaths d) (refs d) (derivationOutputs d) (narSizes d)
       (S (vacuumed d)).

(** Modelled from the spec: [topoSortPaths] of misc.cc is not part of
    the sources at hand.  "topological sort of S such that u precedes
    v iff u references v (referrers come first)": the next path
    emitted is the first remaining one that no other remaining path
    references; when the references among the remaining paths are
    cyclic no such order exists and the first remaining path is
    emitted. *)
Definition references (d : DB) (u v : Path) : bool :=
  existsb (fun e => String.eqb (fst e) u && String.eqb (snd e) v) (refs d).

Definition unreferenced (d : DB) (remaining : list Path) (u : Path) : bool :=
  negb (existsb (fun v => negb (String.eqb v u) && references d v u) remaining).

Fixpoint remove1 (u : Path) (l : list Path) : list Path :=
  match l with
  | [] => []
  | x :: t => if String.eqb u x then t else x :: remove1 u t
  end.

Fixpoint topoSortFrom (n : nat) (d : DB) (remaining : list Path) : Paths :=
  match n with
  | O => []
  | S n' =>
      match find (unreferenced d remaining) remaining with
      | Some u => u :: topoSortFrom n' d (remove1 u remaining)
      | None =>
          match remaining with
          | [] => []
          | u :: rest => u :: topoSortFrom n' d rest
          end
      end
  end.

Definition topoSortPaths (d : DB) (paths : PathSet) : Paths :=
  topoSortFrom (List.length paths) d paths.

End Db.

(** ** The store directory on disk *)

(** The type of an entry; for a symbolic link, [target] is the path
    that the link leads to (its contents, read from the directory of
    the link). *)
Inductive FileType : Type := S_IFDIR | S_IFREG | S_IFLNK (target : Path).

(** What [lstat] reports of an entry.  [st_bytes] is what removing
    the entry (recursively) frees; [st_entries] tells whether a
    directory has entries, which decides whether [rename] may replace
    it. *)
Record Stat : Type := mkStat {
  st_type : FileType;
  st_mode : N;
  st_bytes : N;
  st_entries : bool
}.

(** What is on disk, by path: the entries of the store directory and
    whatever the symbolic links among them lead to.  [None] is
    [ENOENT], the only failure of [lstat] that is modelled. *)
Definition FS := Path -> option Stat.

Module Fs.

Definition S_IWUSR : N := 128.  (* 0200 *)

Definition S_ISDIR (st : Stat) : bool :=
  match st_type st with S_IFDIR => true | _ => false end.

Definition lstat (f : FS) (p : Path) : option Stat := f p.

Definition set (f : FS) (p : Path) (v : option Stat) : FS :=
  fun q => if String.eqb q p then v else f q.

(** Linux follows at most 40 symbolic links in the resolution of a
    path. *)
Definition SYMLOOP_MAX : nat := 40.

(** The entry that [p] leads to when symbolic links are followed, at
    most [n] of them: its path and what [stat] reports of it.  [None]
    when a link dangles ([ENOENT]) or the links are too many
    ([ELOOP]). *)
Fixpoint follow (n : nat) (f : FS) (p : Path) : option (Path * Stat) :=
  match f p with
  | None => None
  | Some st =>
      match st_type st with
      | S_IFLNK target =>
          match n with
          | O => None
          | S n' => follow n' f target
          end
      | _ => Some (p, st)
      end
  end.

(** [chmod(p, mode)].  The call follows symbolic links: the mode is
    set on the entry that [p] leads to.  [None] when the call fails. *)
Definition chmod (f : FS) (p : Path) (mode : N) : option FS :=
  match follow SYMLOOP_MAX f p with
  | None => None
  | Some (q, st) =>
      Some (set f q (Some (mkStat (st_type st) mode (st_bytes st) (st_entries st))))
  end.

(** [rename(src, dst)] after POSIX: an existing [dst] is replaced
    when both are directories and [dst] is empty, or when neither is
    a directory; [None] when the call fails. *)
Definition rename (f : FS) (src dst : Path) : option FS :=
  match f src with
  | None => None
  | Some s =>
      if String.eqb src dst then Some f else
      let moved := set (set f src None) dst (Some s) in
      match f dst with
      | None => Some moved
      | Some d =>
          match S_ISDIR s, S_ISDIR d with
          | true, true => if st_entries d then None else Some moved
          | false, false => Some moved
          | _, _ => None
          end
      end
  end.

(** Modelled from the spec: [deletePathWrapped] of local-store.cc is
    not part of the sources at hand.  "recursively removes p,
    returning bytes freed"; "NotFound during walk or delete (treated
    as success)". *)
Definition deletePathWrapped (f : FS) (p : Path) : FS * N :=
  match f p with
  | None => (f, 0%N)
  | Some st => (set f p None, (st_bytes st mod two64)%N)
  end.

End Fs.

(** ** Options, results and the collector's state *)

Inductive GCAction : Type :=
| gcReturnLive | gcReturnDead | gcDeleteDead | gcDeleteSpecific.

Definition GCAction_eqb (a b : GCAction) : bool :=
  match a, b with
  | gcReturnLive, gcReturnLive | gcReturnDead, gcReturnDead
  | gcDeleteDead, gcDeleteDead | gcDeleteSpecific, gcDeleteSpecific => true
  | _, _ => false
  end.

Record GCOptions : Type := mkOptions {
  action : GCAction;
  ignoreLiveness : bool;
  pathsToDelete : PathSet;
  maxFreed : N
}.

Record GCResults : Type := mkResults {
  paths : PathSet;
  bytesFreed : N
}.

Record GCState : Type := mkState {
  options : GCOptions;
  results : GCResults;
  roots : PathSet;
  tempRoots : PathSet;
  deleted : PathSet;
  live : PathSet;
  busy : PathSet;
  invalidated : PathSet;
  gcKeepOutputs : bool;
  gcKeepDerivations : bool;
  bytesInvalidated : N
}.

Definition set_results (r : GCResults) (s : GCState) : GCState :=
  mkState (options s) r (roots s) (tempRoots s) (deleted s) (live s) (busy s)
          (invalidated s) (gcKeepOutputs s) (gcKeepDerivations s) (bytesInvalidated s).
Definition set_roots (r : PathSet) (s : GCState) : GCState :=
  mkState (options s) (results s) r (tempRoots s) (deleted s) (live s) (busy s)
          (invalidated s) (gcKeepOutputs s) (gcKeepDerivations s) (bytesInvalidated s).
Definition set_tempRoots (r : PathSet) (s : GCState) : GCState :=
  mkState (options s) (results s) (roots s) r (deleted s) (live s) (busy s)
          (invalidated s) (gcKeepOutputs s) (gcKeepDerivations s) (bytesInvalidated s).
Definition set_deleted (d : PathSet) (s : GCState) : GCState :=
  mkState (options s) (results s) (roots s) (tempRoots s) d (live s) (busy s)
          (invalidated s) (gcKeepOutputs s) (gcKeepDerivations s) (bytesInvalidated s).
Definition set_live (l : PathSet) (s : GCState) : GCState :=
  mkState (options s) (results s) (roots s) (tempRoots s) (deleted s) l (busy s)
          (invalidated s) (gcKeepOutputs s) (gcKeepDerivations s) (bytesInvalidated s).
Definition set_invalidated (i : PathSet) (s : GCState) : GCState :=
  mkState (options s) (results s) (roots s) (tempRoots s) (deleted s) (live s) (busy s)
          i (gcKeepOutputs s) (gcKeepDerivations s) (bytesInvalidated s).
Definition set_bytesInvalidated (n : N) (s : GCState) : GCState :=
  mkState (options s) (results s) (roots s) (tempRoots s) (deleted s) (live s) (busy s)
          (invalidated s) (gcKeepOutputs s) (gcKeepDerivations s) n.

(** [results.paths.insert(p)] and [results.bytesFreed += n] *)
Definition results_insert (p : Path) (s : GCState) : GCState :=
  set_results (mkResults (PathSet.insert p (paths (results s)))
                         (bytesFreed (results s))) s.
Definition results_credit (n : N) (s : GCState) : GCState :=
  set_results (mkResults (paths (results s))
                         (add64 (bytesFreed (results s)) n)) s.

(** [GCState state(results)]: the constructor sets [bytesInvalidated]
    to zero and leaves the sets empty; the two policy flags are assigned
    right after it. *)
Definition newGCState (opts : GCOptions) (res : GCResults)
    (keepOutputs keepDerivations : bool) : GCState :=
  mkState opts res [] [] [] [] [] [] keepOutputs keepDerivations 0%N.

Definition shouldDelete (a : GCAction) : bool :=
  GCAction_eqb a gcDeleteDead || GCAction_eqb a gcDeleteSpecific.

(** The part of the process that [tryToDelete] works on: the
    [LocalStore] object with its database and store directory, and the
    [GCState] passed by reference. *)
Record LocalStore : Type := mkStore {
  db : DB;
  fs : FS
}.

Definition St : Type := (LocalStore * GCState)%type.

Definition onState (f : GCState -> GCState) : M St unit :=
  modify (fun s : St => (fst s, f (snd s))).
Definition onDb (f : DB -> DB) : M St unit :=
  modify (fun s : St => (mkStore (f (db (fst s))) (fs (fst s)), snd s)).
Definition onFs (f : FS -> FS) : M St unit :=
  modify (fun s : St => (mkStore (db (fst s)) (f (fs (fst s))), snd s)).

(** ** Settings *)

Module Settings.
Record t : Type := mk {
  nixStore : Path;
  nixStateDir : Path;
  gcKeepOutputs : bool;
  gcKeepDerivations : bool;
  checkRootReachability : bool
}.
End Settings.

(** ** The liveness engine: [LocalStore::tryToDelete] *)

Section LivenessEngine.

Variable settings : Settings.t.

(** [getpid()], as [format] prints it. *)
Variable pid : string.

(** Modelled from the spec: [isStorePath] (behind [assertStorePath])
    and [isDerivation] of store-api.cc are not part of the sources at
    hand; the latter is a "structural predicate on path name". *)
Variable isStorePath : Path -> bool.
Variable isDerivation : Path -> bool.

Definition linksDir : Path := Settings.nixStore settings ++ "/.links".

Definition assertStorePath {S} (p : Path) : M S unit :=
  if isStorePath p then ret tt
  else throw (Error ("path `" ++ p ++ "' is not in the Nix store")).

Definition isActiveTempFile (state : GCState) (path : Path) (suffix : string)
  : bool :=
  hasSuffix path suffix
  && PathSet.mem (stripSuffix path suffix) (tempRoots state).

Definition deleteGarbage (path : Path) : M St unit :=
  modify (fun s : St =>
    let (f, n) := Fs.deletePathWrapped (fs (fst s)) path in
    (mkStore (db (fst s)) f, results_credit n (snd s))).

(** The body of [while (!todo.empty())]: [p] is [*todo.begin()] and
    the tail of the list is [todo] after [todo.erase(p)].  The outer
    recursion counts the members added to [paths]; passing over a
    path that is already a member recurses on the list. *)
Fixpoint expandPaths (n : nat) (d : DB) (state : GCState)
    (ps : PathSet) (todo : PathSet) {struct n} : option (Outcome PathSet) :=
  match n with
  | O => None
  | S n' =>
      (fix next (todo : PathSet) : option (Outcome PathSet) :=
         match todo with
         | [] => Some (Ret ps)
         | p :: todo' =>
             if isStorePath p then
               if PathSet.mem p ps then next todo'
               else
                 let todo1 :=
                   if gcKeepDerivations state && isDerivation p then
                     PathSet.insert_all
                       (filter (Db.isValidPath d) (Db.queryDerivationOutputs d p))
                       todo'
                   else todo' in
                 let todo2 :=
                   if gcKeepOutputs state then
                     PathSet.insert_all (Db.queryValidDerivers d p) todo1
                   else todo1 in
                 expandPaths n' d state (PathSet.insert p ps) todo2
             else
               Some (Throw (Error ("path `" ++ p ++ "' is not in the Nix store")))
         end) todo
  end.

(** Every member added is the candidate or a valid path, so the loop
    adds at most that many members. *)
Definition expandFuel (d : DB) : nat := S (S (List.length (validPaths d))).

(** What the first half of [tryToDelete] leaves: either the early
    [return false] for an active temporary file, or the set [paths]. *)
Inductive Candidates : Type :=
| ActiveTemp
| Members (ps : PathSet).

Definition candidates (path : Path) : M St Candidates :=
  fun s =>
    let d := db (fst s) in
    let state := snd s in
    if Db.isValidPath d path then
      match expandPaths (expandFuel d) d state [] (PathSet.insert path []) with
      | None => None
      | Some (Ret ps) => Some (Ret (Members ps), s)
      | Some (Throw e) => Some (Throw e, s)
      end
    else if isActiveTempFile state path ".lock" then Some (Ret ActiveTemp, s)
    else if isActiveTempFile state path ".chroot" then Some (Ret ActiveTemp, s)
    else Some (Ret (Members (PathSet.insert path [])), s).

Definition anyRoot (state : GCState) (ps : PathSet) : bool :=
  existsb (fun i => PathSet.mem i (roots state)) ps.

(** [foreach (i, paths)]: the referrers of every valid member are
    added to [referrers]. *)
Definition collectReferrers (d : DB) (ps : PathSet) : PathSet :=
  fold_left
    (fun referrers i =>
       if Db.isValidPath d i
       then PathSet.insert_all (Db.queryReferrers d i) referrers
       else referrers)
    ps [].

(** The loop over [referrers]; [false] is the jump to [isLive]. *)
Fixpoint referrersLoop (rec : Path -> M St bool) (ps : PathSet)
    (referrers : list Path) : M St bool :=
  match referrers with
  | [] => ret true
  | i :: rest =>
      if PathSet.mem i ps then referrersLoop rec ps rest
      else
        gone <- rec i ;;
        if gone then referrersLoop rec ps rest else ret false
  end.

Definition invalidatePathChecked (p : Path) : M St unit :=
  fun s =>
    match Db.invalidatePathChecked (db (fst s)) p with
    | Ret d => Some (Ret tt, (mkStore d (fs (fst s)), snd s))
    | Throw e => Some (Throw e, s)
    end.

Definition chmod (p : Path) (mode : N) : M St unit :=
  fun s =>
    match Fs.chmod (fs (fst s)) p mode with
    | Some f => Some (Ret tt, (mkStore (db (fst s)) f, snd s))
    | None => Some (Throw (SysError ("making `" ++ p ++ "' writable")), s)
    end.

Definition rename (src dst : Path) : M St unit :=
  fun s =>
    match Fs.rename (fs (fst s)) src dst with
    | Some f => Some (Ret tt, (mkStore (db (fst s)) f, snd s))
    | None =>
        Some (Throw (SysError ("unable to rename `" ++ src ++ "' to `" ++ dst ++ "'")), s)
    end.

Definition checkLimit : M St unit :=
  fun s =>
    let state := snd s in
    if (maxFreed (options state)
        <? add64 (bytesFreed (results state)) (bytesInvalidated state))%N
    then Some (Throw GCLimitReached, s)
    else Some (Ret tt, s).

(** One iteration of [foreach (i, pathsSorted)]; [st] is the result
    of the [lstat] on the candidate at the head of [tryToDelete]. *)
Definition deleteMember (st : Stat) (i : Path) : M St unit :=
  s <- get ;;
  (if shouldDelete (action (options (snd s))) then
     (if Db.isValidPath (db (fst s)) i then
        if Fs.S_ISDIR st then
          onState (fun state =>
            set_bytesInvalidated
              (add64 (bytesInvalidated state) (Db.narSize (db (fst s)) i)) state) ;;;
          invalidatePathChecked i ;;;
          chmod i (N.lor (st_mode st) Fs.S_IWUSR) ;;;
          let tmp := i ++ "-gc-" ++ pid in
          rename i tmp ;;;
          onState (fun state => set_invalidated (PathSet.insert tmp (invalidated state)) state)
        else
          invalidatePathChecked i ;;;
          deleteGarbage i
      else deleteGarbage i) ;;;
     checkLimit
   else ret tt) ;;;
  onState (fun state =>
    let state1 := set_deleted (PathSet.insert i (deleted state)) state in
    if GCAction_eqb (action (options state)) gcReturnLive then state1
    else results_insert i state1).

(** The code after the label [isLive]. *)
Definition markLive (ps : PathSet) : M St unit :=
  forEach ps (fun i =>
    onState (fun state =>
      let state1 := set_live (PathSet.insert i (live state)) state in
      if GCAction_eqb (action (options state)) gcReturnLive
      then results_insert i state1 else state1)).

Fixpoint tryToDelete (fuel : nat) (path : Path) {struct fuel} : M St bool :=
  match fuel with
  | O => diverge
  | S fuel' =>
      if String.eqb path linksDir then ret true else
      s <- get ;;
      match Fs.lstat (fs (fst s)) path with
      | None => ret true
      | Some st =>
          if PathSet.mem path (deleted (snd s)) then ret true else
          if PathSet.mem path (live (snd s)) then ret false else
          c <- candidates path ;;
          match c with
          | ActiveTemp => ret false
          | Members ps =>
              if anyRoot (snd s) ps then markLive ps ;;; ret false
              else
                gone <- referrersLoop (tryToDelete fuel') ps
                          (collectReferrers (db (fst s)) ps) ;;
                if gone then
                  d <- gets (fun s : St => db (fst s)) ;;
                  forEach (Db.topoSortPaths d ps) (deleteMember st) ;;;
                  ret true
                else markLive ps ;;; ret false
          end
      end
  end.

End LivenessEngine.

(** ** The file system outside the store: roots and symlinks *)

(** The ways in which [lstat] fails on a path, other than with
    [ENOENT] or [ENOTDIR]. *)
Inductive Errno : Type := EACCES | ELOOP | ENAMETOOLONG | EIO.

(** What [lstat] finds at a path: a directory, a symbolic link, another
    file or, with [OError], the failure of the call. *)
Inductive ONode : Type :=
| ODir
| OLink (target : Path)
| OFile
| OError (errno : Errno).

(** [None]: there is no such entry ([ENOENT], and [ENOTDIR], which the
    code at hand treats alike). *)
Definition OuterFS := Path -> option ONode.

(** [std::map<Path, Path>], ordered by its keys. *)
Definition Roots := list (Path * Path).

Module Outer.

Definition set (o : OuterFS) (p : Path) (v : option ONode) : OuterFS :=
  fun q => if String.eqb q p then v else o q.

(** Modelled after its use: [pathExists] of util.cc is not part of the
    sources at hand.  [lstat] decides; a failure other than "no such
    entry" is a [SysError], of which [inl] gives the [errno]. *)
Definition pathExists (o : OuterFS) (p : Path) : Errno + bool :=
  match o p with
  | None => inr false
  | Some (OError e) => inl e
  | Some _ => inr true
  end.

Definition isLink (o : OuterFS) (p : Path) : bool :=
  match o p with Some (OLink _) => true | _ => false end.

Definition readLink (o : OuterFS) (p : Path) : Path :=
  match o p with Some (OLink t) => t | _ => EmptyString end.

Definition unlink (o : OuterFS) (p : Path) : OuterFS := set o p None.

(** [symlink(target, link)]; [None] when [link] exists already. *)
Definition symlink (o : OuterFS) (target link : Path) : option OuterFS :=
  match o link with
  | Some _ => None
  | None => Some (set o link (Some (OLink target)))
  end.

(** [rename(src, dst)] of a symlink over whatever is not a directory;
    [None] when the call fails, as it does where [dst] cannot be
    reached either. *)
Definition rename (o : OuterFS) (src dst : Path) : option OuterFS :=
  match o src, o dst with
  | None, _ => None
  | Some _, Some ODir => None
  | Some _, Some (OError _) => None
  | Some n, _ => Some (set (set o src None) dst (Some n))
  end.

(** [roots[path] = storePath] *)
Fixpoint assign (k v : Path) (m : Roots) : Roots :=
  match m with
  | [] => [(k, v)]
  | (k', v') :: t =>
      match String.compare k k' with
      | Lt => (k, v) :: m
      | Eq => (k, v) :: t
      | Gt => (k', v') :: assign k v t
      end
  end.

Definition find (k : Path) (m : Roots) : option Path :=
  match List.find (fun e => String.eqb (fst e) k) m with
  | Some e => Some (snd e)
  | None => None
  end.

End Outer.

Section RootScanner.

Variable settings : Settings.t.
Variable pid : string.

(** Modelled from the spec: the helpers of util.cc and store-api.cc
    used here are not part of the sources at hand and are taken as
    they are: path arithmetic ([canonPath], [absPath], [dirOf]), the
    store predicates ([isInStore], [isStorePath], [toStorePath]),
    [readDirectory], [createDirs], the value of [rand()] and the
    digest [printHash32(hashString(htSHA1, path))]. *)
Variable canonPath : Path -> Path.
Variable absPath : Path -> Path -> Path.
Variable dirOf : Path -> Path.
Variable isInStore : Path -> bool.
Variable isStorePath : Path -> bool.
Variable toStorePath : Path -> Path.
Variable readDirectory : OuterFS -> Path -> list string.
Variable createDirs : OuterFS -> Path -> OuterFS.
Variable rand : string.
Variable hashPath : Path -> string.

Definition gcRootsDir : string := "gcroots".
Definition tempRootsDir : string := "temproots".

Definition rootsDirPath : Path :=
  canonPath (Settings.nixStateDir settings ++ "/" ++ gcRootsDir).

Definition createSymlink (link target : Path) : M OuterFS unit :=
  fun o =>
    let o1 := createDirs o (dirOf link) in
    let tempLink := link ++ ".tmp-" ++ pid ++ "-" ++ rand in
    match Outer.symlink o1 target tempLink with
    | None =>
        Some (Throw (SysError ("symlinking `" ++ tempLink ++ "' to `" ++ target ++ "'")), o1)
    | Some o2 =>
        match Outer.rename o2 tempLink link with
        | None =>
            Some (Throw (SysError ("cannot rename `" ++ tempLink ++ "' to `" ++ link ++ "'")), o2)
        | Some o3 => Some (Ret tt, o3)
        end
    end.

Definition addIndirectRoot (path : Path) : M OuterFS unit :=
  let hash := hashPath path in
  let realRoot :=
    canonPath (Settings.nixStateDir settings ++ "/" ++ gcRootsDir ++ "/auto/" ++ hash) in
  createSymlink realRoot path.

(** The handler at the end of the recursive [findRoots], on a
    [SysError] with the given [errno]: "we only ignore permanent
    failures", which are [EACCES], [ENOENT] and [ENOTDIR]; any other
    error is thrown again. *)
Definition permanentFailure (e : Errno) : bool :=
  match e with
  | EACCES => true
  | _ => false
  end.

Definition handleSysError {S} (e : Errno) (msg : string) : M S unit :=
  if permanentFailure e then ret tt else throw (SysError msg).

(** The recursive [findRoots]; the state is the file system and the
    reference parameter [roots].  The body of the [try] block throws
    where [lstat] or [pathExists] fails; [readDirectory] and
    [readLink] are taken to succeed on what [lstat] has found to be a
    directory or a link.  An exception that leaves a nested call
    carries an [errno] that the handler does not ignore, so it passes
    the handlers of the callers as well.  [diverge]: the walk exceeds
    its depth budget. *)
Fixpoint findRootsAt (fuel : nat) (d : DB) (path : Path)
    (recurseSymlinks deleteStale : bool) {struct fuel}
  : M (OuterFS * Roots) unit :=
  match fuel with
  | O => diverge
  | S fuel' =>
      fun s =>
        match fst s path with
        | None => Some (Ret tt, s)      (* ENOENT, ENOTDIR: ignored *)
        | Some (OError e) => handleSysError e ("statting `" ++ path ++ "'") s
        | Some ODir =>
            forEach (readDirectory (fst s) path)
              (fun name =>
                 findRootsAt fuel' d (path ++ "/" ++ name)
                             recurseSymlinks deleteStale)
              s
        | Some (OLink t) =>
            let target := absPath t (dirOf path) in
            if isInStore target then
              let storePath := toStorePath target in
              if Db.isValidPath d storePath
              then Some (Ret tt, (fst s, Outer.assign path storePath (snd s)))
              else Some (Ret tt, s)
            else if recurseSymlinks then
              match Outer.pathExists (fst s) target with
              | inl e => handleSysError e ("getting status of " ++ target) s
              | inr true => findRootsAt fuel' d target false deleteStale s
              | inr false =>
                  if deleteStale
                  then Some (Ret tt, (Outer.unlink (fst s) path, snd s))
                  else Some (Ret tt, s)
              end
            else Some (Ret tt, s)
        | Some OFile => Some (Ret tt, s)
        end
  end.

(** [static Roots findRoots(StoreAPI & store, bool deleteStale)]: the
    state is the file system, the local [roots] is returned. *)
Definition findRoots (fuel : nat) (d : DB) (deleteStale : bool)
  : M OuterFS Roots :=
  fun o =>
    match findRootsAt fuel d rootsDirPath true deleteStale (o, []) with
    | None => None
    | Some (Ret _, s) => Some (Ret (snd s), fst s)
    | Some (Throw e, s) => Some (Throw e, fst s)
    end.

(** [addAdditionalRoots]: [lines] is the tokenised output of the
    root finder program. *)
Definition addAdditionalRoots (d : DB) (lines : list string) (rs : PathSet)
  : PathSet :=
  fold_left
    (fun rs i =>
       if isInStore i then
         let path := toStorePath i in
         if negb (PathSet.mem path rs) && Db.isValidPath d path
         then PathSet.insert path rs else rs
       else rs)
    lines rs.

(** [addPermRoot].  The state is the outer file system; the database
    is only read by the reachability check, whose one effect is a
    warning.  [syncWithGC] takes and drops the global lock. *)
Definition addPermRoot (fuel : nat) (d : DB) (_storePath _gcRoot : Path)
    (indirect allowOutsideRootsDir : bool) : M OuterFS Path :=
  let storePath := canonPath _storePath in
  let gcRoot := canonPath _gcRoot in
  if negb (isStorePath storePath) then
    throw (Error ("path `" ++ storePath ++ "' is not in the Nix store"))
  else if isInStore gcRoot then
    throw (Error ("creating a garbage collector root (" ++ gcRoot
                  ++ ") in the Nix store is forbidden "
                  ++ "(are you running nix-build inside the store?)"))
  else
    (if indirect then
       o <- get ;;
       match Outer.pathExists o gcRoot with
       | inl _ => throw (SysError ("getting status of " ++ gcRoot))
       | inr exists_ =>
           if exists_
              && (negb (Outer.isLink o gcRoot)
                  || negb (isInStore (Outer.readLink o gcRoot)))
           then throw (Error ("cannot create symlink `" ++ gcRoot ++ "'; already exists"))
           else createSymlink gcRoot storePath ;;; addIndirectRoot gcRoot
       end
     else
       (if negb allowOutsideRootsDir then
          let rootsDir := rootsDirPath in
          if negb (String.eqb (substring 0 (String.length rootsDir + 1) gcRoot)
                              (rootsDir ++ "/"))
          then throw (Error ("path `" ++ gcRoot
                             ++ "' is not a valid garbage collector root; "
                             ++ "it's not in the directory `" ++ rootsDir ++ "'"))
          else ret tt
        else ret tt) ;;;
       createSymlink gcRoot storePath) ;;;
    (if Settings.checkRootReachability settings then
       findRoots fuel d false ;;; ret tt
     else ret tt) ;;;
    ret gcRoot.

End RootScanner.

(** ** Temporary roots *)

(** The lock the owning process holds on its temporary-roots file. *)
Inductive OwnerLock : Type := Unlocked | OwnerRead | OwnerWrite.

(** A file of the directory: its bytes, the owner's lock, whether the
    collector holds a read lock on it, and whether the collector is
    denied to open it ([open] fails with an [errno] other than
    [ENOENT], as it does with [EACCES] on the file that another user
    has created with mode 0600). *)
Record Inode : Type := mkInode {
  content : string;
  owner : OwnerLock;
  collector : bool;
  denied : bool
}.

(** The directory [<stateDir>/temproots]: names bound to inodes, and
    the inodes, which outlive their names while a descriptor is open.
    A file descriptor is the number of its inode. *)
Record TempDir : Type := mkTempDir {
  inodes : list Inode;
  entries : list (string * nat)
}.

Definition FDs := list nat.

Module Temp.

Definition NUL : ascii := Ascii.zero.

Definition lookup (t : TempDir) (name : string) : option nat :=
  match List.find (fun e => String.eqb (fst e) name) (entries t) with
  | Some e => Some (snd e)
  | None => None
  end.

Definition inode (t : TempDir) (fd : nat) : option Inode := nth_error (inodes t) fd.

Fixpoint update {A} (l : list A) (n : nat) (f : A -> A) : list A :=
  match l, n with
  | [], _ => []
  | x :: r, O => f x :: r
  | x :: r, S n' => x :: update r n' f
  end.

Definition onInode (fd : nat) (f : Inode -> Inode) (t : TempDir) : TempDir :=
  mkTempDir (update (inodes t) fd f) (entries t).

Definition unlink (name : string) (t : TempDir) : TempDir :=
  mkTempDir (inodes t)
            (filter (fun e => negb (String.eqb (fst e) name)) (entries t)).

(** [writeFull(fd, data)] on a descriptor whose offset is zero. *)
Definition overwrite (data : string) (i : Inode) : Inode :=
  mkInode (data ++ substring (String.length data)
                             (String.length (content i) - String.length data)
                             (content i))
          (owner i) (collector i) (denied i).

(** [writeFull(fd, data)] on the owner's descriptor, whose offset is
    the end of the file. *)
Definition append (data : string) (i : Inode) : Inode :=
  mkInode (content i ++ data) (owner i) (collector i) (denied i).

Definition setOwner (l : OwnerLock) (i : Inode) : Inode :=
  mkInode (content i) l (collector i) (denied i).

(** The collector's blocking [lockFile(fd, ltRead, true)]: it returns
    once the owner no longer holds a write lock. *)
Definition collectorRead (i : Inode) : Inode :=
  mkInode (content i)
          (match owner i with OwnerWrite => OwnerRead | l => l end)
          true (denied i).

(** [open(path, O_RDWR | O_CREAT, 0600)] *)
Definition openCreate (name : string) (t : TempDir) : nat * TempDir :=
  match lookup t name with
  | Some fd => (fd, t)
  | None =>
      let fd := List.length (inodes t) in
      (fd, mkTempDir (inodes t ++ [mkInode EmptyString Unlocked false false])%list
                     (entries t ++ [(name, fd)])%list)
  end.

(** The roots in [contents]: every piece that ends in a NUL byte, in
    order; [cur] is the piece read so far.  What follows the last NUL
    byte is not a root. *)
Fixpoint parseRoots (contents : string) (cur : string) : list Path :=
  match contents with
  | EmptyString => []
  | String c rest =>
      if Ascii.eqb c NUL then cur :: parseRoots rest EmptyString
      else parseRoots rest (cur ++ String c EmptyString)
  end.

(** A path without a NUL byte. *)
Fixpoint noNul (s : string) : bool :=
  match s with
  | EmptyString => true
  | String c rest => negb (Ascii.eqb c NUL) && noNul rest
  end.

End Temp.

Section TempRoots.

Variable isStorePath : Path -> bool.

(** The state of [readTempRoots]: the directory and the two reference
    parameters [tempRoots] and [fds]. *)
Definition TR : Type := (TempDir * (PathSet * FDs))%type.

(** The body of [foreach (i, tempRootFiles)] in [readTempRoots].  A
    file is known by its name in the directory, which stands for its
    path [<stateDir>/temproots/<name>] in the message of the error
    too.  [open] fails with [ENOENT] on a name that is gone, which is
    passed over, and with another [errno] on a file that is [denied],
    which is a [SysError]; on an open descriptor the locks and the
    read are taken to succeed. *)
Definition readTempRootsFile (name : string) : M TR unit :=
  fun s =>
    let t := fst s in
    match Temp.lookup t name with
    | None => Some (Ret tt, s)                    (* ENOENT *)
    | Some fd =>
        match Temp.inode t fd with
        | None => Some (Ret tt, s)
        | Some i =>
            if denied i then
              Some (Throw (SysError ("opening temporary roots file `" ++ name ++ "'")), s)
            else
            match owner i with
            | Unlocked =>
                (* the write lock is granted: the file is stale *)
                let t1 := Temp.unlink name t in
                let t2 := Temp.onInode fd (Temp.overwrite "d") t1 in
                Some (Ret tt, (t2, snd s))
            | _ =>
                let t1 := Temp.onInode fd Temp.collectorRead t in
                let contents := content i in
                (forEach (Temp.parseRoots contents EmptyString)
                   (fun root =>
                      assertStorePath isStorePath root ;;;
                      modify (fun s : TR =>
                        (fst s, (PathSet.insert root (fst (snd s)), snd (snd s))))) ;;;
                 modify (fun s : TR =>
                   (fst s, (fst (snd s), (snd (snd s) ++ [fd])%list))))
                  (t1, snd s)
            end
        end
    end.

Definition readTempRootsFrom (tempRootFiles : list string) : M TR unit :=
  forEach tempRootFiles readTempRootsFile.

(** [readDirectory] of the temporary-roots directory. *)
Definition tempRootFiles (t : TempDir) : list string := map fst (entries t).

Definition readTempRoots : M TR unit :=
  fun s => readTempRootsFrom (tempRootFiles (fst s)) s.

(** *** The writer: [addTempRoot] *)

(** The static variable [fdTempRoots] ([None] is -1) next to the
    directory. *)
Definition TP : Type := (TempDir * option nat)%type.

(** What a collector that runs between the writer's
    [fdGCLock.close()] and its [lockFile(fdTempRoots, ltRead, true)]
    does to the file [name]. *)
Definition collectorVisits (name : string) (t : TempDir) : TempDir :=
  match readTempRootsFile name (t, ([], [])) with
  | Some (_, s) => fst s
  | None => t
  end.

Definition fileSize (t : TempDir) (fd : nat) : nat :=
  match Temp.inode t fd with
  | Some i => String.length (content i)
  | None => 0
  end.

(** One pass through the body of [while (1)]: the descriptor, the
    directory after the read lock is held, and [st.st_size]. *)
Definition createTempRootsFile (name : string) (reaped : bool) (t : TempDir)
  : nat * TempDir * nat :=
  let t1 := match Temp.lookup t name with
            | Some _ => Temp.unlink name t
            | None => t
            end in
  let (fd, t2) := Temp.openCreate name t1 in
  let t3 := if reaped then collectorVisits name t2 else t2 in
  let t4 := Temp.onInode fd (Temp.setOwner OwnerRead) t3 in
  (fd, t4, fileSize t4 fd).

(** [if (st.st_size == 0) break;] *)
Definition leavesLoop (st_size : nat) : bool := Nat.eqb st_size 0.

(** The loop [while (1)]; [interference] tells for each pass whether
    a collector ran in the window.  It returns the number of passes
    too. *)
Fixpoint createLoop (name : string) (interference : list bool) (t : TempDir)
  : option (nat * TempDir * nat) :=
  match interference with
  | [] => None
  | reaped :: later =>
      let '(fd, t', st_size) := createTempRootsFile name reaped t in
      if leavesLoop st_size then Some (fd, t', 1)
      else
        match createLoop name later t' with
        | Some (fd', t'', passes) => Some (fd', t'', S passes)
        | None => None
        end
  end.

Definition addTempRoot (name : string) (interference : list bool) (path : Path)
    (s : TP) : option TP :=
  let opened :=
    match snd s with
    | Some fd => Some (fd, fst s)
    | None =>
        match createLoop name interference (fst s) with
        | Some (fd, t, _) => Some (fd, t)
        | None => None
        end
    end in
  match opened with
  | None => None
  | Some (fd, t) =>
      let t1 := Temp.onInode fd (fun i => mkInode (content i) OwnerWrite false (denied i)) t in
      let t2 := Temp.onInode fd (Temp.append (path ++ String Temp.NUL EmptyString)) t1 in
      let t3 := Temp.onInode fd (Temp.setOwner OwnerRead) t2 in
      Some (t3, Some fd)
  end.

End TempRoots.

(** ** The collector: [LocalStore::collectGarbage] *)

(** An entry of [<storeDir>/.links] as [lstat] reports it. *)
Record LinkEntry : Type := mkLink {
  l_name : string;
  l_nlink : N;
  l_blocks : N
}.

(** Everything a collection cycle works on.  [linkPool] is [None] when
    the links directory cannot be opened. *)
Record System : Type := mkSystem {
  store : LocalStore;
  outer : OuterFS;
  temp : TempDir;
  linkPool : option (list LinkEntry)
}.

(** The cycle's local variables next to the system: [state] and [fds]. *)
Record GC : Type := mkGC {
  sys : System;
  state : GCState;
  fds : FDs
}.

(** What the environment supplies during a cycle: the names [readdir]
    yields for the store directory, the lines the root finder program
    prints ([None]: no program is configured) and the permutation
    [random_shuffle] applies. *)
Record Env : Type := mkEnv {
  storeEntries : list string;
  rootFinder : option (list string);
  shuffle : list Path -> list Path
}.

Definition liftSt {A} (m : M St A) : M GC A :=
  fun g =>
    match m (store (sys g), state g) with
    | None => None
    | Some (o, s) =>
        Some (o, mkGC (mkSystem (fst s) (outer (sys g)) (temp (sys g))
                                (linkPool (sys g)))
                      (snd s) (fds g))
    end.

Definition liftTR (m : M TR unit) : M GC unit :=
  fun g =>
    match m (temp (sys g), (tempRoots (state g), fds g)) with
    | None => None
    | Some (o, s) =>
        Some (o, mkGC (mkSystem (store (sys g)) (outer (sys g)) (fst s)
                                (linkPool (sys g)))
                      (set_tempRoots (fst (snd s)) (state g)) (snd (snd s)))
    end.

Definition onGCState (f : GCState -> GCState) : M GC unit :=
  modify (fun g => mkGC (sys g) (f (state g)) (fds g)).

Section Collector.

Variable settings : Settings.t.
Variable pid : string.
Variable canonPath : Path -> Path.
Variable absPath : Path -> Path -> Path.
Variable dirOf : Path -> Path.
Variable isInStore : Path -> bool.
Variable isStorePath : Path -> bool.
Variable toStorePath : Path -> Path.
Variable isDerivation : Path -> bool.
Variable readDirectory : OuterFS -> Path -> list string.

(** [removeUnusedLinks] *)
Definition removeUnusedLinks : M GC unit :=
  fun g =>
    match linkPool (sys g) with
    | None =>
        Some (Throw (SysError ("opening directory `" ++ linksDir settings ++ "'")), g)
    | Some pool =>
        let named := filter (fun e => negb (String.eqb (l_name e) "."
                                          || String.eqb (l_name e) "..")) pool in
        let unused := filter (fun e => N.eqb (l_nlink e) 1) named in
        let kept := filter (fun e => negb (N.eqb (l_nlink e) 1)
                                     || String.eqb (l_name e) "."
                                     || String.eqb (l_name e) "..") pool in
        let st' :=
          fold_left (fun st e => results_credit ((l_blocks e * 512) mod two64)%N st)
                    unused (state g) in
        Some (Ret tt,
              mkGC (mkSystem (store (sys g)) (outer (sys g)) (temp (sys g)) (Some kept))
                   st' (fds g))
    end.

Definition vacuumDB : M GC unit :=
  fun g =>
    Some (Ret tt,
          mkGC (mkSystem (mkStore (Db.vacuumDB (db (store (sys g))))
                                  (fs (store (sys g))))
                         (outer (sys g)) (temp (sys g)) (linkPool (sys g)))
               (state g) (fds g)).

(** Root discovery: the permanent roots, the additional roots and the
    temporary roots, up to [state.roots.insert(state.tempRoots...)]. *)
Definition discoverRoots (fuel : nat) (env : Env) (opts : GCOptions) : M GC unit :=
  (fun g =>
     if ignoreLiveness opts then Some (Ret tt, g)
     else
       match findRoots settings canonPath absPath dirOf isInStore toStorePath
                       readDirectory fuel (db (store (sys g))) true (outer (sys g)) with
       | None => None
       | Some (Ret rootMap, o) =>
           Some (Ret tt,
                 mkGC (mkSystem (store (sys g)) o (temp (sys g)) (linkPool (sys g)))
                      (set_roots (PathSet.insert_all (map snd rootMap) (roots (state g)))
                                 (state g))
                      (fds g))
       | Some (Throw e, o) =>
           Some (Throw e,
                 mkGC (mkSystem (store (sys g)) o (temp (sys g)) (linkPool (sys g)))
                      (state g) (fds g))
       end) ;;;
  (if ignoreLiveness opts then ret tt
   else
     match rootFinder env with
     | None => ret tt
     | Some lines =>
         fun g =>
           onGCState (set_roots (addAdditionalRoots isInStore toStorePath
                                   (db (store (sys g))) lines (roots (state g)))) g
     end) ;;;
  liftTR (readTempRoots isStorePath) ;;;
  onGCState (fun st => set_roots (PathSet.insert_all (tempRoots st) (roots st)) st).

(** The branch for [gcDeleteSpecific]: the body of the loop, and the
    loop over [options.pathsToDelete]. *)
Definition deleteSpecificPath (fuel : nat) (i : Path) : M GC unit :=
  assertStorePath isStorePath i ;;;
  gone <- liftSt (tryToDelete settings pid isStorePath isDerivation fuel i) ;;
  if gone then ret tt
  else throw (Error ("cannot delete path `" ++ i ++ "' since it is still alive")).

Definition deleteSpecific (fuel : nat) (opts : GCOptions) : M GC unit :=
  forEach (pathsToDelete opts) (deleteSpecificPath fuel).

(** The [readdir] loop over the store directory: invalid entries are
    tried at once, valid ones are collected in [entries]. *)
Fixpoint readStore (fuel : nat) (names : list string) (found : Paths)
  : M GC Paths :=
  match names with
  | [] => ret found
  | name :: rest =>
      if String.eqb name "." || String.eqb name ".." then readStore fuel rest found
      else
        let path := Settings.nixStore settings ++ "/" ++ name in
        g <- get ;;
        if Db.isValidPath (db (store (sys g))) path
        then readStore fuel rest (found ++ [path])%list
        else liftSt (tryToDelete settings pid isStorePath isDerivation fuel path) ;;; readStore fuel rest found
  end.

(** The body of the [try] block. *)
Definition sweep (fuel : nat) (env : Env) : M GC unit :=
  found <- readStore fuel (storeEntries env) [] ;;
  forEach (shuffle env found) (fun i => liftSt (tryToDelete settings pid isStorePath isDerivation fuel i) ;;; ret tt).

Definition classify (fuel : nat) (env : Env) (opts : GCOptions) : M GC unit :=
  if GCAction_eqb (action opts) gcDeleteSpecific then deleteSpecific fuel opts
  else if (0 <? maxFreed opts)%N then catchLimit (sweep fuel env)
  else ret tt.

(** What follows [fdGCLock.close()]. *)
Definition cleanup (opts : GCOptions) : M GC unit :=
  (g <- get ;;
   forEach (invalidated (state g))
           (fun i => liftSt (deleteGarbage i))) ;;;
  (if GCAction_eqb (action opts) gcDeleteDead
      || GCAction_eqb (action opts) gcDeleteSpecific
   then removeUnusedLinks else ret tt) ;;;
  (if GCAction_eqb (action opts) gcDeleteDead then vacuumDB else ret tt).

(** The state the cycle starts with. *)
Definition initialState (opts : GCOptions) (res : GCResults) : GCState :=
  let st := newGCState opts res (Settings.gcKeepOutputs settings)
                       (Settings.gcKeepDerivations settings) in
  if GCAction_eqb (action opts) gcDeleteSpecific && ignoreLiveness opts
  then mkState (options st) (results st) (roots st) (tempRoots st) (deleted st)
               (live st) (busy st) (invalidated st) false false (bytesInvalidated st)
  else st.

Definition collectGarbage (fuel : nat) (env : Env) (opts : GCOptions)
    (res : GCResults) (w : System) : option (Outcome unit * GC) :=
  (discoverRoots fuel env opts ;;;
   classify fuel env opts ;;;
   cleanup opts)
    (mkGC w (initialState opts res) []).

End Collector.


(** * Concrete stores

    Small stores on which the definitions above are evaluated. *)

Module Example.

Definition settings : Settings.t :=
  Settings.mk "/nix/store" "/nix/var/nix" true true false.

Definition pid : string := "4242".

Definition isInStore (p : Path) : bool := prefix "/nix/store/" p.
Definition isStorePath (p : Path) : bool := prefix "/nix/store/" p.
Definition isDerivation (p : Path) : bool := hasSuffix p ".drv".

Definition dirStat (bytes : N) : Stat := mkStat S_IFDIR 365 bytes true.
Definition regStat (bytes : N) : Stat := mkStat S_IFREG 292 bytes false.

(** A store directory with the given entries. *)
Fixpoint storeDir (entries : list (Path * Stat)) : FS :=
  match entries with
  | [] => fun _ => None
  | (p, st) :: rest => fun q => if String.eqb q p then Some st else storeDir rest q
  end.

Definition emptyDB : DB := mkDB [] [] [] (fun _ => 0%N) 0.

(** A build of [/nix/store/a] is running: its lock file is a store
    entry, the path itself is a temporary root. *)
Definition buildingState (opts : GCOptions) : GCState :=
  set_roots ["/nix/store/a"]
    (set_tempRoots ["/nix/store/a"] (newGCState opts (mkResults [] 0) true true)).

Definition deleteDead (limit : N) : GCOptions := mkOptions gcDeleteDead false [] limit.

Definition lockOnDisk : LocalStore :=
  mkStore emptyDB (storeDir [("/nix/store/a.lock", regStat 1)]).

Definition lockAbsent : LocalStore := mkStore emptyDB (storeDir []).

End Example.

Module ExampleRoots.

Definition canonPath (p : Path) : Path := p.
Definition absPath (p dir : Path) : Path := p.
Definition dirOf (p : Path) : Path := "/".
Definition toStorePath (p : Path) : Path := p.
Definition readDirectory (o : OuterFS) (p : Path) : list string := [].
Definition createDirs (o : OuterFS) (p : Path) : OuterFS := o.
Definition rand : string := "17".
Definition hashPath (p : Path) : string := "0hash".

(** Nothing but the roots directory. *)
Definition emptyOuter : OuterFS :=
  fun q => if String.eqb q "/nix/var/nix/gcroots" then Some ODir else None.

Definition addPermRoot :=
  addPermRoot Example.settings Example.pid canonPath absPath dirOf
    Example.isInStore Example.isStorePath toStorePath readDirectory createDirs
    rand hashPath.

End ExampleRoots.

Module ExampleTemp.

Definition nul : string := String Temp.NUL EmptyString.

(** The temporary-roots directory before the process [4242] has added
    a root. *)
Definition emptyTemp : TempDir := mkTempDir [] [].

(** Two files: that of the live process [77], which holds its read
    lock and has registered two roots, and that of the dead process
    [13]. *)
Definition twoFiles : TempDir :=
  mkTempDir
    [ mkInode ("/nix/store/b" ++ nul ++ "/nix/store/c" ++ nul) OwnerRead false false;
      mkInode ("/nix/store/a" ++ nul) Unlocked false false ]
    [ ("77", 0); ("13", 1) ].

End ExampleTemp.

Module ExampleGC.

Definition collectGarbage :=
  collectGarbage Example.settings Example.pid ExampleRoots.canonPath
    ExampleRoots.absPath ExampleRoots.dirOf Example.isInStore Example.isStorePath
    ExampleRoots.toStorePath Example.isDerivation ExampleRoots.readDirectory.

Definition discoverRoots :=
  discoverRoots Example.settings ExampleRoots.canonPath ExampleRoots.absPath
    ExampleRoots.dirOf Example.isInStore Example.isStorePath
    ExampleRoots.toStorePath ExampleRoots.readDirectory.

Definition classify :=
  classify Example.settings Example.pid Example.isStorePath Example.isDerivation.

(** Three valid directories of six bytes each, without references. *)
Definition threeDirs : LocalStore :=
  mkStore
    (mkDB ["/nix/store/a"; "/nix/store/b"; "/nix/store/c"] [] [] (fun _ => 6%N) 0)
    (Example.storeDir [ ("/nix/store/a", Example.dirStat 6);
                        ("/nix/store/b", Example.dirStat 6);
                        ("/nix/store/c", Example.dirStat 6) ]).

(** No roots at all. *)
Definition unrooted : System :=
  mkSystem threeDirs ExampleRoots.emptyOuter ExampleTemp.emptyTemp (Some []).

(** The live process [77] holds [/nix/store/b] and [/nix/store/c] as
    temporary roots; the file of the dead process [13] is stale. *)
Definition rooted : System :=
  mkSystem threeDirs ExampleRoots.emptyOuter ExampleTemp.twoFiles
           (Some [mkLink "0abc" 1 2; mkLink "0def" 3 2]).

Definition env : Env := mkEnv ["."; ".."; "a"; "b"; "c"] None (fun l => l).

Definition noResults : GCResults := mkResults [] 0.

Definition deleteSpecific (ps : PathSet) : GCOptions :=
  mkOptions gcDeleteSpecific false ps 1000.

End ExampleGC.

Module ExampleSpecific.

(** [nix-store --delete /nix/store/a /nix/store/b] while [/nix/store/b]
    is a temporary root. *)
Definition opts : GCOptions := ExampleGC.deleteSpecific ["/nix/store/a"; "/nix/store/b"].

Definition start : GC :=
  mkGC ExampleGC.rooted
       (initialState Example.settings opts ExampleGC.noResults) [].

Definition stateOf (r : option (Outcome unit * GC)) (otherwise : GC) : GC :=
  match r with
  | Some (_, g) => g
  | None => otherwise
  end.

(** The cycle after root discovery, after [/nix/store/a] has been
    deleted, and after [/nix/store/b] has been found alive. *)
Definition afterRoots : GC :=
  stateOf (ExampleGC.discoverRoots 5 ExampleGC.env opts start) start.

Definition afterA : GC :=
  stateOf (deleteSpecificPath Example.settings Example.pid Example.isStorePath
             Example.isDerivation 5 "/nix/store/a" afterRoots) start.

Definition afterB : GC :=
  match liftSt (tryToDelete Example.settings Example.pid Example.isStorePath
                  Example.isDerivation 5 "/nix/store/b") afterA with
  | Some (_, g) => g
  | None => start
  end.

End ExampleSpecific.

(** * Vocabulary of the properties *)

(** [m], started where [P] holds, returns [a] where [Q a] holds and
    throws where [E] holds. *)
Definition triple {S A} (P : S -> Prop) (m : M S A) (Q : A -> S -> Prop)
    (E : S -> Prop) : Prop :=
  forall s o s', P s -> m s = Some (o, s') ->
    match o with Ret a => Q a s' | Throw _ => E s' end.

(** What the budget test compares with [maxFreed]. *)
Definition spent (st : GCState) : N :=
  add64 (bytesFreed (results st)) (bytesInvalidated st).

(** No path accounts for more than [B] bytes, neither by its [narSize]
    nor by what its removal frees. *)
Definition sizesWithin (B : N) (ls : LocalStore) : Prop :=
  (forall p, (Db.narSize (db ls) p <= B)%N)
  /\ (forall p st, fs ls p = Some st -> (st_bytes st mod two64 <= B)%N).

Definition budget (limit B bound : N) (s : St) : Prop :=
  sizesWithin B (fst s)
  /\ maxFreed (options (snd s)) = limit
  /\ (spent (snd s) <= bound)%N.

(** A property of the store and the collector's state, read in a cycle. *)
Definition atStore (P : St -> Prop) (g : GC) : Prop := P (store (sys g), state g).

(** What root discovery leaves as it is: the store, and the state
    apart from [roots] and [tempRoots]. *)
Definition core (g : GC) : St :=
  (store (sys g), set_roots [] (set_tempRoots [] (state g))).

(** [m] throws nothing but exceptions in [P]. *)
Definition throwsOnly {S A} (P : Exn -> Prop) (m : M S A) : Prop :=
  forall s e s', m s = Some (Throw e, s') -> P e.

(** The exceptions of root discovery: the [Error] of a temporary root
    that is not a store path, and the [SysError] of a system call that
    fails. *)
Definition isFailure (e : Exn) : Prop :=
  (exists msg, e = Error msg) \/ (exists msg, e = SysError msg).

Module ExampleBudget.

(** [nix-collect-garbage --max-freed 10] on three dead directories of
    six bytes each. *)
Definition opts : GCOptions := Example.deleteDead 10.

Definition start : GC :=
  mkGC ExampleGC.unrooted
       (initialState Example.settings opts ExampleGC.noResults) [].

(** The cycle when the lock is released. *)
Definition afterSweep : GC :=
  ExampleSpecific.stateOf
    ((ExampleGC.discoverRoots 5 ExampleGC.env opts ;;;
      ExampleGC.classify 5 ExampleGC.env opts) start)
    start.

End ExampleBudget.

(** The paths whose liveness keeps [q] alive by policy, as the loop of
    [tryToDelete] adds them to [todo]: the valid outputs of a
    derivation [q] under [gc-keep-derivations], the valid derivers of
    [q] under [gc-keep-outputs]. *)
Definition keepers (isDerivation : Path -> bool) (d : DB) (st : GCState) (q : Path)
  : list Path :=
  ((if gcKeepDerivations st && isDerivation q
    then filter (Db.isValidPath d) (Db.queryDerivationOutputs d q) else [])
   ++ (if gcKeepOutputs st then Db.queryValidDerivers d q else []))%list.

(** [ps] holds the keepers of its members, up to those still in [todo]. *)
Definition closedUpTo (isDerivation : Path -> bool) (d : DB) (st : GCState)
    (ps todo : PathSet) : Prop :=
  forall q x, In q ps -> In x (keepers isDerivation d st q) -> In x ps \/ In x todo.


(** Two results of [lstat] that differ in the permission bits at
    most. *)
Definition sameButMode (a b : option Stat) : Prop :=
  match a, b with
  | None, None => True
  | Some x, Some y =>
      st_type x = st_type y /\ st_bytes x = st_bytes y
      /\ st_entries x = st_entries y
  | _, _ => False
  end.

(** What one iteration of the deletion loop on the member [i] can have
    done between [s] and [s']: at most [i] is invalidated; on disk
    only [i] and its new name [tmp] change, apart from the permission
    bits of an entry that [chmod] has reached through a symbolic link;
    [i] is the only path that may be recorded as deleted and [tmp] the
    only one as invalidated.  A normal return records [i] as deleted
    and, for a deleting action, leaves it invalid. *)
Definition footprint (i tmp : Path) (s : St) (o : Outcome unit) (s' : St) : Prop :=
  (refs (db (fst s')) = refs (db (fst s))
   /\ derivationOutputs (db (fst s')) = derivationOutputs (db (fst s)))
  /\ (validPaths (db (fst s')) = validPaths (db (fst s))
      \/ validPaths (db (fst s')) = PathSet.erase i (validPaths (db (fst s))))
  /\ (forall p, p <> i -> p <> tmp -> sameButMode (fs (fst s') p) (fs (fst s) p))
  /\ (sameButMode (fs (fst s') tmp) (fs (fst s) tmp)
      \/ (In tmp (invalidated (snd s')) /\ fs (fst s') tmp <> None))
  /\ (Db.isValidPath (db (fst s')) i = true -> fs (fst s') = fs (fst s))
  /\ (forall p, In p (deleted (snd s')) <-> (p = i /\ o = Ret tt) \/ In p (deleted (snd s)))
  /\ (forall p, In p (invalidated (snd s)) -> In p (invalidated (snd s')))
  /\ (roots (snd s') = roots (snd s)
      /\ gcKeepOutputs (snd s') = gcKeepOutputs (snd s)
      /\ gcKeepDerivations (snd s') = gcKeepDerivations (snd s)
      /\ options (snd s') = options (snd s)
      /\ live (snd s') = live (snd s))
  /\ (o = Ret tt -> shouldDelete (action (options (snd s))) = true ->
      Db.isValidPath (db (fst s')) i = false).

Module ExampleDrv.

(** The derivation [/nix/store/d.drv], a regular file of three bytes,
    and its output [/nix/store/a], a directory of ten bytes; both are
    valid, each has a [narSize] of seven, nothing refers to them. *)
Definition store : LocalStore :=
  mkStore
    (mkDB ["/nix/store/a"; "/nix/store/d.drv"] []
          [("/nix/store/d.drv", "/nix/store/a")] (fun _ => 7%N) 0)
    (Example.storeDir [ ("/nix/store/a", Example.dirStat 10);
                        ("/nix/store/d.drv", Example.regStat 3) ]).

(** [gc-keep-outputs] and [gc-keep-derivations] are both set. *)
Definition state (limit : N) (rs : PathSet) : GCState :=
  set_roots rs (newGCState (Example.deleteDead limit) (mkResults [] 0) true true).

Definition tryToDelete :=
  tryToDelete Example.settings Example.pid Example.isStorePath Example.isDerivation.

End ExampleDrv.

Module ExampleLink.

(** The derivation [/nix/store/d.drv] has two outputs: the directory
    [/nix/store/a] and [/nix/store/l], a symbolic link to the
    directory [/nix/store/tool].  All four are valid; only the tool
    is a root. *)
Definition database : DB :=
  mkDB ["/nix/store/a"; "/nix/store/d.drv"; "/nix/store/l"; "/nix/store/tool"] []
       [("/nix/store/d.drv", "/nix/store/a"); ("/nix/store/d.drv", "/nix/store/l")]
       (fun _ => 1%N) 0.

Definition linkTo (target : Path) : Stat := mkStat (S_IFLNK target) 511 1 false.

Definition store : LocalStore :=
  mkStore database
    (Example.storeDir [ ("/nix/store/a", Example.dirStat 6);
                        ("/nix/store/d.drv", Example.regStat 1);
                        ("/nix/store/l", linkTo "/nix/store/tool");
                        ("/nix/store/tool", Example.dirStat 6) ]).

(** The same with a link that dangles. *)
Definition dangling : LocalStore :=
  mkStore database
    (Example.storeDir [ ("/nix/store/a", Example.dirStat 6);
                        ("/nix/store/d.drv", Example.regStat 1);
                        ("/nix/store/l", linkTo "/nix/store/gone");
                        ("/nix/store/tool", Example.dirStat 6) ]).

Definition state : GCState := ExampleDrv.state 1000 ["/nix/store/tool"].

End ExampleLink.

(** Liveness: what is reachable from the roots [rs] in the database
    [d], along references and along the edges of the two policies,
    between valid paths.  Under [gc-keep-outputs] a live derivation
    keeps its outputs; under [gc-keep-derivations] a live output keeps
    its derivers. *)
Inductive reach (isDerivation : Path -> bool) (d : DB)
    (keepOutputs keepDerivations : bool) (rs : PathSet) : Path -> Prop :=
| reach_root (p : Path) :
    In p rs -> reach isDerivation d keepOutputs keepDerivations rs p
| reach_reference (r p : Path) :
    reach isDerivation d keepOutputs keepDerivations rs r ->
    Db.isValidPath d r = true -> Db.isValidPath d p = true ->
    In (r, p) (refs d) ->
    reach isDerivation d keepOutputs keepDerivations rs p
| reach_output (drv out : Path) :
    keepOutputs = true ->
    reach isDerivation d keepOutputs keepDerivations rs drv ->
    Db.isValidPath d drv = true -> Db.isValidPath d out = true ->
    In (drv, out) (derivationOutputs d) ->
    reach isDerivation d keepOutputs keepDerivations rs out
| reach_deriver (out drv : Path) :
    keepDerivations = true ->
    reach isDerivation d keepOutputs keepDerivations rs out ->
    isDerivation drv = true ->
    Db.isValidPath d drv = true -> Db.isValidPath d out = true ->
    In (drv, out) (derivationOutputs d) ->
    reach isDerivation d keepOutputs keepDerivations rs drv.

(** The invariant of a sweep, relative to the database [d0] and the
    store directory [f0] it started with and to a set [alive] of
    paths: valid paths are on disk and are not the links directory;
    no path of [alive] is recorded as deleted, has lost its validity
    or, unless its name was taken for a renamed directory, has changed
    on disk in more than its permission bits; the tables of the
    database and the roots and policy flags of the state are
    constant. *)
Definition safe (links : Path) (alive : Path -> Prop) (d0 : DB) (f0 : FS)
    (rs : PathSet) (ko kd : bool) (s : St) : Prop :=
  (forall p, Db.isValidPath (db (fst s)) p = true ->
             fs (fst s) p <> None /\ p <> links)
  /\ (forall p, In p (deleted (snd s)) -> ~ alive p)
  /\ (forall p, alive p -> Db.isValidPath d0 p = true ->
                Db.isValidPath (db (fst s)) p = true)
  /\ (refs (db (fst s)) = refs d0
      /\ derivationOutputs (db (fst s)) = derivationOutputs d0)
  /\ (forall p, alive p -> ~ In p (invalidated (snd s)) ->
                sameButMode (fs (fst s) p) (f0 p))
  /\ (roots (snd s) = rs /\ gcKeepOutputs (snd s) = ko /\ gcKeepDerivations (snd s) = kd).

(** What a cycle owes to the paths of [alive]: they keep their
    validity, are not recorded as deleted and, unless their name was
    taken for a renamed directory, are on disk as before; only the
    permission bits may differ, which [chmod] sets on the entry that a
    symbolic link among the deleted members leads to. *)
Definition kept (alive : Path -> Prop) (d0 : DB) (f0 : FS) (g : GC) : Prop :=
  forall p, alive p ->
    (Db.isValidPath d0 p = true -> Db.isValidPath (db (store (sys g))) p = true)
    /\ ~ In p (deleted (state g))
    /\ (~ In p (invalidated (state g)) ->
        sameButMode (fs (store (sys g)) p) (f0 p)).

(** [kept], with the roots and policy flags of the state as they were
    when the sweep began. *)
Definition final (alive : Path -> Prop) (d0 : DB) (f0 : FS) (rs : PathSet)
    (ko kd : bool) (g : GC) : Prop :=
  kept alive d0 f0 g
  /\ roots (state g) = rs
  /\ gcKeepOutputs (state g) = ko
  /\ gcKeepDerivations (state g) = kd.

Module ExampleLive.

(** [/nix/store/tool] is held as a temporary root by the live process
    [77] and refers to the derivation [/nix/store/lib.drv], whose
    output [/nix/store/lib] refers to it too; [/nix/store/old] is
    garbage. *)
Definition database : DB :=
  mkDB ["/nix/store/lib"; "/nix/store/lib.drv"; "/nix/store/old"; "/nix/store/tool"]
       [("/nix/store/tool", "/nix/store/lib.drv");
        ("/nix/store/lib", "/nix/store/lib.drv")]
       [("/nix/store/lib.drv", "/nix/store/lib")]
       (fun _ => 6%N) 0.

Definition heldByTool : TempDir :=
  mkTempDir [mkInode ("/nix/store/tool" ++ ExampleTemp.nul) OwnerRead false false]
            [("77", 0)].

(** Every valid path is on disk. *)
Definition consistent : System :=
  mkSystem
    (mkStore database
       (Example.storeDir [ ("/nix/store/lib", Example.dirStat 6);
                           ("/nix/store/lib.drv", Example.regStat 1);
                           ("/nix/store/old", Example.dirStat 6);
                           ("/nix/store/tool", Example.dirStat 6) ]))
    ExampleRoots.emptyOuter heldByTool (Some []).

(** The valid path [/nix/store/tool] is missing on disk. *)
Definition corrupt : System :=
  mkSystem
    (mkStore database
       (Example.storeDir [ ("/nix/store/lib", Example.dirStat 6);
                           ("/nix/store/lib.drv", Example.regStat 1);
                           ("/nix/store/old", Example.dirStat 6) ]))
    ExampleRoots.emptyOuter heldByTool (Some []).

Definition env : Env :=
  mkEnv ["."; ".."; "lib.drv"; "lib"; "old"; "tool"] None (fun l => l).

Definition envCorrupt : Env :=
  mkEnv ["."; ".."; "lib.drv"; "lib"; "old"] None (fun l => l).

Definition opts : GCOptions := Example.deleteDead 1000.

Definition afterCycle : GC :=
  ExampleSpecific.stateOf
    (ExampleGC.collectGarbage 6 env opts ExampleGC.noResults consistent)
    (mkGC consistent (initialState Example.settings opts ExampleGC.noResults) []).

Definition afterCorruptCycle : GC :=
  ExampleSpecific.stateOf
    (ExampleGC.collectGarbage 6 envCorrupt opts ExampleGC.noResults corrupt)
    (mkGC corrupt (initialState Example.settings opts ExampleGC.noResults) []).

End ExampleLive.

(** [m] keeps [P], whatever way it ends. *)
Definition preserves {S A} (P : S -> Prop) (m : M S A) : Prop :=
  forall s o s', P s -> m s = Some (o, s') -> P s'.

(** [m], started where [Inv] holds, returns where [Inv] holds and
    throws where [Exc] holds. *)
Definition hoare {S A} (Inv Exc : S -> Prop) (m : M S A) : Prop :=
  forall s o s', Inv s -> m s = Some (o, s') ->
    match o with Ret _ => Inv s' | Throw _ => Exc s' end.

(** What root discovery and the clean-up after an empty sweep leave
    alone: the valid paths, the store directory, [results.paths] and
    the sets and counter the sweep would fill. *)
Definition untouched (w : System) (res : GCResults) (g : GC) : Prop :=
  validPaths (db (store (sys g))) = validPaths (db (store w))
  /\ fs (store (sys g)) = fs (store w)
  /\ paths (results (state g)) = paths res
  /\ deleted (state g) = []
  /\ live (state g) = []
  /\ invalidated (state g) = []
  /\ bytesInvalidated (state g) = 0%N.

(** The invariant of a sweep for the liveness of [reach]. *)
Definition sweepInvariant (settings : Settings.t) (isDerivation : Path -> bool)
    (d0 : DB) (f0 : FS) (rs : PathSet) (ko kd : bool) : St -> Prop :=
  safe (linksDir settings) (reach isDerivation d0 ko kd rs) d0 f0 rs ko kd.

(** * The remaining entry points *)

Section StoreAPI.

Variable settings : Settings.t.
Variable canonPath : Path -> Path.
Variable absPath : Path -> Path -> Path.
Variable dirOf : Path -> Path.
Variable isInStore : Path -> bool.
Variable toStorePath : Path -> Path.
Variable readDirectory : OuterFS -> Path -> list string.

(** [Roots LocalStore::findRoots()]: the scan without the removal of
    stale links. *)
Definition LocalStore_findRoots (fuel : nat) (d : DB) : M OuterFS Roots :=
  findRoots settings canonPath absPath dirOf isInStore toStorePath readDirectory
            fuel d false.

End StoreAPI.

(** [removeTempRoots]: closing the descriptor drops the owner's lock
    and resets [fdTempRoots] to -1; then the file is unlinked by its
    name. *)
Definition removeTempRoots (name : string) (s : TP) : TP :=
  match snd s with
  | Some fd =>
      (Temp.unlink name (Temp.onInode fd (Temp.setOwner Unlocked) (fst s)), None)
  | None => s
  end.

(** ** Vocabulary of the root scan *)

(** What a walk of [findRoots] can have done between [s] and [s']:
    the only change on disk is the removal of symlinks that point
    outside the store and whose target is missing; every root added
    is a symlink on disk that points into the store, with the valid
    store path of its target. *)
Definition scanned (absPath : Path -> Path -> Path) (dirOf : Path -> Path)
    (isInStore : Path -> bool) (toStorePath : Path -> Path) (d : DB)
    (s s' : OuterFS * Roots) : Prop :=
  (forall p,
     fst s' p = fst s p
     \/ (fst s' p = None
         /\ exists t, fst s p = Some (OLink t)
              /\ isInStore (absPath t (dirOf p)) = false
              /\ fst s' (absPath t (dirOf p)) = None))
  /\ (forall l sp,
        In (l, sp) (snd s') ->
        In (l, sp) (snd s)
        \/ (exists t, fst s l = Some (OLink t)
              /\ isInStore (absPath t (dirOf l)) = true
              /\ sp = toStorePath (absPath t (dirOf l))
              /\ Db.isValidPath d sp = true)).

Module ExampleScan.

(** Links with absolute targets; a directory lists what the table
    [listing] holds for it. *)
Definition absPath (p dir : Path) : Path := p.
Definition dirOf (p : Path) : Path := "/".
Definition toStorePath (p : Path) : Path := p.
Definition canonPath (p : Path) : Path := p.

Definition rootsDir : Path := "/nix/var/nix/gcroots".

Definition readDirectory (o : OuterFS) (p : Path) : list string :=
  if String.eqb p rootsDir then ["home"; "profile"; "stale"]
  else if String.eqb p "/home/u" then ["old"; "result"]
  else [].

(** The roots directory holds a link into the store, a link to a
    home directory and a link whose target is gone; the home
    directory holds a link into the store and a dangling link of its
    own. *)
Definition tree : OuterFS :=
  fun q =>
    if String.eqb q rootsDir then Some ODir
    else if String.eqb q "/nix/var/nix/gcroots/profile" then Some (OLink "/nix/store/a")
    else if String.eqb q "/nix/var/nix/gcroots/home" then Some (OLink "/home/u")
    else if String.eqb q "/nix/var/nix/gcroots/stale" then Some (OLink "/home/u/gone")
    else if String.eqb q "/home/u" then Some ODir
    else if String.eqb q "/home/u/result" then Some (OLink "/nix/store/b")
    else if String.eqb q "/home/u/old" then Some (OLink "/home/u/gone")
    else None.

(** The same tree when the status of the home directory's link cannot
    be read: for an error of input or output, and for want of
    permission. *)
Definition failing : OuterFS :=
  fun q =>
    if String.eqb q "/nix/var/nix/gcroots/home" then Some (OError EIO) else tree q.

Definition forbidden : OuterFS :=
  fun q =>
    if String.eqb q "/nix/var/nix/gcroots/home" then Some (OError EACCES) else tree q.

Definition findRoots :=
  findRoots Example.settings canonPath absPath dirOf Example.isInStore
            toStorePath readDirectory.

Definition scanOf (r : option (Outcome Roots * OuterFS)) : OuterFS * Roots :=
  match r with
  | Some (Ret rootMap, o) => (o, rootMap)
  | Some (Throw _, o) => (o, [])
  | None => (tree, [])
  end.

Definition walkOf (r : option (Outcome unit * (OuterFS * Roots)))
  : OuterFS * Roots :=
  match r with
  | Some (_, s) => s
  | None => (tree, [])
  end.

Definition afterScan : OuterFS * Roots :=
  scanOf (findRoots 4 (db ExampleGC.threeDirs) true tree).

(** The walk of the home directory alone, as the scan reaches it. *)
Definition afterHome : OuterFS * Roots :=
  walkOf (findRootsAt absPath dirOf Example.isInStore toStorePath readDirectory
            2 (db ExampleGC.threeDirs) "/home/u" false true (tree, [])).

End ExampleScan.

Module ExamplePerm.

Definition outerOf {A} (r : option (Outcome A * OuterFS)) : OuterFS :=
  match r with
  | Some (_, o) => o
  | None => ExampleRoots.emptyOuter
  end.

Definition createSymlink :=
  createSymlink Example.pid ExampleRoots.dirOf ExampleRoots.createDirs
                ExampleRoots.rand.

(** [nix-store --add-root /nix/var/nix/gcroots/result -r /nix/store/a] *)
Definition linked : OuterFS :=
  outerOf (createSymlink "/nix/var/nix/gcroots/result" "/nix/store/a"
             ExampleRoots.emptyOuter).

(** [nix-store --add-root /home/u/result --indirect -r /nix/store/a] *)
Definition indirectRoot : OuterFS :=
  outerOf (ExampleRoots.addPermRoot 1 Example.emptyDB "/nix/store/a"
             "/home/u/result" true false ExampleRoots.emptyOuter).

End ExamplePerm.

(** ** Vocabulary of the temporary-roots protocol *)

(** The bytes of a temporary-roots file that holds the roots [ps]:
    each root followed by a NUL byte. *)
Definition encodeRoots (ps : list Path) : string :=
  fold_right (fun p acc => p ++ String Temp.NUL acc) EmptyString ps.

(** The process that owns the file [name] holds it open as [fd] with
    its read lock, and the file holds the roots [ps]. *)
Definition registered (name : string) (fd : nat) (ps : list Path) (t : TempDir)
  : Prop :=
  Temp.lookup t name = Some fd
  /\ exists i, Temp.inode t fd = Some i
       /\ owner i = OwnerRead /\ content i = encodeRoots ps.

(** [p] is one of the roots in the bytes [c]: the bytes begin with
    roots, each without a NUL byte and followed by one, and [p] is
    among them. *)
Definition rootIn (c : string) (p : Path) : Prop :=
  exists ps rest,
    c = encodeRoots ps ++ rest /\ forallb Temp.noNul ps = true /\ In p ps.

(** [p] is a root that a process holds in [t]: a store path that is
    one of the NUL-terminated pieces of a file of the directory on
    which its owner holds a lock. *)
Definition heldRoot (isStorePath : Path -> bool) (t : TempDir) (p : Path) : Prop :=
  isStorePath p = true
  /\ exists name fd i,
       Temp.lookup t name = Some fd /\ Temp.inode t fd = Some i
       /\ owner i <> Unlocked
       /\ In p (Temp.parseRoots (content i) EmptyString).

(** Every file that is held under a lock in [t] is a file of [t0],
    held there too and with the same bytes. *)
Definition tracks (t0 t : TempDir) : Prop :=
  forall name fd i,
    Temp.lookup t name = Some fd -> Temp.inode t fd = Some i ->
    owner i <> Unlocked ->
    Temp.lookup t0 name = Some fd
    /\ exists i0, Temp.inode t0 fd = Some i0
         /\ owner i0 <> Unlocked /\ content i0 = content i.

Module ExampleRegister.

Definition addTempRoot := addTempRoot Example.isStorePath.

Definition tpOf (r : option TP) : TP :=
  match r with
  | Some s => s
  | None => (ExampleTemp.emptyTemp, None)
  end.

(** The process [4242] registers [/nix/store/a], then [/nix/store/b],
    next to the files of the processes [77] and [13]; a collector
    reaps its first file before it holds its lock. *)
Definition first : TP :=
  tpOf (addTempRoot "4242" [true; false] "/nix/store/a" (ExampleTemp.twoFiles, None)).

Definition second : TP :=
  tpOf (addTempRoot "4242" [] "/nix/store/b" first).

Definition trOf (r : option (Outcome unit * TR)) : TR :=
  match r with
  | Some (_, s) => s
  | None => (ExampleTemp.emptyTemp, ([], []))
  end.

(** What a collector reads then, and what it reads once the process
    has exited. *)
Definition collected : TR :=
  trOf (readTempRoots Example.isStorePath (fst second, ([], []))).

Definition exited : TP := removeTempRoots "4242" second.

(** What a collector reads in the directory of the two files. *)
Definition reaped : TR :=
  trOf (readTempRoots Example.isStorePath (ExampleTemp.twoFiles, ([], []))).

(** The file of the live process [77] belongs to another user: the
    collector may not open it.  The file of the dead process [13]
    comes after it. *)
Definition unreadable : TempDir :=
  mkTempDir
    [ mkInode ("/nix/store/b" ++ ExampleTemp.nul) OwnerRead false true;
      mkInode ("/nix/store/a" ++ ExampleTemp.nul) Unlocked false false ]
    [ ("77", 0); ("13", 1) ].

(** The live process [77] has registered a path outside the store. *)
Definition badFirst : TempDir :=
  mkTempDir
    [ mkInode ("/tmp/x" ++ ExampleTemp.nul) OwnerRead false false;
      mkInode ("/nix/store/a" ++ ExampleTemp.nul) Unlocked false false ]
    [ ("77", 0); ("13", 1) ].

Definition collectedLater : TR :=
  trOf (readTempRoots Example.isStorePath (fst exited, ([], []))).

End ExampleRegister.

(** ** Vocabulary of the engine's invariants *)

(** A property of the collector's state, read off the pair that
    [tryToDelete] works on. *)
Definition ofState (Q : GCState -> Prop) (s : St) : Prop := Q (snd s).

(** What the clean-up after the sweep can have done between [g] and
    [g']: the valid paths and the tables of the database are as
    before; in the store directory entries have been removed, among
    them every renamed directory of [state.invalidated]; of the
    collector's state only [results.bytesFreed] has changed. *)
Definition cleaned (g g' : GC) : Prop :=
  (validPaths (db (store (sys g'))) = validPaths (db (store (sys g)))
   /\ refs (db (store (sys g'))) = refs (db (store (sys g)))
   /\ derivationOutputs (db (store (sys g'))) = derivationOutputs (db (store (sys g))))
  /\ (forall p, fs (store (sys g')) p = fs (store (sys g)) p
                \/ fs (store (sys g')) p = None)
  /\ (forall i, In i (invalidated (state g)) -> fs (store (sys g')) i = None)
  /\ (exists b, state g'
                = set_results (mkResults (paths (results (state g))) b) (state g))
  /\ outer (sys g') = outer (sys g)
  /\ temp (sys g') = temp (sys g)
  /\ fds g' = fds g.

(** The invariant of a cycle whose action only queries: the store is
    [ls], nothing has been freed beyond [b] or invalidated. *)
Definition queried (ls : LocalStore) (b : N) (s : St) : Prop :=
  fst s = ls
  /\ shouldDelete (action (options (snd s))) = false
  /\ bytesFreed (results (snd s)) = b
  /\ invalidated (snd s) = []
  /\ bytesInvalidated (snd s) = 0%N.

(** [results.paths] holds the caller's paths [P0] and the paths that
    the cycle has classified: the live ones for [gcReturnLive], the
    deleted ones for the other actions. *)
Definition reported (opts : GCOptions) (P0 : PathSet) (st : GCState) : Prop :=
  options st = opts
  /\ forall p,
       In p (paths (results st))
       <-> In p P0
           \/ In p (if GCAction_eqb (action opts) gcReturnLive
                    then live st else deleted st).

(** Under a deleting action, what is recorded as deleted is no valid
    path. *)
Definition deletedInvalid (s : St) : Prop :=
  shouldDelete (action (options (snd s))) = true
  /\ forall p, In p (deleted (snd s)) -> Db.isValidPath (db (fst s)) p = false.

(** The bytes that the entries of [pool] with a link count of one
    account for: 512 for each block. *)
Definition unusedBytes (pool : list LinkEntry) : N :=
  fold_right N.add 0%N
    (map (fun e => (l_blocks e * 512)%N)
         (filter (fun e => N.eqb (l_nlink e) 1)
                 (filter (fun e => negb (String.eqb (l_name e) "."
                                         || String.eqb (l_name e) "..")) pool))).

Module ExampleEngine.

Definition stOf {A} (r : option (Outcome A * St)) (otherwise : St) : St :=
  match r with
  | Some (_, s) => s
  | None => otherwise
  end.

(** The derivation and its output of [ExampleDrv], both garbage. *)
Definition start : St := (ExampleDrv.store, ExampleDrv.state 1000 []).

Definition afterDrv : St :=
  stOf (ExampleDrv.tryToDelete 2 "/nix/store/d.drv" start) start.

(** A file of five bytes that a failed build left in the store; the
    caller allows three bytes to be freed. *)
Definition junkStore : LocalStore :=
  mkStore Example.emptyDB
          (Example.storeDir [("/nix/store/junk", Example.regStat 5)]).

Definition junkState : GCState :=
  newGCState (Example.deleteDead 3) (mkResults [] 0) true true.

End ExampleEngine.

Module ExampleQuery.

(** [nix-store --gc --print-dead] *)
Definition opts : GCOptions := mkOptions gcReturnDead false [] 1000.

Definition afterCycle : GC :=
  ExampleSpecific.stateOf
    (ExampleGC.collectGarbage 5 ExampleGC.env opts ExampleGC.noResults ExampleGC.rooted)
    (mkGC ExampleGC.rooted
          (initialState Example.settings opts ExampleGC.noResults) []).

End ExampleQuery.

Module ExampleFail.

(** The file of the live process [77] belongs to another user, and the
    collector may not open it. *)
Definition system : System :=
  mkSystem ExampleGC.threeDirs ExampleRoots.emptyOuter ExampleRegister.unreadable
           (Some []).

Definition start : GC :=
  mkGC system
       (initialState Example.settings (Example.deleteDead 1000) ExampleGC.noResults)
       [].

Definition failed : GC :=
  ExampleSpecific.stateOf
    (ExampleGC.discoverRoots 5 ExampleGC.env (Example.deleteDead 1000) start) start.

End ExampleFail.

Module ExampleLinks.

Definition start : GC :=
  mkGC ExampleGC.rooted
       (initialState Example.settings (Example.deleteDead 1000) ExampleGC.noResults)
       [].

Definition swept : GC :=
  ExampleSpecific.stateOf (removeUnusedLinks Example.settings start) start.

End ExampleLinks.

(** Whatever has left the store directory [f0] since the sweep began
    is recorded as deleted. *)
Definition goneIsDeleted (f0 : FS) (s : St) : Prop :=
  forall q, f0 q <> None -> fs (fst s) q = None -> In q (deleted (snd s)).


Module ExampleDelete.

(** [nix-store --delete /nix/store/a] with nothing in its way. *)
Definition opts : GCOptions := ExampleGC.deleteSpecific ["/nix/store/a"].

Definition afterCycle : GC :=
  ExampleSpecific.stateOf
    (ExampleGC.collectGarbage 5 ExampleGC.env opts ExampleGC.noResults ExampleGC.rooted)
    (mkGC ExampleGC.rooted
          (initialState Example.settings opts ExampleGC.noResults) []).

End ExampleDelete.

Module ExampleFirst.

(** The three valid directories and a file that a failed build left
    behind. *)
Definition system : System :=
  mkSystem
    (mkStore (db ExampleGC.threeDirs)
       (Example.storeDir [ ("/nix/store/a", Example.dirStat 6);
                           ("/nix/store/b", Example.dirStat 6);
                           ("/nix/store/c", Example.dirStat 6);
                           ("/nix/store/junk", Example.regStat 5) ]))
    ExampleRoots.emptyOuter ExampleTemp.emptyTemp (Some []).

Definition start : GC :=
  mkGC system
       (initialState Example.settings (Example.deleteDead 1000) ExampleGC.noResults)
       [].

Definition names : list string := ["."; ".."; "junk"; "a"; "b"; "c"].

Definition readStore :=
  readStore Example.settings Example.pid Example.isStorePath Example.isDerivation.

Definition afterPass : GC :=
  match readStore 3 names [] start with
  | Some (_, g) => g
  | None => start
  end.

End ExampleFirst.

(** * Properties *)

(** ** Path sets *)

Lemma mem_In (x : Path) (s : PathSet) : PathSet.mem x s = true <-> In x s.
Proof.
  unfold PathSet.mem. rewrite existsb_exists. split.
  - intros [y [Hy Heq]]. apply String.eqb_eq in Heq. now subst.
  - intros H. exists x. split; [assumption | apply String.eqb_refl].
Qed.

Lemma mem_false (x : Path) (s : PathSet) : PathSet.mem x s = false <-> ~ In x s.
Proof.
  rewrite <- mem_In. destruct (PathSet.mem x s); split; congruence.
Qed.

Lemma In_insert (x y : Path) (s : PathSet) :
  In x (PathSet.insert y s) <-> x = y \/ In x s.
Proof.
  induction s as [|z t IH]; simpl.
  - intuition.
  - destruct (String.compare y z) eqn:E; simpl.
    + apply String.compare_eq_iff in E. subst. intuition.
    + intuition.
    + rewrite IH. intuition.
Qed.

Lemma In_insert_all (x : Path) (ys : list Path) (s : PathSet) :
  In x (PathSet.insert_all ys s) <-> In x ys \/ In x s.
Proof.
  unfold PathSet.insert_all. revert s.
  induction ys as [|y t IH]; intros s; simpl.
  - intuition.
  - rewrite IH, In_insert. intuition.
Qed.

Lemma In_of_list (x : Path) (ys : list Path) :
  In x (PathSet.of_list ys) <-> In x ys.
Proof.
  unfold PathSet.of_list. rewrite In_insert_all. simpl. intuition.
Qed.

Lemma In_erase (x y : Path) (s : PathSet) :
  In x (PathSet.erase y s) <-> x <> y /\ In x s.
Proof.
  unfold PathSet.erase. rewrite filter_In. split.
  - intros [H1 H2]. split; [|assumption].
    intros ->. rewrite String.eqb_refl in H2. discriminate.
  - intros [H1 H2]. split; [assumption|].
    destruct (String.eqb y x) eqn:E; [|reflexivity].
    apply String.eqb_eq in E. congruence.
Qed.

(** ** The monad *)

Lemma bind_inv {S A B} (m : M S A) (k : A -> M S B) s o s' :
  bind m k s = Some (o, s') ->
  (exists e, m s = Some (Throw e, s') /\ o = Throw e)
  \/ (exists a s1, m s = Some (Ret a, s1) /\ k a s1 = Some (o, s')).
Proof.
  unfold bind. destruct (m s) as [[[a|e] s1]|]; intros H.
  - right. eauto.
  - left. inversion H. eauto.
  - discriminate.
Qed.

Lemma bind_ret {S A B} (m : M S A) (k : A -> M S B) s a s1 :
  m s = Some (Ret a, s1) -> bind m k s = k a s1.
Proof. unfold bind. now intros ->. Qed.

Lemma bind_none {S A B} (m : M S A) (k : A -> M S B) s :
  m s = None -> bind m k s = None.
Proof. unfold bind. now intros ->. Qed.

Lemma bind_throw {S A B} (m : M S A) (k : A -> M S B) s e s1 :
  m s = Some (Throw e, s1) -> bind m k s = Some (Throw e, s1).
Proof. unfold bind. now intros ->. Qed.

(** A property of the state that every step of a loop keeps is kept by
    the loop, whatever way it ends. *)
Lemma forEach_total {S A} (body : A -> M S unit) (xs : list A) :
  (forall x s, exists o s', body x s = Some (o, s')) ->
  forall s, exists o s', forEach xs body s = Some (o, s').
Proof.
  intros H. induction xs as [|x xs IH]; intros s; simpl.
  - unfold ret. eauto.
  - unfold bind. destruct (H x s) as [[u|e] [s1 E]]; rewrite E; [apply IH|eauto].
Qed.

Lemma forEach_preserves {S A} (P : S -> Prop) (body : A -> M S unit) (xs : list A) :
  (forall x s o s', In x xs -> P s -> body x s = Some (o, s') -> P s') ->
  forall s o s', P s -> forEach xs body s = Some (o, s') -> P s'.
Proof.
  induction xs as [|x t IH]; intros Hbody s o s' HP H; simpl in H.
  - inversion H. now subst.
  - apply bind_inv in H. destruct H as [[e [H _]]|[a [s1 [H1 H2]]]].
    + eapply Hbody; eauto. now left.
    + eapply IH; [| |exact H2].
      * intros; eapply Hbody; eauto. now right.
      * eapply Hbody; eauto. now left.
Qed.

(** ** Strings *)

Lemma length_app (s t : string) :
  String.length (s ++ t) = String.length s + String.length t.
Proof. induction s as [|c s IH]; simpl; [reflexivity | now rewrite IH]. Qed.

Lemma substring_skip (s t : string) (n m : nat) :
  substring (String.length s + n) m (s ++ t) = substring n m t.
Proof. induction s as [|c s IH]; simpl; [reflexivity | exact IH]. Qed.

Lemma substring_whole (t : string) : substring 0 (String.length t) t = t.
Proof. induction t as [|c t IH]; simpl; [reflexivity | now rewrite IH]. Qed.

Lemma substring_front (s t : string) : substring 0 (String.length s) (s ++ t) = s.
Proof. induction s as [|c s IH]; simpl; [now destruct t | now rewrite IH]. Qed.

Lemma hasSuffix_app (p suffix : string) : hasSuffix (p ++ suffix) suffix = true.
Proof.
  unfold hasSuffix. rewrite length_app.
  replace (String.length p + String.length suffix - String.length suffix)
    with (String.length p + 0) by lia.
  rewrite substring_skip, substring_whole, String.eqb_refl, andb_true_r.
  apply Nat.leb_le. lia.
Qed.

Lemma stripSuffix_app (p suffix : string) : stripSuffix (p ++ suffix) suffix = p.
Proof.
  unfold stripSuffix. rewrite length_app.
  replace (String.length p + String.length suffix - String.length suffix)
    with (String.length p) by lia.
  apply substring_front.
Qed.

(** The links directory is named neither [*.lock] nor [*.chroot]. *)
Lemma linksDir_not_lock (settings : Settings.t) :
  hasSuffix (linksDir settings) ".lock" = false.
Proof.
  unfold linksDir, hasSuffix. rewrite length_app.
  replace (String.length (Settings.nixStore settings) + String.length "/.links"
           - String.length ".lock")
    with (String.length (Settings.nixStore settings) + 2) by (simpl; lia).
  rewrite substring_skip. simpl. apply andb_false_r.
Qed.

Lemma linksDir_not_chroot (settings : Settings.t) :
  hasSuffix (linksDir settings) ".chroot" = false.
Proof.
  unfold linksDir, hasSuffix. rewrite length_app.
  replace (String.length (Settings.nixStore settings) + String.length "/.links"
           - String.length ".chroot")
    with (String.length (Settings.nixStore settings) + 0) by (simpl; lia).
  rewrite substring_skip. simpl. apply andb_false_r.
Qed.

(** ** Active temporary files *)

Section ActiveTempFiles.

Variable settings : Settings.t.
Variable pid : string.
Variable isStorePath : Path -> bool.
Variable isDerivation : Path -> bool.

Lemma isActiveTempFile_app (st : GCState) (p suffix : string) :
  In p (tempRoots st) -> isActiveTempFile st (p ++ suffix) suffix = true.
Proof.
  intros H. unfold isActiveTempFile.
  rewrite hasSuffix_app, stripSuffix_app. simpl. now apply mem_In.
Qed.

(** C6, as amended.  A path that is on disk, is not a valid store path
    and is not yet recorded in [state.deleted], and whose name is a
    temporary root followed by [.lock] or [.chroot], makes
    [tryToDelete] return false; neither the store nor the collector's
    state changes. *)
Theorem tryToDelete_active_temp_file
    (fuel : nat) (ls : LocalStore) (st : GCState) (p suffix : string) (info : Stat) :
  suffix = ".lock" \/ suffix = ".chroot" ->
  In p (tempRoots st) ->
  Db.isValidPath (db ls) (p ++ suffix) = false ->
  Fs.lstat (fs ls) (p ++ suffix) = Some info ->
  ~ In (p ++ suffix) (deleted st) ->
  tryToDelete settings pid isStorePath isDerivation (S fuel) (p ++ suffix) (ls, st)
  = Some (Ret false, (ls, st)).
Proof.
  intros Hsuf Hp Hinv Hstat Hdel.
  assert (Hlinks : String.eqb (p ++ suffix) (linksDir settings) = false).
  { apply String.eqb_neq. intros Heq.
    assert (H := hasSuffix_app p suffix). rewrite Heq in H.
    destruct Hsuf; subst suffix.
    - rewrite linksDir_not_lock in H. discriminate.
    - rewrite linksDir_not_chroot in H. discriminate. }
  simpl. rewrite Hlinks. unfold bind, get. simpl. rewrite Hstat.
  apply mem_false in Hdel. rewrite Hdel.
  destruct (PathSet.mem (p ++ suffix) (live st)); [reflexivity|].
  unfold candidates. simpl. rewrite Hinv.
  destruct Hsuf; subst suffix.
  - rewrite (isActiveTempFile_app st p ".lock" Hp). reflexivity.
  - rewrite (isActiveTempFile_app st p ".chroot" Hp).
    destruct (isActiveTempFile st (p ++ ".chroot") ".lock"); reflexivity.
Qed.

End ActiveTempFiles.

(** The lock file of the running build is kept. *)
Lemma tryToDelete_active_temp_file_witness :
  tryToDelete Example.settings Example.pid Example.isStorePath Example.isDerivation
    1 ("/nix/store/a" ++ ".lock")
    (Example.lockOnDisk, Example.buildingState (Example.deleteDead 1000))
  = Some (Ret false,
          (Example.lockOnDisk, Example.buildingState (Example.deleteDead 1000))).
Proof.
  apply (@tryToDelete_active_temp_file Example.settings Example.pid
           Example.isStorePath Example.isDerivation 0 Example.lockOnDisk
           (Example.buildingState (Example.deleteDead 1000))
           "/nix/store/a" ".lock" (Example.regStat 1)).
  - left. reflexivity.
  - simpl. left. reflexivity.
  - reflexivity.
  - reflexivity.
  - simpl. intros [].
Defined.

(** C6 as stated fails for a name that is not on disk: the path is not
    valid, it is the temporary root [/nix/store/a] followed by [.lock],
    and [tryToDelete] returns true. *)
Lemma active_temp_file_absent_returns_true :
  Db.isValidPath (db Example.lockAbsent) "/nix/store/a.lock" = false
  /\ isActiveTempFile (Example.buildingState (Example.deleteDead 1000))
       "/nix/store/a.lock" ".lock" = true
  /\ tryToDelete Example.settings Example.pid Example.isStorePath Example.isDerivation
       1 "/nix/store/a.lock"
       (Example.lockAbsent, Example.buildingState (Example.deleteDead 1000))
     = Some (Ret true,
             (Example.lockAbsent, Example.buildingState (Example.deleteDead 1000))).
Proof. repeat split. Qed.

(** ** Registration of permanent roots *)

Section PermRoots.

Variable settings : Settings.t.
Variable pid : string.
Variable canonPath : Path -> Path.
Variable absPath : Path -> Path -> Path.
Variable dirOf : Path -> Path.
Variable isInStore : Path -> bool.
Variable isStorePath : Path -> bool.
Variable toStorePath : Path -> Path.
Variable readDirectory : OuterFS -> Path -> list string.
Variable createDirs : OuterFS -> Path -> OuterFS.
Variable rand : string.
Variable hashPath : Path -> string.

(** C8.  When the canonical [gcRoot] lies in the store, [addPermRoot]
    throws an [Error] and leaves the file system as it found it: no
    symlink is created and no indirect root is registered, whatever
    [indirect] and [allowOutsideRootsDir] are.  The error is the one
    about a root in the store once [storePath] passed
    [assertStorePath]. *)
Theorem addPermRoot_rejects_root_in_store
    (fuel : nat) (d : DB) (_storePath _gcRoot : Path)
    (indirect allowOutsideRootsDir : bool) (o : OuterFS) :
  isInStore (canonPath _gcRoot) = true ->
  addPermRoot settings pid canonPath absPath dirOf isInStore isStorePath
    toStorePath readDirectory createDirs rand hashPath
    fuel d _storePath _gcRoot indirect allowOutsideRootsDir o
  = Some (Throw (Error
      (if isStorePath (canonPath _storePath)
       then "creating a garbage collector root (" ++ canonPath _gcRoot
            ++ ") in the Nix store is forbidden "
            ++ "(are you running nix-build inside the store?)"
       else "path `" ++ canonPath _storePath ++ "' is not in the Nix store")), o).
Proof.
  intros H. unfold addPermRoot.
  destruct (isStorePath (canonPath _storePath)); simpl.
  - rewrite H. reflexivity.
  - reflexivity.
Qed.

End PermRoots.

(** A root inside the store is refused, here for an indirect root. *)
Lemma addPermRoot_rejects_root_in_store_witness :
  ExampleRoots.addPermRoot 1 Example.emptyDB "/nix/store/a" "/nix/store/a/result"
    true true ExampleRoots.emptyOuter
  = Some (Throw (Error
      ("creating a garbage collector root (/nix/store/a/result) in the Nix store "
       ++ "is forbidden (are you running nix-build inside the store?)")),
          ExampleRoots.emptyOuter).
Proof.
  apply (@addPermRoot_rejects_root_in_store Example.settings Example.pid
           ExampleRoots.canonPath ExampleRoots.absPath ExampleRoots.dirOf
           Example.isInStore Example.isStorePath ExampleRoots.toStorePath
           ExampleRoots.readDirectory ExampleRoots.createDirs ExampleRoots.rand
           ExampleRoots.hashPath 1 Example.emptyDB "/nix/store/a"
           "/nix/store/a/result" true true ExampleRoots.emptyOuter).
  reflexivity.
Defined.

(** ** Temporary roots *)

Lemma find_filter_negb {A} (f : A -> bool) (l : list A) :
  List.find f (filter (fun x => negb (f x)) l) = None.
Proof.
  induction l as [|x t IH]; simpl; [reflexivity|].
  destruct (f x) eqn:E; simpl; [exact IH | now rewrite E].
Qed.

Lemma find_app_none {A} (f : A -> bool) (l : list A) (x : A) :
  List.find f l = None -> f x = true -> List.find f (l ++ [x])%list = Some x.
Proof.
  induction l as [|y t IH]; simpl; intros H Hx.
  - now rewrite Hx.
  - destruct (f y); [discriminate | now apply IH].
Qed.

Lemma nth_error_update {A} (l : list A) (n : nat) (f : A -> A) :
  nth_error (Temp.update l n f) n = option_map f (nth_error l n).
Proof.
  revert n. induction l as [|x t IH]; intros [|n]; simpl; try reflexivity.
  apply IH.
Qed.

Lemma lookup_unlink (name : string) (t : TempDir) :
  Temp.lookup (Temp.unlink name t) name = None.
Proof.
  unfold Temp.lookup, Temp.unlink. simpl.
  rewrite (find_filter_negb (fun e : string * nat => String.eqb (fst e) name)).
  reflexivity.
Qed.

Lemma inode_onInode (fd : nat) (f : Inode -> Inode) (t : TempDir) :
  Temp.inode (Temp.onInode fd f t) fd = option_map f (Temp.inode t fd).
Proof. unfold Temp.inode, Temp.onInode. simpl. apply nth_error_update. Qed.

Lemma lookup_onInode (fd : nat) (f : Inode -> Inode) (t : TempDir) (name : string) :
  Temp.lookup (Temp.onInode fd f t) name = Temp.lookup t name.
Proof. reflexivity. Qed.

(** A name that is not bound gets a fresh, empty, unlocked file. *)
Lemma openCreate_fresh (name : string) (t : TempDir) :
  Temp.lookup t name = None ->
  exists t', Temp.openCreate name t = (List.length (inodes t), t')
    /\ Temp.lookup t' name = Some (List.length (inodes t))
    /\ Temp.inode t' (List.length (inodes t)) = Some (mkInode EmptyString Unlocked false false).
Proof.
  intros H. unfold Temp.openCreate. rewrite H. eexists. split; [reflexivity|]. split.
  - unfold Temp.lookup in *. simpl.
    destruct (List.find (fun e : string * nat => String.eqb (fst e) name) (entries t))
      eqn:E; [discriminate|].
    rewrite (find_app_none _ _ (name, List.length (inodes t)) E); [reflexivity|].
    simpl. apply String.eqb_refl.
  - unfold Temp.inode. simpl.
    rewrite nth_error_app2, Nat.sub_diag by lia. reflexivity.
Qed.

Section TempRootsProperties.

Variable isStorePath : Path -> bool.

(** The loop over the roots of one file, when every root is a store
    path. *)
Lemma insert_roots_ok (rs : list Path) (t : TempDir) (acc : PathSet) (fds : FDs) :
  forallb isStorePath rs = true ->
  forEach rs
    (fun root =>
       assertStorePath isStorePath root ;;;
       modify (fun s : TR =>
         (fst s, (PathSet.insert root (fst (snd s)), snd (snd s)))))
    (t, (acc, fds))
  = Some (Ret tt, (t, (PathSet.insert_all rs acc, fds))).
Proof.
  revert acc. induction rs as [|r rest IH]; intros acc H; simpl in *.
  - reflexivity.
  - apply andb_prop in H. destruct H as [Hr Hrest].
    unfold bind at 1. unfold bind at 1. unfold assertStorePath. rewrite Hr.
    simpl. apply IH. assumption.
Qed.

(** The same loop throws at the first root that is not a store path. *)
Lemma insert_roots_fails (rs : list Path) (s : TR) :
  forallb isStorePath rs = false ->
  exists msg s',
    forEach rs
      (fun root =>
         assertStorePath isStorePath root ;;;
         modify (fun s : TR =>
           (fst s, (PathSet.insert root (fst (snd s)), snd (snd s)))))
      s
    = Some (Throw (Error msg), s').
Proof.
  revert s. induction rs as [|r rest IH]; intros s H; simpl in *.
  - discriminate.
  - unfold bind at 1. unfold bind at 1. unfold assertStorePath.
    destruct (isStorePath r) eqn:Hr; simpl in *.
    + apply IH. assumption.
    + eauto.
Qed.

(** The roots a writer appends, each followed by a NUL byte, are the
    roots the reader extracts. *)
Lemma parseRoots_one (p rest cur : string) :
  Temp.noNul p = true ->
  Temp.parseRoots (p ++ String Temp.NUL rest) cur
  = (cur ++ p) :: Temp.parseRoots rest EmptyString.
Proof.
  revert cur. induction p as [|c p IH]; intros cur H; simpl in *.
  - replace (cur ++ EmptyString) with cur; [reflexivity|].
    clear. induction cur as [|c cur IH]; simpl; [reflexivity | now rewrite <- IH].
  - apply andb_prop in H. destruct H as [Hc Hp].
    apply negb_true_iff in Hc. rewrite Hc. rewrite IH by assumption.
    f_equal. clear. induction cur as [|d cur IH]; simpl; [reflexivity | now rewrite IH].
Qed.

Lemma parseRoots_written (ps : list Path) :
  forallb Temp.noNul ps = true ->
  Temp.parseRoots
    (fold_right (fun p acc => p ++ String Temp.NUL acc) EmptyString ps) EmptyString
  = ps.
Proof.
  induction ps as [|p rest IH]; intros H; simpl in *.
  - reflexivity.
  - apply andb_prop in H. destruct H as [Hp Hrest].
    rewrite parseRoots_one by assumption. simpl. now rewrite IH.
Qed.

(** C3, as amended.  A pass through the creation loop leaves the file
    empty exactly when no collector reaped it in the window; then the
    loop is left and creation is complete.  When a collector did, the
    file holds its byte, the size is not zero, and the loop starts
    over. *)
Theorem createLoop_leaves_on_empty_file
    (name : string) (reaped : bool) (later : list bool) (t : TempDir) :
  let '(fd, t', st_size) := createTempRootsFile isStorePath name reaped t in
  (st_size = 0 <-> reaped = false)
  /\ leavesLoop st_size = negb reaped
  /\ createLoop isStorePath name (reaped :: later) t
     = if reaped
       then match createLoop isStorePath name later t' with
            | Some (fd', t'', passes) => Some (fd', t'', S passes)
            | None => None
            end
       else Some (fd, t', 1).
Proof.
  assert (Hsize : snd (createTempRootsFile isStorePath name reaped t)
                  = if reaped then 1 else 0).
  { unfold createTempRootsFile.
    set (t1 := match Temp.lookup t name with
               | Some _ => Temp.unlink name t
               | None => t
               end).
    assert (H1 : Temp.lookup t1 name = None).
    { unfold t1. destruct (Temp.lookup t name) eqn:E; [apply lookup_unlink | exact E]. }
    destruct (openCreate_fresh name t1 H1) as [t2 [Ho [Hl Hi]]].
    rewrite Ho. simpl. unfold fileSize. rewrite inode_onInode.
    destruct reaped.
    - unfold collectorVisits, readTempRootsFile. simpl. rewrite Hl, Hi. simpl.
      rewrite inode_onInode.
      replace (Temp.inode (Temp.unlink name t2) (List.length (inodes t1)))
        with (Some (mkInode EmptyString Unlocked false false)) by (symmetry; exact Hi).
      reflexivity.
    - rewrite Hi. reflexivity. }
  simpl. destruct (createTempRootsFile isStorePath name reaped t) as [[fd t'] st_size].
  simpl in Hsize. subst st_size.
  destruct reaped; simpl; repeat split; intros; congruence.
Qed.

End TempRootsProperties.

(** C3 as stated fails: on a fresh directory the file is empty after
    the read lock is taken and the loop is left after that one pass;
    when a collector reaped the file its size is one and the loop is
    not left. *)
Lemma createLoop_empty_file_is_final :
  snd (createTempRootsFile Example.isStorePath "4242" false ExampleTemp.emptyTemp) = 0
  /\ (exists fd t,
        createLoop Example.isStorePath "4242" [false] ExampleTemp.emptyTemp
        = Some (fd, t, 1))
  /\ snd (createTempRootsFile Example.isStorePath "4242" true ExampleTemp.emptyTemp) = 1
  /\ createLoop Example.isStorePath "4242" [true] ExampleTemp.emptyTemp = None
  /\ (exists fd t,
        createLoop Example.isStorePath "4242" [true; false] ExampleTemp.emptyTemp
        = Some (fd, t, 2)).
Proof.
  split; [reflexivity|]. split; [eexists; eexists; reflexivity|].
  split; [reflexivity|]. split; [reflexivity|].
  eexists; eexists; reflexivity.
Qed.

(** ** Frame rules *)

Lemma preserves_ret {S A} (P : S -> Prop) (a : A) : preserves P (ret a).
Proof. intros s o s' HP H. inversion H. now subst. Qed.

Lemma preserves_throw {S A} (P : S -> Prop) (e : Exn) : preserves P (@throw S A e).
Proof. intros s o s' HP H. inversion H. now subst. Qed.

Lemma preserves_bind {S A B} (P : S -> Prop) (m : M S A) (k : A -> M S B) :
  preserves P m -> (forall a, preserves P (k a)) -> preserves P (bind m k).
Proof.
  intros Hm Hk s o s' HP H. apply bind_inv in H.
  destruct H as [[e [H _]]|[a [s1 [H1 H2]]]].
  - eapply Hm; eauto.
  - eapply Hk; [|exact H2]. eapply Hm; eauto.
Qed.

Lemma preserves_modify {S} (P : S -> Prop) (f : S -> S) :
  (forall s, P s -> P (f s)) -> preserves P (modify f).
Proof. intros Hf s o s' HP H. inversion H. subst. now apply Hf. Qed.

Lemma preserves_get {S} (P : S -> Prop) : preserves P (@get S).
Proof. intros s o s' HP H. inversion H. now subst. Qed.

Lemma preserves_forEach {S A} (P : S -> Prop) (body : A -> M S unit) (xs : list A) :
  (forall x, In x xs -> preserves P (body x)) -> preserves P (forEach xs body).
Proof.
  intros Hb s o s' HP H. eapply forEach_preserves; [| exact HP | exact H].
  intros x s0 o0 s0' Hx HP0 H0. eapply Hb; eauto.
Qed.

Lemma preserves_catchLimit {S} (P : S -> Prop) (m : M S unit) :
  preserves P m -> preserves P (catchLimit m).
Proof.
  intros Hm s o s' HP H. unfold catchLimit in H.
  destruct (m s) as [[[a|e] s1]|] eqn:E.
  - inversion H; subst. eapply Hm; eauto.
  - destruct e; inversion H; subst; eapply Hm; eauto.
  - discriminate.
Qed.

Lemma forEach_app {S A} (xs ys : list A) (body : A -> M S unit) (s : S) :
  forEach (xs ++ ys)%list body s = (forEach xs body ;;; forEach ys body) s.
Proof.
  revert s. induction xs as [|x t IH]; intros s; simpl.
  - reflexivity.
  - unfold bind. destruct (body x s) as [[[a|e] s1]|]; [|reflexivity..].
    rewrite IH. reflexivity.
Qed.

(** ** The collector without a sweep *)

Section CollectorFrames.

Variable settings : Settings.t.
Variable pid : string.
Variable canonPath : Path -> Path.
Variable absPath : Path -> Path -> Path.
Variable dirOf : Path -> Path.
Variable isInStore : Path -> bool.
Variable isStorePath : Path -> bool.
Variable toStorePath : Path -> Path.
Variable isDerivation : Path -> bool.
Variable readDirectory : OuterFS -> Path -> list string.

Lemma liftTR_untouched (w : System) (res : GCResults) (m : M TR unit) :
  preserves (untouched w res) (liftTR m).
Proof.
  intros g o g' HP H. unfold liftTR in H.
  destruct (m (temp (sys g), (tempRoots (state g), fds g))) as [[o1 s1]|];
    [|discriminate].
  inversion H; subst. exact HP.
Qed.

Lemma onGCState_roots_untouched (w : System) (res : GCResults)
    (f : GCState -> PathSet) :
  preserves (untouched w res) (onGCState (fun st => set_roots (f st) st)).
Proof.
  apply preserves_modify. intros g HP. exact HP.
Qed.

Lemma discoverRoots_untouched (w : System) (res : GCResults)
    (fuel : nat) (env : Env) (opts : GCOptions) :
  preserves (untouched w res)
    (discoverRoots settings canonPath absPath dirOf isInStore isStorePath
       toStorePath readDirectory fuel env opts).
Proof.
  unfold discoverRoots.
  apply preserves_bind; [|intros _; apply preserves_bind;
                           [|intros _; apply preserves_bind]].
  - intros g o g' HP H. destruct (ignoreLiveness opts).
    + inversion H; subst. exact HP.
    + destruct (findRoots settings canonPath absPath dirOf isInStore toStorePath
                  readDirectory fuel (db (store (sys g))) true (outer (sys g)))
        as [[[rootMap|e] o1]|]; [| |discriminate]; inversion H; subst; exact HP.
  - destruct (ignoreLiveness opts); [apply preserves_ret|].
    destruct (rootFinder env) as [lines|]; [|apply preserves_ret].
    intros g o g' HP H. inversion H; subst. exact HP.
  - apply liftTR_untouched.
  - intros _. apply (onGCState_roots_untouched w res
                       (fun st => PathSet.insert_all (tempRoots st) (roots st))).
Qed.

Lemma removeUnusedLinks_untouched (w : System) (res : GCResults) :
  preserves (untouched w res) (removeUnusedLinks settings).
Proof.
  intros g o g' HP H. unfold removeUnusedLinks in H.
  destruct (linkPool (sys g)) as [pool|]; inversion H; subst; [|exact HP].
  clear H. destruct HP as [H1 [H2 [H3 [H4 [H5 [H6 H7]]]]]].
  unfold untouched. simpl.
  set (credit := fun (st : GCState) (e : LinkEntry) =>
                   results_credit ((l_blocks e * 512) mod two64)%N st).
  assert (K : forall (l : list LinkEntry) (st : GCState),
             paths (results (fold_left credit l st)) = paths (results st)
             /\ deleted (fold_left credit l st) = deleted st
             /\ live (fold_left credit l st) = live st
             /\ invalidated (fold_left credit l st) = invalidated st
             /\ bytesInvalidated (fold_left credit l st) = bytesInvalidated st).
  { induction l as [|e l IH]; intros st; simpl; [repeat split|].
    destruct (IH (credit st e)) as [K1 [K2 [K3 [K4 K5]]]].
    rewrite K1, K2, K3, K4, K5. repeat split. }
  destruct (K (filter (fun e => N.eqb (l_nlink e) 1)
                 (filter (fun e => negb (String.eqb (l_name e) "."
                                        || String.eqb (l_name e) "..")) pool))
              (state g)) as [K1 [K2 [K3 [K4 K5]]]].
  rewrite K1, K2, K3, K4, K5. repeat split; assumption.
Qed.

Lemma vacuumDB_untouched (w : System) (res : GCResults) :
  preserves (untouched w res) vacuumDB.
Proof.
  intros g o g' HP H. inversion H; subst. exact HP.
Qed.

Lemma cleanup_untouched (w : System) (res : GCResults) (opts : GCOptions) :
  preserves (untouched w res) (cleanup settings opts).
Proof.
  unfold cleanup.
  apply preserves_bind; [|intros _; apply preserves_bind].
  - intros g o g' HP H. unfold bind, get in H.
    destruct HP as [H1 [H2 [H3 [H4 [H5 [H6 H7]]]]]].
    rewrite H6 in H. simpl in H. inversion H; subst.
    repeat split; assumption.
  - destruct (GCAction_eqb (action opts) gcDeleteDead
              || GCAction_eqb (action opts) gcDeleteSpecific);
      [apply removeUnusedLinks_untouched | apply preserves_ret].
  - intros _. destruct (GCAction_eqb (action opts) gcDeleteDead);
      [apply vacuumDB_untouched | apply preserves_ret].
Qed.

Lemma initialState_untouched (w : System) (res : GCResults) (opts : GCOptions) :
  untouched w res (mkGC w (initialState settings opts res) []).
Proof.
  unfold untouched, initialState.
  destruct (GCAction_eqb (action opts) gcDeleteSpecific && ignoreLiveness opts);
    simpl; repeat split.
Qed.

(** C10.  With an action other than [gcDeleteSpecific] and [maxFreed]
    zero, [collectGarbage] is root discovery followed by the clean-up:
    no path is passed to [tryToDelete].  Whatever way the cycle ends,
    the valid paths and the store directory are as before,
    [results.paths] is as the caller passed it (empty for fresh
    results), and nothing is recorded as deleted, live or invalidated.
    Root discovery (with the reaping of stale temporary-roots files)
    still runs, and so do the link sweep and, for [gcDeleteDead], the
    vacuum. *)
Theorem collectGarbage_zero_budget_skips_sweep
    (fuel : nat) (env : Env) (opts : GCOptions) (res : GCResults) (w : System) :
  action opts <> gcDeleteSpecific ->
  maxFreed opts = 0%N ->
  collectGarbage settings pid canonPath absPath dirOf isInStore isStorePath
    toStorePath isDerivation readDirectory fuel env opts res w
  = (discoverRoots settings canonPath absPath dirOf isInStore isStorePath
       toStorePath readDirectory fuel env opts ;;;
     (if GCAction_eqb (action opts) gcDeleteDead
      then removeUnusedLinks settings ;;; vacuumDB
      else ret tt))
      (mkGC w (initialState settings opts res) [])
  /\ forall o g,
       collectGarbage settings pid canonPath absPath dirOf isInStore isStorePath
         toStorePath isDerivation readDirectory fuel env opts res w = Some (o, g) ->
       untouched w res g.
Proof.
  intros Ha Hm.
  assert (Hcl : classify settings pid isStorePath isDerivation fuel env opts = ret tt).
  { unfold classify. destruct (action opts); try congruence; simpl; now rewrite Hm. }
  split.
  - unfold collectGarbage. rewrite Hcl.
    set (g0 := mkGC w (initialState settings opts res) []).
    assert (H0 := initialState_untouched w res opts). fold g0 in H0.
    assert (Hdr := discoverRoots_untouched w res fuel env opts).
    set (dr := discoverRoots settings canonPath absPath dirOf isInStore isStorePath
                 toStorePath readDirectory fuel env opts) in *.
    destruct (dr g0) as [[[[] | e] g1]|] eqn:E.
    + assert (H1 : untouched w res g1) by (eapply Hdr; eauto).
      rewrite !(bind_ret dr _ g0 _ _ E).
      unfold bind at 1. unfold ret at 1. unfold cleanup.
      unfold bind at 1. unfold bind at 1. unfold get.
      destruct H1 as [_ [_ [_ [_ [_ [H6 _]]]]]]. rewrite H6. simpl.
      destruct (action opts); try congruence; simpl.
      * unfold bind, ret. reflexivity.
      * unfold bind, ret. reflexivity.
      * unfold bind, ret.
        destruct (removeUnusedLinks settings g1) as [[[[]|e] g2]|]; reflexivity.
    + rewrite !(bind_throw dr _ g0 _ _ E). reflexivity.
    + rewrite !(bind_none dr _ g0 E). reflexivity.
  - intros o g H. unfold collectGarbage in H.
    refine (preserves_bind (untouched w res) _ _ _ _ _ o g
              (initialState_untouched w res opts) H).
    + apply discoverRoots_untouched.
    + intros _. apply preserves_bind; [rewrite Hcl; apply preserves_ret|].
      intros _. apply cleanup_untouched.
Qed.

(** C9, as amended: the paths of [options.pathsToDelete] are processed
    in order.  When the paths [done] have been deleted and the next
    path [p] is found alive, [collectGarbage] ends there with the
    error for [p]: the state is the one [tryToDelete] left for [p],
    with every earlier deletion and invalidation in it, no later path
    is looked at, and neither the deletion of the renamed directories
    nor the link sweep runs. *)
Theorem deleteSpecific_stops_at_live_path
    (fuel : nat) (env : Env) (opts : GCOptions) (res : GCResults) (w : System)
    (done rest : list Path) (p : Path) (g0 g1 g2 : GC) :
  action opts = gcDeleteSpecific ->
  pathsToDelete opts = (done ++ p :: rest)%list ->
  discoverRoots settings canonPath absPath dirOf isInStore isStorePath
    toStorePath readDirectory fuel env opts
    (mkGC w (initialState settings opts res) []) = Some (Ret tt, g0) ->
  forEach done (deleteSpecificPath settings pid isStorePath isDerivation fuel) g0
  = Some (Ret tt, g1) ->
  isStorePath p = true ->
  liftSt (tryToDelete settings pid isStorePath isDerivation fuel p) g1
  = Some (Ret false, g2) ->
  collectGarbage settings pid canonPath absPath dirOf isInStore isStorePath
    toStorePath isDerivation readDirectory fuel env opts res w
  = Some (Throw (Error ("cannot delete path `" ++ p ++ "' since it is still alive")),
          g2).
Proof.
  intros Ha Hp H0 H1 Hsp H2.
  unfold collectGarbage.
  set (dr := discoverRoots settings canonPath absPath dirOf isInStore isStorePath
               toStorePath readDirectory fuel env opts) in *.
  rewrite (bind_ret dr _ _ _ _ H0).
  unfold classify. rewrite Ha. simpl.
  unfold deleteSpecific. rewrite Hp.
  set (body := deleteSpecificPath settings pid isStorePath isDerivation fuel) in *.
  unfold bind at 1. rewrite forEach_app.
  rewrite (bind_ret (forEach done body) _ _ _ _ H1). simpl.
  unfold bind at 1. unfold body at 1. unfold deleteSpecificPath.
  unfold bind at 1. unfold assertStorePath. rewrite Hsp.
  unfold ret at 1.
  rewrite (bind_ret (liftSt (tryToDelete settings pid isStorePath isDerivation fuel p))
             _ _ _ _ H2).
  reflexivity.
Qed.

End CollectorFrames.

(** A cycle with [maxFreed] zero on a store with dead paths. *)
Lemma collectGarbage_zero_budget_skips_sweep_witness :
  ExampleGC.collectGarbage 5 ExampleGC.env (Example.deleteDead 0)
    ExampleGC.noResults ExampleGC.rooted
  = (ExampleGC.discoverRoots 5 ExampleGC.env (Example.deleteDead 0) ;;;
     (if GCAction_eqb (action (Example.deleteDead 0)) gcDeleteDead
      then removeUnusedLinks Example.settings ;;; vacuumDB
      else ret tt))
      (mkGC ExampleGC.rooted
            (initialState Example.settings (Example.deleteDead 0) ExampleGC.noResults)
            [])
  /\ forall o g,
       ExampleGC.collectGarbage 5 ExampleGC.env (Example.deleteDead 0)
         ExampleGC.noResults ExampleGC.rooted = Some (o, g) ->
       untouched ExampleGC.rooted ExampleGC.noResults g.
Proof.
  apply (collectGarbage_zero_budget_skips_sweep Example.settings Example.pid
           ExampleRoots.canonPath ExampleRoots.absPath ExampleRoots.dirOf
           Example.isInStore Example.isStorePath ExampleRoots.toStorePath
           Example.isDerivation ExampleRoots.readDirectory
           5 ExampleGC.env (Example.deleteDead 0) ExampleGC.noResults ExampleGC.rooted).
  - discriminate.
  - reflexivity.
Defined.

(** [/nix/store/a] is deleted, then [/nix/store/b] is found alive. *)
Lemma deleteSpecific_stops_at_live_path_witness :
  ExampleGC.collectGarbage 5 ExampleGC.env ExampleSpecific.opts
    ExampleGC.noResults ExampleGC.rooted
  = Some (Throw (Error ("cannot delete path `" ++ "/nix/store/b"
                        ++ "' since it is still alive")),
          ExampleSpecific.afterB).
Proof.
  apply (deleteSpecific_stops_at_live_path Example.settings Example.pid
           ExampleRoots.canonPath ExampleRoots.absPath ExampleRoots.dirOf
           Example.isInStore Example.isStorePath ExampleRoots.toStorePath
           Example.isDerivation ExampleRoots.readDirectory
           5 ExampleGC.env ExampleSpecific.opts ExampleGC.noResults ExampleGC.rooted
           ["/nix/store/a"] [] "/nix/store/b"
           ExampleSpecific.afterRoots ExampleSpecific.afterA ExampleSpecific.afterB).
  - reflexivity.
  - reflexivity.
  - vm_compute. reflexivity.
  - vm_compute. reflexivity.
  - reflexivity.
  - vm_compute. reflexivity.
Defined.

(** C9 as stated fails in its last part: after the error for
    [/nix/store/b] the directory [/nix/store/a], invalidated and
    renamed before, is still on disk under its new name, and the link
    pool is as it was. *)
Lemma deleteSpecific_leaves_renamed_directories :
  exists g,
    ExampleGC.collectGarbage 5 ExampleGC.env ExampleSpecific.opts
      ExampleGC.noResults ExampleGC.rooted
    = Some (Throw (Error "cannot delete path `/nix/store/b' since it is still alive"), g)
    /\ Db.isValidPath (db (store (sys g))) "/nix/store/a" = false
    /\ fs (store (sys g)) "/nix/store/a" = None
    /\ invalidated (state g) = ["/nix/store/a-gc-4242"]
    /\ fs (store (sys g)) "/nix/store/a-gc-4242" = Some (mkStat S_IFDIR 493 6 true)
    /\ linkPool (sys g) = linkPool ExampleGC.rooted.
Proof.
  eexists. split; [vm_compute; reflexivity|]. repeat split.
Qed.

(** ** Invariants with exceptions *)

Section HoareRules.

Context {S : Type}.
Variables Inv Exc : S -> Prop.
Hypothesis Inv_Exc : forall s, Inv s -> Exc s.

Lemma hoare_ret {A} (a : A) : hoare Inv Exc (ret a).
Proof. intros s o s' HI H. inversion H; subst. exact HI. Qed.

Lemma hoare_throw {A} (e : Exn) : hoare Inv Exc (@throw S A e).
Proof. intros s o s' HI H. inversion H; subst. now apply Inv_Exc. Qed.

Lemma hoare_bind {A B} (m : M S A) (k : A -> M S B) :
  hoare Inv Exc m -> (forall a, hoare Inv Exc (k a)) -> hoare Inv Exc (bind m k).
Proof.
  intros Hm Hk s o s' HI H. apply bind_inv in H.
  destruct H as [[e [H ->]]|[a [s1 [H1 H2]]]].
  - exact (Hm _ _ _ HI H).
  - exact (Hk a _ _ _ (Hm _ _ _ HI H1) H2).
Qed.

Lemma hoare_modify (f : S -> S) :
  (forall s, Inv s -> Inv (f s)) -> hoare Inv Exc (modify f).
Proof. intros Hf s o s' HI H. inversion H; subst. now apply Hf. Qed.

Lemma hoare_get : hoare Inv Exc (@get S).
Proof. intros s o s' HI H. inversion H; subst. exact HI. Qed.

Lemma hoare_gets {A} (f : S -> A) : hoare Inv Exc (gets f).
Proof. intros s o s' HI H. inversion H; subst. exact HI. Qed.

Lemma hoare_forEach {A} (body : A -> M S unit) (xs : list A) :
  (forall x, In x xs -> hoare Inv Exc (body x)) -> hoare Inv Exc (forEach xs body).
Proof.
  induction xs as [|x t IH]; intros Hb; simpl.
  - apply hoare_ret.
  - apply hoare_bind; [apply Hb; now left|].
    intros _. apply IH. intros y Hy. apply Hb. now right.
Qed.

End HoareRules.

(** ** Unfolding [tryToDelete] and its loops *)

Section EngineEquations.

Variable settings : Settings.t.
Variable pid : string.
Variable isStorePath : Path -> bool.
Variable isDerivation : Path -> bool.

Lemma tryToDelete_S (fuel : nat) (path : Path) :
  tryToDelete settings pid isStorePath isDerivation (S fuel) path
  = (if String.eqb path (linksDir settings) then ret true else
     s <- get ;;
     match Fs.lstat (fs (fst s)) path with
     | None => ret true
     | Some st =>
         if PathSet.mem path (deleted (snd s)) then ret true else
         if PathSet.mem path (live (snd s)) then ret false else
         c <- candidates isStorePath isDerivation path ;;
         match c with
         | ActiveTemp => ret false
         | Members ps =>
             if anyRoot (snd s) ps then markLive ps ;;; ret false
             else
               gone <- referrersLoop
                         (tryToDelete settings pid isStorePath isDerivation fuel) ps
                         (collectReferrers (db (fst s)) ps) ;;
               if gone then
                 d <- gets (fun s : St => db (fst s)) ;;
                 forEach (Db.topoSortPaths d ps) (deleteMember pid st) ;;;
                 ret true
               else markLive ps ;;; ret false
         end
     end).
Proof. reflexivity. Qed.

Lemma expandPaths_nil (n : nat) (d : DB) (st : GCState) (ps : PathSet) :
  expandPaths isStorePath isDerivation (S n) d st ps [] = Some (Ret ps).
Proof. reflexivity. Qed.

Lemma expandPaths_cons (n : nat) (d : DB) (st : GCState) (ps : PathSet)
    (p : Path) (todo : PathSet) :
  expandPaths isStorePath isDerivation (S n) d st ps (p :: todo)
  = if isStorePath p then
      if PathSet.mem p ps then expandPaths isStorePath isDerivation (S n) d st ps todo
      else
        expandPaths isStorePath isDerivation n d st (PathSet.insert p ps)
          (if gcKeepOutputs st then
             PathSet.insert_all (Db.queryValidDerivers d p)
               (if gcKeepDerivations st && isDerivation p then
                  PathSet.insert_all
                    (filter (Db.isValidPath d) (Db.queryDerivationOutputs d p)) todo
                else todo)
           else
             if gcKeepDerivations st && isDerivation p then
               PathSet.insert_all
                 (filter (Db.isValidPath d) (Db.queryDerivationOutputs d p)) todo
             else todo)
    else Some (Throw (Error ("path `" ++ p ++ "' is not in the Nix store"))).
Proof. reflexivity. Qed.

(** [candidates] reads the state and leaves it as it is. *)
Lemma candidates_pure (path : Path) (s : St) (o : Outcome Candidates) (s' : St) :
  candidates isStorePath isDerivation path s = Some (o, s') -> s' = s.
Proof.
  unfold candidates. intros H.
  destruct (Db.isValidPath (db (fst s)) path).
  - destruct (expandPaths isStorePath isDerivation (expandFuel (db (fst s)))
                (db (fst s)) (snd s) [] (PathSet.insert path [])) as [[ps|e]|];
      inversion H; reflexivity.
  - destruct (isActiveTempFile (snd s) path ".lock"); [inversion H; reflexivity|].
    destruct (isActiveTempFile (snd s) path ".chroot"); inversion H; reflexivity.
Qed.

(** An invariant that [deleteMember] and [markLive] keep is kept by
    [tryToDelete]. *)
Section EngineInvariant.

Variables Inv Exc : St -> Prop.
Hypothesis Inv_Exc : forall s, Inv s -> Exc s.
Hypothesis deleteMember_keeps : forall st i, hoare Inv Exc (deleteMember pid st i).
Hypothesis markLive_keeps : forall ps, hoare Inv Exc (markLive ps).

Lemma referrersLoop_hoare (rec : Path -> M St bool) (ps : PathSet) (rs : list Path) :
  (forall p, hoare Inv Exc (rec p)) -> hoare Inv Exc (referrersLoop rec ps rs).
Proof.
  intros Hrec. induction rs as [|r rest IH]; simpl.
  - apply hoare_ret.
  - destruct (PathSet.mem r ps); [exact IH|].
    apply hoare_bind; [apply Hrec|].
    intros [|]; [exact IH | apply hoare_ret].
Qed.

Lemma tryToDelete_hoare (fuel : nat) (path : Path) :
  hoare Inv Exc (tryToDelete settings pid isStorePath isDerivation fuel path).
Proof.
  revert path. induction fuel as [|fuel IH]; intros path.
  - intros s o s' _ H. discriminate.
  - rewrite tryToDelete_S.
    destruct (String.eqb path (linksDir settings)); [apply hoare_ret|].
    intros s o s' HI H. unfold bind at 1 in H. unfold get in H.
    destruct (Fs.lstat (fs (fst s)) path) as [st|];
      [|exact (hoare_ret Inv Exc true s o s' HI H)].
    destruct (PathSet.mem path (deleted (snd s)));
      [exact (hoare_ret Inv Exc true s o s' HI H)|].
    destruct (PathSet.mem path (live (snd s)));
      [exact (hoare_ret Inv Exc false s o s' HI H)|].
    apply bind_inv in H. destruct H as [[e [H ->]]|[c [s1 [H1 H2]]]].
    + apply candidates_pure in H. subst. now apply Inv_Exc.
    + apply candidates_pure in H1. subst s1.
      destruct c as [|ps]; [exact (hoare_ret Inv Exc false s o s' HI H2)|].
      match type of H2 with
      | ?k _ = _ => assert (HK : hoare Inv Exc k)
      end; [|exact (HK _ _ _ HI H2)].
      destruct (anyRoot (snd s) ps).
      * apply hoare_bind; [apply markLive_keeps | intros _; now apply hoare_ret].
      * apply hoare_bind; [apply referrersLoop_hoare; exact IH|].
        intros [|].
        -- apply hoare_bind; [now apply hoare_gets|]. intros d.
           apply hoare_bind; [|intros _; now apply hoare_ret].
           apply hoare_forEach. intros i _. apply deleteMember_keeps.
        -- apply hoare_bind; [apply markLive_keeps | intros _; now apply hoare_ret].
Qed.

End EngineInvariant.

End EngineEquations.

(** ** The budget *)

Lemma triple_bind {S A B} (P : S -> Prop) (m : M S A) (Q : A -> S -> Prop)
    (k : A -> M S B) (R : B -> S -> Prop) (E : S -> Prop) :
  triple P m Q E -> (forall a, triple (Q a) (k a) R E) -> triple P (bind m k) R E.
Proof.
  intros Hm Hk s o s' HP H. apply bind_inv in H.
  destruct H as [[e [H ->]]|[a [s1 [H1 H2]]]].
  - exact (Hm _ _ _ HP H).
  - exact (Hk a _ _ _ (Hm _ _ _ HP H1) H2).
Qed.

Lemma triple_modify {S} (P Q E : S -> Prop) (f : S -> S) :
  (forall s, P s -> Q (f s)) -> triple P (modify f) (fun _ => Q) E.
Proof. intros Hf s o s' HP H. inversion H; subst. now apply Hf. Qed.

Lemma triple_ret {S A} (P E : S -> Prop) (a : A) : triple P (ret a) (fun _ => P) E.
Proof. intros s o s' HP H. inversion H; subst. exact HP. Qed.

Lemma triple_hoare {S A} (Inv Exc : S -> Prop) (m : M S A) :
  triple Inv m (fun _ => Inv) Exc <-> hoare Inv Exc m.
Proof. split; intros H; exact H. Qed.

Lemma add64_grow_right (a b n L B : N) :
  (add64 a b <= L)%N -> (n <= B)%N -> (add64 a (add64 b n) <= L + B)%N.
Proof.
  unfold add64. intros H Hn.
  rewrite N.Div0.add_mod_idemp_r, N.add_assoc, <- N.Div0.add_mod_idemp_l.
  etransitivity; [apply N.Div0.mod_le|]. lia.
Qed.

Lemma add64_grow_left (a b n L B : N) :
  (add64 a b <= L)%N -> (n <= B)%N -> (add64 (add64 a n) b <= L + B)%N.
Proof.
  unfold add64. intros H Hn.
  rewrite N.Div0.add_mod_idemp_l.
  replace (a + n + b)%N with (a + b + n)%N by lia.
  rewrite <- N.Div0.add_mod_idemp_l.
  etransitivity; [apply N.Div0.mod_le|]. lia.
Qed.

Lemma sizes_set (B : N) (f : FS) (q : Path) (v : option Stat) :
  (forall p st, f p = Some st -> (st_bytes st mod two64 <= B)%N) ->
  (forall st, v = Some st -> (st_bytes st mod two64 <= B)%N) ->
  forall p st, Fs.set f q v p = Some st -> (st_bytes st mod two64 <= B)%N.
Proof.
  intros Hf Hv p st. unfold Fs.set.
  destruct (String.eqb p q); [apply Hv | apply Hf].
Qed.

(** ** [chmod] and the links it follows *)

Lemma follow_entry (n : nat) (f : FS) (p q : Path) (st : Stat) :
  Fs.follow n f p = Some (q, st) ->
  f q = Some st
  /\ (forall t, st_type st <> S_IFLNK t)
  /\ (forall sp, f p = Some sp -> (forall t, st_type sp <> S_IFLNK t) -> q = p).
Proof.
  revert p. induction n as [|n IH]; intros p H; simpl in H.
  - destruct (f p) as [sp|] eqn:E; [|discriminate].
    destruct (st_type sp) eqn:T; inversion H; subst q st;
      (split; [exact E|]); (split; [intros t; congruence|]);
      intros sp' _ _; reflexivity.
  - destruct (f p) as [sp|] eqn:E; [|discriminate].
    destruct (st_type sp) eqn:T.
    + inversion H; subst q st. split; [exact E|].
      split; [intros t; congruence | intros; reflexivity].
    + inversion H; subst q st. split; [exact E|].
      split; [intros t; congruence | intros; reflexivity].
    + destruct (IH _ H) as [K1 [K2 _]]. split; [exact K1|]. split; [exact K2|].
      intros sp' Hsp Hl. inversion Hsp; subst sp'. destruct (Hl _ T).
Qed.

(** [chmod] changes one entry, the one the path leads to, and its
    permission bits only. *)
Lemma chmod_entry (f f' : FS) (p : Path) (mode : N) :
  Fs.chmod f p mode = Some f' ->
  exists q st,
    f q = Some st
    /\ f' = Fs.set f q (Some (mkStat (st_type st) mode (st_bytes st) (st_entries st)))
    /\ (forall sp, f p = Some sp -> (forall t, st_type sp <> S_IFLNK t) -> q = p).
Proof.
  unfold Fs.chmod. intros H.
  destruct (Fs.follow Fs.SYMLOOP_MAX f p) as [[q st]|] eqn:E; [|discriminate].
  inversion H; subst f'. destruct (follow_entry _ _ _ _ _ E) as [K1 [_ K3]].
  exists q, st. split; [exact K1|]. split; [reflexivity | exact K3].
Qed.

Lemma sameButMode_refl (a : option Stat) : sameButMode a a.
Proof. destruct a; simpl; auto. Qed.

Lemma sameButMode_sym (a b : option Stat) : sameButMode a b -> sameButMode b a.
Proof. destruct a, b; simpl; intuition congruence. Qed.

Lemma sameButMode_trans (a b c : option Stat) :
  sameButMode a b -> sameButMode b c -> sameButMode a c.
Proof. destruct a, b, c; simpl; intuition congruence. Qed.

Lemma sameButMode_none (a b : option Stat) :
  sameButMode a b -> (a = None <-> b = None).
Proof. destruct a, b; simpl; intuition congruence. Qed.

Lemma chmod_sameButMode (f f' : FS) (p : Path) (mode : N) :
  Fs.chmod f p mode = Some f' -> forall q, sameButMode (f' q) (f q).
Proof.
  intros H q. destruct (chmod_entry _ _ _ _ H) as [r [st [K1 [-> _]]]].
  unfold Fs.set. destruct (String.eqb q r) eqn:E; [|apply sameButMode_refl].
  apply String.eqb_eq in E. subst r. rewrite K1. simpl. auto.
Qed.

Section Budget.

Variable settings : Settings.t.
Variable pid : string.
Variable isStorePath : Path -> bool.
Variable isDerivation : Path -> bool.
Variables limit B : N.

Lemma budget_weaken (s : St) : budget limit B limit s -> budget limit B (limit + B) s.
Proof. intros [H1 [H2 H3]]. split; [exact H1|]. split; [exact H2|]. lia. Qed.

Lemma invalidatePathChecked_budget (bound : N) (i : Path) :
  hoare (budget limit B bound) (budget limit B bound) (invalidatePathChecked i).
Proof.
  intros s o s' HI H. unfold invalidatePathChecked, Db.invalidatePathChecked in H.
  destruct s as [[d f] st].
  destruct (Db.isValidPath (db (fst (mkStore d f, st))) i).
  - destruct (PathSet.erase i (Db.queryReferrers (db (fst (mkStore d f, st))) i));
      inversion H; subst o s'; exact HI.
  - inversion H; subst o s'. exact HI.
Qed.

Lemma chmod_budget (bound : N) (i : Path) (mode : N) :
  hoare (budget limit B bound) (budget limit B bound) (chmod i mode).
Proof.
  intros s o s' HI H. unfold chmod in H.
  destruct (Fs.chmod (fs (fst s)) i mode) as [f'|] eqn:E; inversion H; subst o s';
    [|exact HI].
  destruct (chmod_entry _ _ _ _ E) as [q [st [K1 [-> _]]]].
  destruct HI as [[H1 H2] H3]. split; [split|exact H3]; [exact H1|]. simpl.
  apply sizes_set; [exact H2|]. intros st' Hst'. inversion Hst'; subst st'. simpl.
  exact (H2 _ _ K1).
Qed.

Lemma rename_budget (bound : N) (src dst : Path) :
  hoare (budget limit B bound) (budget limit B bound) (rename src dst).
Proof.
  intros s o s' HI H. unfold rename, Fs.rename in H.
  assert (Hmoved : forall st, fs (fst s) src = Some st ->
            budget limit B bound
              (mkStore (db (fst s))
                       (Fs.set (Fs.set (fs (fst s)) src None) dst (Some st)), snd s)).
  { intros st Hst. destruct HI as [[H1 H2] H3].
    split; [split|exact H3]; [exact H1|]. simpl. apply sizes_set.
    - apply sizes_set; [exact H2 | discriminate].
    - intros st' E. inversion E; subst st'. exact (H2 _ _ Hst). }
  destruct (fs (fst s) src) as [st|] eqn:E; [|inversion H; subst o s'; exact HI].
  specialize (Hmoved st eq_refl).
  destruct (String.eqb src dst);
    [inversion H; subst o s'; destruct s as [[d f] x]; exact HI|].
  destruct (fs (fst s) dst) as [dn|].
  - destruct (Fs.S_ISDIR st), (Fs.S_ISDIR dn); try destruct (st_entries dn);
      inversion H; subst o s'; assumption.
  - inversion H; subst o s'; assumption.
Qed.

Lemma deleteGarbage_budget (i : Path) :
  triple (budget limit B limit) (deleteGarbage i)
         (fun _ => budget limit B (limit + B)) (budget limit B (limit + B)).
Proof.
  intros s o s' HI H. unfold deleteGarbage, modify, Fs.deletePathWrapped in H.
  destruct HI as [[H1 H2] [H3 H4]].
  destruct (fs (fst s) i) as [st|] eqn:E; inversion H; subst o s'; simpl.
  - split; [split|split]; simpl.
    + exact H1.
    + apply sizes_set; [exact H2 | discriminate].
    + exact H3.
    + unfold spent. simpl. apply add64_grow_left; [exact H4 | exact (H2 _ _ E)].
  - split; [split|split]; simpl; try assumption.
    unfold spent. simpl. apply add64_grow_left; [exact H4 | apply N.le_0_l].
Qed.

Lemma checkLimit_budget :
  triple (budget limit B (limit + B)) checkLimit
         (fun _ => budget limit B limit) (budget limit B (limit + B)).
Proof.
  intros s o s' HI H. unfold checkLimit in H. fold (spent (snd s)) in H.
  destruct (N.ltb_spec (maxFreed (options (snd s))) (spent (snd s))) as [Hlt|Hle];
    inversion H; subst o s'.
  - exact HI.
  - destruct HI as [H1 [H3 H4]]. split; [exact H1|]. split; [exact H3|].
    rewrite <- H3. exact Hle.
Qed.

Lemma deleteMember_budget (st : Stat) (i : Path) :
  hoare (budget limit B limit) (budget limit B (limit + B)) (deleteMember pid st i).
Proof.
  apply triple_hoare. unfold deleteMember.
  intros s o s' HI H. unfold bind at 1 in H. unfold get in H.
  assert (Hs := HI).
  refine (triple_bind (budget limit B limit) _ (fun _ => budget limit B limit) _
            (fun _ => budget limit B limit) (budget limit B (limit + B))
            _ _ s o s' HI H).
  - destruct (shouldDelete (action (options (snd s)))); [|apply triple_ret].
    apply (triple_bind _ _ (fun _ => budget limit B (limit + B)));
      [|intros _; apply checkLimit_budget].
    destruct (Db.isValidPath (db (fst s)) i); [|apply deleteGarbage_budget].
    destruct (Fs.S_ISDIR st).
    + apply (triple_bind _ _ (fun _ => budget limit B (limit + B))).
      * apply triple_modify. intros s1 [H1 [H3 H4]].
        split; [exact H1|]. split; [exact H3|]. unfold spent. simpl.
        apply add64_grow_right; [exact H4|].
        destruct Hs as [[Hn _] _]. apply Hn.
      * intros _.
        apply (triple_bind _ _ (fun _ => budget limit B (limit + B)));
          [apply invalidatePathChecked_budget|]. intros _.
        apply (triple_bind _ _ (fun _ => budget limit B (limit + B)));
          [apply chmod_budget|]. intros _.
        apply (triple_bind _ _ (fun _ => budget limit B (limit + B)));
          [apply rename_budget|]. intros _.
        apply triple_modify. intros s1 H1. exact H1.
    + apply (triple_bind _ _ (fun _ => budget limit B limit)).
      * intros s1 o1 s1' HI1 H1.
        assert (K := invalidatePathChecked_budget limit i s1 o1 s1' HI1 H1).
        destruct o1; [exact K | now apply budget_weaken].
      * intros _; apply deleteGarbage_budget.
  - intros _. apply triple_modify. intros s1 [H1 [H2 H3]].
    destruct (GCAction_eqb (action (options (snd s1))) gcReturnLive);
      (split; [exact H1|split; [exact H2|exact H3]]).
Qed.

Lemma markLive_budget (ps : PathSet) :
  hoare (budget limit B limit) (budget limit B (limit + B)) (markLive ps).
Proof.
  apply hoare_forEach. intros i _. apply hoare_modify.
  intros s [H1 [H2 H3]].
  destruct (GCAction_eqb (action (options (snd s))) gcReturnLive);
    (split; [exact H1|split; [exact H2|exact H3]]).
Qed.

(** Whenever [tryToDelete] returns, the counters are within
    [maxFreed]; whenever it throws, they exceed it by no more than one
    path. *)
Lemma tryToDelete_budget (fuel : nat) (path : Path) :
  hoare (budget limit B limit) (budget limit B (limit + B))
        (tryToDelete settings pid isStorePath isDerivation fuel path).
Proof.
  apply tryToDelete_hoare.
  - apply budget_weaken.
  - apply deleteMember_budget.
  - apply markLive_budget.
Qed.

End Budget.

(** ** What root discovery throws and what it leaves alone *)

Lemma throwsOnly_ret {S A} (P : Exn -> Prop) (a : A) : throwsOnly P (@ret S A a).
Proof. intros s e s' H. discriminate. Qed.

Lemma throwsOnly_modify {S} (P : Exn -> Prop) (f : S -> S) : throwsOnly P (modify f).
Proof. intros s e s' H. discriminate. Qed.

Lemma throwsOnly_bind {S A B} (P : Exn -> Prop) (m : M S A) (k : A -> M S B) :
  throwsOnly P m -> (forall a, throwsOnly P (k a)) -> throwsOnly P (bind m k).
Proof.
  intros Hm Hk s e s' H. apply bind_inv in H.
  destruct H as [[e' [H E]]|[a [s1 [H1 H2]]]].
  - inversion E; subst. exact (Hm _ _ _ H).
  - exact (Hk a _ _ _ H2).
Qed.

Lemma throwsOnly_forEach {S A} (P : Exn -> Prop) (body : A -> M S unit) (xs : list A) :
  (forall x, throwsOnly P (body x)) -> throwsOnly P (forEach xs body).
Proof.
  intros Hb. induction xs as [|x t IH]; simpl.
  - apply throwsOnly_ret.
  - apply throwsOnly_bind; [apply Hb | intros _; exact IH].
Qed.

Lemma assertStorePath_throws {S} (isStorePath : Path -> bool) (p : Path) :
  throwsOnly isFailure (@assertStorePath isStorePath S p).
Proof.
  intros s e s' H. unfold assertStorePath in H.
  destruct (isStorePath p); inversion H. left. eexists. reflexivity.
Qed.

Lemma readTempRoots_throws (isStorePath : Path -> bool) :
  throwsOnly isFailure (readTempRoots isStorePath).
Proof.
  intros s e s' H. unfold readTempRoots, readTempRootsFrom in H. revert H.
  apply throwsOnly_forEach. clear. intros name s e s' H.
  unfold readTempRootsFile in H.
  destruct (Temp.lookup (fst s) name) as [fd|]; [|discriminate].
  destruct (Temp.inode (fst s) fd) as [i|]; [|discriminate].
  destruct (denied i); [inversion H; right; eexists; reflexivity|].
  assert (K : forall s0,
             (forEach (Temp.parseRoots (content i) EmptyString)
                (fun root =>
                   assertStorePath isStorePath root ;;;
                   modify (fun s : TR =>
                     (fst s, (PathSet.insert root (fst (snd s)), snd (snd s))))) ;;;
              modify (fun s : TR =>
                (fst s, (fst (snd s), (snd (snd s) ++ [fd])%list)))) s0
             = Some (Throw e, s') -> isFailure e).
  { intros s0. apply throwsOnly_bind; [|intros _; apply throwsOnly_modify].
    apply throwsOnly_forEach. intros root.
    apply throwsOnly_bind; [apply assertStorePath_throws|].
    intros _. apply throwsOnly_modify. }
  destruct (owner i); [discriminate | exact (K _ H) | exact (K _ H)].
Qed.

Lemma findRootsAt_throws (absPath : Path -> Path -> Path) (dirOf : Path -> Path)
    (isInStore : Path -> bool) (toStorePath : Path -> Path)
    (readDirectory : OuterFS -> Path -> list string) (fuel : nat) :
  forall d path recurseSymlinks deleteStale,
    throwsOnly (fun e => exists m, e = SysError m)
      (findRootsAt absPath dirOf isInStore toStorePath readDirectory
                   fuel d path recurseSymlinks deleteStale).
Proof.
  assert (Hh : forall e msg, throwsOnly (fun e => exists m, e = SysError m)
                               (@handleSysError (OuterFS * Roots) e msg)).
  { intros e msg s x s' H. unfold handleSysError in H.
    destruct (permanentFailure e); inversion H. eexists. reflexivity. }
  induction fuel as [|fuel IH]; intros d path rec del s e s' H; [discriminate|].
  simpl in H. destruct (fst s path) as [[|t| |er]|]; try discriminate.
  - refine (throwsOnly_forEach (fun e => exists m, e = SysError m) _ _ _ s e s' H).
    intros name. apply IH.
  - destruct (isInStore (absPath t (dirOf path))).
    + destruct (Db.isValidPath d _); discriminate.
    + destruct rec; [|discriminate].
      destruct (Outer.pathExists (fst s) (absPath t (dirOf path))) as [er|[|]].
      * exact (Hh _ _ _ _ _ H).
      * exact (IH _ _ _ _ _ _ _ H).
      * destruct del; discriminate.
  - exact (Hh _ _ _ _ _ H).
Qed.

Lemma findRoots_throws (settings : Settings.t) (canonPath : Path -> Path)
    (absPath : Path -> Path -> Path) (dirOf : Path -> Path)
    (isInStore : Path -> bool) (toStorePath : Path -> Path)
    (readDirectory : OuterFS -> Path -> list string)
    (fuel : nat) (d : DB) (deleteStale : bool) :
  throwsOnly (fun e => exists m, e = SysError m)
    (findRoots settings canonPath absPath dirOf isInStore toStorePath
               readDirectory fuel d deleteStale).
Proof.
  intros o e o' H. unfold findRoots in H.
  destruct (findRootsAt absPath dirOf isInStore toStorePath readDirectory fuel d
              (rootsDirPath settings canonPath) true deleteStale (o, []))
    as [[[u|e2] s2]|] eqn:E2; inversion H; subst.
  exact (findRootsAt_throws absPath dirOf isInStore toStorePath readDirectory
           fuel _ _ _ _ _ _ _ E2).
Qed.

Section RootDiscovery.

Variable settings : Settings.t.
Variable canonPath : Path -> Path.
Variable absPath : Path -> Path -> Path.
Variable dirOf : Path -> Path.
Variable isInStore : Path -> bool.
Variable isStorePath : Path -> bool.
Variable toStorePath : Path -> Path.
Variable readDirectory : OuterFS -> Path -> list string.

Lemma discoverRoots_throws (fuel : nat) (env : Env) (opts : GCOptions) :
  throwsOnly isFailure
    (discoverRoots settings canonPath absPath dirOf isInStore isStorePath
       toStorePath readDirectory fuel env opts).
Proof.
  unfold discoverRoots.
  apply throwsOnly_bind; [|intros _; apply throwsOnly_bind;
                            [|intros _; apply throwsOnly_bind]].
  - intros g e g' H. destruct (ignoreLiveness opts); [discriminate|].
    destruct (findRoots settings canonPath absPath dirOf isInStore toStorePath
                readDirectory fuel (db (store (sys g))) true (outer (sys g)))
      as [[[rootMap|e1] o1]|] eqn:E; [discriminate| |discriminate].
    inversion H; subst. unfold findRoots in E.
    destruct (findRootsAt absPath dirOf isInStore toStorePath readDirectory fuel
                (db (store (sys g))) (rootsDirPath settings canonPath) true true
                (outer (sys g), [])) as [[[u|e2] s2]|] eqn:E2; inversion E; subst.
    right.
    exact (findRootsAt_throws absPath dirOf isInStore toStorePath readDirectory
             fuel _ _ _ _ _ _ _ E2).
  - destruct (ignoreLiveness opts); [apply throwsOnly_ret|].
    destruct (rootFinder env); [|apply throwsOnly_ret].
    intros g e g' H. discriminate.
  - intros g e g' H. unfold liftTR in H.
    destruct (readTempRoots isStorePath (temp (sys g), (tempRoots (state g), fds g)))
      as [[[a|e1] s1]|] eqn:E; inversion H; subst.
    exact (readTempRoots_throws isStorePath _ _ _ E).
  - intros _ g e g' H. discriminate.
Qed.

Lemma discoverRoots_core (fuel : nat) (env : Env) (opts : GCOptions) (c : St) :
  preserves (fun g => core g = c)
    (discoverRoots settings canonPath absPath dirOf isInStore isStorePath
       toStorePath readDirectory fuel env opts).
Proof.
  unfold discoverRoots.
  apply preserves_bind; [|intros _; apply preserves_bind;
                           [|intros _; apply preserves_bind]].
  - intros g o g' HP H. destruct (ignoreLiveness opts).
    + inversion H; subst o g'. exact HP.
    + destruct (findRoots settings canonPath absPath dirOf isInStore toStorePath
                  readDirectory fuel (db (store (sys g))) true (outer (sys g)))
        as [[[rootMap|e] o1]|]; [| |discriminate]; inversion H; subst o g'; exact HP.
  - destruct (ignoreLiveness opts); [apply preserves_ret|].
    destruct (rootFinder env) as [lines|]; [|apply preserves_ret].
    intros g o g' HP H. inversion H; subst o g'. exact HP.
  - intros g o g' HP H. unfold liftTR in H.
    destruct (readTempRoots isStorePath (temp (sys g), (tempRoots (state g), fds g)))
      as [[o1 s1]|]; [|discriminate].
    inversion H; subst o g'. exact HP.
  - intros _. apply preserves_modify. intros g HP. exact HP.
Qed.

End RootDiscovery.

(** ** The budget of a sweep *)

Lemma liftSt_hoare {A} (Inv Exc : St -> Prop) (m : M St A) :
  hoare Inv Exc m -> hoare (atStore Inv) (atStore Exc) (liftSt m).
Proof.
  intros Hm g o g' HI H. unfold liftSt in H.
  destruct (m (store (sys g), state g)) as [[o1 [ls st]]|] eqn:E; [|discriminate].
  inversion H; subst. exact (Hm _ _ _ HI E).
Qed.

Lemma catchLimit_hoare {S} (Inv Exc : S -> Prop) (m : M S unit) :
  (forall s, Inv s -> Exc s) ->
  hoare Inv Exc m ->
  forall s o s', Inv s -> catchLimit m s = Some (o, s') ->
    Exc s' /\ o <> Throw GCLimitReached.
Proof.
  intros Hw Hm s o s' HI H. unfold catchLimit in H.
  destruct (m s) as [[[[]|e] s1]|] eqn:E.
  - inversion H; subst. split; [|discriminate]. apply Hw. exact (Hm _ _ _ HI E).
  - assert (K := Hm _ _ _ HI E). simpl in K.
    destruct e; inversion H; subst; (split; [exact K | discriminate]).
  - discriminate.
Qed.

Section SweepBudget.

Variable settings : Settings.t.
Variable pid : string.
Variable canonPath : Path -> Path.
Variable absPath : Path -> Path -> Path.
Variable dirOf : Path -> Path.
Variable isInStore : Path -> bool.
Variable isStorePath : Path -> bool.
Variable toStorePath : Path -> Path.
Variable isDerivation : Path -> bool.
Variable readDirectory : OuterFS -> Path -> list string.
Variables limit B : N.

Lemma readStore_budget (fuel : nat) (names : list string) (found : Paths) :
  hoare (atStore (budget limit B limit)) (atStore (budget limit B (limit + B)))
        (readStore settings pid isStorePath isDerivation fuel names found).
Proof.
  revert found. induction names as [|name rest IH]; intros found; simpl.
  - apply hoare_ret.
  - destruct (String.eqb name "." || String.eqb name ".."); [apply IH|].
    apply hoare_bind; [apply hoare_get|]. intros g.
    destruct (Db.isValidPath (db (store (sys g))) _); [apply IH|].
    apply hoare_bind; [|intros _; apply IH].
    apply liftSt_hoare. apply tryToDelete_budget.
Qed.

Lemma sweep_budget (fuel : nat) (env : Env) :
  hoare (atStore (budget limit B limit)) (atStore (budget limit B (limit + B)))
        (sweep settings pid isStorePath isDerivation fuel env).
Proof.
  unfold sweep. apply hoare_bind; [apply readStore_budget|]. intros found.
  apply hoare_forEach. intros i _.
  apply hoare_bind; [|intros _; apply hoare_ret].
  apply liftSt_hoare. apply tryToDelete_budget.
Qed.

(** C5, as amended.  For an action other than [gcDeleteSpecific], the
    cycle up to the release of the lock (root discovery and the
    sweep) never ends with the [GCLimitReached] sentinel: the
    collector catches it.  When the caller's [bytesFreed] starts
    within [maxFreed] and no path accounts for more than [B] bytes,
    the sum [bytesFreed + bytesInvalidated] (in 64-bit arithmetic) is
    at most [maxFreed + B] at that point. *)
Theorem sweep_budget_ceiling
    (fuel : nat) (env : Env) (opts : GCOptions) (res : GCResults) (w : System)
    (o : Outcome unit) (g : GC) :
  action opts <> gcDeleteSpecific ->
  maxFreed opts = limit ->
  (bytesFreed res <= limit)%N ->
  sizesWithin B (store w) ->
  (discoverRoots settings canonPath absPath dirOf isInStore isStorePath
     toStorePath readDirectory fuel env opts ;;;
   classify settings pid isStorePath isDerivation fuel env opts)
    (mkGC w (initialState settings opts res) []) = Some (o, g) ->
  o <> Throw GCLimitReached
  /\ (add64 (bytesFreed (results (state g))) (bytesInvalidated (state g))
      <= maxFreed opts + B)%N.
Proof.
  intros Ha Hl Hres Hsz H.
  set (g0 := mkGC w (initialState settings opts res) []) in *.
  assert (H0 : budget limit B limit (core g0)).
  { unfold core, g0, initialState.
    destruct (GCAction_eqb (action opts) gcDeleteSpecific && ignoreLiveness opts);
      (split; [exact Hsz|split; [exact Hl|]]); unfold spent, add64; simpl;
      rewrite N.add_0_r; (etransitivity; [apply N.Div0.mod_le | exact Hres]). }
  assert (Hcore : forall g', core g' = core g0 -> atStore (budget limit B limit) g').
  { intros g' E. unfold atStore. rewrite <- E in H0. exact H0. }
  assert (Hend : forall g', atStore (budget limit B (limit + B)) g' ->
            (add64 (bytesFreed (results (state g'))) (bytesInvalidated (state g'))
             <= maxFreed opts + B)%N).
  { intros g' [_ [_ K]]. rewrite Hl. exact K. }
  apply bind_inv in H. destruct H as [[e [H ->]]|[[] [g1 [H1 H2]]]].
  - split.
    + intros E. inversion E; subst.
      destruct (discoverRoots_throws settings canonPath absPath dirOf isInStore
                  isStorePath toStorePath readDirectory fuel env opts _ _ _ H)
        as [[msg Hmsg]|[msg Hmsg]]; discriminate.
    + apply Hend. apply budget_weaken. apply Hcore.
      exact (discoverRoots_core settings canonPath absPath dirOf isInStore
               isStorePath toStorePath readDirectory fuel env opts (core g0)
               g0 _ _ eq_refl H).
  - assert (I1 : atStore (budget limit B limit) g1).
    { apply Hcore.
      exact (discoverRoots_core settings canonPath absPath dirOf isInStore
               isStorePath toStorePath readDirectory fuel env opts (core g0)
               g0 _ _ eq_refl H1). }
    unfold classify in H2.
    destruct (GCAction_eqb (action opts) gcDeleteSpecific) eqn:Ea;
      [destruct (action opts); simpl in Ea; congruence|].
    destruct (0 <? maxFreed opts)%N.
    + destruct (catchLimit_hoare (atStore (budget limit B limit))
                  (atStore (budget limit B (limit + B)))
                  (sweep settings pid isStorePath isDerivation fuel env)
                  (fun g' K => budget_weaken limit B _ K)
                  (sweep_budget fuel env) _ _ _ I1 H2) as [K1 K2].
      split; [exact K2 | apply Hend; exact K1].
    + inversion H2; subst. split; [discriminate|].
      apply Hend. apply budget_weaken. exact I1.
Qed.

End SweepBudget.

Lemma threeDirs_sizes : sizesWithin 6 ExampleGC.threeDirs.
Proof.
  split.
  - intros p. vm_compute. discriminate.
  - intros p st. unfold ExampleGC.threeDirs. simpl.
    repeat (destruct (String.eqb p _);
            [intros E; inversion E; subst st; vm_compute; discriminate|]).
    discriminate.
Qed.

(** A sweep with a budget of ten bytes over three dead directories of
    six bytes stops after the second. *)
Lemma sweep_budget_ceiling_witness :
  Ret tt <> Throw GCLimitReached
  /\ (add64 (bytesFreed (results (state ExampleBudget.afterSweep)))
            (bytesInvalidated (state ExampleBudget.afterSweep))
      <= maxFreed ExampleBudget.opts + 6)%N.
Proof.
  apply (sweep_budget_ceiling Example.settings Example.pid
           ExampleRoots.canonPath ExampleRoots.absPath ExampleRoots.dirOf
           Example.isInStore Example.isStorePath ExampleRoots.toStorePath
           Example.isDerivation ExampleRoots.readDirectory 10%N 6%N
           5 ExampleGC.env ExampleBudget.opts ExampleGC.noResults ExampleGC.unrooted
           (Ret tt) ExampleBudget.afterSweep).
  - discriminate.
  - reflexivity.
  - vm_compute. discriminate.
  - exact threeDirs_sizes.
  - vm_compute. reflexivity.
Defined.

(** C5 as stated fails at termination.  After the sweep above the two
    renamed directories are deleted, which credits their bytes to
    [bytesFreed] a second time: the sum is 24, above [maxFreed] plus
    the six bytes of one path.  And with [gcDeleteSpecific] the
    sentinel leaves [collectGarbage] uncaught. *)
Lemma budget_exceeded_at_termination :
  (exists g,
     ExampleGC.collectGarbage 5 ExampleGC.env ExampleBudget.opts
       ExampleGC.noResults ExampleGC.unrooted = Some (Ret tt, g)
     /\ bytesFreed (results (state g)) = 12%N
     /\ bytesInvalidated (state g) = 12%N
     /\ (maxFreed ExampleBudget.opts + 6
         < add64 (bytesFreed (results (state g))) (bytesInvalidated (state g)))%N)
  /\ (exists g,
        ExampleGC.collectGarbage 5 ExampleGC.env
          (mkOptions gcDeleteSpecific false ["/nix/store/a"] 1)
          ExampleGC.noResults ExampleGC.unrooted = Some (Throw GCLimitReached, g)).
Proof.
  split.
  - eexists. split; [vm_compute; reflexivity|]. repeat split.
  - eexists. vm_compute. reflexivity.
Qed.

(** ** The expansion of a candidate *)



Section Expansion.

Variable isStorePath : Path -> bool.
Variable isDerivation : Path -> bool.
Variable d : DB.
Variable st : GCState.

(** The new [todo] in terms of [keepers]. *)
Lemma In_grown (p : Path) (todo : PathSet) (x : Path) :
  In x (if gcKeepOutputs st then
          PathSet.insert_all (Db.queryValidDerivers d p)
            (if gcKeepDerivations st && isDerivation p then
               PathSet.insert_all
                 (filter (Db.isValidPath d) (Db.queryDerivationOutputs d p)) todo
             else todo)
        else
          if gcKeepDerivations st && isDerivation p then
            PathSet.insert_all
              (filter (Db.isValidPath d) (Db.queryDerivationOutputs d p)) todo
          else todo)
  <-> In x (keepers isDerivation d st p) \/ In x todo.
Proof.
  unfold keepers. rewrite in_app_iff.
  destruct (gcKeepOutputs st), (gcKeepDerivations st && isDerivation p);
    repeat rewrite In_insert_all; simpl; tauto.
Qed.

Lemma keepers_valid (q x : Path) :
  In x (keepers isDerivation d st q) -> In x (validPaths d).
Proof.
  unfold keepers. rewrite in_app_iff. intros [H|H].
  - destruct (gcKeepDerivations st && isDerivation q); [|destruct H].
    apply filter_In in H. destruct H as [_ H]. now apply mem_In.
  - destruct (gcKeepOutputs st); [|destruct H].
    unfold Db.queryValidDerivers in H. apply (proj1 (In_of_list _ _)) in H.
    apply in_map_iff in H. destruct H as [e [<- H]].
    apply filter_In in H. destruct H as [_ H].
    apply andb_prop in H. destruct H as [_ H]. now apply mem_In.
Qed.

(** What the loop returns holds what it started with, only members
    with the property [V] of the start and of all keepers, and the
    keepers of all its members. *)
Lemma expandPaths_spec (V : Path -> Prop) (n : nat) :
  (forall q x, In x (keepers isDerivation d st q) -> V x) ->
  forall ps todo ps',
    expandPaths isStorePath isDerivation n d st ps todo = Some (Ret ps') ->
    (forall x, In x ps \/ In x todo -> In x ps')
    /\ ((forall x, In x ps \/ In x todo -> V x) -> forall x, In x ps' -> V x)
    /\ (closedUpTo isDerivation d st ps todo -> closedUpTo isDerivation d st ps' []).
Proof.
  intros HV. induction n as [|n IHn]; intros ps todo ps' H; [discriminate|].
  revert H. induction todo as [|p todo IHt]; intros H.
  - rewrite expandPaths_nil in H. inversion H; subst ps'. clear H.
    split; [|split].
    + intros x [K|[]]. exact K.
    + intros K x Hx. apply K. now left.
    + intros K. exact K.
  - rewrite expandPaths_cons in H.
    destruct (isStorePath p); [|discriminate].
    destruct (PathSet.mem p ps) eqn:Ep.
    + destruct (IHt H) as [K1 [K2 K3]]. apply mem_In in Ep. split; [|split].
      * intros x [Hx|[<-|Hx]]; apply K1; auto.
      * intros K x Hx. apply K2; [|exact Hx]. intros y [Hy|Hy]; apply K; simpl; auto.
      * intros K. apply K3. intros q x Hq Hx.
        destruct (K q x Hq Hx) as [Hy|[<-|Hy]]; auto.
    + destruct (IHn _ _ _ H) as [K1 [K2 K3]]. split; [|split].
      * intros x [Hx|[<-|Hx]]; apply K1.
        -- left. apply In_insert. now right.
        -- left. apply In_insert. now left.
        -- right. apply In_grown. now right.
      * intros K x Hx. apply K2; [|exact Hx]. intros y [Hy|Hy].
        -- apply In_insert in Hy. destruct Hy as [->|Hy]; apply K; simpl; auto.
        -- apply In_grown in Hy. destruct Hy as [Hy|Hy];
             [exact (HV _ _ Hy) | apply K; simpl; auto].
      * intros K. apply K3. intros q x Hq Hx. apply In_insert in Hq.
        destruct Hq as [->|Hq].
        -- right. apply In_grown. now left.
        -- destruct (K q x Hq Hx) as [Hy|[<-|Hy]].
           ++ left. apply In_insert. now right.
           ++ left. apply In_insert. now left.
           ++ right. apply In_grown. now right.
Qed.


End Expansion.

(** ** One iteration of the deletion loop *)

Lemma mem_erase_same (i : Path) (s : PathSet) : PathSet.mem i (PathSet.erase i s) = false.
Proof. apply mem_false. intros H. apply In_erase in H. destruct H as [H _]. now apply H. Qed.

Lemma set_other (f : FS) (q p : Path) (v : option Stat) :
  p <> q -> Fs.set f q v p = f p.
Proof.
  intros H. unfold Fs.set. destruct (String.eqb p q) eqn:E; [|reflexivity].
  apply String.eqb_eq in E. congruence.
Qed.

Lemma set_same (f : FS) (q : Path) (v : option Stat) : Fs.set f q v q = v.
Proof. unfold Fs.set. now rewrite String.eqb_refl. Qed.

Lemma tmp_neq (i pid : string) : i ++ "-gc-" ++ pid <> i.
Proof.
  intros H. apply (f_equal String.length) in H. rewrite length_app in H.
  simpl in H. lia.
Qed.

Section Footprint.

Variable pid : string.

Ltac break H :=
  match type of H with
  | context [match ?x with _ => _ end] =>
      lazymatch x with
      | context [match _ with _ => _ end] => fail
      | _ => destruct x eqn:?
      end
  end.

Ltac fs_other :=
  repeat (rewrite set_other by (first [assumption | apply tmp_neq
                                      | apply not_eq_sym; apply tmp_neq])).

Lemma deleteMember_footprint (st : Stat) (i : Path) (s : St) (o : Outcome unit) (s' : St) :
  deleteMember pid st i s = Some (o, s') ->
  footprint i (i ++ "-gc-" ++ pid) s o s'.
Proof.
  intros H. destruct s as [[d f] x].
  unfold deleteMember, deleteGarbage, bind, get, onState, modify,
    invalidatePathChecked, Db.invalidatePathChecked, chmod, rename,
    Fs.rename, Fs.deletePathWrapped, checkLimit, ret in H.
  cbn [fst snd db fs] in H.
  repeat (break H; cbn [fst snd db fs] in H); try discriminate.
  all: inversion H; subst o s'; clear H.
  all: try match goal with
           | E : (?a =? ?a ++ _) = true |- _ =>
               apply String.eqb_eq in E; symmetry in E; destruct (tmp_neq _ _ E)
           end.
  all: unfold footprint; cbn [fst snd db fs].
  all: split; [split; reflexivity|].
  all: split; [first [left; reflexivity | right; reflexivity]|].
  all: split;
    [intros ? ? ?; simpl; fs_other;
     first [apply sameButMode_refl | eapply chmod_sameButMode; eassumption]|].
  all: split;
    [first [left; simpl; fs_other;
            first [apply sameButMode_refl | eapply chmod_sameButMode; eassumption]
           | right; split;
             [simpl; apply In_insert; left; reflexivity
             | simpl; rewrite set_same; discriminate]]|].
  all: split;
    [first [intros _; reflexivity
           | intros K; unfold Db.isValidPath, Db.invalidatePath in K;
             cbn [validPaths] in K; rewrite mem_erase_same in K; discriminate
           | intros K; congruence]|].
  all: split;
    [intros ?; simpl; try rewrite In_insert; intuition discriminate|].
  all: split;
    [intros ? ?; simpl; try (apply In_insert; right); assumption|].
  all: split; [simpl; repeat split|].
  all: intros K1 K2;
    first [discriminate | congruence | assumption
          | unfold Db.isValidPath, Db.invalidatePath; cbn [validPaths];
            apply mem_erase_same].
Qed.

End Footprint.

(** ** Queries, the topological sort and the two ways out *)

Lemma In_queryReferrers (d : DB) (p r : Path) :
  In r (Db.queryReferrers d p) <-> In (r, p) (refs d) /\ Db.isValidPath d r = true.
Proof.
  unfold Db.queryReferrers. rewrite In_of_list, in_map_iff. split.
  - intros [[a b] [E H]]. simpl in E. subst a. apply filter_In in H.
    destruct H as [H1 H2]. simpl in H2. apply andb_prop in H2.
    destruct H2 as [H2 H3]. apply String.eqb_eq in H2. subst b. now split.
  - intros [H1 H2]. exists (r, p). split; [reflexivity|].
    apply filter_In. split; [exact H1|]. simpl. now rewrite String.eqb_refl, H2.
Qed.

Lemma In_queryValidDerivers (d : DB) (p x : Path) :
  In x (Db.queryValidDerivers d p)
  <-> In (x, p) (derivationOutputs d) /\ Db.isValidPath d x = true.
Proof.
  unfold Db.queryValidDerivers. rewrite In_of_list, in_map_iff. split.
  - intros [[a b] [E H]]. simpl in E. subst a. apply filter_In in H.
    destruct H as [H1 H2]. simpl in H2. apply andb_prop in H2.
    destruct H2 as [H2 H3]. apply String.eqb_eq in H2. subst b. now split.
  - intros [H1 H2]. exists (x, p). split; [reflexivity|].
    apply filter_In. split; [exact H1|]. simpl. now rewrite String.eqb_refl, H2.
Qed.

Lemma In_queryDerivationOutputs (d : DB) (drv out : Path) :
  In out (Db.queryDerivationOutputs d drv) <-> In (drv, out) (derivationOutputs d).
Proof.
  unfold Db.queryDerivationOutputs. rewrite In_of_list, in_map_iff. split.
  - intros [[a b] [E H]]. simpl in E. subst b. apply filter_In in H.
    destruct H as [H1 H2]. simpl in H2. apply String.eqb_eq in H2. now subst a.
  - intros H. exists (drv, out). split; [reflexivity|].
    apply filter_In. split; [exact H|]. simpl. apply String.eqb_refl.
Qed.

Lemma remove1_perm (u : Path) (l : list Path) :
  In u l -> Permutation l (u :: Db.remove1 u l).
Proof.
  induction l as [|x t IH]; intros H; [destruct H|]. simpl.
  destruct (String.eqb u x) eqn:E.
  - apply String.eqb_eq in E. subst x. apply Permutation_refl.
  - destruct H as [H|H]; [subst x; rewrite String.eqb_refl in E; discriminate|].
    eapply Permutation_trans; [apply perm_skip; apply IH; exact H|]. apply perm_swap.
Qed.

Lemma topoSortFrom_perm (d : DB) (n : nat) (l : list Path) :
  List.length l = n -> Permutation (Db.topoSortFrom n d l) l.
Proof.
  revert l. induction n as [|n IH]; intros l Hl.
  - destruct l; [apply perm_nil | discriminate].
  - simpl. destruct (find (Db.unreferenced d l) l) as [u|] eqn:E.
    + apply find_some in E. destruct E as [Hu _].
      assert (P := remove1_perm u l Hu).
      eapply Permutation_trans; [|apply Permutation_sym; exact P].
      apply perm_skip. apply IH.
      apply Permutation_length in P. simpl in P. lia.
    + destruct l as [|u rest]; [discriminate|].
      apply perm_skip. apply IH. simpl in Hl. lia.
Qed.

Lemma In_topoSortPaths (d : DB) (ps : PathSet) (i : Path) :
  In i (Db.topoSortPaths d ps) <-> In i ps.
Proof.
  assert (P := topoSortFrom_perm d (List.length ps) ps eq_refl).
  split; intros H.
  - exact (Permutation_in _ P H).
  - exact (Permutation_in _ (Permutation_sym P) H).
Qed.

(** The code after [isLive] always returns: every member is in
    [live], nothing else changes but [results.paths]. *)
Lemma markLive_spec (ps : PathSet) (s : St) :
  exists s',
    markLive ps s = Some (Ret tt, s')
    /\ fst s' = fst s
    /\ deleted (snd s') = deleted (snd s)
    /\ invalidated (snd s') = invalidated (snd s)
    /\ roots (snd s') = roots (snd s)
    /\ gcKeepOutputs (snd s') = gcKeepOutputs (snd s)
    /\ gcKeepDerivations (snd s') = gcKeepDerivations (snd s)
    /\ options (snd s') = options (snd s)
    /\ (forall p, In p (live (snd s')) <-> In p ps \/ In p (live (snd s))).
Proof.
  revert s. induction ps as [|i ps IH]; intros s.
  - exists s. simpl. repeat split; try reflexivity; tauto.
  - unfold markLive. simpl. unfold bind at 1. unfold onState at 1. unfold modify.
    match goal with
    | |- context [forEach ps ?b ?s1] =>
        destruct (IH s1) as [s' [H [H1 [H2 [H3 [H4 [H5 [H6 [H7 H8]]]]]]]]]
    end.
    exists s'. unfold markLive in H. split; [exact H|].
    simpl in *.
    destruct (GCAction_eqb (action (options (snd s))) gcReturnLive); simpl in *;
      (repeat (split; [assumption|]);
       intros p; rewrite H8, In_insert; intuition congruence).
Qed.

Section DeletionLoop.

Variable pid : string.

(** A deletion loop that returns has recorded every path of its list
    as deleted and, for a deleting action, left it invalid. *)
Lemma deleteLoop_ret (st : Stat) (l : list Path) (s s' : St) :
  forEach l (deleteMember pid st) s = Some (Ret tt, s') ->
  (forall i, In i l ->
     In i (deleted (snd s'))
     /\ (shouldDelete (action (options (snd s))) = true ->
         Db.isValidPath (db (fst s')) i = false))
  /\ options (snd s') = options (snd s)
  /\ (forall p, In p (deleted (snd s)) -> In p (deleted (snd s')))
  /\ (forall p, Db.isValidPath (db (fst s')) p = true ->
                Db.isValidPath (db (fst s)) p = true).
Proof.
  revert s. induction l as [|i l IH]; intros s H; simpl in H.
  - inversion H; subst s'. split; [intros i []|]. repeat split; tauto.
  - apply bind_inv in H. destruct H as [[e [_ E]]|[[] [s1 [H1 H2]]]]; [discriminate|].
    apply deleteMember_footprint in H1.
    destruct H1 as [_ [F2 [_ [_ [_ [F6 [_ [[_ [_ [_ [F8 _]]]] F9]]]]]]]].
    destruct (IH _ H2) as [K1 [K2 [K3 K4]]].
    assert (V : forall p, Db.isValidPath (db (fst s1)) p = true ->
                          Db.isValidPath (db (fst s)) p = true).
    { intros p Hp. unfold Db.isValidPath in *. destruct F2 as [F2|F2];
        rewrite F2 in Hp; [exact Hp|].
      apply mem_In in Hp. apply In_erase in Hp. apply mem_In. tauto. }
    split; [|split; [|split]].
    + intros j [<-|Hj].
      * split.
        -- apply K3. apply F6. left. now split.
        -- intros Hs. specialize (F9 eq_refl Hs).
           destruct (Db.isValidPath (db (fst s')) i) eqn:E; [|reflexivity].
           rewrite (K4 _ E) in F9. discriminate.
      * destruct (K1 j Hj) as [A1 A2]. split; [exact A1|].
        intros Hs. apply A2. now rewrite F8.
    + now rewrite K2.
    + intros p Hp. apply K3. apply F6. now right.
    + intros p Hp. apply V. now apply K4.
Qed.

End DeletionLoop.

(** ** Members are classified together *)

Section Classification.

Variable settings : Settings.t.
Variable pid : string.
Variable isStorePath : Path -> bool.
Variable isDerivation : Path -> bool.


(** The set [paths]: the candidate is a member; for a valid candidate
    every member is valid and the set holds the keepers of its
    members; for an invalid one the candidate is the only member. *)
Lemma candidates_members (path : Path) (s s' : St) (ps : PathSet) :
  candidates isStorePath isDerivation path s = Some (Ret (Members ps), s') ->
  In path ps
  /\ (Db.isValidPath (db (fst s)) path = true ->
      closedUpTo isDerivation (db (fst s)) (snd s) ps []
      /\ forall x, In x ps -> In x (validPaths (db (fst s))))
  /\ (Db.isValidPath (db (fst s)) path = false -> ps = [path]).
Proof.
  unfold candidates. intros H.
  destruct (Db.isValidPath (db (fst s)) path) eqn:Ev.
  - destruct (expandPaths isStorePath isDerivation (expandFuel (db (fst s)))
                (db (fst s)) (snd s) [] (PathSet.insert path [])) as [[qs|e]|] eqn:E;
      inversion H; subst qs s'. clear H.
    destruct (expandPaths_spec isStorePath isDerivation (db (fst s)) (snd s)
                (fun x => In x (validPaths (db (fst s))))
                (expandFuel (db (fst s)))
                (keepers_valid isDerivation (db (fst s)) (snd s))
                _ _ _ E) as [K1 [K2 K3]].
    split; [|split].
    + apply K1. right. simpl. now left.
    + intros _. split.
      * apply K3. intros q x [].
      * apply K2. intros x [[]|Hx]. simpl in Hx. destruct Hx as [<-|[]].
        now apply mem_In.
    + discriminate.
  - destruct (isActiveTempFile (snd s) path ".lock"); [discriminate|].
    destruct (isActiveTempFile (snd s) path ".chroot"); inversion H; subst ps s'.
    split; [simpl; now left|]. split; [discriminate | reflexivity].
Qed.


End Classification.


(** C2: the directory test looks at the candidate, not at the member.
    With the derivation (a regular file) as candidate, its output, a
    valid directory, is invalidated and deleted in place: it is not
    renamed and nothing is pushed onto [state.invalidated].  With the
    output as candidate, the derivation, a regular file, is renamed,
    made writable with the directory's mode, and queued. *)
Lemma tryToDelete_directory_test_on_candidate :
  (exists s',
     ExampleDrv.tryToDelete 2 "/nix/store/d.drv"
       (ExampleDrv.store, ExampleDrv.state 1000 [])
     = Some (Ret true, s')
     /\ fs ExampleDrv.store "/nix/store/a" = Some (Example.dirStat 10)
     /\ Db.isValidPath (db (fst s')) "/nix/store/a" = false
     /\ fs (fst s') "/nix/store/a" = None
     /\ fs (fst s') "/nix/store/a-gc-4242" = None
     /\ invalidated (snd s') = []
     /\ bytesInvalidated (snd s') = 0%N
     /\ bytesFreed (results (snd s')) = 13%N)
  /\ (exists s',
        ExampleDrv.tryToDelete 2 "/nix/store/a"
          (ExampleDrv.store, ExampleDrv.state 1000 [])
        = Some (Ret true, s')
        /\ fs ExampleDrv.store "/nix/store/d.drv" = Some (Example.regStat 3)
        /\ fs (fst s') "/nix/store/d.drv" = None
        /\ fs (fst s') "/nix/store/d.drv-gc-4242" = Some (mkStat S_IFREG 493 3 false)
        /\ invalidated (snd s') = ["/nix/store/a-gc-4242"; "/nix/store/d.drv-gc-4242"]
        /\ bytesInvalidated (snd s') = 14%N
        /\ bytesFreed (results (snd s')) = 0%N).
Proof.
  split; (eexists; split; [vm_compute; reflexivity|]; repeat split).
Qed.

(** [chmod] follows symbolic links.  With the directory [/nix/store/a]
    as candidate, the members are the directory, its derivation and
    the derivation's other output, the link [/nix/store/l]: making the
    link writable sets the mode of its target, the root
    [/nix/store/tool], which stays valid and on disk.  When the link
    dangles the call fails, after the link has lost its validity. *)
Lemma chmod_reaches_the_target_of_a_link :
  (exists s',
     ExampleDrv.tryToDelete 2 "/nix/store/a" (ExampleLink.store, ExampleLink.state)
     = Some (Ret true, s')
     /\ deleted (snd s') = ["/nix/store/a"; "/nix/store/d.drv"; "/nix/store/l"]
     /\ fs (fst s') "/nix/store/l-gc-4242"
        = Some (ExampleLink.linkTo "/nix/store/tool")
     /\ fs ExampleLink.store "/nix/store/tool" = Some (mkStat S_IFDIR 365 6 true)
     /\ fs (fst s') "/nix/store/tool" = Some (mkStat S_IFDIR 493 6 true)
     /\ Db.isValidPath (db (fst s')) "/nix/store/tool" = true)
  /\ (exists s',
        ExampleDrv.tryToDelete 2 "/nix/store/a"
          (ExampleLink.dangling, ExampleLink.state)
        = Some (Throw (SysError "making `/nix/store/l' writable"), s')
        /\ Db.isValidPath (db (fst s')) "/nix/store/l" = false
        /\ fs (fst s') "/nix/store/l" = Some (ExampleLink.linkTo "/nix/store/gone")).
Proof.
  split; (eexists; split; [vm_compute; reflexivity|]; repeat split).
Qed.

(** ** No live path is deleted *)

Lemma In_collectReferrers (d : DB) (ps : PathSet) (r : Path) :
  In r (collectReferrers d ps)
  <-> exists q, In q ps /\ Db.isValidPath d q = true /\ In r (Db.queryReferrers d q).
Proof.
  unfold collectReferrers.
  assert (G : forall acc,
             In r (fold_left
                     (fun referrers i =>
                        if Db.isValidPath d i
                        then PathSet.insert_all (Db.queryReferrers d i) referrers
                        else referrers) ps acc)
             <-> In r acc
                 \/ exists q, In q ps /\ Db.isValidPath d q = true
                              /\ In r (Db.queryReferrers d q)).
  { induction ps as [|i ps IH]; intros acc; simpl.
    - split; [tauto|]. intros [H|[q [[] _]]]. exact H.
    - rewrite IH. destruct (Db.isValidPath d i) eqn:E.
      + rewrite In_insert_all. split.
        * intros [[H|H]|[q [H1 H2]]]; eauto 6.
        * intros [H|[q [[<-|H1] [H2 H3]]]]; eauto 6.
      + split.
        * intros [H|[q [H1 H2]]]; eauto 6.
        * intros [H|[q [[<-|H1] [H2 H3]]]]; eauto 6. congruence. }
  rewrite G. simpl. split; [intros [[]|H]; exact H | intros H; now right].
Qed.

Lemma anyRoot_false (st : GCState) (ps : PathSet) :
  anyRoot st ps = false -> forall q, In q ps -> ~ In q (roots st).
Proof.
  unfold anyRoot. intros H q Hq Hr.
  assert (K : existsb (fun i => PathSet.mem i (roots st)) ps = true).
  { apply existsb_exists. exists q. split; [exact Hq | now apply mem_In]. }
  congruence.
Qed.

Section Safety.

Variable settings : Settings.t.
Variable pid : string.
Variable isStorePath : Path -> bool.
Variable isDerivation : Path -> bool.
Variable d0 : DB.
Variable f0 : FS.
Variable rs : PathSet.
Variables ko kd : bool.


Lemma deleteMember_safe (st : Stat) (i : Path) (s : St) (o : Outcome unit) (s' : St) :
  ~ (reach isDerivation d0 ko kd rs) i -> (sweepInvariant settings isDerivation d0 f0 rs ko kd) s -> deleteMember pid st i s = Some (o, s') -> (sweepInvariant settings isDerivation d0 f0 rs ko kd) s'.
Proof.
  intros Hi [I1 [I2 [I3 [[I4a I4b] [I5 [I6 [I7 I8]]]]]]] H.
  apply deleteMember_footprint in H.
  destruct H as [[F1a F1b] [F2 [F3 [F4 [F5 [F6 [F7 [[F8a [F8b [F8c _]]] _]]]]]]]].
  assert (V : forall p, Db.isValidPath (db (fst s')) p = true ->
                        Db.isValidPath (db (fst s)) p = true).
  { intros p Hp. unfold Db.isValidPath in *. destruct F2 as [F2|F2];
      rewrite F2 in Hp; [exact Hp|].
    apply mem_In in Hp. apply In_erase in Hp. apply mem_In. tauto. }
  assert (W : forall p, p <> i -> Db.isValidPath (db (fst s)) p = true ->
                        Db.isValidPath (db (fst s')) p = true).
  { intros p Hp Hv. unfold Db.isValidPath in *. destruct F2 as [F2|F2];
      rewrite F2; [exact Hv|].
    apply mem_In. apply In_erase. apply mem_In in Hv. tauto. }
  split; [|split; [|split; [|split; [|split]]]].
  - intros p Hp. destruct (I1 p (V p Hp)) as [A1 A2]. split; [|exact A2].
    destruct (String.eqb p i) eqn:E1.
    + apply String.eqb_eq in E1. subst p. rewrite (F5 Hp). exact A1.
    + apply String.eqb_neq in E1.
      destruct (String.eqb p (i ++ "-gc-" ++ pid)) eqn:E2.
      * apply String.eqb_eq in E2. subst p.
        destruct F4 as [F4|[_ F4]]; [|exact F4].
        intros K. apply A1. apply (sameButMode_none _ _ F4). exact K.
      * apply String.eqb_neq in E2.
        intros K. apply A1. apply (sameButMode_none _ _ (F3 p E1 E2)). exact K.
  - intros p Hp. apply F6 in Hp. destruct Hp as [[-> _]|Hp]; [exact Hi | now apply I2].
  - intros p Hp Hv. apply W; [|now apply I3]. intros ->. now apply Hi.
  - split; congruence.
  - intros p Hp Hn.
    assert (Hn' : ~ In p (invalidated (snd s))) by (intros K; apply Hn; now apply F7).
    apply sameButMode_trans with (2 := I5 p Hp Hn').
    assert (E1 : p <> i) by (intros ->; now apply Hi).
    destruct (String.eqb p (i ++ "-gc-" ++ pid)) eqn:E2.
    + apply String.eqb_eq in E2. subst p.
      destruct F4 as [F4|[F4 _]]; [exact F4 | contradiction].
    + apply String.eqb_neq in E2. exact (F3 p E1 E2).
  - repeat split; congruence.
Qed.

Lemma markLive_safe (ps : PathSet) (s : St) (o : Outcome unit) (s' : St) :
  (sweepInvariant settings isDerivation d0 f0 rs ko kd) s -> markLive ps s = Some (o, s') -> (sweepInvariant settings isDerivation d0 f0 rs ko kd) s'.
Proof.
  intros [I1 [I2 [I3 [I4 [I5 [I6 [I7 I8]]]]]]] H.
  destruct (markLive_spec ps s) as [s1 [H1 [H2 [H3 [H4 [H5 [H6 [H7 _]]]]]]]].
  rewrite H1 in H. inversion H; subst o s'.
  unfold sweepInvariant, safe. rewrite H2, H3, H4, H5, H6, H7.
  exact (conj I1 (conj I2 (conj I3 (conj I4 (conj I5 (conj I6 (conj I7 I8))))))).
Qed.

(** When no member is a root and every referrer outside the set is
    dead, every member is dead. *)
Lemma members_dead (path : Path) (ps : PathSet) (s : St) :
  (sweepInvariant settings isDerivation d0 f0 rs ko kd) s ->
  candidates isStorePath isDerivation path s = Some (Ret (Members ps), s) ->
  anyRoot (snd s) ps = false ->
  (forall r, In r (collectReferrers (db (fst s)) ps) -> ~ In r ps ->
             Db.isValidPath d0 r = true -> ~ (reach isDerivation d0 ko kd rs) r) ->
  forall q, In q ps -> ~ (reach isDerivation d0 ko kd rs) q.
Proof.
  intros [I1 [I2 [I3 [[I4a I4b] [I5 [I6 [I7 I8]]]]]]] Hc Hroot Hrefs.
  destruct (candidates_members isStorePath isDerivation path s s ps Hc)
    as [M1 [M2 M3]].
  assert (Hinvalid : Db.isValidPath (db (fst s)) path = false ->
            forall q, In q ps -> (reach isDerivation d0 ko kd rs) q -> Db.isValidPath d0 q = true -> False).
  { intros Ev q Hq Ha Hv. rewrite (M3 Ev) in Hq. destruct Hq as [<-|[]].
    rewrite (I3 _ Ha Hv) in Ev. discriminate. }
  intros q Hq Ha. revert Hq. 
  induction Ha as [p Hp | r p Hr IH Vr Vp Hin | drv out Hko Hd IH Vd Vo Hin
                   | out drv Hkd Ho IH Hdrv Vd Vo Hin]; intros Hq.
  - apply (anyRoot_false _ _ Hroot p Hq). now rewrite I6.
  - assert (Ap : (reach isDerivation d0 ko kd rs) p) by (eapply reach_reference; eauto).
    assert (Hc1 : In r (collectReferrers (db (fst s)) ps)).
    { apply In_collectReferrers. exists p. split; [exact Hq|].
      split; [exact (I3 _ Ap Vp)|]. apply In_queryReferrers.
      split; [now rewrite I4a | exact (I3 _ Hr Vr)]. }
    destruct (PathSet.mem r ps) eqn:E.
    + apply IH. now apply mem_In.
    + apply mem_false in E. exact (Hrefs r Hc1 E Vr Hr).
  - assert (Ao : (reach isDerivation d0 ko kd rs) out) by (eapply reach_output; eauto).
    destruct (Db.isValidPath (db (fst s)) path) eqn:Ev;
      [|exact (Hinvalid eq_refl out Hq Ao Vo)].
    destruct (M2 eq_refl) as [Hclosed _].
    destruct (Hclosed out drv Hq) as [K|[]]; [|exact (IH K)].
    unfold keepers. apply in_or_app. right. rewrite I7, Hko.
    apply In_queryValidDerivers. split; [now rewrite I4b | exact (I3 _ Hd Vd)].
  - assert (Ad : (reach isDerivation d0 ko kd rs) drv) by (eapply reach_deriver; eauto).
    destruct (Db.isValidPath (db (fst s)) path) eqn:Ev;
      [|exact (Hinvalid eq_refl drv Hq Ad Vd)].
    destruct (M2 eq_refl) as [Hclosed _].
    destruct (Hclosed drv out Hq) as [K|[]]; [|exact (IH K)].
    unfold keepers. apply in_or_app. left. rewrite I8, Hkd, Hdrv. simpl.
    apply filter_In. split; [|exact (I3 _ Ho Vo)].
    apply In_queryDerivationOutputs. now rewrite I4b.
Qed.

Lemma referrersLoop_safe (rec : Path -> M St bool) (ps : PathSet) :
  (forall path s o s', (sweepInvariant settings isDerivation d0 f0 rs ko kd) s -> rec path s = Some (o, s') ->
     (sweepInvariant settings isDerivation d0 f0 rs ko kd) s' /\ (o = Ret true -> Db.isValidPath d0 path = true -> ~ (reach isDerivation d0 ko kd rs) path)) ->
  forall referrers s o s',
    (sweepInvariant settings isDerivation d0 f0 rs ko kd) s -> referrersLoop rec ps referrers s = Some (o, s') ->
    (sweepInvariant settings isDerivation d0 f0 rs ko kd) s'
    /\ (o = Ret true ->
        forall r, In r referrers -> ~ In r ps ->
                  Db.isValidPath d0 r = true -> ~ (reach isDerivation d0 ko kd rs) r).
Proof.
  intros Hrec referrers. induction referrers as [|i rest IH]; intros s o s' HI H;
    simpl in H.
  - inversion H; subst o s'. split; [exact HI|]. intros _ r [].
  - destruct (PathSet.mem i ps) eqn:E.
    + destruct (IH _ _ _ HI H) as [K1 K2]. split; [exact K1|].
      intros Ho r [<-|Hr] Hn; [|now apply K2].
      apply mem_In in E. contradiction.
    + apply bind_inv in H. destruct H as [[e [H ->]]|[gone [s1 [H1 H2]]]].
      * destruct (Hrec _ _ _ _ HI H) as [K1 _]. split; [exact K1 | discriminate].
      * destruct (Hrec _ _ _ _ HI H1) as [K1 K2]. destruct gone.
        -- destruct (IH _ _ _ K1 H2) as [L1 L2]. split; [exact L1|].
           intros Ho r [<-|Hr] Hn; [|now apply L2]. now apply K2.
        -- inversion H2; subst o s'. split; [exact K1 | discriminate].
Qed.

Lemma deleteLoop_safe (st : Stat) (l : list Path) (s : St) (o : Outcome unit) (s' : St) :
  (forall i, In i l -> ~ (reach isDerivation d0 ko kd rs) i) ->
  (sweepInvariant settings isDerivation d0 f0 rs ko kd) s -> forEach l (deleteMember pid st) s = Some (o, s') -> (sweepInvariant settings isDerivation d0 f0 rs ko kd) s'.
Proof.
  intros Hl HI H. eapply forEach_preserves; [| exact HI | exact H].
  intros i s1 o1 s1' Hi HI1 H1. exact (deleteMember_safe st i s1 o1 s1' (Hl i Hi) HI1 H1).
Qed.

(** [tryToDelete] keeps the invariant, and it returns true only for a
    path that is dead or was not valid. *)
Lemma tryToDelete_safe (fuel : nat) :
  forall path s o s',
    (sweepInvariant settings isDerivation d0 f0 rs ko kd) s ->
    tryToDelete settings pid isStorePath isDerivation fuel path s = Some (o, s') ->
    (sweepInvariant settings isDerivation d0 f0 rs ko kd) s' /\ (o = Ret true -> Db.isValidPath d0 path = true -> ~ (reach isDerivation d0 ko kd rs) path).
Proof.
  induction fuel as [|fuel IH]; intros path s o s' HI H; [discriminate|].
  assert (Hnow : forall p, (reach isDerivation d0 ko kd rs) p -> Db.isValidPath d0 p = true ->
            fs (fst s) p <> None /\ p <> linksDir settings /\ ~ In p (deleted (snd s))).
  { intros p Ha Hv. destruct HI as [I1 [I2 [I3 _]]].
    destruct (I1 p (I3 p Ha Hv)) as [A1 A2]. repeat split; try assumption.
    intros K. exact (I2 p K Ha). }
  rewrite tryToDelete_S in H.
  destruct (String.eqb path (linksDir settings)) eqn:El.
  { inversion H; subst o s'. split; [exact HI|]. intros _ Hv Ha.
    apply String.eqb_eq in El. destruct (Hnow _ Ha Hv) as [_ [K _]]. contradiction. }
  unfold bind at 1 in H. unfold get in H. cbn [fst snd] in H.
  destruct (Fs.lstat (fs (fst s)) path) as [st|] eqn:Es.
  2:{ inversion H; subst o s'. split; [exact HI|]. intros _ Hv Ha.
      destruct (Hnow _ Ha Hv) as [K _]. contradiction. }
  destruct (PathSet.mem path (deleted (snd s))) eqn:Ed.
  { inversion H; subst o s'. split; [exact HI|]. intros _ Hv Ha.
    apply mem_In in Ed. destruct (Hnow _ Ha Hv) as [_ [_ K]]. contradiction. }
  destruct (PathSet.mem path (live (snd s))).
  { inversion H; subst o s'. split; [exact HI | discriminate]. }
  apply bind_inv in H. destruct H as [[e [H ->]]|[c [s1 [Hc H]]]].
  { apply candidates_pure in H. subst s'. split; [exact HI | discriminate]. }
  assert (E1 := candidates_pure isStorePath isDerivation _ _ _ _ Hc). subst s1.
  destruct c as [|ps].
  { inversion H; subst o s'. split; [exact HI | discriminate]. }
  destruct (anyRoot (snd s) ps) eqn:Er.
  { apply bind_inv in H. destruct H as [[e [H ->]]|[[] [s1 [H1 H2]]]].
    - split; [exact (markLive_safe ps _ _ _ HI H) | discriminate].
    - inversion H2; subst o s'.
      split; [exact (markLive_safe ps _ _ _ HI H1) | discriminate]. }
  apply bind_inv in H. destruct H as [[e [H ->]]|[gone [s2 [H1 H2]]]].
  { destruct (referrersLoop_safe _ ps IH _ _ _ _ HI H) as [K _].
    split; [exact K | discriminate]. }
  destruct (referrersLoop_safe _ ps IH _ _ _ _ HI H1) as [K1 K2].
  destruct gone.
  - assert (Hdead : forall q, In q ps -> ~ (reach isDerivation d0 ko kd rs) q).
    { apply (members_dead path ps s HI Hc Er). intros r Hr. now apply K2. }
    unfold bind at 1 in H2. unfold gets in H2.
    apply bind_inv in H2. destruct H2 as [[e [H ->]]|[[] [s3 [H3 H4]]]].
    + split; [|discriminate].
      eapply deleteLoop_safe; [| exact K1 | exact H].
      intros i Hi. apply Hdead. now apply In_topoSortPaths in Hi.
    + inversion H4; subst o s'. split.
      * eapply deleteLoop_safe; [| exact K1 | exact H3].
        intros i Hi. apply Hdead. now apply In_topoSortPaths in Hi.
      * intros _ _. apply Hdead.
        exact (proj1 (candidates_members isStorePath isDerivation path s s ps Hc)).
  - apply bind_inv in H2. destruct H2 as [[e [H ->]]|[[] [s3 [H3 H4]]]].
    + split; [exact (markLive_safe ps _ _ _ K1 H) | discriminate].
    + inversion H4; subst o s'.
      split; [exact (markLive_safe ps _ _ _ K1 H3) | discriminate].
Qed.

End Safety.

Lemma liftSt_preserves {A} (P : St -> Prop) (m : M St A) :
  (forall s o s', P s -> m s = Some (o, s') -> P s') ->
  preserves (atStore P) (liftSt m).
Proof.
  intros Hm g o g' HP H. unfold liftSt in H.
  destruct (m (store (sys g), state g)) as [[o1 [ls st]]|] eqn:E; [|discriminate].
  inversion H; subst. exact (Hm _ _ _ HP E).
Qed.

Section SafetyOfCycle.

Variable settings : Settings.t.
Variable pid : string.
Variable canonPath : Path -> Path.
Variable absPath : Path -> Path -> Path.
Variable dirOf : Path -> Path.
Variable isInStore : Path -> bool.
Variable isStorePath : Path -> bool.
Variable toStorePath : Path -> Path.
Variable isDerivation : Path -> bool.
Variable readDirectory : OuterFS -> Path -> list string.
Variable d0 : DB.
Variable f0 : FS.
Variable rs : PathSet.
Variables ko kd : bool.


Lemma tryToDelete_preserves (fuel : nat) (path : Path) :
  preserves (atStore (sweepInvariant settings isDerivation d0 f0 rs ko kd))
    (liftSt (tryToDelete settings pid isStorePath isDerivation fuel path)).
Proof.
  apply liftSt_preserves. intros s o s' HI H.
  exact (proj1 (tryToDelete_safe settings pid isStorePath isDerivation d0 f0 rs ko kd
                  fuel path s o s' HI H)).
Qed.

Lemma readStore_preserves (fuel : nat) (names : list string) (found : Paths) :
  preserves (atStore (sweepInvariant settings isDerivation d0 f0 rs ko kd))
    (readStore settings pid isStorePath isDerivation fuel names found).
Proof.
  revert found. induction names as [|name rest IH]; intros found; simpl.
  - apply preserves_ret.
  - destruct (String.eqb name "." || String.eqb name ".."); [apply IH|].
    apply preserves_bind; [apply preserves_get|]. intros g.
    destruct (Db.isValidPath (db (store (sys g))) _); [apply IH|].
    apply preserves_bind; [apply tryToDelete_preserves | intros _; apply IH].
Qed.

Lemma classify_preserves (fuel : nat) (env : Env) (opts : GCOptions) :
  preserves (atStore (sweepInvariant settings isDerivation d0 f0 rs ko kd))
    (classify settings pid isStorePath isDerivation fuel env opts).
Proof.
  unfold classify. destruct (GCAction_eqb (action opts) gcDeleteSpecific).
  - unfold deleteSpecific. apply preserves_forEach. intros i _.
    unfold deleteSpecificPath. apply preserves_bind.
    + unfold assertStorePath. destruct (isStorePath i);
        [apply preserves_ret | apply preserves_throw].
    + intros _. apply preserves_bind; [apply tryToDelete_preserves|].
      intros [|]; [apply preserves_ret | apply preserves_throw].
  - destruct (0 <? maxFreed opts)%N; [|apply preserves_ret].
    apply preserves_catchLimit. unfold sweep.
    apply preserves_bind; [apply readStore_preserves|]. intros found.
    apply preserves_forEach. intros i _.
    apply preserves_bind; [apply tryToDelete_preserves | intros _; apply preserves_ret].
Qed.

Lemma inv_final (g : GC) : atStore (sweepInvariant settings isDerivation d0 f0 rs ko kd) g -> final (reach isDerivation d0 ko kd rs) d0 f0 rs ko kd g.
Proof.
  intros [I1 [I2 [I3 [I4 [I5 [I6 [I7 I8]]]]]]]. simpl in *.
  split; [|repeat split; assumption].
  intros p Hp. split; [now apply I3|]. split; [|now apply I5].
  intros K. exact (I2 p K Hp).
Qed.

Lemma cleanup_final (opts : GCOptions) :
  preserves (final (reach isDerivation d0 ko kd rs) d0 f0 rs ko kd) (cleanup settings opts).
Proof.
  unfold cleanup.
  apply preserves_bind; [|intros _; apply preserves_bind].
  - intros g o g' HF H. unfold bind, get in H.
    set (L := invalidated (state g)) in H.
    assert (HL : final (reach isDerivation d0 ko kd rs) d0 f0 rs ko kd g
                 /\ forall x, In x L -> In x (invalidated (state g))).
    { split; [exact HF | tauto]. }
    clear HF.
    refine (proj1 (forEach_preserves
                     (fun g => final (reach isDerivation d0 ko kd rs) d0 f0 rs ko kd g
                               /\ forall x, In x L -> In x (invalidated (state g)))
                     (fun i => liftSt (deleteGarbage i)) L _ g o g' HL H)).
    clear HL H. intros i g1 o1 g1' Hi [[K [R1 [R2 R3]]] HL] H.
    unfold liftSt, deleteGarbage, modify, Fs.deletePathWrapped in H.
    cbn [fst snd] in H.
    assert (Hfs : forall p f', ~ In p (invalidated (state g1)) ->
              f' = Fs.set (fs (store (sys g1))) i None ->
              f' p = fs (store (sys g1)) p).
    { intros p f' Hp ->. apply set_other. intros ->. apply Hp. now apply HL. }
    destruct (fs (store (sys g1)) i) as [st|] eqn:E; inversion H; subst o1 g1';
      clear H; (split; [split; [|repeat split; assumption] | exact HL]).
    + intros p Hp. destruct (K p Hp) as [A1 [A2 A3]]. cbn.
      split; [exact A1|]. split; [exact A2|]. intros Hn.
      rewrite (Hfs p _ Hn eq_refl). now apply A3.
    + intros p Hp. destruct (K p Hp) as [A1 [A2 A3]]. cbn.
      split; [exact A1|]. split; [exact A2|]. intros Hn.
      destruct (store (sys g1)); now apply A3.
  - destruct (GCAction_eqb (action opts) gcDeleteDead
              || GCAction_eqb (action opts) gcDeleteSpecific); [|apply preserves_ret].
    intros g o g' [K [R1 [R2 R3]]] H. unfold removeUnusedLinks in H.
    destruct (linkPool (sys g)) as [pool|]; inversion H; subst o g'; clear H;
      [|split; [exact K | repeat split; assumption]].
    set (credit := fun (st : GCState) (e : LinkEntry) =>
                     results_credit ((l_blocks e * 512) mod two64)%N st).
    assert (C : forall (l : list LinkEntry) (st : GCState),
               deleted (fold_left credit l st) = deleted st
               /\ invalidated (fold_left credit l st) = invalidated st
               /\ roots (fold_left credit l st) = roots st
               /\ gcKeepOutputs (fold_left credit l st) = gcKeepOutputs st
               /\ gcKeepDerivations (fold_left credit l st) = gcKeepDerivations st).
    { induction l as [|e l IH]; intros st; simpl; [repeat split|].
      destruct (IH (credit st e)) as [C1 [C2 [C3 [C4 C5]]]].
      rewrite C1, C2, C3, C4, C5. repeat split. }
    match goal with
    | |- final _ _ _ _ _ _ (mkGC _ (fold_left _ ?l _) _) =>
        destruct (C l (state g)) as [C1 [C2 [C3 [C4 C5]]]]
    end.
    unfold final, kept. cbn [state sys store]. fold credit.
    rewrite C1, C2, C3, C4, C5. split; [exact K | repeat split; assumption].
  - intros _. destruct (GCAction_eqb (action opts) gcDeleteDead); [|apply preserves_ret].
    intros g o g' HF H. inversion H; subst o g'. exact HF.
Qed.

End SafetyOfCycle.

Section KeepsLivePaths.

Variable settings : Settings.t.
Variable pid : string.
Variable canonPath : Path -> Path.
Variable absPath : Path -> Path -> Path.
Variable dirOf : Path -> Path.
Variable isInStore : Path -> bool.
Variable isStorePath : Path -> bool.
Variable toStorePath : Path -> Path.
Variable isDerivation : Path -> bool.
Variable readDirectory : OuterFS -> Path -> list string.

(** C1, as amended.  Take a store in which every valid path is on disk
    and none is the links directory.  Whatever way [collectGarbage]
    ends, a path that is in [state.roots] or reachable from it, along
    references and the edges of the policies in force, keeps its
    validity; [tryToDelete] has not recorded it as deleted; and it is
    on disk as before but for its permission bits, unless it bears the
    name [<q>-gc-<pid>] that a deleted directory [q] was renamed to.
    The permission bits are left out because [chmod] follows symbolic
    links: a link among the deleted members passes the new mode on to
    its target, which can be a live path. *)
Theorem collectGarbage_keeps_live_paths
    (fuel : nat) (env : Env) (opts : GCOptions) (res : GCResults) (w : System)
    (o : Outcome unit) (g : GC) :
  (forall p, Db.isValidPath (db (store w)) p = true ->
             fs (store w) p <> None /\ p <> linksDir settings) ->
  collectGarbage settings pid canonPath absPath dirOf isInStore isStorePath
    toStorePath isDerivation readDirectory fuel env opts res w = Some (o, g) ->
  kept (reach isDerivation (db (store w)) (gcKeepOutputs (state g))
          (gcKeepDerivations (state g)) (roots (state g)))
       (db (store w)) (fs (store w)) g.
Proof.
  intros Hcons H. unfold collectGarbage in H.
  set (g0 := mkGC w (initialState settings opts res) []) in *.
  assert (Hfresh : deleted (state g0) = [] /\ invalidated (state g0) = []).
  { unfold g0, initialState.
    destruct (GCAction_eqb (action opts) gcDeleteSpecific && ignoreLiveness opts);
      split; reflexivity. }
  assert (Hcore : forall g', core g' = core g0 ->
            store (sys g') = store w
            /\ deleted (state g') = [] /\ invalidated (state g') = []).
  { intros g' E. destruct Hfresh as [E1 E2]. split; [|split].
    - exact (f_equal fst E).
    - rewrite <- E1. exact (f_equal (fun c : St => deleted (snd c)) E).
    - rewrite <- E2. exact (f_equal (fun c : St => invalidated (snd c)) E). }
  apply bind_inv in H. destruct H as [[e [H ->]]|[[] [g1 [H1 H2]]]].
  - destruct (Hcore g
                (discoverRoots_core settings canonPath absPath dirOf isInStore
                   isStorePath toStorePath readDirectory fuel env opts (core g0)
                   g0 _ _ eq_refl H)) as [E1 [E2 E3]].
    intros p _. rewrite E1, E2. split; [tauto|].
    split; [simpl; tauto | intros _; apply sameButMode_refl].
  - destruct (Hcore g1
                (discoverRoots_core settings canonPath absPath dirOf isInStore
                   isStorePath toStorePath readDirectory fuel env opts (core g0)
                   g0 _ _ eq_refl H1)) as [E1 [E2 E3]].
    assert (I1 : atStore
                   (safe (linksDir settings)
                      (reach isDerivation (db (store w)) (gcKeepOutputs (state g1))
                         (gcKeepDerivations (state g1)) (roots (state g1)))
                      (db (store w)) (fs (store w)) (roots (state g1))
                      (gcKeepOutputs (state g1)) (gcKeepDerivations (state g1)))
                   g1).
    { unfold atStore, safe. cbn [fst snd]. rewrite E1, E2, E3.
      split; [exact Hcons|]. split; [intros p []|].
      split; [tauto|]. split; [split; reflexivity|].
      split; [intros; apply sameButMode_refl | repeat split]. }
    assert (F : final
                  (reach isDerivation (db (store w)) (gcKeepOutputs (state g1))
                     (gcKeepDerivations (state g1)) (roots (state g1)))
                  (db (store w)) (fs (store w)) (roots (state g1))
                  (gcKeepOutputs (state g1)) (gcKeepDerivations (state g1)) g).
    { apply bind_inv in H2. destruct H2 as [[e [H ->]]|[[] [g2 [H3 H4]]]].
      - apply inv_final with (settings := settings).
        eapply classify_preserves with (settings := settings); [exact I1 | exact H].
      - eapply (cleanup_final settings pid canonPath absPath dirOf isInStore
                  isStorePath toStorePath isDerivation); [|exact H4].
        apply inv_final with (settings := settings).
        eapply classify_preserves with (settings := settings); [exact I1 | exact H3]. }
    destruct F as [K [R1 [R2 R3]]]. rewrite R1, R2, R3. exact K.
Qed.

End KeepsLivePaths.

(** A cycle over a consistent store: [/nix/store/old] goes, the tool,
    the derivation it refers to and the derivation's output stay. *)
Lemma collectGarbage_keeps_live_paths_witness :
  kept (reach Example.isDerivation (db (store ExampleLive.consistent))
          (gcKeepOutputs (state ExampleLive.afterCycle))
          (gcKeepDerivations (state ExampleLive.afterCycle))
          (roots (state ExampleLive.afterCycle)))
       (db (store ExampleLive.consistent)) (fs (store ExampleLive.consistent))
       ExampleLive.afterCycle.
Proof.
  apply (collectGarbage_keeps_live_paths Example.settings Example.pid
           ExampleRoots.canonPath ExampleRoots.absPath ExampleRoots.dirOf
           Example.isInStore Example.isStorePath ExampleRoots.toStorePath
           Example.isDerivation ExampleRoots.readDirectory
           6 ExampleLive.env ExampleLive.opts ExampleGC.noResults
           ExampleLive.consistent (Ret tt) ExampleLive.afterCycle).
  - intros p H. apply mem_In in H. simpl in H.
    destruct H as [<-|[<-|[<-|[<-|[]]]]]; split; vm_compute; discriminate.
  - vm_compute. reflexivity.
Defined.

(** C1 as stated fails on a store whose database lists a path that is
    missing on disk.  [/nix/store/tool] is a root and valid, but not on
    disk; it refers to [/nix/store/lib.drv], whose output
    [/nix/store/lib] is therefore live under [gc-keep-outputs].  The
    referrer that [lstat] does not find counts as gone, the output is
    invalidated and deleted, and only then the invalidation of the
    derivation fails. *)
Lemma live_output_deleted_in_corrupt_store :
  ExampleGC.collectGarbage 6 ExampleLive.envCorrupt ExampleLive.opts
    ExampleGC.noResults ExampleLive.corrupt
  = Some (Throw (PathInUse "/nix/store/lib.drv"), ExampleLive.afterCorruptCycle)
  /\ reach Example.isDerivation (db (store ExampleLive.corrupt))
       (gcKeepOutputs (state ExampleLive.afterCorruptCycle))
       (gcKeepDerivations (state ExampleLive.afterCorruptCycle))
       (roots (state ExampleLive.afterCorruptCycle)) "/nix/store/lib"
  /\ Db.isValidPath (db (store ExampleLive.corrupt)) "/nix/store/lib" = true
  /\ Db.isValidPath (db (store ExampleLive.corrupt)) "/nix/store/tool" = true
  /\ fs (store ExampleLive.corrupt) "/nix/store/tool" = None
  /\ Db.isValidPath (db (store (sys ExampleLive.afterCorruptCycle))) "/nix/store/lib"
     = false
  /\ fs (store (sys ExampleLive.afterCorruptCycle)) "/nix/store/lib" = None.
Proof.
  split; [vm_compute; reflexivity|]. split; [|repeat split].
  replace (roots (state ExampleLive.afterCorruptCycle)) with ["/nix/store/tool"]
    by (vm_compute; reflexivity).
  replace (gcKeepOutputs (state ExampleLive.afterCorruptCycle)) with true
    by (vm_compute; reflexivity).
  apply reach_output with (drv := "/nix/store/lib.drv"); try reflexivity.
  - apply reach_reference with (r := "/nix/store/tool"); try reflexivity.
    + apply reach_root. simpl. now left.
    + simpl. now left.
  - simpl. now left.
Qed.

(** * The scan for permanent roots *)

Lemma In_assign (k v : Path) (m : Roots) (e : Path * Path) :
  In e (Outer.assign k v m) -> e = (k, v) \/ In e m.
Proof.
  induction m as [|[k' v'] t IH]; simpl.
  - intros [H|[]]; auto.
  - destruct (String.compare k k'); simpl.
    + intros [H|H]; auto.
    + intros [H|H]; auto.
    + intros [H|H]; auto. destruct (IH H); auto.
Qed.

Lemma handleSysError_state {S} (e : Errno) (msg : string) (s : S)
    (r : Outcome unit) (s' : S) :
  handleSysError e msg s = Some (r, s') -> s' = s.
Proof.
  unfold handleSysError. destruct (permanentFailure e); intros H; inversion H;
    reflexivity.
Qed.

Section RootScan.

Variable absPath : Path -> Path -> Path.
Variable dirOf : Path -> Path.
Variable isInStore : Path -> bool.
Variable toStorePath : Path -> Path.
Variable readDirectory : OuterFS -> Path -> list string.
Variable d : DB.

Lemma scanned_refl (s : OuterFS * Roots) :
  scanned absPath dirOf isInStore toStorePath d s s.
Proof. split; auto. Qed.

Lemma scanned_trans (a b c : OuterFS * Roots) :
  scanned absPath dirOf isInStore toStorePath d a b ->
  scanned absPath dirOf isInStore toStorePath d b c ->
  scanned absPath dirOf isInStore toStorePath d a c.
Proof.
  intros [A1 A2] [B1 B2]. split.
  - intros p. destruct (B1 p) as [E|[E [t [Et [Es En]]]]].
    + rewrite E. destruct (A1 p) as [E'|[E' [t [Et [Es En]]]]]; auto.
      right. split; auto. exists t. repeat split; auto.
      destruct (B1 (absPath t (dirOf p))) as [X|[X _]]; congruence.
    + right. split; auto.
      destruct (A1 p) as [E'|[E' _]]; [|congruence].
      exists t. repeat split; auto. congruence.
  - intros l sp H. destruct (B2 l sp H) as [H1|[t [Et [Es [Esp Ev]]]]].
    + apply A2, H1.
    + right. exists t. repeat split; auto.
      destruct (A1 l) as [E|[E _]]; congruence.
Qed.

Lemma findRootsAt_scanned (fuel : nat) :
  forall path recurseSymlinks deleteStale s r s',
    findRootsAt absPath dirOf isInStore toStorePath readDirectory
                fuel d path recurseSymlinks deleteStale s = Some (r, s') ->
    scanned absPath dirOf isInStore toStorePath d s s'
    /\ (recurseSymlinks = false \/ deleteStale = false -> fst s' = fst s).
Proof.
  induction fuel as [|fuel IH]; intros path rec del s r s' H; [discriminate|].
  simpl in H. destruct (fst s path) as [[|t| |e]|] eqn:E.
  - (* a directory *)
    revert H.
    apply (forEach_preserves
             (fun x => scanned absPath dirOf isInStore toStorePath d s x
                       /\ (rec = false \/ del = false -> fst x = fst s))).
    + intros name x o x' _ [K1 K2] Hx. destruct (IH _ _ _ _ _ _ Hx) as [L1 L2].
      split; [exact (scanned_trans _ _ _ K1 L1)|].
      intros Hno. rewrite (L2 Hno). exact (K2 Hno).
    + split; [apply scanned_refl | reflexivity].
  - (* a symlink *)
    destruct (isInStore (absPath t (dirOf path))) eqn:Es.
    + destruct (Db.isValidPath d (toStorePath (absPath t (dirOf path)))) eqn:Ev;
        inversion H; subst r s'; clear H.
      * split; [|reflexivity]. split; [left; reflexivity|].
        simpl. intros l sp Hin. apply In_assign in Hin. destruct Hin as [Hin|Hin]; auto.
        inversion Hin; subst l sp. right. exists t. auto.
      * split; [apply scanned_refl|reflexivity].
    + destruct rec.
      * destruct (Outer.pathExists (fst s) (absPath t (dirOf path))) as [e|[|]] eqn:Ex.
        -- apply handleSysError_state in H. subst s'.
           split; [apply scanned_refl|reflexivity].
        -- destruct (IH _ _ _ _ _ _ H) as [H1 H2]. split; auto.
        -- destruct del; inversion H; subst r s'; clear H.
           ++ split; [|intros [X|X]; discriminate].
              split; [|simpl; auto].
              intros p. simpl. unfold Outer.unlink, Outer.set.
              destruct (String.eqb p path) eqn:Ep; [|left; reflexivity].
              apply String.eqb_eq in Ep. subst p. right. split; auto.
              exists t. repeat split; auto.
              unfold Outer.pathExists in Ex.
              destruct (String.eqb (absPath t (dirOf path)) path); auto.
              destruct (fst s (absPath t (dirOf path))) as [[| | |]|];
                [discriminate..|reflexivity].
           ++ split; [apply scanned_refl|reflexivity].
      * inversion H; subst r s'. split; [apply scanned_refl|reflexivity].
  - inversion H; subst r s'. split; [apply scanned_refl|reflexivity].
  - apply handleSysError_state in H. subst s'.
    split; [apply scanned_refl|reflexivity].
  - inversion H; subst r s'. split; [apply scanned_refl|reflexivity].
Qed.

End RootScan.

Section RootScanResults.

Variable settings : Settings.t.
Variable canonPath : Path -> Path.
Variable absPath : Path -> Path -> Path.
Variable dirOf : Path -> Path.
Variable isInStore : Path -> bool.
Variable toStorePath : Path -> Path.
Variable readDirectory : OuterFS -> Path -> list string.

Lemma LocalStore_findRoots_keeps (fuel : nat) (d : DB) (o : OuterFS)
    (r : Outcome Roots) (o' : OuterFS) :
  findRoots settings canonPath absPath dirOf isInStore toStorePath readDirectory
            fuel d false o = Some (r, o') ->
  o' = o.
Proof.
  intros H. unfold findRoots in H.
  destruct (findRootsAt absPath dirOf isInStore toStorePath readDirectory fuel d
              (rootsDirPath settings canonPath) true false (o, []))
    as [[[u|e] s1]|] eqn:E; inversion H; subst r o'; clear H;
    apply findRootsAt_scanned in E; destruct E as [_ E]; apply E; now right.
Qed.

(** How a scan that returns relates to the walk from the roots
    directory. *)
Lemma findRoots_scanned
    (fuel : nat) (d : DB) (deleteStale : bool) (o o' : OuterFS) (rootMap : Roots) :
  findRoots settings canonPath absPath dirOf isInStore toStorePath readDirectory
            fuel d deleteStale o = Some (Ret rootMap, o') ->
  scanned absPath dirOf isInStore toStorePath d (o, []) (o', rootMap).
Proof.
  intros H. unfold findRoots in H.
  destruct (findRootsAt absPath dirOf isInStore toStorePath readDirectory fuel d
              (rootsDirPath settings canonPath) true deleteStale (o, []))
    as [[[u|e] [o1 rm]]|] eqn:E; inversion H; subst rootMap o'; clear H.
  apply findRootsAt_scanned in E. exact (proj1 E).
Qed.

(** X1.  Every entry of the map that [findRoots] returns is a
    symlink that points into the store and whose store path is
    valid: the link is on disk before and after the scan, and the
    entry's value is the store path of its target. *)
Theorem findRoots_reports_valid_store_links
    (fuel : nat) (d : DB) (deleteStale : bool) (o o' : OuterFS) (rootMap : Roots)
    (link storePath : Path) :
  findRoots settings canonPath absPath dirOf isInStore toStorePath readDirectory
            fuel d deleteStale o = Some (Ret rootMap, o') ->
  In (link, storePath) rootMap ->
  Db.isValidPath d storePath = true
  /\ exists t,
       o link = Some (OLink t)
       /\ o' link = Some (OLink t)
       /\ isInStore (absPath t (dirOf link)) = true
       /\ storePath = toStorePath (absPath t (dirOf link)).
Proof.
  intros H Hin. apply findRoots_scanned in H. destruct H as [H1 H2].
  destruct (H2 _ _ Hin) as [[]|[t [Et [Es [Esp Ev]]]]].
  split; [assumption|]. exists t. simpl in *. repeat split; auto.
  destruct (H1 link) as [E|[_ [t' [Et' [Es' _]]]]]; simpl in *; congruence.
Qed.

(** X2.  [LocalStore::findRoots()] leaves the file system as it is,
    whether it returns the roots or ends with an exception: stale
    links are removed by the collector's own scan only. *)
Theorem LocalStore_findRoots_reads_only
    (fuel : nat) (d : DB) (o o' : OuterFS) (r : Outcome Roots) :
  LocalStore_findRoots settings canonPath absPath dirOf isInStore toStorePath
                       readDirectory fuel d o = Some (r, o') ->
  o' = o.
Proof.
  intros H. exact (LocalStore_findRoots_keeps fuel d o r o' H).
Qed.

(** X3.  The walk below a link that leads out of the roots directory
    (the recursion with [recurseSymlinks] false) removes nothing, even
    when [deleteStale] is set and however the walk ends: a dangling
    link outside the roots tree is never deleted. *)
Theorem findRoots_deletes_nothing_outside_roots_tree
    (fuel : nat) (d : DB) (path : Path) (deleteStale : bool)
    (s : OuterFS * Roots) (r : Outcome unit) (s' : OuterFS * Roots) :
  findRootsAt absPath dirOf isInStore toStorePath readDirectory
              fuel d path false deleteStale s = Some (r, s') ->
  fst s' = fst s.
Proof.
  intros H. apply findRootsAt_scanned in H. destruct H as [_ H]. apply H. now left.
Qed.

(** X4.  The only thing the scan changes on disk, however it ends,
    is the removal of symlinks that point outside the store and are
    dangling once the scan is over; directories, files, links into the
    store and links with an existing target are as before. *)
Theorem findRoots_removes_only_stale_links
    (fuel : nat) (d : DB) (deleteStale : bool) (o o' : OuterFS)
    (r : Outcome Roots) :
  findRoots settings canonPath absPath dirOf isInStore toStorePath readDirectory
            fuel d deleteStale o = Some (r, o') ->
  forall p,
    o' p = o p
    \/ (o' p = None
        /\ exists t,
             o p = Some (OLink t)
             /\ isInStore (absPath t (dirOf p)) = false
             /\ o' (absPath t (dirOf p)) = None).
Proof.
  intros H p. unfold findRoots in H.
  destruct (findRootsAt absPath dirOf isInStore toStorePath readDirectory fuel d
              (rootsDirPath settings canonPath) true deleteStale (o, []))
    as [[[u|e] s1]|] eqn:E; inversion H; subst r o'; clear H;
    apply findRootsAt_scanned in E; destruct E as [[H1 _] _]; apply (H1 p).
Qed.

End RootScanResults.

(** The handler of the scan ignores the want of permission and passes
    on other errors: with [EACCES] on the link to the home directory
    the scan goes on, finds the profile and removes the stale link;
    with [EIO] it ends at once with the [SysError], and the stale link
    is still there. *)
Lemma findRoots_ignores_permanent_failures_only :
  (exists o',
     ExampleScan.findRoots 4 (db ExampleGC.threeDirs) true ExampleScan.forbidden
     = Some (Ret [("/nix/var/nix/gcroots/profile", "/nix/store/a")], o')
     /\ o' "/nix/var/nix/gcroots/stale" = None)
  /\ (exists o',
        ExampleScan.findRoots 4 (db ExampleGC.threeDirs) true ExampleScan.failing
        = Some (Throw (SysError "statting `/nix/var/nix/gcroots/home'"), o')
        /\ o' "/nix/var/nix/gcroots/stale" = Some (OLink "/home/u/gone")).
Proof.
  split; (eexists; split; [vm_compute; reflexivity|]; reflexivity).
Qed.

Lemma findRoots_reports_valid_store_links_witness :
  Db.isValidPath (db ExampleGC.threeDirs) "/nix/store/b" = true
  /\ exists t,
       ExampleScan.tree "/home/u/result" = Some (OLink t)
       /\ fst ExampleScan.afterScan "/home/u/result" = Some (OLink t)
       /\ Example.isInStore (ExampleScan.absPath t (ExampleScan.dirOf "/home/u/result"))
          = true
       /\ "/nix/store/b"
          = ExampleScan.toStorePath
              (ExampleScan.absPath t (ExampleScan.dirOf "/home/u/result")).
Proof.
  apply (findRoots_reports_valid_store_links Example.settings ExampleScan.canonPath
           ExampleScan.absPath ExampleScan.dirOf Example.isInStore
           ExampleScan.toStorePath ExampleScan.readDirectory
           4 (db ExampleGC.threeDirs) true ExampleScan.tree
           (fst ExampleScan.afterScan) (snd ExampleScan.afterScan)).
  - vm_compute. reflexivity.
  - vm_compute. auto.
Defined.

Lemma findRoots_removes_only_stale_links_witness :
  fst ExampleScan.afterScan "/nix/var/nix/gcroots/stale"
  = ExampleScan.tree "/nix/var/nix/gcroots/stale"
  \/ (fst ExampleScan.afterScan "/nix/var/nix/gcroots/stale" = None
      /\ exists t,
           ExampleScan.tree "/nix/var/nix/gcroots/stale" = Some (OLink t)
           /\ Example.isInStore
                (ExampleScan.absPath t (ExampleScan.dirOf "/nix/var/nix/gcroots/stale"))
              = false
           /\ fst ExampleScan.afterScan
                (ExampleScan.absPath t (ExampleScan.dirOf "/nix/var/nix/gcroots/stale"))
              = None).
Proof.
  apply (findRoots_removes_only_stale_links Example.settings ExampleScan.canonPath
           ExampleScan.absPath ExampleScan.dirOf Example.isInStore
           ExampleScan.toStorePath ExampleScan.readDirectory
           4 (db ExampleGC.threeDirs) true ExampleScan.tree
           (fst ExampleScan.afterScan) (Ret (snd ExampleScan.afterScan))).
  vm_compute. reflexivity.
Defined.

Lemma LocalStore_findRoots_reads_only_witness :
  fst (ExampleScan.scanOf
         (LocalStore_findRoots Example.settings ExampleScan.canonPath
            ExampleScan.absPath ExampleScan.dirOf Example.isInStore
            ExampleScan.toStorePath ExampleScan.readDirectory
            4 (db ExampleGC.threeDirs) ExampleScan.tree))
  = ExampleScan.tree.
Proof.
  apply (LocalStore_findRoots_reads_only Example.settings ExampleScan.canonPath
           ExampleScan.absPath ExampleScan.dirOf Example.isInStore
           ExampleScan.toStorePath ExampleScan.readDirectory
           4 (db ExampleGC.threeDirs) ExampleScan.tree _
           (Ret (snd (ExampleScan.scanOf
                   (LocalStore_findRoots Example.settings ExampleScan.canonPath
                      ExampleScan.absPath ExampleScan.dirOf Example.isInStore
                      ExampleScan.toStorePath ExampleScan.readDirectory
                      4 (db ExampleGC.threeDirs) ExampleScan.tree))))).
  vm_compute. reflexivity.
Defined.

Lemma findRoots_deletes_nothing_outside_roots_tree_witness :
  fst ExampleScan.afterHome = fst (ExampleScan.tree, @nil (Path * Path)).
Proof.
  apply (findRoots_deletes_nothing_outside_roots_tree ExampleScan.absPath
           ExampleScan.dirOf Example.isInStore ExampleScan.toStorePath
           ExampleScan.readDirectory 2 (db ExampleGC.threeDirs) "/home/u" true
           (ExampleScan.tree, []) (Ret tt) ExampleScan.afterHome).
  vm_compute. reflexivity.
Defined.

(** * Additional roots *)

Section AdditionalRoots.

Variable isInStore : Path -> bool.
Variable toStorePath : Path -> Path.

(** X5.  [addAdditionalRoots] never drops a root, and what it adds
    are exactly the store paths of the lines that lie in the store
    and are valid; a line outside the store or with an invalid store
    path adds nothing. *)
Theorem addAdditionalRoots_adds_valid_store_paths
    (d : DB) (lines : list string) (rs : PathSet) (p : Path) :
  In p (addAdditionalRoots isInStore toStorePath d lines rs)
  <-> In p rs
      \/ exists i, In i lines /\ isInStore i = true /\ p = toStorePath i
                   /\ Db.isValidPath d p = true.
Proof.
  unfold addAdditionalRoots. revert rs.
  induction lines as [|i lines IH]; intros rs; simpl.
  - split; [auto|]. intros [H|[i [[] _]]]. exact H.
  - rewrite IH. clear IH.
    assert (Hstep :
      In p (if isInStore i then
              if negb (PathSet.mem (toStorePath i) rs)
                 && Db.isValidPath d (toStorePath i)
              then PathSet.insert (toStorePath i) rs else rs
            else rs)
      <-> In p rs \/ (isInStore i = true /\ p = toStorePath i
                      /\ Db.isValidPath d p = true)).
    { destruct (isInStore i) eqn:Es.
      - destruct (PathSet.mem (toStorePath i) rs) eqn:Em; simpl.
        + split; [auto|]. intros [H|[_ [H _]]]; [exact H|].
          subst p. now apply mem_In.
        + destruct (Db.isValidPath d (toStorePath i)) eqn:Ev.
          * rewrite In_insert. split.
            -- intros [H|H]; [right|left]; auto. subst p. auto.
            -- intros [H|[_ [H _]]]; auto.
          * split; [auto|]. intros [H|[_ [H K]]]; [exact H|]. subst p. congruence.
      - split; [auto|]. intros [H|[K _]]; [exact H|discriminate]. }
    rewrite Hstep. split.
    + intros [[H|[H1 [H2 H3]]]|[j [H1 H2]]]; auto.
      * right. exists i. auto.
      * right. exists j. auto.
    + intros [H|[j [[Hj|Hj] [H1 [H2 H3]]]]]; auto.
      * subst j. left. right. auto.
      * right. exists j. auto.
Qed.

End AdditionalRoots.

(** * Permanent roots: [createSymlink] and [addPermRoot] *)

Lemma tempLink_neq (link rest : string) : link ++ ".tmp-" ++ rest <> link.
Proof.
  intros H. apply (f_equal String.length) in H. rewrite length_app in H.
  simpl in H. lia.
Qed.

Lemma outer_set_same (o : OuterFS) (p : Path) (v : option ONode) :
  Outer.set o p v p = v.
Proof. unfold Outer.set. now rewrite String.eqb_refl. Qed.

Lemma outer_set_other (o : OuterFS) (p q : Path) (v : option ONode) :
  q <> p -> Outer.set o p v q = o q.
Proof.
  intros H. unfold Outer.set. destruct (String.eqb q p) eqn:E; [|reflexivity].
  apply String.eqb_eq in E. congruence.
Qed.

Section PermRootOutcomes.

Variable settings : Settings.t.
Variable pid : string.
Variable canonPath : Path -> Path.
Variable absPath : Path -> Path -> Path.
Variable dirOf : Path -> Path.
Variable isInStore : Path -> bool.
Variable isStorePath : Path -> bool.
Variable toStorePath : Path -> Path.
Variable readDirectory : OuterFS -> Path -> list string.
Variable createDirs : OuterFS -> Path -> OuterFS.
Variable rand : string.
Variable hashPath : Path -> string.

(** X6.  The three ways [createSymlink] ends.  When it returns, the
    link points to the target and the temporary name is gone; every
    other path is as [createDirs] left it.  It fails before creating
    anything when the temporary name is taken, and when the link's
    name is a directory, or a path that cannot be reached, the rename
    fails and the temporary link is left behind. *)
Theorem createSymlink_replaces_link_or_leaves_temporary
    (link target : Path) (o : OuterFS) (r : Outcome unit) (o' : OuterFS) :
  createSymlink pid dirOf createDirs rand link target o = Some (r, o') ->
  (r = Ret tt
   /\ o' link = Some (OLink target)
   /\ o' (link ++ ".tmp-" ++ pid ++ "-" ++ rand) = None
   /\ forall p, p <> link -> p <> link ++ ".tmp-" ++ pid ++ "-" ++ rand ->
                o' p = createDirs o (dirOf link) p)
  \/ (r = Throw (SysError ("symlinking `" ++ (link ++ ".tmp-" ++ pid ++ "-" ++ rand)
                           ++ "' to `" ++ target ++ "'"))
      /\ createDirs o (dirOf link) (link ++ ".tmp-" ++ pid ++ "-" ++ rand) <> None
      /\ o' = createDirs o (dirOf link))
  \/ (r = Throw (SysError ("cannot rename `" ++ (link ++ ".tmp-" ++ pid ++ "-" ++ rand)
                           ++ "' to `" ++ link ++ "'"))
      /\ (o' link = Some ODir \/ exists e, o' link = Some (OError e))
      /\ o' (link ++ ".tmp-" ++ pid ++ "-" ++ rand) = Some (OLink target)).
Proof.
  unfold createSymlink, Outer.symlink, Outer.rename.
  set (tempLink := link ++ ".tmp-" ++ pid ++ "-" ++ rand).
  set (o1 := createDirs o (dirOf link)).
  assert (Hne : tempLink <> link) by apply tempLink_neq.
  destruct (o1 tempLink) eqn:Et.
  - intros H. inversion H; subst r o'. right. left.
    repeat split. congruence.
  - rewrite outer_set_same. rewrite outer_set_other by congruence.
    destruct (o1 link) as [[|t| |e]|] eqn:El; intros H; inversion H; subst r o'.
    2,3,5: left; split; [reflexivity|]; rewrite outer_set_same;
      rewrite !outer_set_other by congruence; rewrite outer_set_same;
      repeat split; intros p H1 H2; now rewrite !outer_set_other by assumption.
    + right. right. split; [reflexivity|].
      rewrite outer_set_same. rewrite outer_set_other by congruence. auto.
    + right. right. split; [reflexivity|].
      rewrite outer_set_same. rewrite outer_set_other by congruence. eauto.
Qed.

Lemma createSymlink_throws (link target : Path) :
  throwsOnly (fun e => exists m, e = SysError m)
             (createSymlink pid dirOf createDirs rand link target).
Proof.
  intros o e o' H. unfold createSymlink in H.
  destruct (Outer.symlink _ _ _); [|inversion H; eauto].
  destruct (Outer.rename _ _ _); inversion H; eauto.
Qed.

Lemma createSymlink_ret (link target : Path) (o o' : OuterFS) :
  createSymlink pid dirOf createDirs rand link target o = Some (Ret tt, o') ->
  o' link = Some (OLink target)
  /\ createDirs o (dirOf link) (link ++ ".tmp-" ++ pid ++ "-" ++ rand) = None
  /\ forall p, p <> link -> p <> link ++ ".tmp-" ++ pid ++ "-" ++ rand ->
               o' p = createDirs o (dirOf link) p.
Proof.
  unfold createSymlink, Outer.symlink, Outer.rename.
  set (tempLink := link ++ ".tmp-" ++ pid ++ "-" ++ rand).
  set (o1 := createDirs o (dirOf link)).
  assert (Hne : tempLink <> link) by apply tempLink_neq.
  destruct (o1 tempLink) eqn:Et; [discriminate|].
  rewrite outer_set_same. rewrite outer_set_other by congruence.
  destruct (o1 link) as [[|t| |e]|] eqn:El; intros H; inversion H; subst o';
    (split; [apply outer_set_same|]); (split; [reflexivity|]);
    intros p H1 H2; now rewrite !outer_set_other by assumption.
Qed.

Lemma addIndirectRoot_throws (path : Path) :
  throwsOnly (fun e => exists m, e = SysError m)
             (addIndirectRoot settings pid canonPath dirOf createDirs rand hashPath path).
Proof. apply createSymlink_throws. Qed.

(** X7.  [addPermRoot] validates before it acts: whenever it ends
    with an [Error] (the store path is not one, the root lies in the
    store, an indirect root would clobber something that is not a link
    into the store, or the root is outside the roots directory), the
    file system is as it was. *)
Theorem addPermRoot_error_changes_nothing
    (fuel : nat) (d : DB) (_storePath _gcRoot : Path)
    (indirect allowOutsideRootsDir : bool) (o o' : OuterFS) (msg : string) :
  addPermRoot settings pid canonPath absPath dirOf isInStore isStorePath
    toStorePath readDirectory createDirs rand hashPath
    fuel d _storePath _gcRoot indirect allowOutsideRootsDir o
  = Some (Throw (Error msg), o') ->
  o' = o.
Proof.
  unfold addPermRoot.
  destruct (isStorePath (canonPath _storePath)); simpl;
    [|intros H; inversion H; reflexivity].
  destruct (isInStore (canonPath _gcRoot)); [intros H; inversion H; reflexivity|].
  intros H. apply bind_inv in H.
  destruct H as [[e [H He]]|[a [s1 [_ H]]]].
  - inversion He; subst e; clear He. destruct indirect.
    + unfold bind at 1, get in H.
      destruct (Outer.pathExists o (canonPath _gcRoot)) as [er|ex];
        [discriminate|].
      destruct (ex && (negb (Outer.isLink o (canonPath _gcRoot))
                       || negb (isInStore (Outer.readLink o (canonPath _gcRoot))))).
      * inversion H; reflexivity.
      * apply bind_inv in H. destruct H as [[e [H He]]|[a [s1 [_ H]]]].
        -- apply createSymlink_throws in H. destruct H as [? ?]; congruence.
        -- apply addIndirectRoot_throws in H. destruct H as [? ?]; congruence.
    + apply bind_inv in H. destruct H as [[e [H He]]|[a [s1 [_ H]]]].
      * destruct allowOutsideRootsDir; simpl in H; [discriminate|].
        destruct (negb _); inversion H; reflexivity.
      * apply createSymlink_throws in H. destruct H as [? ?]; congruence.
  - apply bind_inv in H. destruct H as [[e [H He]]|[a' [s2 [_ H]]]].
    + destruct (Settings.checkRootReachability settings); [|discriminate].
      apply bind_inv in H. destruct H as [[e0 [H He0]]|[rm [s3 [_ H]]]];
        [|discriminate].
      apply findRoots_throws in H. destruct H as [? ?]; congruence.
    + discriminate.
Qed.

(** X8.  When [addPermRoot] returns, it returns the canonical root,
    the store path is one and the root lies outside the store.  A
    direct root is then a symlink to the store path and, unless roots
    outside the roots directory were allowed, lies below that
    directory.  For an indirect root the entry
    [gcroots/auto/<hash of the root>] is a symlink to the root, and
    the root itself is a symlink to the store path, for a
    [createDirs] that leaves what exists alone. *)
Theorem addPermRoot_registers_root
    (fuel : nat) (d : DB) (_storePath _gcRoot : Path)
    (indirect allowOutsideRootsDir : bool) (o o' : OuterFS) (r : Path) :
  addPermRoot settings pid canonPath absPath dirOf isInStore isStorePath
    toStorePath readDirectory createDirs rand hashPath
    fuel d _storePath _gcRoot indirect allowOutsideRootsDir o
  = Some (Ret r, o') ->
  r = canonPath _gcRoot
  /\ isStorePath (canonPath _storePath) = true
  /\ isInStore r = false
  /\ if indirect then
       o' (canonPath (Settings.nixStateDir settings ++ "/" ++ gcRootsDir
                      ++ "/auto/" ++ hashPath r))
       = Some (OLink r)
       /\ ((forall x dir p n, x p = Some n -> createDirs x dir p = Some n) ->
           r <> canonPath (Settings.nixStateDir settings ++ "/" ++ gcRootsDir
                           ++ "/auto/" ++ hashPath r) ->
           o' r = Some (OLink (canonPath _storePath)))
     else
       o' r = Some (OLink (canonPath _storePath))
       /\ (allowOutsideRootsDir = false ->
           substring 0 (String.length (rootsDirPath settings canonPath) + 1) r
           = rootsDirPath settings canonPath ++ "/").
Proof.
  unfold addPermRoot.
  destruct (isStorePath (canonPath _storePath)) eqn:Esp; simpl; [|discriminate].
  destruct (isInStore (canonPath _gcRoot)) eqn:Eis; [discriminate|].
  intros H. apply bind_inv in H.
  destruct H as [[e [_ He]]|[a [s1 [H1 H]]]]; [discriminate|].
  apply bind_inv in H. destruct H as [[e [_ He]]|[a' [s2 [H2 H]]]]; [discriminate|].
  inversion H; subst r o'; clear H.
  assert (Hs : s2 = s1).
  { destruct (Settings.checkRootReachability settings).
    - apply bind_inv in H2. destruct H2 as [[e [_ He]]|[rm [s3 [Ef H2]]]];
        [discriminate|].
      inversion H2; subst s3.
      exact (LocalStore_findRoots_keeps settings canonPath absPath dirOf isInStore
               toStorePath readDirectory fuel d _ _ _ Ef).
    - inversion H2; reflexivity. }
  subst s2. clear H2.
  split; [reflexivity|]. split; [reflexivity|]. split; [assumption|].
  destruct indirect.
  - unfold bind at 1, get in H1.
    destruct (Outer.pathExists o (canonPath _gcRoot)) as [er|ex];
      [discriminate|].
    destruct (ex && (negb (Outer.isLink o (canonPath _gcRoot))
                     || negb (isInStore (Outer.readLink o (canonPath _gcRoot)))));
      [discriminate|].
    apply bind_inv in H1. destruct H1 as [[e [_ He]]|[[] [s0 [Ha Hb]]]]; [discriminate|].
    apply createSymlink_ret in Ha. destruct Ha as [Ha _].
    unfold addIndirectRoot in Hb. destruct a.
    apply createSymlink_ret in Hb. destruct Hb as [Hb1 [Hb2 Hb3]].
    split; [exact Hb1|]. intros Hkeep Hne.
    rewrite Hb3.
    + apply Hkeep, Ha.
    + exact Hne.
    + intros E. rewrite <- E in Hb2.
      rewrite (Hkeep _ _ _ _ Ha) in Hb2. discriminate.
  - apply bind_inv in H1. destruct H1 as [[e [_ He]]|[[] [s0 [Ha Hb]]]]; [discriminate|].
    destruct a. apply createSymlink_ret in Hb. destruct Hb as [Hb _].
    split; [exact Hb|]. intros Hal. subst allowOutsideRootsDir. simpl in Ha.
    destruct (String.eqb _ _) eqn:E; simpl in Ha; [|discriminate].
    apply String.eqb_eq in E. exact E.
Qed.

End PermRootOutcomes.

Lemma addPermRoot_error_changes_nothing_witness :
  ExampleRoots.emptyOuter = ExampleRoots.emptyOuter.
Proof.
  apply (addPermRoot_error_changes_nothing Example.settings Example.pid
           ExampleRoots.canonPath ExampleRoots.absPath ExampleRoots.dirOf
           Example.isInStore Example.isStorePath ExampleRoots.toStorePath
           ExampleRoots.readDirectory ExampleRoots.createDirs ExampleRoots.rand
           ExampleRoots.hashPath 1 Example.emptyDB
           "/nix/store/a" "/home/u/result" false false
           ExampleRoots.emptyOuter ExampleRoots.emptyOuter
           ("path `/home/u/result' is not a valid garbage collector root; "
            ++ "it's not in the directory `/nix/var/nix/gcroots'")).
  vm_compute. reflexivity.
Defined.

Lemma createSymlink_replaces_link_or_leaves_temporary_witness :
  (Ret tt = Ret tt
   /\ ExamplePerm.linked "/nix/var/nix/gcroots/result" = Some (OLink "/nix/store/a")
   /\ ExamplePerm.linked
        ("/nix/var/nix/gcroots/result" ++ ".tmp-" ++ Example.pid ++ "-"
         ++ ExampleRoots.rand) = None
   /\ forall p, p <> "/nix/var/nix/gcroots/result" ->
                p <> "/nix/var/nix/gcroots/result" ++ ".tmp-" ++ Example.pid ++ "-"
                     ++ ExampleRoots.rand ->
                ExamplePerm.linked p
                = ExampleRoots.createDirs ExampleRoots.emptyOuter
                    (ExampleRoots.dirOf "/nix/var/nix/gcroots/result") p)
  \/ (Ret tt
      = Throw (SysError ("symlinking `"
                         ++ ("/nix/var/nix/gcroots/result" ++ ".tmp-" ++ Example.pid
                             ++ "-" ++ ExampleRoots.rand)
                         ++ "' to `" ++ "/nix/store/a" ++ "'"))
      /\ ExampleRoots.createDirs ExampleRoots.emptyOuter
           (ExampleRoots.dirOf "/nix/var/nix/gcroots/result")
           ("/nix/var/nix/gcroots/result" ++ ".tmp-" ++ Example.pid ++ "-"
            ++ ExampleRoots.rand) <> None
      /\ ExamplePerm.linked
         = ExampleRoots.createDirs ExampleRoots.emptyOuter
             (ExampleRoots.dirOf "/nix/var/nix/gcroots/result"))
  \/ (Ret tt
      = Throw (SysError ("cannot rename `"
                         ++ ("/nix/var/nix/gcroots/result" ++ ".tmp-" ++ Example.pid
                             ++ "-" ++ ExampleRoots.rand)
                         ++ "' to `" ++ "/nix/var/nix/gcroots/result" ++ "'"))
      /\ (ExamplePerm.linked "/nix/var/nix/gcroots/result" = Some ODir
          \/ exists e,
               ExamplePerm.linked "/nix/var/nix/gcroots/result" = Some (OError e))
      /\ ExamplePerm.linked
           ("/nix/var/nix/gcroots/result" ++ ".tmp-" ++ Example.pid ++ "-"
            ++ ExampleRoots.rand) = Some (OLink "/nix/store/a")).
Proof.
  apply (createSymlink_replaces_link_or_leaves_temporary Example.pid
           ExampleRoots.dirOf ExampleRoots.createDirs ExampleRoots.rand
           "/nix/var/nix/gcroots/result" "/nix/store/a" ExampleRoots.emptyOuter
           (Ret tt) ExamplePerm.linked).
  vm_compute. reflexivity.
Defined.

Lemma addPermRoot_registers_root_witness :
  "/home/u/result" = ExampleRoots.canonPath "/home/u/result"
  /\ Example.isStorePath (ExampleRoots.canonPath "/nix/store/a") = true
  /\ Example.isInStore "/home/u/result" = false
  /\ ExamplePerm.indirectRoot
       (ExampleRoots.canonPath
          (Settings.nixStateDir Example.settings ++ "/" ++ gcRootsDir ++ "/auto/"
           ++ ExampleRoots.hashPath "/home/u/result"))
     = Some (OLink "/home/u/result")
     /\ ((forall x dir p n, x p = Some n -> ExampleRoots.createDirs x dir p = Some n) ->
         "/home/u/result"
         <> ExampleRoots.canonPath
              (Settings.nixStateDir Example.settings ++ "/" ++ gcRootsDir ++ "/auto/"
               ++ ExampleRoots.hashPath "/home/u/result") ->
         ExamplePerm.indirectRoot "/home/u/result"
         = Some (OLink (ExampleRoots.canonPath "/nix/store/a"))).
Proof.
  apply (addPermRoot_registers_root Example.settings Example.pid
           ExampleRoots.canonPath ExampleRoots.absPath ExampleRoots.dirOf
           Example.isInStore Example.isStorePath ExampleRoots.toStorePath
           ExampleRoots.readDirectory ExampleRoots.createDirs ExampleRoots.rand
           ExampleRoots.hashPath 1 Example.emptyDB
           "/nix/store/a" "/home/u/result" true false
           ExampleRoots.emptyOuter ExamplePerm.indirectRoot "/home/u/result").
  vm_compute. reflexivity.
Defined.

(** * The temporary-roots protocol *)

Lemma nth_error_update_other {A} (l : list A) (n m : nat) (f : A -> A) :
  n <> m -> nth_error (Temp.update l n f) m = nth_error l m.
Proof.
  revert n m. induction l as [|x l IH]; intros [|n] [|m] H; simpl;
    try reflexivity; try congruence.
  apply IH. congruence.
Qed.

Lemma inode_onInode_other (fd fd' : nat) (f : Inode -> Inode) (t : TempDir) :
  fd' <> fd -> Temp.inode (Temp.onInode fd' f t) fd = Temp.inode t fd.
Proof. intros H. apply nth_error_update_other, H. Qed.

Lemma lookup_unlink_other (name name' : string) (t : TempDir) :
  name <> name' -> Temp.lookup (Temp.unlink name' t) name = Temp.lookup t name.
Proof.
  intros H. unfold Temp.lookup, Temp.unlink. simpl.
  induction (entries t) as [|[n fd] l IH]; simpl; [reflexivity|].
  destruct (String.eqb n name') eqn:E; simpl.
  - apply String.eqb_eq in E. subst n.
    destruct (String.eqb name' name) eqn:E'; [|exact IH].
    apply String.eqb_eq in E'. congruence.
  - destruct (String.eqb n name); [reflexivity|exact IH].
Qed.

Lemma lookup_In (t : TempDir) (name : string) (fd : nat) :
  Temp.lookup t name = Some fd -> In name (tempRootFiles t).
Proof.
  unfold Temp.lookup, tempRootFiles.
  destruct (List.find _ _) as [e|] eqn:E; [|discriminate].
  intros _. apply find_some in E. destruct E as [E1 E2].
  apply String.eqb_eq in E2. subst name. now apply in_map.
Qed.

Lemma encodeRoots_app (ps : list Path) (p : Path) :
  encodeRoots (ps ++ [p]) = encodeRoots ps ++ p ++ String Temp.NUL EmptyString.
Proof.
  unfold encodeRoots. induction ps as [|q ps IH]; simpl.
  - reflexivity.
  - rewrite IH. clear IH.
    induction q as [|c q IHq]; simpl; [reflexivity|]. now rewrite IHq.
Qed.

Section TempRootsProtocol.

Variable isStorePath : Path -> bool.

Lemma createLoop_fresh (name : string) (interference : list bool) :
  forall t fd t' passes,
    createLoop isStorePath name interference t = Some (fd, t', passes) ->
    registered name fd [] t'.
Proof.
  induction interference as [|reaped later IH]; intros t fd t' passes H;
    [discriminate|].
  simpl in H.
  destruct (createTempRootsFile isStorePath name reaped t) as [[fd1 t1] size] eqn:E.
  destruct (leavesLoop size) eqn:El.
  - inversion H; subst fd1 t1 passes; clear H.
    unfold createTempRootsFile in E.
    set (t0 := match Temp.lookup t name with
               | Some _ => Temp.unlink name t
               | None => t
               end) in E.
    assert (H0 : Temp.lookup t0 name = None).
    { unfold t0. destruct (Temp.lookup t name) eqn:E0; [apply lookup_unlink|exact E0]. }
    destruct (openCreate_fresh name t0 H0) as [t2 [Ho [Hl Hi]]].
    rewrite Ho in E. destruct reaped.
    + (* a reaped file holds the collector's byte *)
      exfalso. inversion E; subst size. clear E.
      unfold leavesLoop, fileSize in El. rewrite inode_onInode in El.
      unfold collectorVisits, readTempRootsFile in El. simpl in El.
      rewrite Hl, Hi in El. simpl in El. rewrite inode_onInode in El.
      replace (Temp.inode (Temp.unlink name t2) (List.length (inodes t0)))
        with (Some (mkInode EmptyString Unlocked false false)) in El
        by (symmetry; exact Hi).
      simpl in El. discriminate.
    + inversion E; subst fd t'. clear E. split.
      * rewrite lookup_onInode. exact Hl.
      * rewrite inode_onInode, Hi. simpl. eexists. repeat split.
  - destruct (createLoop isStorePath name later t1) as [[[fd2 t2] n]|] eqn:E2;
      [|discriminate].
    inversion H; subst fd2 t2 passes. apply (IH _ _ _ _ E2).
Qed.

(** X9.  [addTempRoot] registers the path.  On first use the process
    ends up holding, with its read lock, a file of its own that
    holds this root alone, whatever files of the same name or
    collectors it met on the way; on later uses the root is added
    behind the roots the file holds already, and the file keeps its
    name and descriptor. *)
Theorem addTempRoot_registers_path
    (name : string) (interference : list bool) (path : Path)
    (t : TempDir) (fdTempRoots : option nat) (ps : list Path) (s' : TP) :
  (forall fd, fdTempRoots = Some fd -> registered name fd ps t) ->
  addTempRoot isStorePath name interference path (t, fdTempRoots) = Some s' ->
  exists fd,
    snd s' = Some fd
    /\ registered name fd
         (match fdTempRoots with Some _ => ps ++ [path] | None => [path] end)%list
         (fst s')
    /\ (forall fd0, fdTempRoots = Some fd0 -> fd = fd0).
Proof.
  intros Hreg H. unfold addTempRoot in H. simpl in H.
  assert (Hopen :
    forall fd t0 qs, registered name fd qs t0 ->
      registered name fd (qs ++ [path])%list
        (Temp.onInode fd (Temp.setOwner OwnerRead)
           (Temp.onInode fd (Temp.append (path ++ String Temp.NUL EmptyString))
              (Temp.onInode fd (fun i => mkInode (content i) OwnerWrite false (denied i)) t0)))).
  { intros fd t0 qs [Hl [i [Hi [Ho Hc]]]]. split.
    - now rewrite !lookup_onInode.
    - rewrite !inode_onInode, Hi. simpl. eexists. split; [reflexivity|].
      simpl. split; [reflexivity|]. rewrite Hc. symmetry. apply encodeRoots_app. }
  destruct fdTempRoots as [fd|].
  - inversion H; subst s'; clear H. exists fd. simpl.
    split; [reflexivity|]. split; [apply Hopen, Hreg; reflexivity|].
    intros fd0 E. congruence.
  - destruct (createLoop isStorePath name interference t) as [[[fd t1] n]|] eqn:E;
      [|discriminate].
    inversion H; subst s'; clear H. exists fd. simpl.
    split; [reflexivity|]. split; [|discriminate].
    apply (Hopen fd t1 []). apply (createLoop_fresh _ _ _ _ _ _ E).
Qed.

(** One file of the directory, read by a collector that returns. *)
Lemma readTempRootsFile_keeps_registered
    (name : string) (fd : nat) (ps : list Path) (name' : string) (s s' : TR) :
  forallb Temp.noNul ps = true ->
  registered name fd ps (fst s) ->
  readTempRootsFile isStorePath name' s = Some (Ret tt, s') ->
  registered name fd ps (fst s')
  /\ (forall p, In p (fst (snd s)) -> In p (fst (snd s')))
  /\ (forall f, In f (snd (snd s)) -> In f (snd (snd s')))
  /\ (name' = name ->
      (forall p, In p ps -> In p (fst (snd s'))) /\ In fd (snd (snd s'))).
Proof.
  intros Hnn [Hl [i [Hi [Ho Hc]]]] H. destruct s as [t [R F]]. simpl in *.
  unfold readTempRootsFile in H. simpl in H.
  destruct (Temp.lookup t name') as [fd'|] eqn:El'.
  2:{ inversion H; subst s'. simpl.
      split; [split; [exact Hl|exists i; auto]|].
      split; [auto|]. split; [auto|]. intros E. subst name'. congruence. }
  destruct (Temp.inode t fd') as [i'|] eqn:Ei'.
  2:{ inversion H; subst s'. simpl.
      split; [split; [exact Hl|exists i; auto]|].
      split; [auto|]. split; [auto|]. intros E. subst name'. congruence. }
  destruct (denied i'); [discriminate|].
  assert (Hlocked :
    owner i' <> Unlocked ->
    (forEach (Temp.parseRoots (content i') EmptyString)
       (fun root =>
          assertStorePath isStorePath root ;;;
          modify (fun s : TR =>
            (fst s, (PathSet.insert root (fst (snd s)), snd (snd s))))) ;;;
     modify (fun s : TR => (fst s, (fst (snd s), (snd (snd s) ++ [fd'])%list))))
      (Temp.onInode fd' Temp.collectorRead t, (R, F)) = Some (Ret tt, s') ->
    registered name fd ps (fst s')
    /\ (forall p, In p R -> In p (fst (snd s')))
    /\ (forall f, In f F -> In f (snd (snd s')))
    /\ (name' = name ->
        (forall p, In p ps -> In p (fst (snd s'))) /\ In fd (snd (snd s')))).
  { intros Hown K.
    destruct (forallb isStorePath (Temp.parseRoots (content i') EmptyString)) eqn:Ef.
    - rewrite (bind_ret _ _ _ _ _ (insert_roots_ok isStorePath _ _ R F Ef)) in K.
      inversion K; subst s'; clear K. simpl. split; [|split; [|split]].
      + split; [now rewrite lookup_onInode|].
        destruct (Nat.eq_dec fd' fd) as [E|E].
        * subst fd'. rewrite inode_onInode, Hi. simpl. eexists. split; [reflexivity|].
          simpl. rewrite Ho. auto.
        * rewrite inode_onInode_other by exact E. exists i. auto.
      + intros p Hp. apply In_insert_all. now right.
      + intros f Hf. apply in_or_app. now left.
      + intros E. subst name'. assert (fd' = fd) by congruence. subst fd'.
        assert (i' = i) by congruence. subst i'. split.
        * intros p Hp. apply In_insert_all. left.
          rewrite Hc. unfold encodeRoots. rewrite parseRoots_written by exact Hnn.
          exact Hp.
        * apply in_or_app. right. now left.
    - destruct (insert_roots_fails isStorePath _
                  (Temp.onInode fd' Temp.collectorRead t, (R, F)) Ef)
        as [msg [s1 E1]].
      rewrite (bind_throw _ _ _ _ _ E1) in K. discriminate. }
  destruct (owner i') eqn:Eo.
  - (* a stale file: not the registered one *)
    inversion H; subst s'; clear H. simpl.
    assert (Hfd : fd' <> fd) by (intros E; subst fd'; congruence).
    assert (Hn : name <> name') by (intros E; subst name'; congruence).
    split; [split|].
    + rewrite lookup_onInode, lookup_unlink_other by exact Hn. exact Hl.
    + rewrite inode_onInode_other by exact Hfd. exists i. auto.
    + split; [auto|]. split; [auto|]. intros E. congruence.
  - apply Hlocked; [discriminate|exact H].
  - apply Hlocked; [discriminate|exact H].
Qed.

(** X10.  The collector sees what was registered: when
    [readTempRoots] returns, the roots of every file that a process
    holds with its read lock are among the temporary roots, its
    descriptor is among those kept open, and the file is still there
    with its contents. *)
Theorem readTempRoots_sees_registered_roots
    (name : string) (fd : nat) (ps : list Path) (t : TempDir)
    (tempRoots : PathSet) (fds : FDs) (s' : TR) :
  forallb Temp.noNul ps = true ->
  registered name fd ps t ->
  readTempRoots isStorePath (t, (tempRoots, fds)) = Some (Ret tt, s') ->
  (forall p, In p ps -> In p (fst (snd s')))
  /\ In fd (snd (snd s'))
  /\ registered name fd ps (fst s').
Proof.
  intros Hnn Hreg H. unfold readTempRoots, readTempRootsFrom in H. simpl in H.
  assert (Hin : In name (tempRootFiles t)).
  { destruct Hreg as [Hl _]. apply (lookup_In _ _ _ Hl). }
  assert (G : forall names s s',
    registered name fd ps (fst s) ->
    forEach names (readTempRootsFile isStorePath) s = Some (Ret tt, s') ->
    registered name fd ps (fst s')
    /\ (forall p, In p (fst (snd s)) -> In p (fst (snd s')))
    /\ (forall f, In f (snd (snd s)) -> In f (snd (snd s')))
    /\ (In name names ->
        (forall p, In p ps -> In p (fst (snd s'))) /\ In fd (snd (snd s')))).
  { clear - Hnn. intros names. induction names as [|n names IH]; intros s s' Hreg H.
    - inversion H; subst s'. split; [exact Hreg|]. split; [auto|]. split; [auto|].
      intros [].
    - simpl in H. apply bind_inv in H.
      destruct H as [[e [_ He]]|[[] [s1 [H1 H2]]]]; [discriminate|].
      destruct (readTempRootsFile_keeps_registered name fd ps n s s1 Hnn Hreg H1)
        as [R1 [M1 [F1 N1]]].
      destruct (IH s1 s' R1 H2) as [R2 [M2 [F2 N2]]].
      split; [exact R2|]. split; [auto|]. split; [auto|].
      intros [E|E].
      + destruct (N1 E) as [A B]. split; [intros p Hp; apply M2, A, Hp|].
        apply F2, B.
      + apply (N2 E). }
  destruct (G _ (t, (tempRoots, fds)) _ Hreg H) as [R1 [_ [_ N1]]].
  destruct (N1 Hin) as [A B]. auto.
Qed.

Lemma insert_roots_sound (rs : list Path) :
  forall t R F o s',
    forEach rs
      (fun root =>
         assertStorePath isStorePath root ;;;
         modify (fun s : TR =>
           (fst s, (PathSet.insert root (fst (snd s)), snd (snd s)))))
      (t, (R, F)) = Some (o, s') ->
    fst s' = t
    /\ snd (snd s') = F
    /\ forall p, In p (fst (snd s')) -> In p R \/ (In p rs /\ isStorePath p = true).
Proof.
  induction rs as [|r rs IH]; intros t R F o s' H; simpl in H.
  - inversion H; subst s'. simpl. auto.
  - unfold bind at 1 in H. unfold bind at 1 in H.
    unfold assertStorePath in H. destruct (isStorePath r) eqn:Er.
    + simpl in H. apply IH in H. destruct H as [H1 [H2 H3]].
      repeat split; auto. intros p Hp. destruct (H3 p Hp) as [K|[K1 K2]].
      * apply In_insert in K. destruct K as [K|K]; [|now left].
        subst p. right. split; [now left|exact Er].
      * right. split; [now right|exact K2].
    + simpl in H. inversion H; subst s'. simpl. auto.
Qed.

Lemma readTempRootsFile_sound (t0 : TempDir) (name' : string) (s : TR)
    (o : Outcome unit) (s' : TR) :
  tracks t0 (fst s) ->
  readTempRootsFile isStorePath name' s = Some (o, s') ->
  tracks t0 (fst s')
  /\ forall p, In p (fst (snd s')) ->
               In p (fst (snd s)) \/ heldRoot isStorePath t0 p.
Proof.
  intros K H. destruct s as [t [R F]]. simpl in *.
  unfold readTempRootsFile in H. simpl in H.
  destruct (Temp.lookup t name') as [fd'|] eqn:El';
    [|inversion H; subst s'; simpl; auto].
  destruct (Temp.inode t fd') as [i'|] eqn:Ei';
    [|inversion H; subst s'; simpl; auto].
  destruct (denied i'); [inversion H; subst s'; simpl; auto|].
  assert (Hlocked :
    owner i' <> Unlocked ->
    (forEach (Temp.parseRoots (content i') EmptyString)
       (fun root =>
          assertStorePath isStorePath root ;;;
          modify (fun s : TR =>
            (fst s, (PathSet.insert root (fst (snd s)), snd (snd s))))) ;;;
     modify (fun s : TR => (fst s, (fst (snd s), (snd (snd s) ++ [fd'])%list))))
      (Temp.onInode fd' Temp.collectorRead t, (R, F)) = Some (o, s') ->
    tracks t0 (fst s')
    /\ forall p, In p (fst (snd s')) -> In p R \/ heldRoot isStorePath t0 p).
  { intros Hown Hrun.
    destruct (K name' fd' i' El' Ei' Hown) as [L0 [i0 [I0 [O0 C0]]]].
    assert (Hfst : fst s' = Temp.onInode fd' Temp.collectorRead t
                   /\ forall p, In p (fst (snd s')) ->
                        In p R \/ (In p (Temp.parseRoots (content i') EmptyString)
                                   /\ isStorePath p = true)).
    { apply bind_inv in Hrun. destruct Hrun as [[e [Hr He]]|[[] [s1 [Hr Hm]]]].
      - apply insert_roots_sound in Hr. destruct Hr as [A [_ B]]. auto.
      - apply insert_roots_sound in Hr. destruct Hr as [A [_ B]].
        inversion Hm; subst s'. simpl. auto. }
    destruct Hfst as [Hfst Hroots]. split.
    - rewrite Hfst. intros name fd i Hl Hi Ho.
      rewrite lookup_onInode in Hl.
      destruct (Nat.eq_dec fd' fd) as [E|E].
      + subst fd'. rewrite inode_onInode, Ei' in Hi. simpl in Hi.
        inversion Hi; subst i. simpl in *.
        apply (K name fd i' Hl Ei'). exact Hown.
      + rewrite inode_onInode_other in Hi by exact E. apply (K name fd i Hl Hi Ho).
    - intros p Hp. destruct (Hroots p Hp) as [A|[A B]]; [now left|].
      right. split; [exact B|]. exists name', fd', i0. rewrite C0. auto. }
  destruct (owner i') eqn:Eo.
  - inversion H; subst s'; clear H. simpl. split; [|auto].
    intros name fd i Hl Hi Ho. rewrite lookup_onInode in Hl.
    destruct (String.eqb name name') eqn:En.
    + apply String.eqb_eq in En. subst name'. rewrite lookup_unlink in Hl. discriminate.
    + apply String.eqb_neq in En. rewrite lookup_unlink_other in Hl by exact En.
      destruct (Nat.eq_dec fd' fd) as [E|E].
      * subst fd'. rewrite inode_onInode in Hi.
        change (Temp.inode (Temp.unlink name' t) fd) with (Temp.inode t fd) in Hi.
        rewrite Ei' in Hi. simpl in Hi. inversion Hi; subst i. simpl in Ho.
        congruence.
      * rewrite inode_onInode_other in Hi by exact E. apply (K name fd i Hl Hi Ho).
  - apply Hlocked; [discriminate|exact H].
  - apply Hlocked; [discriminate|exact H].
Qed.

Lemma readTempRootsFrom_sound (t0 : TempDir) (names : list string) :
  forall s o s',
    tracks t0 (fst s) ->
    forEach names (readTempRootsFile isStorePath) s = Some (o, s') ->
    tracks t0 (fst s')
    /\ forall p, In p (fst (snd s')) ->
                 In p (fst (snd s)) \/ heldRoot isStorePath t0 p.
Proof.
  induction names as [|n names IH]; intros s o s' K H; simpl in H.
  - inversion H; subst s'. auto.
  - apply bind_inv in H. destruct H as [[e [H1 He]]|[[] [s1 [H1 H2]]]].
    + apply (readTempRootsFile_sound t0 n s _ _ K H1).
    + destruct (readTempRootsFile_sound t0 n s _ _ K H1) as [K1 R1].
      destruct (IH _ _ _ K1 H2) as [K2 R2]. split; [exact K2|].
      intros p Hp. destruct (R2 p Hp) as [A|A]; auto.
Qed.

Lemma tracks_refl (t : TempDir) : tracks t t.
Proof. intros name fd i Hl Hi Ho. split; [exact Hl|]. exists i. auto. Qed.

(** X11.  [readTempRoots] reports nothing but what is held: however
    it ends, every temporary root it has added is a store path that
    stands, terminated by a NUL byte, in a file of the directory whose
    owner holds a lock on it.  The roots of a file whose owner is dead
    are never added. *)
Theorem readTempRoots_reports_held_roots_only
    (t : TempDir) (tempRoots : PathSet) (fds : FDs) (o : Outcome unit) (s' : TR)
    (p : Path) :
  readTempRoots isStorePath (t, (tempRoots, fds)) = Some (o, s') ->
  In p (fst (snd s')) ->
  In p tempRoots \/ heldRoot isStorePath t p.
Proof.
  intros H Hp. unfold readTempRoots, readTempRootsFrom in H.
  destruct (readTempRootsFrom_sound t _ (t, (tempRoots, fds)) _ _ (tracks_refl t) H)
    as [_ R].
  apply (R p Hp).
Qed.

(** X12.  [removeTempRoots] withdraws the roots of the process: its
    descriptor is reset, its file has no name any more, and a root
    that a later [readTempRoots] reports comes from the file of
    another process, held under another descriptor. *)
Theorem removeTempRoots_withdraws_roots
    (name : string) (t : TempDir) (fd : nat) (tempRoots : PathSet) (fds : FDs)
    (o : Outcome unit) (s' : TR) (p : Path) :
  readTempRoots isStorePath
    (fst (removeTempRoots name (t, Some fd)), (tempRoots, fds)) = Some (o, s') ->
  In p (fst (snd s')) ->
  snd (removeTempRoots name (t, Some fd)) = None
  /\ Temp.lookup (fst (removeTempRoots name (t, Some fd))) name = None
  /\ (In p tempRoots
      \/ (isStorePath p = true
          /\ exists name' fd' i,
               name' <> name /\ fd' <> fd
               /\ Temp.lookup t name' = Some fd' /\ Temp.inode t fd' = Some i
               /\ owner i <> Unlocked
               /\ In p (Temp.parseRoots (content i) EmptyString))).
Proof.
  intros H Hp. unfold removeTempRoots in *. simpl in *.
  split; [reflexivity|]. split; [apply lookup_unlink|].
  unfold readTempRoots, readTempRootsFrom in H.
  destruct (readTempRootsFrom_sound
              (Temp.unlink name (Temp.onInode fd (Temp.setOwner Unlocked) t)) _
              (Temp.unlink name (Temp.onInode fd (Temp.setOwner Unlocked) t),
               (tempRoots, fds)) _ _ (tracks_refl _) H) as [_ R].
  destruct (R p Hp) as [A|[A [name' [fd' [i [Hl [Hi [Ho Hin]]]]]]]]; [now left|].
  right. split; [exact A|]. simpl in Hl, Hi.
  assert (Hn : name' <> name).
  { intros E. subst name'. rewrite lookup_unlink in Hl. discriminate. }
  rewrite lookup_unlink_other, lookup_onInode in Hl by exact Hn.
  change (Temp.inode (Temp.unlink name
            (Temp.onInode fd (Temp.setOwner Unlocked) t)) fd')
    with (Temp.inode (Temp.onInode fd (Temp.setOwner Unlocked) t) fd') in Hi.
  assert (Hf : fd' <> fd).
  { intros E. subst fd'. rewrite inode_onInode in Hi.
    destruct (Temp.inode t fd); simpl in Hi; [|discriminate].
    inversion Hi; subst i. simpl in Ho. congruence. }
  rewrite inode_onInode_other in Hi by congruence.
  exists name', fd', i. repeat split; assumption.
Qed.

End TempRootsProtocol.

Lemma addTempRoot_registers_path_witness :
  exists fd,
    snd ExampleRegister.second = Some fd
    /\ registered "4242" fd (["/nix/store/a"] ++ ["/nix/store/b"])%list
         (fst ExampleRegister.second)
    /\ (forall fd0, Some 3 = Some fd0 -> fd = fd0).
Proof.
  apply (addTempRoot_registers_path Example.isStorePath "4242" [] "/nix/store/b"
           (fst ExampleRegister.first) (Some 3) ["/nix/store/a"]
           ExampleRegister.second).
  - intros fd E. inversion E; subst fd. split; [vm_compute; reflexivity|].
    exists (mkInode ("/nix/store/a" ++ ExampleTemp.nul) OwnerRead false false).
    repeat split.
  - vm_compute. reflexivity.
Defined.

Lemma readTempRoots_sees_registered_roots_witness :
  (forall p, In p ["/nix/store/a"; "/nix/store/b"] ->
             In p (fst (snd ExampleRegister.collected)))
  /\ In 3 (snd (snd ExampleRegister.collected))
  /\ registered "4242" 3 ["/nix/store/a"; "/nix/store/b"]
       (fst ExampleRegister.collected).
Proof.
  apply (readTempRoots_sees_registered_roots Example.isStorePath "4242" 3
           ["/nix/store/a"; "/nix/store/b"] (fst ExampleRegister.second) [] []
           ExampleRegister.collected).
  - reflexivity.
  - split; [vm_compute; reflexivity|].
    exists (mkInode ("/nix/store/a" ++ ExampleTemp.nul ++ "/nix/store/b"
                     ++ ExampleTemp.nul) OwnerRead false false).
    repeat split.
  - vm_compute. reflexivity.
Defined.

Lemma readTempRoots_reports_held_roots_only_witness :
  In "/nix/store/c" (@nil Path)
  \/ heldRoot Example.isStorePath (fst ExampleRegister.second) "/nix/store/c".
Proof.
  apply (readTempRoots_reports_held_roots_only Example.isStorePath
           (fst ExampleRegister.second) [] [] (Ret tt) ExampleRegister.collected
           "/nix/store/c").
  - vm_compute. reflexivity.
  - vm_compute. auto.
Defined.

Lemma removeTempRoots_withdraws_roots_witness :
  snd (removeTempRoots "4242" (fst ExampleRegister.second, Some 3)) = None
  /\ Temp.lookup (fst (removeTempRoots "4242" (fst ExampleRegister.second, Some 3)))
       "4242" = None
  /\ (In "/nix/store/b" (@nil Path)
      \/ (Example.isStorePath "/nix/store/b" = true
          /\ exists name' fd' i,
               name' <> "4242" /\ fd' <> 3
               /\ Temp.lookup (fst ExampleRegister.second) name' = Some fd'
               /\ Temp.inode (fst ExampleRegister.second) fd' = Some i
               /\ owner i <> Unlocked
               /\ In "/nix/store/b" (Temp.parseRoots (content i) EmptyString))).
Proof.
  apply (removeTempRoots_withdraws_roots Example.isStorePath "4242"
           (fst ExampleRegister.second) 3 [] [] (Ret tt)
           ExampleRegister.collectedLater "/nix/store/b").
  - vm_compute. reflexivity.
  - vm_compute. auto.
Defined.

(** * The reader of the temporary roots, file by file *)

Lemma append_assoc (a b c : string) : (a ++ b) ++ c = a ++ b ++ c.
Proof. induction a as [|x a IH]; simpl; [reflexivity | now rewrite IH]. Qed.

Lemma append_nil_r (a : string) : a ++ EmptyString = a.
Proof. induction a as [|x a IH]; simpl; [reflexivity | now rewrite IH]. Qed.

Lemma noNul_app (a b : string) :
  Temp.noNul (a ++ b) = Temp.noNul a && Temp.noNul b.
Proof.
  induction a as [|x a IH]; simpl; [reflexivity|].
  rewrite IH. now rewrite andb_assoc.
Qed.

(** The roots in bytes that begin with the roots [ps], each followed
    by a NUL byte. *)
Lemma parseRoots_encoded (ps : list Path) (rest : string) :
  forallb Temp.noNul ps = true ->
  Temp.parseRoots (encodeRoots ps ++ rest) EmptyString
  = (ps ++ Temp.parseRoots rest EmptyString)%list.
Proof.
  induction ps as [|p ps IH]; intros H; simpl in *.
  - reflexivity.
  - apply andb_prop in H. destruct H as [Hp Hps].
    rewrite append_assoc. simpl.
    rewrite parseRoots_one by exact Hp. simpl. now rewrite IH.
Qed.

(** Every string is made of its roots, each followed by a NUL byte,
    and a rest without a NUL byte. *)
Lemma parseRoots_decompose (c cur : string) :
  Temp.noNul cur = true ->
  exists ps rest,
    Temp.parseRoots c cur = ps
    /\ cur ++ c = encodeRoots ps ++ rest
    /\ forallb Temp.noNul ps = true
    /\ Temp.noNul rest = true.
Proof.
  revert cur. induction c as [|x c IH]; intros cur Hcur; simpl.
  - exists [], cur. simpl. rewrite append_nil_r. auto.
  - destruct (Ascii.eqb x Temp.NUL) eqn:E.
    + apply Ascii.eqb_eq in E. subst x.
      destruct (IH EmptyString eq_refl) as [ps [rest [H1 [H2 [H3 H4]]]]].
      exists (cur :: Temp.parseRoots c EmptyString), rest. simpl.
      split; [reflexivity|]. rewrite H1. simpl in H2. rewrite H2.
      rewrite append_assoc. simpl. split; [reflexivity|].
      rewrite Hcur, H3. auto.
    + destruct (IH (cur ++ String x EmptyString)) as [ps [rest [H1 [H2 [H3 H4]]]]].
      { rewrite noNul_app, Hcur. simpl. now rewrite E. }
      exists ps, rest. split; [exact H1|].
      rewrite append_assoc in H2. simpl in H2. auto.
Qed.

Lemma rootIn_parseRoots (c : string) (p : Path) :
  rootIn c p <-> In p (Temp.parseRoots c EmptyString).
Proof.
  split.
  - intros [ps [rest [E [Hn Hp]]]]. subst c.
    rewrite parseRoots_encoded by exact Hn. apply in_or_app. now left.
  - intros H.
    destruct (parseRoots_decompose c EmptyString eq_refl)
      as [ps [rest [H1 [H2 [H3 _]]]]].
    simpl in H2. exists ps, rest. rewrite H1 in H. auto.
Qed.

Lemma NoDup_snd_injective {A B} (l : list (A * B)) (a b : A) (x : B) :
  NoDup (map snd l) -> In (a, x) l -> In (b, x) l -> a = b.
Proof.
  induction l as [|[c y] l IH]; simpl; intros Hn Ha Hb; [destruct Ha|].
  inversion Hn as [|? ? Hy Hl]; subst.
  destruct Ha as [Ha|Ha], Hb as [Hb|Hb].
  - congruence.
  - inversion Ha; subst. exfalso. apply Hy.
    change x with (snd (b, x)). now apply in_map.
  - inversion Hb; subst. exfalso. apply Hy.
    change x with (snd (a, x)). now apply in_map.
  - now apply IH.
Qed.

Lemma lookup_entry (t : TempDir) (name : string) (fd : nat) :
  Temp.lookup t name = Some fd -> In (name, fd) (entries t).
Proof.
  unfold Temp.lookup.
  destruct (List.find _ _) as [[n f]|] eqn:E; [|discriminate].
  intros H. inversion H; subst f. apply find_some in E. destruct E as [E1 E2].
  simpl in E2. apply String.eqb_eq in E2. now subst n.
Qed.

Section ReaderOfTemporaryRoots.

Variable isStorePath : Path -> bool.

(** The reader ends on every directory. *)
Lemma readTempRootsFile_total (name : string) (s : TR) :
  exists o s', readTempRootsFile isStorePath name s = Some (o, s').
Proof.
  unfold readTempRootsFile.
  destruct (Temp.lookup (fst s) name) as [fd|]; [|eauto].
  destruct (Temp.inode (fst s) fd) as [i|]; [|eauto].
  destruct (denied i); [eauto|].
  assert (K : forall s0 : TR,
            exists o s',
              (forEach (Temp.parseRoots (content i) EmptyString)
                 (fun root =>
                    assertStorePath isStorePath root ;;;
                    modify (fun s : TR =>
                      (fst s, (PathSet.insert root (fst (snd s)), snd (snd s))))) ;;;
               modify (fun s : TR =>
                 (fst s, (fst (snd s), (snd (snd s) ++ [fd])%list)))) s0
              = Some (o, s')).
  { intros s0.
    destruct (forEach_total
                (fun root =>
                   assertStorePath isStorePath root ;;;
                   modify (fun s : TR =>
                     (fst s, (PathSet.insert root (fst (snd s)), snd (snd s)))))
                (Temp.parseRoots (content i) EmptyString)) with (s := s0)
      as [[[]|e] [s1 E]].
    - intros root s1. unfold bind, assertStorePath, modify, ret, throw.
      destruct (isStorePath root); eauto.
    - rewrite (bind_ret _ _ _ _ _ E). unfold modify. eauto.
    - rewrite (bind_throw _ _ _ _ _ E). eauto. }
  destruct (owner i); [eauto|apply K|apply K].
Qed.

Lemma readTempRoots_total (s : TR) :
  exists o s', readTempRoots isStorePath s = Some (o, s').
Proof.
  unfold readTempRoots, readTempRootsFrom. apply forEach_total.
  intros name s0. apply readTempRootsFile_total.
Qed.

(** What the reader does with one file, in every case. *)
Lemma readTempRootsFile_effect (name : string) (t : TempDir) (R : PathSet) (F : FDs)
    (o : Outcome unit) (s' : TR) :
  readTempRootsFile isStorePath name (t, (R, F)) = Some (o, s') ->
  match Temp.lookup t name with
  | None => o = Ret tt /\ s' = (t, (R, F))
  | Some fd =>
      match Temp.inode t fd with
      | None => o = Ret tt /\ s' = (t, (R, F))
      | Some i =>
          if denied i then
            (exists msg, o = Throw (SysError msg)) /\ s' = (t, (R, F))
          else
            match owner i with
            | Unlocked =>
                o = Ret tt
                /\ s' = (Temp.onInode fd (Temp.overwrite "d") (Temp.unlink name t),
                         (R, F))
            | _ =>
                fst s' = Temp.onInode fd Temp.collectorRead t
                /\ if forallb isStorePath (Temp.parseRoots (content i) EmptyString)
                   then o = Ret tt
                        /\ snd s'
                           = (PathSet.insert_all
                                (Temp.parseRoots (content i) EmptyString) R,
                              (F ++ [fd])%list)
                   else (exists msg, o = Throw (Error msg))
                        /\ snd (snd s') = F
                        /\ forall p, In p (fst (snd s')) ->
                             In p R
                             \/ In p (Temp.parseRoots (content i) EmptyString)
            end
      end
  end.
Proof.
  intros H. unfold readTempRootsFile in H. cbn [fst snd] in H.
  destruct (Temp.lookup t name) as [fd|]; [|inversion H; auto].
  destruct (Temp.inode t fd) as [i|]; [|inversion H; auto].
  destruct (denied i); [inversion H; eauto|].
  assert (K : forall s0,
            s0 = (Temp.onInode fd Temp.collectorRead t, (R, F)) ->
            (forEach (Temp.parseRoots (content i) EmptyString)
               (fun root =>
                  assertStorePath isStorePath root ;;;
                  modify (fun s : TR =>
                    (fst s, (PathSet.insert root (fst (snd s)), snd (snd s))))) ;;;
             modify (fun s : TR =>
               (fst s, (fst (snd s), (snd (snd s) ++ [fd])%list)))) s0
            = Some (o, s') ->
            fst s' = Temp.onInode fd Temp.collectorRead t
            /\ if forallb isStorePath (Temp.parseRoots (content i) EmptyString)
               then o = Ret tt
                    /\ snd s'
                       = (PathSet.insert_all
                            (Temp.parseRoots (content i) EmptyString) R,
                          (F ++ [fd])%list)
               else (exists msg, o = Throw (Error msg))
                    /\ snd (snd s') = F
                    /\ forall p, In p (fst (snd s')) ->
                         In p R
                         \/ In p (Temp.parseRoots (content i) EmptyString)).
  { intros s0 -> K.
    destruct (forallb isStorePath (Temp.parseRoots (content i) EmptyString)) eqn:Ef.
    - rewrite (bind_ret _ _ _ _ _ (insert_roots_ok isStorePath _ _ R F Ef)) in K.
      inversion K; subst o s'. simpl. auto.
    - destruct (insert_roots_fails isStorePath _
                  (Temp.onInode fd Temp.collectorRead t, (R, F)) Ef)
        as [msg [s1 E1]].
      rewrite (bind_throw _ _ _ _ _ E1) in K. inversion K; subst o s'.
      destruct (insert_roots_sound isStorePath _ _ _ _ _ _ E1) as [A [B C]].
      split; [exact A|]. split; [eauto|]. split; [exact B|].
      intros p Hp. destruct (C p Hp) as [X|[X _]]; auto. }
  destruct (owner i); [inversion H; auto | |]; exact (K _ eq_refl H).
Qed.

(** The same, for a file that is there: what the state after it
    holds. *)
Lemma readTempRootsFile_one (name : string) (t : TempDir) (R : PathSet) (F : FDs)
    (fd : nat) (i : Inode) (o : Outcome unit) (s' : TR) :
  Temp.lookup t name = Some fd ->
  Temp.inode t fd = Some i ->
  readTempRootsFile isStorePath name (t, (R, F)) = Some (o, s') ->
  (forall name', name' <> name -> Temp.lookup (fst s') name' = Temp.lookup t name')
  /\ (forall f, f <> fd -> Temp.inode (fst s') f = Temp.inode t f)
  /\ (forall p, In p (fst (snd s')) ->
        In p R
        \/ (owner i <> Unlocked
            /\ In p (Temp.parseRoots (content i) EmptyString)))
  /\ (forall f, In f (snd (snd s')) -> In f F \/ (f = fd /\ owner i <> Unlocked))
  /\ match o with
     | Ret _ =>
         (forall p, In p R -> In p (fst (snd s')))
         /\ (forall f, In f F -> In f (snd (snd s')))
         /\ denied i = false
         /\ match owner i with
            | Unlocked =>
                Temp.lookup (fst s') name = None
                /\ Temp.inode (fst s') fd = Some (Temp.overwrite "d" i)
            | _ =>
                Temp.lookup (fst s') name = Some fd
                /\ Temp.inode (fst s') fd = Some (Temp.collectorRead i)
                /\ In fd (snd (snd s'))
                /\ forallb isStorePath
                     (Temp.parseRoots (content i) EmptyString) = true
                /\ forall p,
                     In p (Temp.parseRoots (content i) EmptyString) ->
                     In p (fst (snd s'))
            end
     | Throw e =>
         (denied i = true /\ exists msg, e = SysError msg)
         \/ (denied i = false /\ owner i <> Unlocked
             /\ forallb isStorePath
                  (Temp.parseRoots (content i) EmptyString) = false
             /\ exists msg, e = Error msg)
     end.
Proof.
  intros Hl Hi H. apply readTempRootsFile_effect in H. rewrite Hl, Hi in H.
  destruct (denied i) eqn:Ed.
  { destruct H as [[msg ->] ->]. simpl.
    split; [auto|]. split; [auto|]. split; [auto|]. split; [auto|]. left. eauto. }
  assert (Hheld : owner i <> Unlocked ->
    fst s' = Temp.onInode fd Temp.collectorRead t
    /\ (if forallb isStorePath (Temp.parseRoots (content i) EmptyString)
        then o = Ret tt
             /\ snd s'
                = (PathSet.insert_all (Temp.parseRoots (content i) EmptyString) R,
                   (F ++ [fd])%list)
        else (exists msg, o = Throw (Error msg))
             /\ snd (snd s') = F
             /\ forall p, In p (fst (snd s')) ->
                  In p R \/ In p (Temp.parseRoots (content i) EmptyString)) ->
    (forall name', name' <> name -> Temp.lookup (fst s') name' = Temp.lookup t name')
    /\ (forall f, f <> fd -> Temp.inode (fst s') f = Temp.inode t f)
    /\ (forall p, In p (fst (snd s')) ->
          In p R
          \/ (owner i <> Unlocked
              /\ In p (Temp.parseRoots (content i) EmptyString)))
    /\ (forall f, In f (snd (snd s')) -> In f F \/ (f = fd /\ owner i <> Unlocked))
    /\ match o with
       | Ret _ =>
           (forall p, In p R -> In p (fst (snd s')))
           /\ (forall f, In f F -> In f (snd (snd s')))
           /\ false = false
           /\ Temp.lookup (fst s') name = Some fd
           /\ Temp.inode (fst s') fd = Some (Temp.collectorRead i)
           /\ In fd (snd (snd s'))
           /\ forallb isStorePath
                (Temp.parseRoots (content i) EmptyString) = true
           /\ forall p,
                In p (Temp.parseRoots (content i) EmptyString) ->
                In p (fst (snd s'))
       | Throw e =>
           (false = true /\ exists msg, e = SysError msg)
           \/ (false = false /\ owner i <> Unlocked
               /\ forallb isStorePath
                    (Temp.parseRoots (content i) EmptyString) = false
               /\ exists msg, e = Error msg)
       end).
  { intros Ho [T1 T2]. rewrite T1.
    split; [intros name' _; apply lookup_onInode|].
    split; [intros f Hf; apply inode_onInode_other; congruence|].
    destruct (forallb isStorePath (Temp.parseRoots (content i) EmptyString)) eqn:Ef.
    - destruct T2 as [-> T2]. rewrite T2. simpl.
      split.
      { intros p Hp. apply In_insert_all in Hp. destruct Hp as [Hp|Hp]; auto. }
      split.
      { intros f Hf. apply in_app_or in Hf. destruct Hf as [Hf|[<-|[]]]; auto. }
      split; [intros p Hp; apply In_insert_all; now right|].
      split; [intros f Hf; apply in_or_app; now left|].
      split; [reflexivity|]. split; [rewrite lookup_onInode; exact Hl|].
      split; [rewrite inode_onInode, Hi; reflexivity|].
      split; [apply in_or_app; right; now left|].
      split; [reflexivity|]. intros p Hp. apply In_insert_all. now left.
    - destruct T2 as [[msg ->] [T2 T3]]. rewrite T2.
      split.
      { intros p Hp. destruct (T3 p Hp) as [X|X]; auto. }
      split; [auto|]. right. split; [reflexivity|]. split; [exact Ho|].
      split; [reflexivity|]. eauto. }
  destruct (owner i) eqn:Eo.
  - destruct H as [-> ->]. simpl.
    split.
    { intros name' Hn. rewrite lookup_onInode. now apply lookup_unlink_other. }
    split.
    { intros f Hf. rewrite inode_onInode_other by congruence. reflexivity. }
    split; [auto|]. split; [auto|]. split; [auto|]. split; [auto|].
    split; [reflexivity|].
    split; [rewrite lookup_onInode; apply lookup_unlink|].
    rewrite inode_onInode.
    change (Temp.inode (Temp.unlink name t) fd) with (Temp.inode t fd).
    rewrite Hi. reflexivity.
  - apply Hheld; [discriminate | exact H].
  - apply Hheld; [discriminate | exact H].
Qed.

(** The reader over the files [names] of the directory [t], started
    on a directory [t1] that is as [t] for these files. *)
Lemma readTempRootsFrom_each (t : TempDir) :
  (forall n1 n2 fd, Temp.lookup t n1 = Some fd -> Temp.lookup t n2 = Some fd ->
                    n1 = n2) ->
  forall names, NoDup names ->
  forall t1 R F o s',
    (forall name, In name names -> Temp.lookup t1 name = Temp.lookup t name) ->
    (forall name fd, In name names -> Temp.lookup t name = Some fd ->
                     Temp.inode t1 fd = Temp.inode t fd) ->
    forEach names (readTempRootsFile isStorePath) (t1, (R, F)) = Some (o, s') ->
    (forall name, ~ In name names -> Temp.lookup (fst s') name = Temp.lookup t1 name)
    /\ (forall fd, (forall name, In name names -> Temp.lookup t name <> Some fd) ->
                   Temp.inode (fst s') fd = Temp.inode t1 fd)
    /\ (forall p, In p (fst (snd s')) ->
          In p R
          \/ exists name fd i,
               In name names /\ Temp.lookup t name = Some fd
               /\ Temp.inode t fd = Some i /\ owner i <> Unlocked
               /\ In p (Temp.parseRoots (content i) EmptyString))
    /\ (forall f, In f (snd (snd s')) ->
          In f F
          \/ exists name i,
               In name names /\ Temp.lookup t name = Some f
               /\ Temp.inode t f = Some i /\ owner i <> Unlocked)
    /\ match o with
       | Ret _ =>
           (forall p, In p R -> In p (fst (snd s')))
           /\ (forall f, In f F -> In f (snd (snd s')))
           /\ forall name fd i,
                In name names -> Temp.lookup t name = Some fd ->
                Temp.inode t fd = Some i ->
                denied i = false
                /\ match owner i with
                   | Unlocked =>
                       Temp.lookup (fst s') name = None
                       /\ Temp.inode (fst s') fd = Some (Temp.overwrite "d" i)
                   | _ =>
                       Temp.lookup (fst s') name = Some fd
                       /\ Temp.inode (fst s') fd = Some (Temp.collectorRead i)
                       /\ In fd (snd (snd s'))
                       /\ forallb isStorePath
                            (Temp.parseRoots (content i) EmptyString) = true
                       /\ forall p,
                            In p (Temp.parseRoots (content i) EmptyString) ->
                            In p (fst (snd s'))
                   end
       | Throw e =>
           exists name fd i,
             In name names /\ Temp.lookup t name = Some fd
             /\ Temp.inode t fd = Some i
             /\ ((denied i = true /\ exists msg, e = SysError msg)
                 \/ (denied i = false /\ owner i <> Unlocked
                     /\ forallb isStorePath
                          (Temp.parseRoots (content i) EmptyString) = false
                     /\ exists msg, e = Error msg))
       end.
Proof.
  intros Hinj names. induction names as [|n rest IH]; intros Hnd t1 R F o s' Hl Hi H.
  - simpl in H. inversion H; subst o s'. simpl.
    split; [auto|]. split; [auto|]. split; [auto|]. split; [auto|].
    split; [auto|]. split; [auto|]. intros name fd i [].
  - inversion Hnd as [|? ? Hn Hrest]; subst.
    simpl in H. apply bind_inv in H.
    assert (Hl' : forall name, In name rest -> Temp.lookup t1 name = Temp.lookup t name).
    { intros name Hin. apply Hl. now right. }
    assert (Hi' : forall name fd, In name rest -> Temp.lookup t name = Some fd ->
                                  Temp.inode t1 fd = Temp.inode t fd).
    { intros name fd Hin. apply Hi. now right. }
    assert (Hne : forall name, In name rest -> name <> n).
    { intros name Hin E. subst name. contradiction. }
    (* a step that leaves the state as it is and returns *)
    assert (Hskip :
      (forall fd i, Temp.lookup t n = Some fd -> Temp.inode t fd = Some i -> False) ->
      forEach rest (readTempRootsFile isStorePath) (t1, (R, F)) = Some (o, s') ->
      (forall name, ~ In name (n :: rest) ->
                    Temp.lookup (fst s') name = Temp.lookup t1 name)
      /\ (forall fd, (forall name, In name (n :: rest) -> Temp.lookup t name <> Some fd) ->
                     Temp.inode (fst s') fd = Temp.inode t1 fd)
      /\ (forall p, In p (fst (snd s')) ->
            In p R
            \/ exists name fd i,
                 In name (n :: rest) /\ Temp.lookup t name = Some fd
                 /\ Temp.inode t fd = Some i /\ owner i <> Unlocked
                 /\ In p (Temp.parseRoots (content i) EmptyString))
      /\ (forall f, In f (snd (snd s')) ->
            In f F
            \/ exists name i,
                 In name (n :: rest) /\ Temp.lookup t name = Some f
                 /\ Temp.inode t f = Some i /\ owner i <> Unlocked)
      /\ match o with
         | Ret _ =>
             (forall p, In p R -> In p (fst (snd s')))
             /\ (forall f, In f F -> In f (snd (snd s')))
             /\ forall name fd i,
                  In name (n :: rest) -> Temp.lookup t name = Some fd ->
                  Temp.inode t fd = Some i ->
                  denied i = false
                  /\ match owner i with
                     | Unlocked =>
                         Temp.lookup (fst s') name = None
                         /\ Temp.inode (fst s') fd = Some (Temp.overwrite "d" i)
                     | _ =>
                         Temp.lookup (fst s') name = Some fd
                         /\ Temp.inode (fst s') fd = Some (Temp.collectorRead i)
                         /\ In fd (snd (snd s'))
                         /\ forallb isStorePath
                              (Temp.parseRoots (content i) EmptyString) = true
                         /\ forall p,
                              In p (Temp.parseRoots (content i) EmptyString) ->
                              In p (fst (snd s'))
                     end
         | Throw e =>
             exists name fd i,
               In name (n :: rest) /\ Temp.lookup t name = Some fd
               /\ Temp.inode t fd = Some i
               /\ ((denied i = true /\ exists msg, e = SysError msg)
                   \/ (denied i = false /\ owner i <> Unlocked
                       /\ forallb isStorePath
                            (Temp.parseRoots (content i) EmptyString) = false
                       /\ exists msg, e = Error msg))
         end).
    { intros Hno H2.
      destruct (IH Hrest t1 R F o s' Hl' Hi' H2) as [A [B [C [D E]]]].
      split; [intros name Hin; apply A; intros K; apply Hin; now right|].
      split; [intros fd Hfd; apply B; intros name Hin; apply Hfd; now right|].
      split.
      { intros p Hp. destruct (C p Hp) as [X|[name [fd [i [X1 X2]]]]]; [now left|].
        right. exists name, fd, i. split; [now right | exact X2]. }
      split.
      { intros f Hf. destruct (D f Hf) as [X|[name [i [X1 X2]]]]; [now left|].
        right. exists name, i. split; [now right | exact X2]. }
      destruct o as [[]|e].
      - destruct E as [E1 [E2 E3]]. split; [exact E1|]. split; [exact E2|].
        intros name fd i [<-|Hin] L I; [destruct (Hno fd i L I)|].
        exact (E3 name fd i Hin L I).
      - destruct E as [name [fd [i [X1 X2]]]]. exists name, fd, i.
        split; [now right | exact X2]. }
    destruct (Temp.lookup t n) as [fd|] eqn:Ln.
    2:{ destruct H as [[e [H1 _]]|[[] [s1 [H1 H2]]]];
          apply readTempRootsFile_effect in H1;
          rewrite (Hl n (or_introl eq_refl)), Ln in H1;
          destruct H1 as [H1 ->]; [discriminate|].
        apply Hskip; [intros fd i K; discriminate | exact H2]. }
    destruct (Temp.inode t fd) as [i|] eqn:In_.
    2:{ destruct H as [[e [H1 _]]|[[] [s1 [H1 H2]]]];
          apply readTempRootsFile_effect in H1;
          rewrite (Hl n (or_introl eq_refl)), Ln,
            (Hi n fd (or_introl eq_refl) Ln), In_ in H1;
          destruct H1 as [H1 ->]; [discriminate|].
        apply Hskip; [|exact H2].
        intros fd0 i0 K1 K2. inversion K1; subst fd0. congruence. }
    assert (Hfd : forall name, In name rest -> Temp.lookup t name <> Some fd).
    { intros name Hin K. apply (Hne name Hin). exact (Hinj _ _ _ K Ln). }
    assert (L1 : Temp.lookup t1 n = Some fd) by (rewrite Hl; [exact Ln | now left]).
    assert (I1 : Temp.inode t1 fd = Some i).
    { rewrite (Hi n fd (or_introl eq_refl) Ln). exact In_. }
    destruct H as [[e [H1 Ho]]|[[] [[t2 [R2 F2]] [H1 H2]]]].
    + (* the reader throws at this file *)
      subst o.
      destruct (readTempRootsFile_one n t1 R F fd i _ _ L1 I1 H1)
        as [S1 [S2 [S3 [S4 S5]]]].
      split; [intros name Hin; apply S1; intros K; apply Hin; now left|].
      split.
      { intros f Hf. apply S2. intros K. subst f.
        exact (Hf n (or_introl eq_refl) Ln). }
      split.
      { intros p Hp. destruct (S3 p Hp) as [X|[X1 X2]]; [now left|].
        right. exists n, fd, i. split; [now left|]. auto. }
      split.
      { intros f Hf. destruct (S4 f Hf) as [X|[X1 X2]]; [now left|].
        subst f. right. exists n, i. split; [now left|]. auto. }
      exists n, fd, i. split; [now left|]. split; [exact Ln|]. split; [exact In_|].
      exact S5.
    + (* the reader goes on to the other files *)
      destruct (readTempRootsFile_one n t1 R F fd i _ _ L1 I1 H1)
        as [S1 [S2 [S3 [S4 [S5 [S6 [S7 S8]]]]]]].
      cbn [fst snd] in S1, S2, S3, S4, S5, S6, S8.
      assert (Hl2 : forall name, In name rest ->
                                 Temp.lookup t2 name = Temp.lookup t name).
      { intros name Hin. rewrite (S1 name (Hne name Hin)). now apply Hl'. }
      assert (Hi2 : forall name f, In name rest -> Temp.lookup t name = Some f ->
                                   Temp.inode t2 f = Temp.inode t f).
      { intros name f Hin K. rewrite S2; [exact (Hi' name f Hin K)|].
        intros E. subst f. exact (Hfd name Hin K). }
      destruct (IH Hrest t2 R2 F2 o s' Hl2 Hi2 H2) as [A [B [C [D E]]]].
      split.
      { intros name Hin. rewrite A by (intros K; apply Hin; now right).
        apply S1. intros K. apply Hin. now left. }
      split.
      { intros f Hf. rewrite B by (intros name Hin; apply Hf; now right).
        apply S2. intros K. subst f. exact (Hf n (or_introl eq_refl) Ln). }
      split.
      { intros p Hp. destruct (C p Hp) as [X|[name [f [j [X1 X2]]]]].
        - destruct (S3 p X) as [Y|[Y1 Y2]]; [now left|].
          right. exists n, fd, i. split; [now left|]. auto.
        - right. exists name, f, j. split; [now right | exact X2]. }
      split.
      { intros f Hf. destruct (D f Hf) as [X|[name [j [X1 X2]]]].
        - destruct (S4 f X) as [Y|[Y1 Y2]]; [now left|].
          subst f. right. exists n, i. split; [now left|]. auto.
        - right. exists name, j. split; [now right | exact X2]. }
      destruct o as [[]|e].
      * destruct E as [E1 [E2 E3]].
        split; [intros p Hp; apply E1, S5, Hp|].
        split; [intros f Hf; apply E2, S6, Hf|].
        intros name f j [<-|Hin] K1 K2; [|exact (E3 name f j Hin K1 K2)].
        assert (f = fd) by congruence. subst f.
        assert (j = i) by congruence. subst j.
        split; [exact S7|].
        assert (An : Temp.lookup (fst s') n = Temp.lookup t2 n) by (apply A; exact Hn).
        assert (Bn : Temp.inode (fst s') fd = Temp.inode t2 fd) by (apply B; exact Hfd).
        rewrite An, Bn.
        destruct (owner i); [exact S8| |];
          destruct S8 as [T1 [T2 [T3 [T4 T5]]]];
          (split; [exact T1|]); (split; [exact T2|]); (split; [apply E2, T3|]);
          (split; [exact T4|]); intros p Hp; apply E1, T5, Hp.
      * destruct E as [name [f [j [X1 X2]]]]. exists name, f, j.
        split; [now right | exact X2].
Qed.

(** C7, as amended.  Take a directory that lists each name once and
    each file under one name.
    - [readTempRoots] ends.  It returns exactly when every file can
      be opened and, in every file whose owner holds a lock, every
      root (every piece that ends in a NUL byte) is a store path;
      otherwise it ends with a [SysError] or an [Error].
    - When it returns, it has dealt with each file.  Where the write
      lock was granted (the owner holds no lock), the name is
      unlinked, the byte ['d'] is written over the first byte of the
      file, and the descriptor is not kept.  Where it was not, the
      file keeps its name and its bytes, the collector holds its read
      lock, the descriptor is in [fds], and every root of the file is
      in [tempRoots].
    - However it ends, a root it has added is a root of a file whose
      owner holds a lock: a file whose owner is dead adds none. *)
Theorem readTempRoots_reads_each_file
    (t : TempDir) (tempRoots : PathSet) (fds : FDs) :
  NoDup (map fst (entries t)) ->
  NoDup (map snd (entries t)) ->
  exists (o : Outcome unit) (s' : TR),
  readTempRoots isStorePath (t, (tempRoots, fds)) = Some (o, s')
  /\ (o = Ret tt <->
     forall name fd i,
       Temp.lookup t name = Some fd -> Temp.inode t fd = Some i ->
       denied i = false
       /\ (owner i <> Unlocked ->
           forall p, rootIn (content i) p -> isStorePath p = true))
  /\ (forall e, o = Throw e -> isFailure e)
  /\ (o = Ret tt ->
      forall name fd i,
        Temp.lookup t name = Some fd -> Temp.inode t fd = Some i ->
        match owner i with
        | Unlocked =>
            Temp.lookup (fst s') name = None
            /\ (exists i',
                  Temp.inode (fst s') fd = Some i'
                  /\ content i'
                     = "d" ++ substring 1 (String.length (content i) - 1) (content i))
            /\ (In fd (snd (snd s')) -> In fd fds)
        | _ =>
            Temp.lookup (fst s') name = Some fd
            /\ (exists i',
                  Temp.inode (fst s') fd = Some i'
                  /\ content i' = content i /\ collector i' = true)
            /\ In fd (snd (snd s'))
            /\ forall p, rootIn (content i) p -> In p (fst (snd s'))
        end)
  /\ (forall p, In p (fst (snd s')) ->
        In p tempRoots
        \/ exists name fd i,
             Temp.lookup t name = Some fd /\ Temp.inode t fd = Some i
             /\ owner i <> Unlocked /\ rootIn (content i) p).
Proof.
  intros Hnames Hfiles.
  destruct (readTempRoots_total (t, (tempRoots, fds))) as [o [s' H]].
  exists o, s'. split; [exact H|].
  assert (Hfail : forall e, o = Throw e -> isFailure e).
  { intros e ->. exact (readTempRoots_throws isStorePath _ _ _ H). }
  unfold readTempRoots, readTempRootsFrom in H.
  cbn [fst] in H. unfold tempRootFiles in H.
  assert (Hinj : forall n1 n2 fd, Temp.lookup t n1 = Some fd ->
                                  Temp.lookup t n2 = Some fd -> n1 = n2).
  { intros n1 n2 fd K1 K2. apply lookup_entry in K1. apply lookup_entry in K2.
    exact (NoDup_snd_injective _ _ _ _ Hfiles K1 K2). }
  destruct (readTempRootsFrom_each t Hinj _ Hnames t tempRoots fds o s'
              (fun _ _ => eq_refl) (fun _ _ _ _ => eq_refl) H)
    as [_ [_ [C [D E]]]].
  assert (Hin : forall name fd, Temp.lookup t name = Some fd ->
                                In name (map fst (entries t))).
  { intros name fd K. exact (lookup_In _ _ _ K). }
  split; [|split; [exact Hfail|split]].
  - split.
    + intros ->. destruct E as [_ [_ E]]. intros name fd i K1 K2.
      destruct (E name fd i (Hin _ _ K1) K1 K2) as [E1 E2].
      split; [exact E1|]. intros Ho p Hp. apply rootIn_parseRoots in Hp.
      destruct (owner i); [congruence| |];
        destruct E2 as [_ [_ [_ [E2 _]]]];
        exact (proj1 (forallb_forall _ _) E2 p Hp).
    + intros Hgood. destruct o as [[]|e]; [reflexivity|]. exfalso.
      destruct E as [name [fd [i [_ [K1 [K2 [[E1 _]|[_ [E1 [E2 _]]]]]]]]]].
      * destruct (Hgood name fd i K1 K2) as [G _]. congruence.
      * destruct (Hgood name fd i K1 K2) as [_ G].
        assert (X : forallb isStorePath (Temp.parseRoots (content i) EmptyString)
                    = true).
        { apply forallb_forall. intros p Hp. apply (G E1).
          now apply rootIn_parseRoots. }
        congruence.
  - intros ->. destruct E as [_ [_ E]]. intros name fd i K1 K2.
    destruct (E name fd i (Hin _ _ K1) K1 K2) as [_ E2].
    destruct (owner i) eqn:Eo.
    + destruct E2 as [E2 E3]. split; [exact E2|]. split.
      * eexists. split; [exact E3|]. reflexivity.
      * intros Hf. destruct (D fd Hf) as [X|[name' [j [_ [_ [X1 X2]]]]]]; [exact X|].
        assert (j = i) by congruence. subst j. congruence.
    + destruct E2 as [E2 [E3 [E4 [_ E5]]]]. split; [exact E2|]. split.
      * eexists. split; [exact E3|]. split; reflexivity.
      * split; [exact E4|]. intros p Hp. apply E5. now apply rootIn_parseRoots.
    + destruct E2 as [E2 [E3 [E4 [_ E5]]]]. split; [exact E2|]. split.
      * eexists. split; [exact E3|]. split; reflexivity.
      * split; [exact E4|]. intros p Hp. apply E5. now apply rootIn_parseRoots.
  - intros p Hp. destruct (C p Hp) as [X|[name [fd [i [_ [K1 [K2 [K3 K4]]]]]]]];
      [now left|].
    right. exists name, fd, i. split; [exact K1|]. split; [exact K2|].
    split; [exact K3|]. now apply rootIn_parseRoots.
Qed.

End ReaderOfTemporaryRoots.

(** The directory of the two files: the file of the dead process [13]
    is reaped, the roots of the live process [77] are read. *)
Lemma readTempRoots_reads_each_file_witness :
  readTempRoots Example.isStorePath (ExampleTemp.twoFiles, ([], []))
  = Some (Ret tt, ExampleRegister.reaped)
  /\ exists (o : Outcome unit) (s' : TR),
  readTempRoots Example.isStorePath (ExampleTemp.twoFiles, ([], [])) = Some (o, s')
  /\ (o = Ret tt <->
     forall name fd i,
       Temp.lookup ExampleTemp.twoFiles name = Some fd ->
       Temp.inode ExampleTemp.twoFiles fd = Some i ->
       denied i = false
       /\ (owner i <> Unlocked ->
           forall p, rootIn (content i) p -> Example.isStorePath p = true))
  /\ (forall e, o = Throw e -> isFailure e)
  /\ (o = Ret tt ->
      forall name fd i,
        Temp.lookup ExampleTemp.twoFiles name = Some fd ->
        Temp.inode ExampleTemp.twoFiles fd = Some i ->
        match owner i with
        | Unlocked =>
            Temp.lookup (fst s') name = None
            /\ (exists i',
                  Temp.inode (fst s') fd = Some i'
                  /\ content i'
                     = "d" ++ substring 1 (String.length (content i) - 1) (content i))
            /\ (In fd (snd (snd s')) -> In fd [])
        | _ =>
            Temp.lookup (fst s') name = Some fd
            /\ (exists i',
                  Temp.inode (fst s') fd = Some i'
                  /\ content i' = content i /\ collector i' = true)
            /\ In fd (snd (snd s'))
            /\ forall p, rootIn (content i) p -> In p (fst (snd s'))
        end)
  /\ (forall p, In p (fst (snd s')) ->
        In p []
        \/ exists name fd i,
             Temp.lookup ExampleTemp.twoFiles name = Some fd
             /\ Temp.inode ExampleTemp.twoFiles fd = Some i
             /\ owner i <> Unlocked /\ rootIn (content i) p).
Proof.
  split; [vm_compute; reflexivity|].
  apply (readTempRoots_reads_each_file Example.isStorePath ExampleTemp.twoFiles [] []).
  - repeat (constructor; [simpl; intuition discriminate|]). constructor.
  - repeat (constructor; [simpl; intuition discriminate|]). constructor.
Defined.

(** C7 as stated fails for the files behind one that makes the reader
    throw.  The reader cannot open the file of the process [77] and
    ends with a [SysError] before it tries a lock; the file of the dead
    process [13], on which the write lock would be granted, is neither
    unlinked nor written to.  The same holds behind a file with a root
    that is not a store path. *)
Lemma readTempRoots_stops_at_failing_file :
  readTempRoots Example.isStorePath (ExampleRegister.unreadable, ([], []))
  = Some (Throw (SysError "opening temporary roots file `77'"),
          (ExampleRegister.unreadable, ([], [])))
  /\ Temp.lookup ExampleRegister.unreadable "13" = Some 1
  /\ Temp.inode ExampleRegister.unreadable 1
     = Some (mkInode ("/nix/store/a" ++ ExampleTemp.nul) Unlocked false false)
  /\ (exists s',
        readTempRoots Example.isStorePath (ExampleRegister.badFirst, ([], []))
        = Some (Throw (Error "path `/tmp/x' is not in the Nix store"), s')
        /\ Temp.lookup (fst s') "13" = Some 1
        /\ Temp.inode (fst s') 1
           = Some (mkInode ("/nix/store/a" ++ ExampleTemp.nul) Unlocked false false)
        /\ snd s' = ([], [])).
Proof.
  split; [vm_compute; reflexivity|]. split; [reflexivity|]. split; [reflexivity|].
  eexists. split; [vm_compute; reflexivity|]. repeat split.
Qed.


(** * Active temporary files *)

Lemma substring_split (s : string) :
  forall n, n <= String.length s ->
    substring 0 n s ++ substring n (String.length s - n) s = s.
Proof.
  induction s as [|c s IH]; intros [|n] Hn; simpl in *; try reflexivity; try lia.
  - f_equal. apply substring_whole.
  - f_equal. apply IH. lia.
Qed.

(** X13.  [isActiveTempFile] holds exactly for the names made of a
    temporary root followed by the suffix; a name shorter than the
    suffix is never one. *)
Theorem isActiveTempFile_iff_root_with_suffix
    (state : GCState) (path : Path) (suffix : string) :
  isActiveTempFile state path suffix = true
  <-> exists r, In r (tempRoots state) /\ path = r ++ suffix.
Proof.
  unfold isActiveTempFile. split.
  - intros H. apply andb_true_iff in H. destruct H as [H1 H2].
    exists (stripSuffix path suffix). split; [now apply mem_In|].
    unfold hasSuffix in H1. apply andb_true_iff in H1. destruct H1 as [Hl He].
    apply Nat.leb_le in Hl. apply String.eqb_eq in He.
    unfold stripSuffix.
    rewrite <- (substring_split path (String.length path - String.length suffix))
      at 1 by lia.
    f_equal. rewrite <- He at 3. f_equal. lia.
  - intros [r [Hr ->]]. rewrite hasSuffix_app, stripSuffix_app. simpl.
    now apply mem_In.
Qed.

(** * What the liveness engine keeps *)

Lemma hoare_preserves {S A} (P : S -> Prop) (m : M S A) :
  hoare P P m -> preserves P m.
Proof. intros H s o s' HP E. specialize (H s o s' HP E). now destruct o. Qed.

Section EngineState.

Variable settings : Settings.t.
Variable pid : string.
Variable isStorePath : Path -> bool.
Variable isDerivation : Path -> bool.

(** A property [Q] of the collector's state that the four kinds of
    update in the deletion loop keep is kept by [deleteMember]. *)
Section StateInvariant.

Variable Q : GCState -> Prop.
Hypothesis Q_bytesInvalidated : forall st n, Q st -> Q (set_bytesInvalidated n st).
Hypothesis Q_invalidated : forall st tmp,
  Q st -> Q (set_invalidated (PathSet.insert tmp (invalidated st)) st).
Hypothesis Q_credit : forall st n, Q st -> Q (results_credit n st).
Hypothesis Q_deleted : forall st i,
  Q st ->
  Q (if GCAction_eqb (action (options st)) gcReturnLive
     then set_deleted (PathSet.insert i (deleted st)) st
     else results_insert i (set_deleted (PathSet.insert i (deleted st)) st)).
Hypothesis Q_live : forall st i,
  Q st ->
  Q (if GCAction_eqb (action (options st)) gcReturnLive
     then results_insert i (set_live (PathSet.insert i (live st)) st)
     else set_live (PathSet.insert i (live st)) st).

Lemma invalidatePathChecked_state (i : Path) : hoare (ofState Q) (ofState Q) (invalidatePathChecked i).
Proof.
  intros s o s' HI H. unfold invalidatePathChecked in H.
  destruct (Db.invalidatePathChecked (db (fst s)) i); inversion H; subst o s'; exact HI.
Qed.

Lemma chmod_state (i : Path) (mode : N) : hoare (ofState Q) (ofState Q) (chmod i mode).
Proof.
  intros s o s' HI H. unfold chmod in H.
  destruct (Fs.chmod (fs (fst s)) i mode); inversion H; subst o s'; exact HI.
Qed.

Lemma rename_state (src dst : Path) : hoare (ofState Q) (ofState Q) (rename src dst).
Proof.
  intros s o s' HI H. unfold rename in H.
  destruct (Fs.rename (fs (fst s)) src dst); inversion H; subst o s'; exact HI.
Qed.

Lemma deleteGarbage_state (i : Path) : hoare (ofState Q) (ofState Q) (deleteGarbage i).
Proof.
  intros s o s' HI H. unfold deleteGarbage, modify in H.
  destruct (Fs.deletePathWrapped (fs (fst s)) i) as [f n].
  inversion H; subst o s'. apply Q_credit. exact HI.
Qed.

Lemma checkLimit_state : hoare (ofState Q) (ofState Q) checkLimit.
Proof.
  intros s o s' HI H. unfold checkLimit in H.
  destruct (_ <? _)%N; inversion H; subst o s'; exact HI.
Qed.

Lemma deleteMember_state (st : Stat) (i : Path) : hoare (ofState Q) (ofState Q) (deleteMember pid st i).
Proof.
  unfold deleteMember. apply hoare_bind; [apply hoare_get|].
  intros s. apply hoare_bind.
  - destruct (shouldDelete (action (options (snd s)))); [|apply hoare_ret].
    apply hoare_bind; [|intros _; apply checkLimit_state].
    destruct (Db.isValidPath (db (fst s)) i); [|apply deleteGarbage_state].
    destruct (Fs.S_ISDIR st).
    + apply hoare_bind.
      { apply hoare_modify. intros s1 H1. apply Q_bytesInvalidated, H1. }
      intros _. apply hoare_bind; [apply invalidatePathChecked_state|].
      intros _. apply hoare_bind; [apply chmod_state|].
      intros _. apply hoare_bind; [apply rename_state|].
      intros _. apply hoare_modify. intros s1 H1. apply Q_invalidated, H1.
    + apply hoare_bind; [apply invalidatePathChecked_state|].
      intros _. apply deleteGarbage_state.
  - intros _. apply hoare_modify. intros s1 H1. unfold ofState. simpl.
    specialize (Q_deleted (snd s1) i H1).
    destruct (GCAction_eqb (action (options (snd s1))) gcReturnLive); exact Q_deleted.
Qed.

Lemma markLive_state (ps : PathSet) : hoare (ofState Q) (ofState Q) (markLive ps).
Proof.
  apply hoare_forEach. intros i _. apply hoare_modify. intros s1 H1.
  unfold ofState. simpl. specialize (Q_live (snd s1) i H1).
  destruct (GCAction_eqb (action (options (snd s1))) gcReturnLive); exact Q_live.
Qed.

Lemma tryToDelete_state (fuel : nat) (path : Path) :
  hoare (ofState Q) (ofState Q) (tryToDelete settings pid isStorePath isDerivation fuel path).
Proof.
  apply tryToDelete_hoare.
  - auto.
  - apply deleteMember_state.
  - apply markLive_state.
Qed.

End StateInvariant.

End EngineState.

Lemma valid_after_erase (d d' : DB) (i p : Path) :
  validPaths d' = validPaths d \/ validPaths d' = PathSet.erase i (validPaths d) ->
  Db.isValidPath d' p = true -> Db.isValidPath d p = true.
Proof.
  unfold Db.isValidPath. intros [E|E] H; rewrite E in H; [exact H|].
  apply mem_In. apply mem_In in H. apply In_erase in H. tauto.
Qed.

Section EngineFrame.

Variable settings : Settings.t.
Variable pid : string.
Variable isStorePath : Path -> bool.
Variable isDerivation : Path -> bool.

Lemma tryToDelete_database (d0 : DB) (fuel : nat) (path : Path) :
  preserves
    (fun s : St =>
       refs (db (fst s)) = refs d0
       /\ derivationOutputs (db (fst s)) = derivationOutputs d0
       /\ forall p, Db.isValidPath (db (fst s)) p = true -> Db.isValidPath d0 p = true)
    (tryToDelete settings pid isStorePath isDerivation fuel path).
Proof.
  apply hoare_preserves. apply tryToDelete_hoare.
  - auto.
  - intros st i s o s' [I1 [I2 I3]] H. apply deleteMember_footprint in H.
    destruct H as [[F1 F1'] [F2 _]].
    assert (K : refs (db (fst s')) = refs d0
                /\ derivationOutputs (db (fst s')) = derivationOutputs d0
                /\ forall p, Db.isValidPath (db (fst s')) p = true ->
                             Db.isValidPath d0 p = true).
    { split; [congruence|]. split; [congruence|].
      intros p Hp. apply I3. apply (valid_after_erase _ _ i p F2 Hp). }
    destruct o; exact K.
  - intros ps s o s' HI H.
    destruct (markLive_spec ps s) as [s1 [H1 [H2 _]]].
    rewrite H1 in H. inversion H; subst o s'. rewrite H2. exact HI.
Qed.

(** X14.  [tryToDelete] only classifies and deletes.  However it
    ends, the options, the roots, the temporary roots and the two
    policy flags of the state are as before; the sets [deleted],
    [live] and [invalidated] have lost nothing; the references and
    the derivation outputs in the database are as before, and no path
    has become valid. *)
Theorem tryToDelete_keeps_roots_and_registers_nothing
    (fuel : nat) (path : Path) (s : St) (o : Outcome bool) (s' : St) :
  tryToDelete settings pid isStorePath isDerivation fuel path s = Some (o, s') ->
  (options (snd s') = options (snd s)
   /\ roots (snd s') = roots (snd s)
   /\ tempRoots (snd s') = tempRoots (snd s)
   /\ gcKeepOutputs (snd s') = gcKeepOutputs (snd s)
   /\ gcKeepDerivations (snd s') = gcKeepDerivations (snd s))
  /\ ((forall p, In p (deleted (snd s)) -> In p (deleted (snd s')))
      /\ (forall p, In p (live (snd s)) -> In p (live (snd s')))
      /\ (forall p, In p (invalidated (snd s)) -> In p (invalidated (snd s'))))
  /\ (refs (db (fst s')) = refs (db (fst s))
      /\ derivationOutputs (db (fst s')) = derivationOutputs (db (fst s))
      /\ forall p, Db.isValidPath (db (fst s')) p = true ->
                   Db.isValidPath (db (fst s)) p = true).
Proof.
  intros H.
  assert (HQ : ofState
    (fun st =>
       (options st = options (snd s)
        /\ roots st = roots (snd s)
        /\ tempRoots st = tempRoots (snd s)
        /\ gcKeepOutputs st = gcKeepOutputs (snd s)
        /\ gcKeepDerivations st = gcKeepDerivations (snd s))
       /\ ((forall p, In p (deleted (snd s)) -> In p (deleted st))
           /\ (forall p, In p (live (snd s)) -> In p (live st))
           /\ (forall p, In p (invalidated (snd s)) -> In p (invalidated st)))) s').
  { refine (hoare_preserves _ _
              (tryToDelete_state settings pid isStorePath isDerivation _ _ _ _ _ _
                 fuel path) s o s' _ H).
    - intros st n K. exact K.
    - intros st tmp [K1 [K2 [K3 K4]]]. simpl.
      split; [exact K1|]. split; [exact K2|]. split; [exact K3|].
      intros p Hp. apply In_insert. right. apply K4, Hp.
    - intros st n K. exact K.
    - intros st i [K1 [K2 [K3 K4]]].
      destruct (GCAction_eqb (action (options st)) gcReturnLive); simpl;
        (split; [exact K1|]); (split; [|split; [exact K3|exact K4]]);
        intros p Hp; apply In_insert; right; apply K2, Hp.
    - intros st i [K1 [K2 [K3 K4]]].
      destruct (GCAction_eqb (action (options st)) gcReturnLive); simpl;
        (split; [exact K1|]); (split; [exact K2|split; [|exact K4]]);
        intros p Hp; apply In_insert; right; apply K3, Hp.
    - unfold ofState. repeat split; auto. }
  destruct HQ as [A B]. split; [exact A|]. split; [exact B|].
  apply (tryToDelete_database (db (fst s)) fuel path s o s'); [|exact H].
  repeat split; auto.
Qed.

End EngineFrame.

Section GarbageEntries.

Variable settings : Settings.t.
Variable pid : string.
Variable isStorePath : Path -> bool.
Variable isDerivation : Path -> bool.

(** X15.  A store entry that is no valid path, no root and not the
    lock or chroot of a running build is removed from disk at once
    under a deleting action, and what its removal frees is credited;
    only then is the budget tested.  Within the budget the entry is
    recorded as deleted and [tryToDelete] returns true; over the
    budget the sentinel is raised with the entry gone already and
    recorded nowhere. *)
Theorem tryToDelete_removes_invalid_entry
    (fuel : nat) (ls : LocalStore) (st : GCState) (path : Path) (info : Stat) :
  path <> linksDir settings ->
  Fs.lstat (fs ls) path = Some info ->
  ~ In path (deleted st) ->
  ~ In path (live st) ->
  Db.isValidPath (db ls) path = false ->
  isActiveTempFile st path ".lock" = false ->
  isActiveTempFile st path ".chroot" = false ->
  ~ In path (roots st) ->
  shouldDelete (action (options st)) = true ->
  tryToDelete settings pid isStorePath isDerivation (S fuel) path (ls, st)
  = if (maxFreed (options st)
        <? add64 (add64 (bytesFreed (results st)) (st_bytes info mod two64))
                 (bytesInvalidated st))%N
    then Some (Throw GCLimitReached,
               (mkStore (db ls) (Fs.set (fs ls) path None),
                results_credit (st_bytes info mod two64) st))
    else Some (Ret true,
               (mkStore (db ls) (Fs.set (fs ls) path None),
                results_insert path
                  (set_deleted (PathSet.insert path (deleted st))
                     (results_credit (st_bytes info mod two64) st)))).
Proof.
  intros Hl Hst Hd Hlive Hv Hlock Hchroot Hr Hsd.
  rewrite tryToDelete_S.
  destruct (String.eqb path (linksDir settings)) eqn:E;
    [apply String.eqb_eq in E; contradiction|].
  unfold bind at 1. unfold get. cbn [fst snd]. rewrite Hst.
  rewrite (proj2 (mem_false _ _) Hd), (proj2 (mem_false _ _) Hlive).
  assert (Hc : candidates isStorePath isDerivation path (ls, st)
               = Some (Ret (Members [path]), (ls, st))).
  { unfold candidates. cbn [fst snd]. rewrite Hv, Hlock, Hchroot. reflexivity. }
  rewrite (bind_ret _ _ _ _ _ Hc).
  assert (Ha : anyRoot st [path] = false).
  { unfold anyRoot. simpl. rewrite (proj2 (mem_false _ _) Hr). reflexivity. }
  cbn [snd fst]. rewrite Ha.
  assert (Hrefs : collectReferrers (db ls) [path] = []).
  { unfold collectReferrers. simpl. now rewrite Hv. }
  rewrite Hrefs. simpl referrersLoop.
  unfold bind at 1. unfold ret at 1.
  unfold bind at 1. unfold gets. cbn [fst snd].
  assert (Ht : Db.topoSortPaths (db ls) [path] = [path]).
  { unfold Db.topoSortPaths. simpl. unfold Db.unreferenced. simpl.
    rewrite String.eqb_refl. reflexivity. }
  rewrite Ht. clear Ht Hrefs Ha Hc.
  assert (Hdg : deleteGarbage path (ls, st)
                = Some (Ret tt, (mkStore (db ls) (Fs.set (fs ls) path None),
                                 results_credit (st_bytes info mod two64) st))).
  { unfold deleteGarbage, modify, Fs.deletePathWrapped. cbn [fst snd fs].
    unfold Fs.lstat in Hst. rewrite Hst. reflexivity. }
  assert (Hrl : GCAction_eqb (action (options st)) gcReturnLive = false).
  { unfold shouldDelete in Hsd.
    destruct (action (options st)); simpl in *; congruence. }
  assert (Hdm :
    deleteMember pid info path (ls, st)
    = if (maxFreed (options st)
          <? add64 (add64 (bytesFreed (results st)) (st_bytes info mod two64))
                   (bytesInvalidated st))%N
      then Some (Throw GCLimitReached,
                 (mkStore (db ls) (Fs.set (fs ls) path None),
                  results_credit (st_bytes info mod two64) st))
      else Some (Ret tt,
                 (mkStore (db ls) (Fs.set (fs ls) path None),
                  results_insert path
                    (set_deleted (PathSet.insert path (deleted st))
                       (results_credit (st_bytes info mod two64) st))))).
  { unfold deleteMember. unfold bind at 1. unfold get. cbn [fst snd].
    rewrite Hsd, Hv.
    assert (Hin : (deleteGarbage path ;;; checkLimit) (ls, st)
                  = if (maxFreed (options st)
                        <? add64 (add64 (bytesFreed (results st))
                                        (st_bytes info mod two64))
                                 (bytesInvalidated st))%N
                    then Some (Throw GCLimitReached,
                               (mkStore (db ls) (Fs.set (fs ls) path None),
                                results_credit (st_bytes info mod two64) st))
                    else Some (Ret tt,
                               (mkStore (db ls) (Fs.set (fs ls) path None),
                                results_credit (st_bytes info mod two64) st))).
    { rewrite (bind_ret _ _ _ _ _ Hdg). unfold checkLimit. reflexivity. }
    destruct (_ <? _)%N.
    - rewrite (bind_throw _ _ _ _ _ Hin). reflexivity.
    - rewrite (bind_ret _ _ _ _ _ Hin). unfold onState, modify. cbn [fst snd].
      change (action (options (results_credit (st_bytes info mod two64) st)))
        with (action (options st)).
      rewrite Hrl. reflexivity. }
  simpl forEach.
  destruct (_ <? _)%N.
  - rewrite (bind_throw _ _ _ _ _
               (bind_throw _ (fun _ => ret tt) _ _ _ Hdm)). reflexivity.
  - rewrite (bind_ret _ _ _ _ _
               (eq_trans (bind_ret _ (fun _ => ret tt) _ _ _ Hdm) eq_refl)).
    reflexivity.
Qed.

End GarbageEntries.

(** * Invariants of a collection cycle *)

Section CycleInvariant.

Variable settings : Settings.t.
Variable pid : string.
Variable isStorePath : Path -> bool.
Variable isDerivation : Path -> bool.
Variable PG : GC -> Prop.
Hypothesis tryToDelete_keeps :
  forall fuel path,
    preserves PG (liftSt (tryToDelete settings pid isStorePath isDerivation fuel path)).

Lemma readStore_keeps (fuel : nat) (names : list string) :
  forall found,
    preserves PG (readStore settings pid isStorePath isDerivation fuel names found).
Proof.
  induction names as [|name rest IH]; intros found; simpl.
  - apply preserves_ret.
  - destruct (String.eqb name "." || String.eqb name ".."); [apply IH|].
    apply preserves_bind; [apply preserves_get|]. intros g.
    destruct (Db.isValidPath (db (store (sys g))) _); [apply IH|].
    apply preserves_bind; [apply tryToDelete_keeps | intros _; apply IH].
Qed.

Lemma classify_keeps (fuel : nat) (env : Env) (opts : GCOptions) :
  preserves PG (classify settings pid isStorePath isDerivation fuel env opts).
Proof.
  unfold classify. destruct (GCAction_eqb (action opts) gcDeleteSpecific).
  - unfold deleteSpecific. apply preserves_forEach. intros i _.
    unfold deleteSpecificPath. apply preserves_bind.
    + unfold assertStorePath. destruct (isStorePath i);
        [apply preserves_ret | apply preserves_throw].
    + intros _. apply preserves_bind; [apply tryToDelete_keeps|].
      intros [|]; [apply preserves_ret | apply preserves_throw].
  - destruct (0 <? maxFreed opts)%N; [|apply preserves_ret].
    apply preserves_catchLimit. unfold sweep.
    apply preserves_bind; [apply readStore_keeps|]. intros found.
    apply preserves_forEach. intros i _.
    apply preserves_bind; [apply tryToDelete_keeps | intros _; apply preserves_ret].
Qed.

End CycleInvariant.

Lemma liftSt_frame {A} (m : M St A) (o : OuterFS) (t : TempDir)
    (l : option (list LinkEntry)) (f : FDs) :
  preserves (fun g => outer (sys g) = o /\ temp (sys g) = t
                      /\ linkPool (sys g) = l /\ fds g = f)
            (liftSt m).
Proof.
  intros g r g' HI H. unfold liftSt in H.
  destruct (m (store (sys g), state g)) as [[r1 s1]|]; [|discriminate].
  inversion H; subst r g'. exact HI.
Qed.

Lemma core_fields (g g' : GC) :
  core g = core g' ->
  store (sys g) = store (sys g')
  /\ options (state g) = options (state g')
  /\ results (state g) = results (state g')
  /\ deleted (state g) = deleted (state g')
  /\ live (state g) = live (state g')
  /\ invalidated (state g) = invalidated (state g')
  /\ gcKeepOutputs (state g) = gcKeepOutputs (state g')
  /\ gcKeepDerivations (state g) = gcKeepDerivations (state g')
  /\ bytesInvalidated (state g) = bytesInvalidated (state g').
Proof.
  unfold core, set_roots, set_tempRoots. simpl. intros H.
  inversion H. repeat split; assumption.
Qed.

Section CleanUp.

Variable settings : Settings.t.

Lemma deleteInvalidated_effect (l : list Path) :
  forall g o g',
    forEach l (fun i => liftSt (deleteGarbage i)) g = Some (o, g') ->
    o = Ret tt
    /\ db (store (sys g')) = db (store (sys g))
    /\ (forall p, fs (store (sys g')) p = fs (store (sys g)) p
                  \/ fs (store (sys g')) p = None)
    /\ (forall i, In i l -> fs (store (sys g')) i = None)
    /\ (exists b, state g'
                  = set_results (mkResults (paths (results (state g))) b) (state g))
    /\ outer (sys g') = outer (sys g)
    /\ temp (sys g') = temp (sys g)
    /\ linkPool (sys g') = linkPool (sys g)
    /\ fds g' = fds g.
Proof.
  induction l as [|x l IH]; intros g o g' H; simpl in H.
  - inversion H; subst o g'. repeat split; auto; try contradiction.
    exists (bytesFreed (results (state g))).
    destruct g as [sy st f]. destruct st as [op [ps b] r tr de li bu iv ko kd bi].
    reflexivity.
  - unfold bind at 1 in H.
    unfold liftSt at 1, deleteGarbage, modify in H. cbn [fst snd] in H.
    destruct (Fs.deletePathWrapped (fs (store (sys g))) x) as [f n] eqn:E.
    apply IH in H. cbn [sys store state fds db fs outer temp linkPool fst snd] in H.
    destruct H as [H1 [H2 [H3 [H4 [[b H5] [H6 [H7 [H8 H9]]]]]]]].
    assert (Hf : forall p, f p = fs (store (sys g)) p \/ f p = None).
    { intros p. unfold Fs.deletePathWrapped in E.
      destruct (fs (store (sys g)) x); inversion E; subst f n; [|now left].
      unfold Fs.set. destruct (String.eqb p x); [now right|now left]. }
    assert (Hx : f x = None).
    { unfold Fs.deletePathWrapped in E.
      destruct (fs (store (sys g)) x) eqn:Ex; inversion E; subst f n;
        [apply set_same|exact Ex]. }
    split; [exact H1|]. split; [exact H2|]. split; [|split; [|split]].
    + intros p. destruct (H3 p) as [K|K]; [|now right].
      rewrite K. apply Hf.
    + intros i [Hi|Hi]; [|now apply H4]. subst i.
      destruct (H3 x) as [K|K]; congruence.
    + exists b. rewrite H5. reflexivity.
    + auto.
Qed.

Lemma removeUnusedLinks_effect (g : GC) (o : Outcome unit) (g' : GC) :
  removeUnusedLinks settings g = Some (o, g') ->
  store (sys g') = store (sys g)
  /\ (exists b, state g'
                = set_results (mkResults (paths (results (state g))) b) (state g))
  /\ outer (sys g') = outer (sys g)
  /\ temp (sys g') = temp (sys g)
  /\ fds g' = fds g.
Proof.
  unfold removeUnusedLinks. intros H.
  assert (R : exists b, state g
                = set_results (mkResults (paths (results (state g))) b) (state g)).
  { exists (bytesFreed (results (state g))).
    destruct g as [sy st f]. destruct st as [op [ps b] r tr de li bu iv ko kd bi].
    reflexivity. }
  destruct (linkPool (sys g)) as [pool|]; inversion H; subst o g'; clear H;
    [|repeat split; auto].
  cbn [sys store state fds outer temp]. repeat split; auto.
  set (credit := fun (st : GCState) (e : LinkEntry) =>
                   results_credit ((l_blocks e * 512) mod two64)%N st).
  assert (C : forall (l : list LinkEntry) (st : GCState),
             exists b, fold_left credit l st
                       = set_results (mkResults (paths (results st)) b) st).
  { induction l as [|e l IH]; intros st; simpl.
    - exists (bytesFreed (results st)).
      destruct st as [op [ps b] r tr de li bu iv ko kd bi]. reflexivity.
    - destruct (IH (credit st e)) as [b Hb]. exists b. rewrite Hb. reflexivity. }
  apply C.
Qed.

Lemma cleanup_effect (opts : GCOptions) (g : GC) (o : Outcome unit) (g' : GC) :
  cleanup settings opts g = Some (o, g') -> cleaned g g'.
Proof.
  unfold cleanup. intros H. apply bind_inv in H.
  destruct H as [[e [H He]]|[[] [g1 [H1 H]]]].
  - unfold bind, get in H. apply deleteInvalidated_effect in H.
    destruct H as [H _]. subst o. discriminate.
  - unfold bind at 1, get in H1. apply deleteInvalidated_effect in H1.
    destruct H1 as [_ [A2 [A3 [A4 [[b A5] [A6 [A7 [A8 A9]]]]]]]].
    assert (K : cleaned g g1).
    { unfold cleaned. rewrite A2. repeat split; auto. exists b. exact A5. }
    clear A2 A3 A4 A5 A6 A7 A8 A9.
    assert (T : forall g2 g3,
              cleaned g g2 ->
              store (sys g3) = store (sys g2)
              \/ (validPaths (db (store (sys g3))) = validPaths (db (store (sys g2)))
                  /\ refs (db (store (sys g3))) = refs (db (store (sys g2)))
                  /\ derivationOutputs (db (store (sys g3)))
                     = derivationOutputs (db (store (sys g2)))
                  /\ fs (store (sys g3)) = fs (store (sys g2))) ->
              (exists b, state g3
                 = set_results (mkResults (paths (results (state g2))) b) (state g2)) ->
              outer (sys g3) = outer (sys g2) -> temp (sys g3) = temp (sys g2) ->
              fds g3 = fds g2 ->
              cleaned g g3).
    { intros g2 g3 [[C1 [C2 C3]] [C4 [C5 [[b2 C6] [C7 [C8 C9]]]]]] S [b3 B] O T F.
      assert (S' : validPaths (db (store (sys g3))) = validPaths (db (store (sys g2)))
                   /\ refs (db (store (sys g3))) = refs (db (store (sys g2)))
                   /\ derivationOutputs (db (store (sys g3)))
                      = derivationOutputs (db (store (sys g2)))
                   /\ fs (store (sys g3)) = fs (store (sys g2))).
      { destruct S as [S|S]; [rewrite S; auto|exact S]. }
      destruct S' as [S1 [S2 [S3 S4]]].
      unfold cleaned. rewrite S1, S2, S3, S4, O, T, F.
      repeat split; auto.
      exists b3. rewrite B, C6. reflexivity. }
    apply bind_inv in H. destruct H as [[e [H He]]|[[] [g2 [H2 H]]]].
    + destruct (GCAction_eqb (action opts) gcDeleteDead
                || GCAction_eqb (action opts) gcDeleteSpecific); [|discriminate].
      apply removeUnusedLinks_effect in H. destruct H as [B1 [B2 [B3 [B4 B5]]]].
      apply (T g1 g'); auto.
    + assert (K2 : cleaned g g2).
      { destruct (GCAction_eqb (action opts) gcDeleteDead
                  || GCAction_eqb (action opts) gcDeleteSpecific).
        - apply removeUnusedLinks_effect in H2. destruct H2 as [B1 [B2 [B3 [B4 B5]]]].
          apply (T g1 g2); auto.
        - inversion H2; subst g2. exact K. }
      destruct (GCAction_eqb (action opts) gcDeleteDead).
      * unfold vacuumDB in H. inversion H; subst o g'; clear H.
        apply (T g2);
          [exact K2 | right; cbn; auto | | reflexivity | reflexivity | reflexivity].
        cbn. exists (bytesFreed (results (state g2))).
        destruct g2 as [sy st f].
        destruct st as [op [ps b0] r tr de li bu iv ko kd bi]. reflexivity.
      * inversion H; subst o g'. exact K2.
Qed.

End CleanUp.

Lemma preserves_and {S A} (P Q : S -> Prop) (m : M S A) :
  preserves P m -> preserves Q m -> preserves (fun s => P s /\ Q s) m.
Proof. intros HP HQ s o s' [H1 H2] E. split; [apply (HP _ _ _ H1 E)|apply (HQ _ _ _ H2 E)]. Qed.

Section EngineCycleInvariants.

Variable settings : Settings.t.
Variable pid : string.
Variable isStorePath : Path -> bool.
Variable isDerivation : Path -> bool.

Lemma tryToDelete_queried (ls : LocalStore) (b : N) (fuel : nat) (path : Path) :
  preserves (queried ls b) (tryToDelete settings pid isStorePath isDerivation fuel path).
Proof.
  apply hoare_preserves. apply tryToDelete_hoare.
  - auto.
  - intros st i s o s' [Q1 [Q2 [Q3 [Q4 Q5]]]] H.
    unfold deleteMember in H. unfold bind at 1 in H. unfold get in H.
    cbn [fst snd] in H. rewrite Q2 in H.
    unfold bind, ret, onState, modify in H. inversion H; subst o s'; clear H.
    unfold queried. cbn [fst snd].
    destruct (GCAction_eqb (action (options (snd s))) gcReturnLive);
      repeat split; assumption.
  - intros ps. apply hoare_forEach. intros i _. apply hoare_modify.
    intros s [Q1 [Q2 [Q3 [Q4 Q5]]]]. unfold queried. cbn [fst snd].
    destruct (GCAction_eqb (action (options (snd s))) gcReturnLive);
      repeat split; assumption.
Qed.

Lemma tryToDelete_reported (opts : GCOptions) (P0 : PathSet) (fuel : nat) (path : Path) :
  preserves (ofState (reported opts P0))
            (tryToDelete settings pid isStorePath isDerivation fuel path).
Proof.
  apply hoare_preserves. apply tryToDelete_state.
  - intros st n K. exact K.
  - intros st tmp K. exact K.
  - intros st n K. exact K.
  - intros st i [K1 K2]. rewrite K1.
    destruct (GCAction_eqb (action opts) gcReturnLive) eqn:E; unfold reported.
    + rewrite E. split; [exact K1|]. exact K2.
    + rewrite E. split; [exact K1|]. intros p. simpl.
      rewrite !In_insert. rewrite K2. tauto.
  - intros st i [K1 K2]. rewrite K1.
    destruct (GCAction_eqb (action opts) gcReturnLive) eqn:E; unfold reported.
    + rewrite E. split; [exact K1|]. intros p. simpl.
      rewrite !In_insert. rewrite K2. tauto.
    + rewrite E. split; [exact K1|]. exact K2.
Qed.

Lemma tryToDelete_deletedInvalid (fuel : nat) (path : Path) :
  preserves deletedInvalid (tryToDelete settings pid isStorePath isDerivation fuel path).
Proof.
  apply hoare_preserves. apply tryToDelete_hoare.
  - auto.
  - intros st i s o s' [Q1 Q2] H. apply deleteMember_footprint in H.
    destruct H as [_ [F2 [_ [_ [_ [F6 [_ [[_ [_ [_ [F8 _]]]] F9]]]]]]]].
    assert (K : deletedInvalid s').
    { split; [congruence|]. intros p Hp. apply F6 in Hp.
      destruct Hp as [[Hp Ho]|Hp].
      - subst p. apply F9; assumption.
      - specialize (Q2 p Hp).
        destruct (Db.isValidPath (db (fst s')) p) eqn:E; [|reflexivity].
        rewrite (valid_after_erase _ _ i p F2 E) in Q2. discriminate. }
    destruct o; exact K.
  - intros ps s o s' [Q1 Q2] H.
    destruct (markLive_spec ps s) as [s1 [H1 [H2 [H3 [_ [_ [_ [_ [H8 _]]]]]]]]].
    rewrite H1 in H. inversion H; subst o s'.
    split; [congruence|]. rewrite H2, H3. exact Q2.
Qed.

End EngineCycleInvariants.

(** * What a collection cycle guarantees *)

Section CycleResults.

Variable settings : Settings.t.
Variable pid : string.
Variable canonPath : Path -> Path.
Variable absPath : Path -> Path -> Path.
Variable dirOf : Path -> Path.
Variable isInStore : Path -> bool.
Variable isStorePath : Path -> bool.
Variable toStorePath : Path -> Path.
Variable isDerivation : Path -> bool.
Variable readDirectory : OuterFS -> Path -> list string.

Lemma discoverRoots_linkPool (fuel : nat) (env : Env) (opts : GCOptions)
    (l : option (list LinkEntry)) :
  preserves (fun g => linkPool (sys g) = l)
    (discoverRoots settings canonPath absPath dirOf isInStore isStorePath
       toStorePath readDirectory fuel env opts).
Proof.
  unfold discoverRoots.
  apply preserves_bind; [|intros _; apply preserves_bind;
                           [|intros _; apply preserves_bind]].
  - intros g o g' HP H. destruct (ignoreLiveness opts).
    + inversion H; subst o g'. exact HP.
    + destruct (findRoots settings canonPath absPath dirOf isInStore toStorePath
                  readDirectory fuel (db (store (sys g))) true (outer (sys g)))
        as [[[rootMap|e] o1]|]; [| |discriminate]; inversion H; subst o g'; exact HP.
  - destruct (ignoreLiveness opts); [apply preserves_ret|].
    destruct (rootFinder env) as [lines|]; [|apply preserves_ret].
    intros g o g' HP H. inversion H; subst o g'. exact HP.
  - intros g o g' HP H. unfold liftTR in H.
    destruct (readTempRoots isStorePath (temp (sys g), (tempRoots (state g), fds g)))
      as [[o1 s1]|]; [|discriminate].
    inversion H; subst o g'. exact HP.
  - intros _. apply preserves_modify. intros g HP. exact HP.
Qed.

(** The three phases of a cycle. *)
Lemma collectGarbage_phases (fuel : nat) (env : Env) (opts : GCOptions)
    (res : GCResults) (w : System) (o : Outcome unit) (g : GC) :
  collectGarbage settings pid canonPath absPath dirOf isInStore isStorePath
    toStorePath isDerivation readDirectory fuel env opts res w = Some (o, g) ->
  exists r1 g1,
    discoverRoots settings canonPath absPath dirOf isInStore isStorePath
      toStorePath readDirectory fuel env opts
      (mkGC w (initialState settings opts res) []) = Some (r1, g1)
    /\ core g1 = core (mkGC w (initialState settings opts res) [])
    /\ linkPool (sys g1) = linkPool w
    /\ ((exists e, r1 = Throw e /\ o = Throw e /\ g = g1)
        \/ (r1 = Ret tt
            /\ exists r2 g2,
                 classify settings pid isStorePath isDerivation fuel env opts g1
                 = Some (r2, g2)
                 /\ ((exists e, r2 = Throw e /\ o = Throw e /\ g = g2)
                     \/ (r2 = Ret tt /\ cleanup settings opts g2 = Some (o, g))))).
Proof.
  unfold collectGarbage. intros H.
  set (g0 := mkGC w (initialState settings opts res) []) in *.
  apply bind_inv in H. destruct H as [[e [H He]]|[[] [g1 [H1 H]]]].
  - exists (Throw e), g. split; [exact H|]. split.
    { apply (discoverRoots_core settings canonPath absPath dirOf isInStore
               isStorePath toStorePath readDirectory fuel env opts (core g0)
               g0 _ _ eq_refl H). }
    split.
    { apply (discoverRoots_linkPool fuel env opts (linkPool w) g0 _ _ eq_refl H). }
    left. exists e. auto.
  - exists (Ret tt), g1. split; [exact H1|]. split.
    { apply (discoverRoots_core settings canonPath absPath dirOf isInStore
               isStorePath toStorePath readDirectory fuel env opts (core g0)
               g0 _ _ eq_refl H1). }
    split.
    { apply (discoverRoots_linkPool fuel env opts (linkPool w) g0 _ _ eq_refl H1). }
    right. split; [reflexivity|].
    apply bind_inv in H. destruct H as [[e [H He]]|[[] [g2 [H2 H]]]].
    + exists (Throw e), g. split; [exact H|]. left. exists e. auto.
    + exists (Ret tt), g2. split; [exact H2|]. right. auto.
Qed.

Lemma initialState_fields (opts : GCOptions) (res : GCResults) :
  options (initialState settings opts res) = opts
  /\ results (initialState settings opts res) = res
  /\ deleted (initialState settings opts res) = []
  /\ live (initialState settings opts res) = []
  /\ invalidated (initialState settings opts res) = []
  /\ bytesInvalidated (initialState settings opts res) = 0%N.
Proof.
  unfold initialState, newGCState.
  destruct (GCAction_eqb (action opts) gcDeleteSpecific && ignoreLiveness opts);
    repeat split.
Qed.

(** X16.  The actions that only query ([gcReturnLive] and
    [gcReturnDead]) leave the store alone: however the cycle ends, the
    database and the store directory are as they were, no link of the
    links directory is removed, nothing is invalidated and
    [results.bytesFreed] is the caller's. *)
Theorem collectGarbage_query_leaves_store
    (fuel : nat) (env : Env) (opts : GCOptions) (res : GCResults) (w : System)
    (o : Outcome unit) (g : GC) :
  action opts = gcReturnLive \/ action opts = gcReturnDead ->
  collectGarbage settings pid canonPath absPath dirOf isInStore isStorePath
    toStorePath isDerivation readDirectory fuel env opts res w = Some (o, g) ->
  store (sys g) = store w
  /\ linkPool (sys g) = linkPool w
  /\ bytesFreed (results (state g)) = bytesFreed res
  /\ invalidated (state g) = []
  /\ bytesInvalidated (state g) = 0%N.
Proof.
  intros Ha H. apply collectGarbage_phases in H.
  destruct H as [r1 [g1 [_ [Hc [Hl H]]]]].
  apply core_fields in Hc. cbn [sys state] in Hc.
  destruct (initialState_fields opts res) as [I1 [I2 [I3 [I4 [I5 I6]]]]].
  destruct Hc as [C1 [C2 [C3 [C4 [C5 [C6 [C7 [C8 C9]]]]]]]].
  assert (Hsd : shouldDelete (action opts) = false).
  { destruct Ha as [Ha|Ha]; rewrite Ha; reflexivity. }
  assert (P1 : atStore (queried (store w) (bytesFreed res)) g1
               /\ linkPool (sys g1) = linkPool w).
  { split; [|exact Hl]. unfold atStore, queried. cbn [fst snd].
    rewrite C1, C2, C3, C6, C9, I1, I2, I5, I6. repeat split. exact Hsd. }
  assert (Fin : forall g2,
            atStore (queried (store w) (bytesFreed res)) g2
            /\ linkPool (sys g2) = linkPool w ->
            store (sys g2) = store w
            /\ linkPool (sys g2) = linkPool w
            /\ bytesFreed (results (state g2)) = bytesFreed res
            /\ invalidated (state g2) = []
            /\ bytesInvalidated (state g2) = 0%N).
  { intros g2 [[Q1 [Q2 [Q3 [Q4 Q5]]]] Q6]. cbn [fst snd] in *. auto. }
  destruct H as [[e [_ [_ Hg]]]|[_ [r2 [g2 [H2 H]]]]].
  - subst g. apply Fin, P1.
  - assert (P2 : atStore (queried (store w) (bytesFreed res)) g2
                 /\ linkPool (sys g2) = linkPool w).
    { refine (classify_keeps settings pid isStorePath isDerivation
                (fun g => atStore (queried (store w) (bytesFreed res)) g
                          /\ linkPool (sys g) = linkPool w)
                _ fuel env opts g1 r2 g2 P1 H2).
      intros fuel' path. apply preserves_and.
      - apply liftSt_preserves. apply tryToDelete_queried.
      - intros x r x' Hx Hr.
        destruct (liftSt_frame _ (outer (sys x)) (temp (sys x)) (linkPool (sys x))
                    (fds x) x r x' (conj eq_refl (conj eq_refl (conj eq_refl eq_refl)))
                    Hr) as [_ [_ [K _]]].
        congruence. }
    destruct H as [[e [_ [_ Hg]]]|[_ H]].
    + subst g. apply Fin, P2.
    + assert (Hg : g = g2).
      { destruct P2 as [[Q1 [Q2 [Q3 [Q4 Q5]]]] Q6]. cbn [fst snd] in *.
        assert (E1 : GCAction_eqb (action opts) gcDeleteDead = false)
          by (destruct Ha as [Ha|Ha]; rewrite Ha; reflexivity).
        assert (E2 : GCAction_eqb (action opts) gcDeleteSpecific = false)
          by (destruct Ha as [Ha|Ha]; rewrite Ha; reflexivity).
        unfold cleanup, bind, get in H. rewrite Q4, E1, E2 in H. simpl in H.
        unfold ret in H. inversion H. reflexivity. }
      subst g. apply Fin, P2.
Qed.

(** X17.  [results.paths] is the record of the classification:
    however the cycle ends, it holds the paths the caller passed in
    and, for [gcReturnLive], exactly the paths marked live, for every
    other action exactly the paths recorded as deleted. *)
Theorem collectGarbage_reports_classified_paths
    (fuel : nat) (env : Env) (opts : GCOptions) (res : GCResults) (w : System)
    (o : Outcome unit) (g : GC) (p : Path) :
  collectGarbage settings pid canonPath absPath dirOf isInStore isStorePath
    toStorePath isDerivation readDirectory fuel env opts res w = Some (o, g) ->
  In p (paths (results (state g)))
  <-> In p (paths res)
      \/ In p (if GCAction_eqb (action opts) gcReturnLive
               then live (state g) else deleted (state g)).
Proof.
  intros H. apply collectGarbage_phases in H.
  destruct H as [r1 [g1 [_ [Hc [_ H]]]]].
  apply core_fields in Hc. cbn [sys state] in Hc.
  destruct (initialState_fields opts res) as [I1 [I2 [I3 [I4 [I5 I6]]]]].
  destruct Hc as [C1 [C2 [C3 [C4 [C5 [C6 [C7 [C8 C9]]]]]]]].
  assert (P1 : atStore (ofState (reported opts (paths res))) g1).
  { unfold atStore, ofState, reported. cbn [fst snd].
    rewrite C2, C3, C4, C5, I1, I2, I3, I4. split; [reflexivity|].
    intros q. destruct (GCAction_eqb (action opts) gcReturnLive); simpl; tauto. }
  assert (Fin : forall g2, atStore (ofState (reported opts (paths res))) g2 ->
            In p (paths (results (state g2)))
            <-> In p (paths res)
                \/ In p (if GCAction_eqb (action opts) gcReturnLive
                         then live (state g2) else deleted (state g2))).
  { intros g2 [_ Q]. apply Q. }
  destruct H as [[e [_ [_ Hg]]]|[_ [r2 [g2 [H2 H]]]]].
  - subst g. apply Fin, P1.
  - assert (P2 : atStore (ofState (reported opts (paths res))) g2).
    { refine (classify_keeps settings pid isStorePath isDerivation _ _
                fuel env opts g1 r2 g2 P1 H2).
      intros fuel' path. apply liftSt_preserves. apply tryToDelete_reported. }
    destruct H as [[e [_ [_ Hg]]]|[_ H]].
    + subst g. apply Fin, P2.
    + apply cleanup_effect in H.
      destruct H as [_ [_ [_ [[b Hb] _]]]].
      rewrite Hb. simpl. apply (Fin g2 P2).
Qed.

(** X18.  Under a deleting action, whatever is recorded as deleted
    is no valid path any more, however the cycle ends: the
    registration of a path is withdrawn before the path is recorded. *)
Theorem collectGarbage_deleted_paths_are_invalid
    (fuel : nat) (env : Env) (opts : GCOptions) (res : GCResults) (w : System)
    (o : Outcome unit) (g : GC) (p : Path) :
  shouldDelete (action opts) = true ->
  collectGarbage settings pid canonPath absPath dirOf isInStore isStorePath
    toStorePath isDerivation readDirectory fuel env opts res w = Some (o, g) ->
  In p (deleted (state g)) ->
  Db.isValidPath (db (store (sys g))) p = false.
Proof.
  intros Hsd H. apply collectGarbage_phases in H.
  destruct H as [r1 [g1 [_ [Hc [_ H]]]]].
  apply core_fields in Hc. cbn [sys state] in Hc.
  destruct (initialState_fields opts res) as [I1 [I2 [I3 [I4 [I5 I6]]]]].
  destruct Hc as [C1 [C2 [C3 [C4 [C5 [C6 [C7 [C8 C9]]]]]]]].
  assert (P1 : atStore deletedInvalid g1).
  { unfold atStore, deletedInvalid. cbn [fst snd].
    rewrite C2, C4, I1, I3. split; [exact Hsd|]. intros q []. }
  destruct H as [[e [_ [_ Hg]]]|[_ [r2 [g2 [H2 H]]]]].
  - subst g. destruct P1 as [_ Q]. apply Q.
  - assert (P2 : atStore deletedInvalid g2).
    { refine (classify_keeps settings pid isStorePath isDerivation _ _
                fuel env opts g1 r2 g2 P1 H2).
      intros fuel' path. apply liftSt_preserves. apply tryToDelete_deletedInvalid. }
    destruct H as [[e [_ [_ Hg]]]|[_ H]].
    + subst g. destruct P2 as [_ Q]. apply Q.
    + apply cleanup_effect in H.
      destruct H as [[V _] [_ [_ [[b Hb] _]]]].
      rewrite Hb. simpl. intros Hp. destruct P2 as [_ Q]. cbn [fst snd] in Q.
      specialize (Q p Hp). unfold Db.isValidPath in *. rewrite V. exact Q.
Qed.

(** X19.  A cycle that returns leaves no renamed directory behind:
    every [<path>-gc-<pid>] of [state.invalidated] is gone from the
    store directory when [collectGarbage] returns normally. *)
Theorem collectGarbage_returns_without_renamed_directories
    (fuel : nat) (env : Env) (opts : GCOptions) (res : GCResults) (w : System)
    (g : GC) (i : Path) :
  collectGarbage settings pid canonPath absPath dirOf isInStore isStorePath
    toStorePath isDerivation readDirectory fuel env opts res w = Some (Ret tt, g) ->
  In i (invalidated (state g)) ->
  fs (store (sys g)) i = None.
Proof.
  intros H. apply collectGarbage_phases in H.
  destruct H as [r1 [g1 [_ [_ [_ H]]]]].
  destruct H as [[e [_ [He _]]]|[_ [r2 [g2 [_ H]]]]]; [discriminate|].
  destruct H as [[e [_ [He _]]]|[_ H]]; [discriminate|].
  apply cleanup_effect in H. destruct H as [_ [_ [K [[b Hb] _]]]].
  rewrite Hb. simpl. apply K.
Qed.

(** X20.  Nothing is deleted on roots that are not known: when root
    discovery fails, [collectGarbage] ends with that exception, which
    is an [Error] or a [SysError] and never the sentinel of the
    budget, and the store, the links directory and the sets of the
    state are as they were at the start. *)
Theorem collectGarbage_stops_when_root_discovery_fails
    (fuel : nat) (env : Env) (opts : GCOptions) (res : GCResults) (w : System)
    (e : Exn) (g : GC) :
  discoverRoots settings canonPath absPath dirOf isInStore isStorePath
    toStorePath readDirectory fuel env opts
    (mkGC w (initialState settings opts res) []) = Some (Throw e, g) ->
  collectGarbage settings pid canonPath absPath dirOf isInStore isStorePath
    toStorePath isDerivation readDirectory fuel env opts res w = Some (Throw e, g)
  /\ isFailure e
  /\ store (sys g) = store w
  /\ linkPool (sys g) = linkPool w
  /\ results (state g) = res
  /\ deleted (state g) = []
  /\ invalidated (state g) = [].
Proof.
  intros H. split.
  { unfold collectGarbage. rewrite (bind_throw _ _ _ _ _ H). reflexivity. }
  split.
  { apply (discoverRoots_throws settings canonPath absPath dirOf isInStore
             isStorePath toStorePath readDirectory fuel env opts _ _ _ H). }
  assert (Hc := discoverRoots_core settings canonPath absPath dirOf isInStore
                  isStorePath toStorePath readDirectory fuel env opts _
                  (mkGC w (initialState settings opts res) []) _ _ eq_refl H).
  apply core_fields in Hc. cbn [sys state] in Hc.
  destruct (initialState_fields opts res) as [I1 [I2 [I3 [I4 [I5 I6]]]]].
  destruct Hc as [C1 [C2 [C3 [C4 [C5 [C6 [C7 [C8 C9]]]]]]]].
  split; [exact C1|]. split.
  { apply (discoverRoots_linkPool fuel env opts (linkPool w)
             (mkGC w (initialState settings opts res) []) _ _ eq_refl H). }
  rewrite C3, C4, C6. auto.
Qed.

End CycleResults.

(** * The links directory *)

Lemma filter_none {A} (f : A -> bool) (l : list A) :
  (forall x, In x l -> f x = false) -> filter f l = [].
Proof.
  induction l as [|x l IH]; intros H; simpl; [reflexivity|].
  rewrite (H x (or_introl eq_refl)). apply IH. intros y Hy. apply H. now right.
Qed.

Lemma filter_twice {A} (f : A -> bool) (l : list A) :
  filter f (filter f l) = filter f l.
Proof.
  induction l as [|x l IH]; simpl; [reflexivity|].
  destruct (f x) eqn:E; simpl; [rewrite E, IH; reflexivity|exact IH].
Qed.

Lemma credit_fold (l : list LinkEntry) :
  forall st,
    (bytesFreed (results
       (fold_left (fun st e => results_credit ((l_blocks e * 512) mod two64)%N st)
                  l st)) mod two64
     = (bytesFreed (results st)
        + fold_right N.add 0 (map (fun e => l_blocks e * 512) l)) mod two64)%N
    /\ paths (results
         (fold_left (fun st e => results_credit ((l_blocks e * 512) mod two64)%N st)
                    l st))
       = paths (results st).
Proof.
  assert (T : two64 <> 0%N) by (unfold two64; discriminate).
  induction l as [|e l IH]; intros st; simpl.
  - rewrite N.add_0_r. auto.
  - destruct (IH (results_credit ((l_blocks e * 512) mod two64)%N st)) as [H1 H2].
    rewrite H1, H2. simpl. split; [|reflexivity].
    unfold add64.
    rewrite N.Div0.add_mod_idemp_l.
    rewrite (N.add_comm (bytesFreed (results st))).
    rewrite <- N.add_assoc.
    rewrite N.Div0.add_mod_idemp_l.
    f_equal. lia.
Qed.

Section LinksDirectory.

Variable settings : Settings.t.

(** X21.  [removeUnusedLinks] removes the links with a link count of
    one and no others: the entries left are those of the pool that
    have another link count or are [.] or [..]; each removed link is
    credited with 512 bytes for each of its blocks, modulo [2^64];
    the store, [results.paths] and the roots are untouched. *)
Theorem removeUnusedLinks_removes_unused_links (g : GC) (pool : list LinkEntry) :
  linkPool (sys g) = Some pool ->
  exists g' pool',
    removeUnusedLinks settings g = Some (Ret tt, g')
    /\ linkPool (sys g') = Some pool'
    /\ (forall e, In e pool'
                  <-> In e pool
                      /\ (l_nlink e <> 1%N \/ l_name e = "." \/ l_name e = ".."))
    /\ (bytesFreed (results (state g')) mod two64
        = (bytesFreed (results (state g)) + unusedBytes pool) mod two64)%N
    /\ store (sys g') = store (sys g)
    /\ paths (results (state g')) = paths (results (state g))
    /\ roots (state g') = roots (state g)
    /\ deleted (state g') = deleted (state g).
Proof.
  intros Hp. unfold removeUnusedLinks. rewrite Hp.
  eexists. eexists. split; [reflexivity|]. cbn [sys state linkPool store].
  split; [reflexivity|]. split.
  - intros e. rewrite filter_In. split; intros [H1 H2]; (split; [exact H1|]).
    + apply orb_true_iff in H2. destruct H2 as [H2|H2].
      * apply orb_true_iff in H2. destruct H2 as [H2|H2].
        -- left. apply negb_true_iff, N.eqb_neq in H2. exact H2.
        -- right. left. now apply String.eqb_eq.
      * right. right. now apply String.eqb_eq.
    + destruct H2 as [H2|[H2|H2]].
      * apply N.eqb_neq in H2. rewrite H2. reflexivity.
      * apply String.eqb_eq in H2. rewrite H2. apply orb_true_iff. left.
        apply orb_true_r.
      * apply String.eqb_eq in H2. rewrite H2. apply orb_true_r.
  - match goal with
    | |- context [fold_left _ ?l (state g)] =>
        destruct (credit_fold l (state g)) as [C1 C2]
    end.
    split; [exact C1|]. split; [reflexivity|]. split; [exact C2|].
    destruct (removeUnusedLinks_effect settings g (Ret tt) _
                ltac:(unfold removeUnusedLinks; rewrite Hp; reflexivity))
      as [_ [[b Hb] _]].
    cbn [state] in Hb. rewrite Hb. split; reflexivity.
Qed.

(** X22.  [removeUnusedLinks] is idempotent: run again on what it
    left, it removes nothing and credits nothing. *)
Theorem removeUnusedLinks_twice (g g' : GC) :
  removeUnusedLinks settings g = Some (Ret tt, g') ->
  removeUnusedLinks settings g' = Some (Ret tt, g').
Proof.
  unfold removeUnusedLinks. intros H.
  destruct (linkPool (sys g)) as [pool|]; [|discriminate].
  inversion H; subst g'; clear H. cbn [sys state linkPool store outer temp fds].
  set (keep := fun e : LinkEntry =>
                 negb (N.eqb (l_nlink e) 1) || String.eqb (l_name e) "."
                 || String.eqb (l_name e) "..").
  rewrite (filter_twice keep).
  rewrite (filter_none (fun e => N.eqb (l_nlink e) 1)); [reflexivity|].
  intros e He. apply filter_In in He. destruct He as [He Hn].
  apply filter_In in He. destruct He as [_ Hk]. unfold keep in Hk.
  apply negb_true_iff in Hn.
  destruct (N.eqb (l_nlink e) 1); [|reflexivity].
  simpl in Hk. rewrite Hn in Hk. discriminate.
Qed.

End LinksDirectory.

(** * Root discovery *)

Lemma addAdditionalRoots_valid (isInStore : Path -> bool) (toStorePath : Path -> Path)
    (d : DB) (lines : list string) :
  forall rs p,
    In p (addAdditionalRoots isInStore toStorePath d lines rs) ->
    In p rs \/ Db.isValidPath d p = true.
Proof.
  unfold addAdditionalRoots.
  induction lines as [|i lines IH]; intros rs p H; simpl in H; [now left|].
  apply IH in H. destruct H as [H|H]; [|now right].
  destruct (isInStore i); [|now left].
  destruct (negb (PathSet.mem (toStorePath i) rs)
            && Db.isValidPath d (toStorePath i)) eqn:E; [|now left].
  apply In_insert in H. destruct H as [H|H]; [|now left].
  subst p. right. apply andb_true_iff in E. tauto.
Qed.

Section RootDiscoveryResults.

Variable settings : Settings.t.
Variable canonPath : Path -> Path.
Variable absPath : Path -> Path -> Path.
Variable dirOf : Path -> Path.
Variable isInStore : Path -> bool.
Variable isStorePath : Path -> bool.
Variable toStorePath : Path -> Path.
Variable readDirectory : OuterFS -> Path -> list string.

(** X23.  What root discovery leaves in the state when it returns.
    Every temporary root is a root, and is a store path that a
    process holds registered; every other root is a valid path.
    With [ignoreLiveness] the permanent roots are not looked for: the
    roots are the temporary roots alone and the tree of the permanent
    roots, outside the store, is not touched. *)
Theorem discoverRoots_collects_roots
    (fuel : nat) (env : Env) (opts : GCOptions) (res : GCResults) (w : System)
    (g : GC) :
  discoverRoots settings canonPath absPath dirOf isInStore isStorePath
    toStorePath readDirectory fuel env opts
    (mkGC w (initialState settings opts res) []) = Some (Ret tt, g) ->
  (forall p, In p (tempRoots (state g)) ->
             In p (roots (state g)) /\ heldRoot isStorePath (temp w) p)
  /\ (forall p, In p (roots (state g)) ->
                In p (tempRoots (state g))
                \/ Db.isValidPath (db (store w)) p = true)
  /\ (ignoreLiveness opts = true ->
      outer (sys g) = outer w
      /\ forall p, In p (roots (state g)) -> In p (tempRoots (state g))).
Proof.
  intros H. unfold discoverRoots in H.
  set (g0 := mkGC w (initialState settings opts res) []) in *.
  assert (R0 : roots (state g0) = [] /\ tempRoots (state g0) = []).
  { unfold g0, initialState, newGCState. cbn [state].
    destruct (GCAction_eqb (action opts) gcDeleteSpecific && ignoreLiveness opts);
      split; reflexivity. }
  destruct R0 as [R0 T0].
  apply bind_inv in H. destruct H as [[e [_ He]]|[[] [g1 [H1 H]]]]; [discriminate|].
  apply bind_inv in H. destruct H as [[e [_ He]]|[[] [g2 [H2 H]]]]; [discriminate|].
  apply bind_inv in H. destruct H as [[e [_ He]]|[[] [g3 [H3 H]]]]; [discriminate|].
  unfold onGCState, modify in H. inversion H; subst g; clear H.
  cbn [state sys roots tempRoots set_roots outer].
  (* the permanent roots *)
  assert (P1 : store (sys g1) = store w /\ temp (sys g1) = temp w
               /\ tempRoots (state g1) = [] /\ fds g1 = []
               /\ (forall p, In p (roots (state g1)) ->
                             Db.isValidPath (db (store w)) p = true)
               /\ (ignoreLiveness opts = true ->
                   outer (sys g1) = outer w /\ roots (state g1) = [])).
  { destruct (ignoreLiveness opts).
    - inversion H1; subst g1.
      split; [reflexivity|]. split; [reflexivity|]. split; [exact T0|].
      split; [reflexivity|]. split; [rewrite R0; intros p []|].
      intros _. split; [reflexivity|exact R0].
    - destruct (findRoots settings canonPath absPath dirOf isInStore toStorePath
                  readDirectory fuel (db (store (sys g0))) true (outer (sys g0)))
        as [[[rootMap|e1] o1]|] eqn:Ef; [|discriminate|discriminate].
      inversion H1; subst g1.
      split; [reflexivity|]. split; [reflexivity|]. split; [exact T0|].
      split; [reflexivity|]. split; [|discriminate].
      intros p Hp.
      change (In p (PathSet.insert_all (map snd rootMap) (roots (state g0)))) in Hp.
      rewrite R0 in Hp.
      apply In_insert_all in Hp. destruct Hp as [Hp|[]].
      apply in_map_iff in Hp. destruct Hp as [[l sp] [E Hin]]. simpl in E. subst sp.
      apply (findRoots_scanned settings canonPath absPath dirOf isInStore
               toStorePath readDirectory) in Ef.
      destruct Ef as [_ Ef]. destruct (Ef _ _ Hin) as [[]|[t [_ [_ [_ V]]]]].
      exact V. }
  destruct P1 as [A1 [A2 [A3 [A4 [A5 A6]]]]].
  (* the additional roots *)
  assert (P2 : store (sys g2) = store w /\ temp (sys g2) = temp w
               /\ tempRoots (state g2) = [] /\ fds g2 = []
               /\ (forall p, In p (roots (state g2)) ->
                             Db.isValidPath (db (store w)) p = true)
               /\ (ignoreLiveness opts = true ->
                   outer (sys g2) = outer w /\ roots (state g2) = [])).
  { destruct (ignoreLiveness opts).
    - inversion H2; subst g2. repeat split; auto; now apply A6.
    - destruct (rootFinder env) as [lines|].
      + unfold onGCState, modify in H2. inversion H2; subst g2.
        split; [exact A1|]. split; [exact A2|]. split; [exact A3|].
        split; [exact A4|]. split; [|discriminate].
        intros p Hp.
        change (In p (addAdditionalRoots isInStore toStorePath
                        (db (store (sys g1))) lines (roots (state g1)))) in Hp.
        apply addAdditionalRoots_valid in Hp.
        rewrite A1 in Hp. destruct Hp as [Hp|Hp]; auto.
      + inversion H2; subst g2. repeat split; auto; discriminate. }
  clear A1 A2 A3 A4 A5 A6 H1 H2.
  destruct P2 as [A1 [A2 [A3 [A4 [A5 A6]]]]].
  (* the temporary roots *)
  unfold liftTR in H3.
  destruct (readTempRoots isStorePath (temp (sys g2), (tempRoots (state g2), fds g2)))
    as [[r s3]|] eqn:E3; [|discriminate].
  inversion H3; subst r g3; clear H3. cbn [state sys tempRoots roots set_tempRoots outer].
  unfold readTempRoots, readTempRootsFrom in E3. cbn [fst] in E3.
  destruct (readTempRootsFrom_sound isStorePath (temp (sys g2)) _
              (temp (sys g2), (tempRoots (state g2), fds g2)) _ _
              (tracks_refl _) E3) as [_ S].
  cbn [fst snd] in S. rewrite A3, A2 in S.
  split; [|split].
  - intros p Hp. split; [apply In_insert_all; now left|].
    destruct (S p Hp) as [[]|K]. exact K.
  - intros p Hp. apply In_insert_all in Hp. destruct Hp as [Hp|Hp]; auto.
  - intros Hi. destruct (A6 Hi) as [B1 B2]. split; [exact B1|].
    intros p Hp. apply In_insert_all in Hp. destruct Hp as [Hp|Hp]; [exact Hp|].
    rewrite B2 in Hp. destruct Hp.
Qed.

End RootDiscoveryResults.

(** * The properties on the concrete stores *)

Lemma tryToDelete_keeps_roots_and_registers_nothing_witness :
  (options (snd ExampleEngine.afterDrv) = options (snd ExampleEngine.start)
   /\ roots (snd ExampleEngine.afterDrv) = roots (snd ExampleEngine.start)
   /\ tempRoots (snd ExampleEngine.afterDrv) = tempRoots (snd ExampleEngine.start)
   /\ gcKeepOutputs (snd ExampleEngine.afterDrv)
      = gcKeepOutputs (snd ExampleEngine.start)
   /\ gcKeepDerivations (snd ExampleEngine.afterDrv)
      = gcKeepDerivations (snd ExampleEngine.start))
  /\ ((forall p, In p (deleted (snd ExampleEngine.start)) ->
                 In p (deleted (snd ExampleEngine.afterDrv)))
      /\ (forall p, In p (live (snd ExampleEngine.start)) ->
                    In p (live (snd ExampleEngine.afterDrv)))
      /\ (forall p, In p (invalidated (snd ExampleEngine.start)) ->
                    In p (invalidated (snd ExampleEngine.afterDrv))))
  /\ (refs (db (fst ExampleEngine.afterDrv)) = refs (db (fst ExampleEngine.start))
      /\ derivationOutputs (db (fst ExampleEngine.afterDrv))
         = derivationOutputs (db (fst ExampleEngine.start))
      /\ forall p, Db.isValidPath (db (fst ExampleEngine.afterDrv)) p = true ->
                   Db.isValidPath (db (fst ExampleEngine.start)) p = true).
Proof.
  apply (tryToDelete_keeps_roots_and_registers_nothing Example.settings Example.pid
           Example.isStorePath Example.isDerivation 2 "/nix/store/d.drv"
           ExampleEngine.start (Ret true) ExampleEngine.afterDrv).
  vm_compute. reflexivity.
Defined.

Lemma tryToDelete_removes_invalid_entry_witness :
  tryToDelete Example.settings Example.pid Example.isStorePath Example.isDerivation
    1 "/nix/store/junk" (ExampleEngine.junkStore, ExampleEngine.junkState)
  = if (maxFreed (options ExampleEngine.junkState)
        <? add64 (add64 (bytesFreed (results ExampleEngine.junkState))
                        (st_bytes (Example.regStat 5) mod two64))
                 (bytesInvalidated ExampleEngine.junkState))%N
    then Some (Throw GCLimitReached,
               (mkStore (db ExampleEngine.junkStore)
                        (Fs.set (fs ExampleEngine.junkStore) "/nix/store/junk" None),
                results_credit (st_bytes (Example.regStat 5) mod two64)
                               ExampleEngine.junkState))
    else Some (Ret true,
               (mkStore (db ExampleEngine.junkStore)
                        (Fs.set (fs ExampleEngine.junkStore) "/nix/store/junk" None),
                results_insert "/nix/store/junk"
                  (set_deleted
                     (PathSet.insert "/nix/store/junk"
                                     (deleted ExampleEngine.junkState))
                     (results_credit (st_bytes (Example.regStat 5) mod two64)
                                     ExampleEngine.junkState)))).
Proof.
  apply (tryToDelete_removes_invalid_entry Example.settings Example.pid
           Example.isStorePath Example.isDerivation 0
           ExampleEngine.junkStore ExampleEngine.junkState "/nix/store/junk"
           (Example.regStat 5)).
  - discriminate.
  - reflexivity.
  - intros [].
  - intros [].
  - reflexivity.
  - reflexivity.
  - reflexivity.
  - intros [].
  - reflexivity.
Defined.

Lemma collectGarbage_query_leaves_store_witness :
  store (sys ExampleQuery.afterCycle) = store ExampleGC.rooted
  /\ linkPool (sys ExampleQuery.afterCycle) = linkPool ExampleGC.rooted
  /\ bytesFreed (results (state ExampleQuery.afterCycle))
     = bytesFreed ExampleGC.noResults
  /\ invalidated (state ExampleQuery.afterCycle) = []
  /\ bytesInvalidated (state ExampleQuery.afterCycle) = 0%N.
Proof.
  apply (collectGarbage_query_leaves_store Example.settings Example.pid
           ExampleRoots.canonPath ExampleRoots.absPath ExampleRoots.dirOf
           Example.isInStore Example.isStorePath ExampleRoots.toStorePath
           Example.isDerivation ExampleRoots.readDirectory
           5 ExampleGC.env ExampleQuery.opts ExampleGC.noResults ExampleGC.rooted
           (Ret tt) ExampleQuery.afterCycle).
  - right. reflexivity.
  - vm_compute. reflexivity.
Defined.

Lemma collectGarbage_reports_classified_paths_witness :
  In "/nix/store/a" (paths (results (state ExampleQuery.afterCycle)))
  <-> In "/nix/store/a" (paths ExampleGC.noResults)
      \/ In "/nix/store/a"
           (if GCAction_eqb (action ExampleQuery.opts) gcReturnLive
            then live (state ExampleQuery.afterCycle)
            else deleted (state ExampleQuery.afterCycle)).
Proof.
  apply (collectGarbage_reports_classified_paths Example.settings Example.pid
           ExampleRoots.canonPath ExampleRoots.absPath ExampleRoots.dirOf
           Example.isInStore Example.isStorePath ExampleRoots.toStorePath
           Example.isDerivation ExampleRoots.readDirectory
           5 ExampleGC.env ExampleQuery.opts ExampleGC.noResults ExampleGC.rooted
           (Ret tt) ExampleQuery.afterCycle "/nix/store/a").
  vm_compute. reflexivity.
Defined.

Lemma collectGarbage_deleted_paths_are_invalid_witness :
  Db.isValidPath (db (store (sys ExampleLive.afterCycle))) "/nix/store/old" = false.
Proof.
  apply (collectGarbage_deleted_paths_are_invalid Example.settings Example.pid
           ExampleRoots.canonPath ExampleRoots.absPath ExampleRoots.dirOf
           Example.isInStore Example.isStorePath ExampleRoots.toStorePath
           Example.isDerivation ExampleRoots.readDirectory
           6 ExampleLive.env ExampleLive.opts ExampleGC.noResults
           ExampleLive.consistent (Ret tt) ExampleLive.afterCycle "/nix/store/old").
  - reflexivity.
  - vm_compute. reflexivity.
  - vm_compute. auto.
Defined.

Lemma collectGarbage_returns_without_renamed_directories_witness :
  fs (store (sys ExampleLive.afterCycle)) "/nix/store/old-gc-4242" = None.
Proof.
  apply (collectGarbage_returns_without_renamed_directories Example.settings
           Example.pid ExampleRoots.canonPath ExampleRoots.absPath ExampleRoots.dirOf
           Example.isInStore Example.isStorePath ExampleRoots.toStorePath
           Example.isDerivation ExampleRoots.readDirectory
           6 ExampleLive.env ExampleLive.opts ExampleGC.noResults
           ExampleLive.consistent ExampleLive.afterCycle "/nix/store/old-gc-4242").
  - vm_compute. reflexivity.
  - vm_compute. auto.
Defined.

Lemma collectGarbage_stops_when_root_discovery_fails_witness :
  ExampleGC.collectGarbage 5 ExampleGC.env (Example.deleteDead 1000)
    ExampleGC.noResults ExampleFail.system
  = Some (Throw (SysError "opening temporary roots file `77'"), ExampleFail.failed)
  /\ isFailure (SysError "opening temporary roots file `77'")
  /\ store (sys ExampleFail.failed) = store ExampleFail.system
  /\ linkPool (sys ExampleFail.failed) = linkPool ExampleFail.system
  /\ results (state ExampleFail.failed) = ExampleGC.noResults
  /\ deleted (state ExampleFail.failed) = []
  /\ invalidated (state ExampleFail.failed) = [].
Proof.
  apply (collectGarbage_stops_when_root_discovery_fails Example.settings Example.pid
           ExampleRoots.canonPath ExampleRoots.absPath ExampleRoots.dirOf
           Example.isInStore Example.isStorePath ExampleRoots.toStorePath
           Example.isDerivation ExampleRoots.readDirectory
           5 ExampleGC.env (Example.deleteDead 1000) ExampleGC.noResults
           ExampleFail.system (SysError "opening temporary roots file `77'")
           ExampleFail.failed).
  vm_compute. reflexivity.
Defined.

Lemma removeUnusedLinks_removes_unused_links_witness :
  exists g' pool',
    removeUnusedLinks Example.settings ExampleLinks.start = Some (Ret tt, g')
    /\ linkPool (sys g') = Some pool'
    /\ (forall e, In e pool'
                  <-> In e [mkLink "0abc" 1 2; mkLink "0def" 3 2]
                      /\ (l_nlink e <> 1%N \/ l_name e = "." \/ l_name e = ".."))
    /\ (bytesFreed (results (state g')) mod two64
        = (bytesFreed (results (state ExampleLinks.start))
           + unusedBytes [mkLink "0abc" 1 2; mkLink "0def" 3 2]) mod two64)%N
    /\ store (sys g') = store (sys ExampleLinks.start)
    /\ paths (results (state g')) = paths (results (state ExampleLinks.start))
    /\ roots (state g') = roots (state ExampleLinks.start)
    /\ deleted (state g') = deleted (state ExampleLinks.start).
Proof.
  apply (removeUnusedLinks_removes_unused_links Example.settings ExampleLinks.start
           [mkLink "0abc" 1 2; mkLink "0def" 3 2]).
  reflexivity.
Defined.

Lemma removeUnusedLinks_twice_witness :
  removeUnusedLinks Example.settings ExampleLinks.swept
  = Some (Ret tt, ExampleLinks.swept).
Proof.
  apply (removeUnusedLinks_twice Example.settings ExampleLinks.start
           ExampleLinks.swept).
  vm_compute. reflexivity.
Defined.

Lemma discoverRoots_collects_roots_witness :
  (forall p, In p (tempRoots (state ExampleSpecific.afterRoots)) ->
             In p (roots (state ExampleSpecific.afterRoots))
             /\ heldRoot Example.isStorePath (temp ExampleGC.rooted) p)
  /\ (forall p, In p (roots (state ExampleSpecific.afterRoots)) ->
                In p (tempRoots (state ExampleSpecific.afterRoots))
                \/ Db.isValidPath (db (store ExampleGC.rooted)) p = true)
  /\ (ignoreLiveness ExampleSpecific.opts = true ->
      outer (sys ExampleSpecific.afterRoots) = outer ExampleGC.rooted
      /\ forall p, In p (roots (state ExampleSpecific.afterRoots)) ->
                   In p (tempRoots (state ExampleSpecific.afterRoots))).
Proof.
  apply (discoverRoots_collects_roots Example.settings ExampleRoots.canonPath
           ExampleRoots.absPath ExampleRoots.dirOf Example.isInStore
           Example.isStorePath ExampleRoots.toStorePath ExampleRoots.readDirectory
           5 ExampleGC.env ExampleSpecific.opts ExampleGC.noResults ExampleGC.rooted
           ExampleSpecific.afterRoots).
  vm_compute. reflexivity.
Defined.

(** * Deleting specific paths *)

Section DeleteSpecific.

Variable settings : Settings.t.
Variable pid : string.
Variable canonPath : Path -> Path.
Variable absPath : Path -> Path -> Path.
Variable dirOf : Path -> Path.
Variable isInStore : Path -> bool.
Variable isStorePath : Path -> bool.
Variable toStorePath : Path -> Path.
Variable isDerivation : Path -> bool.
Variable readDirectory : OuterFS -> Path -> list string.

Lemma tryToDelete_goneIsDeleted (f0 : FS) (fuel : nat) (path : Path) :
  hoare (goneIsDeleted f0) (fun _ => True)
        (tryToDelete settings pid isStorePath isDerivation fuel path).
Proof.
  apply tryToDelete_hoare.
  - auto.
  - intros st i s o s' HI H. destruct o as [[]|]; [|exact I].
    apply deleteMember_footprint in H.
    destruct H as [_ [_ [F3 [F4 [_ [F6 _]]]]]].
    intros q Hq0 Hq. apply F6.
    destruct (String.eqb q i) eqn:Ei.
    { apply String.eqb_eq in Ei. left. auto. }
    apply String.eqb_neq in Ei. right. apply HI; [exact Hq0|].
    destruct (String.eqb q (i ++ "-gc-" ++ pid)) eqn:Et.
    + apply String.eqb_eq in Et. subst q.
      destruct F4 as [F4|[_ F4]]; [|contradiction].
      apply (sameButMode_none _ _ F4). exact Hq.
    + apply String.eqb_neq in Et. apply (sameButMode_none _ _ (F3 q Ei Et)).
      exact Hq.
  - intros ps s o s' HI H.
    destruct (markLive_spec ps s) as [s1 [H1 [H2 [H3 _]]]].
    rewrite H1 in H. inversion H; subst o s'.
    intros q Hq0 Hq. rewrite H3. apply HI; [exact Hq0|]. now rewrite <- H2.
Qed.

Lemma tryToDelete_deleted_grows (D : PathSet) (fuel : nat) (path : Path) :
  preserves (ofState (fun st => forall q, In q D -> In q (deleted st)))
            (tryToDelete settings pid isStorePath isDerivation fuel path).
Proof.
  apply hoare_preserves. apply tryToDelete_state; try (intros st x K; exact K).
  - intros st i K.
    destruct (GCAction_eqb (action (options st)) gcReturnLive); simpl;
      intros q Hq; apply In_insert; right; apply K, Hq.
  - intros st i K.
    destruct (GCAction_eqb (action (options st)) gcReturnLive); simpl; exact K.
Qed.

(** A call that returns true has recorded the path, unless the path
    was not on disk or is the links directory. *)
Lemma tryToDelete_true (fuel : nat) (path : Path) (s s' : St) :
  tryToDelete settings pid isStorePath isDerivation fuel path s = Some (Ret true, s') ->
  path <> linksDir settings ->
  fs (fst s) path = None \/ In path (deleted (snd s')).
Proof.
  destruct fuel as [|fuel]; [discriminate|]. rewrite tryToDelete_S.
  intros H Hl.
  destruct (String.eqb path (linksDir settings)) eqn:E;
    [apply String.eqb_eq in E; contradiction|].
  unfold bind at 1 in H. unfold get in H. unfold Fs.lstat in H.
  destruct (fs (fst s) path) as [st|]; [|now left]. right.
  destruct (PathSet.mem path (deleted (snd s))) eqn:Ed.
  { inversion H; subst s'. now apply mem_In. }
  destruct (PathSet.mem path (live (snd s))); [discriminate|].
  apply bind_inv in H. destruct H as [[e [_ He]]|[c [s1 [H1 H]]]]; [discriminate|].
  assert (s1 = s) by (apply (candidates_pure _ _ _ _ _ _ H1)). subst s1.
  destruct c as [|ps]; [discriminate|].
  apply (candidates_members isStorePath isDerivation) in H1. destruct H1 as [Hin _].
  destruct (anyRoot (snd s) ps).
  { apply bind_inv in H. destruct H as [[e [_ He]]|[a [s2 [_ H]]]]; discriminate. }
  apply bind_inv in H. destruct H as [[e [_ He]]|[gone [s2 [_ H]]]]; [discriminate|].
  destruct gone.
  - unfold bind at 1 in H. unfold gets in H.
    apply bind_inv in H. destruct H as [[e [_ He]]|[[] [s3 [H3 H]]]]; [discriminate|].
    inversion H; subst s'. apply deleteLoop_ret in H3. destruct H3 as [K _].
    apply K. apply In_topoSortPaths. exact Hin.
  - apply bind_inv in H. destruct H as [[e [_ He]]|[a [s3 [_ H]]]]; discriminate.
Qed.

Lemma deleteSpecific_records (f0 : FS) (fuel : nat) (l : list Path) :
  forall g g',
    atStore (goneIsDeleted f0) g ->
    forEach l (deleteSpecificPath settings pid isStorePath isDerivation fuel) g
    = Some (Ret tt, g') ->
    atStore (goneIsDeleted f0) g'
    /\ (forall q, In q (deleted (state g)) -> In q (deleted (state g')))
    /\ forall p, In p l -> f0 p <> None -> p <> linksDir settings ->
                 In p (deleted (state g')).
Proof.
  induction l as [|p l IH]; intros g g' HI H; simpl in H.
  - inversion H; subst g'. split; [exact HI|]. split; [auto|]. intros p [].
  - apply bind_inv in H. destruct H as [[e [_ He]]|[[] [g1 [H1 H]]]]; [discriminate|].
    unfold deleteSpecificPath in H1. apply bind_inv in H1.
    destruct H1 as [[e [_ He]]|[[] [g0 [Ha H1]]]]; [discriminate|].
    assert (g0 = g).
    { unfold assertStorePath in Ha. destruct (isStorePath p); inversion Ha; reflexivity. }
    subst g0. clear Ha.
    apply bind_inv in H1. destruct H1 as [[e [_ He]]|[gone [g2 [Ht H1]]]]; [discriminate|].
    destruct gone; [|discriminate]. inversion H1; subst g2; clear H1.
    unfold liftSt in Ht.
    destruct (tryToDelete settings pid isStorePath isDerivation fuel p
                (store (sys g), state g)) as [[r s1]|] eqn:E; [|discriminate].
    inversion Ht; subst r g1; clear Ht. destruct s1 as [ls1 st1]. cbn [fst snd] in H.
    assert (I1 : goneIsDeleted f0 (ls1, st1)).
    { apply (tryToDelete_goneIsDeleted f0 fuel p _ _ _ HI E). }
    assert (M1 : forall q, In q (deleted (state g)) -> In q (deleted st1)).
    { apply (tryToDelete_deleted_grows (deleted (state g)) fuel p
               (store (sys g), state g) _ _ (fun q Hq => Hq) E). }
    assert (D1 : f0 p <> None -> p <> linksDir settings -> In p (deleted st1)).
    { intros Hp0 Hl. destruct (tryToDelete_true _ _ _ _ E Hl) as [K|K]; [|exact K].
      apply M1. apply HI; assumption. }
    destruct (IH (mkGC (mkSystem ls1 (outer (sys g)) (temp (sys g)) (linkPool (sys g)))
                       st1 (fds g)) g' I1 H) as [I2 [M2 D2]].
    cbn [state] in M2.
    split; [exact I2|]. split; [intros q Hq; apply M2, M1, Hq|].
    intros q [Hq|Hq] Hq0 Hl; [subst q; apply M2, D1; assumption|].
    apply D2; assumption.
Qed.

(** X24.  A deletion of specific paths that returns has done its
    work: every requested path that was in the store directory when
    the cycle began, the links directory apart, is recorded as
    deleted. *)
Theorem collectGarbage_deletes_requested_paths
    (fuel : nat) (env : Env) (opts : GCOptions) (res : GCResults) (w : System)
    (g : GC) (p : Path) :
  action opts = gcDeleteSpecific ->
  collectGarbage settings pid canonPath absPath dirOf isInStore isStorePath
    toStorePath isDerivation readDirectory fuel env opts res w = Some (Ret tt, g) ->
  In p (pathsToDelete opts) ->
  fs (store w) p <> None ->
  p <> linksDir settings ->
  In p (deleted (state g)).
Proof.
  intros Ha H Hp Hp0 Hl. apply collectGarbage_phases in H.
  destruct H as [r1 [g1 [_ [Hc [_ H]]]]].
  apply core_fields in Hc. cbn [sys state] in Hc. destruct Hc as [C1 _].
  destruct H as [[e [_ [He _]]]|[_ [r2 [g2 [H2 H]]]]]; [discriminate|].
  destruct H as [[e [_ [He _]]]|[Hr H]]; [discriminate|]. subst r2.
  unfold classify in H2. rewrite Ha in H2. simpl in H2. unfold deleteSpecific in H2.
  assert (I1 : atStore (goneIsDeleted (fs (store w))) g1).
  { intros q Hq0 Hq. cbn [fst] in Hq. rewrite C1 in Hq. contradiction. }
  destruct (deleteSpecific_records _ fuel _ _ _ I1 H2) as [_ [_ D]].
  apply cleanup_effect in H. destruct H as [_ [_ [_ [[b Hb] _]]]].
  rewrite Hb. simpl. apply D; assumption.
Qed.

End DeleteSpecific.

Lemma collectGarbage_deletes_requested_paths_witness :
  In "/nix/store/a" (deleted (state ExampleDelete.afterCycle)).
Proof.
  apply (collectGarbage_deletes_requested_paths Example.settings Example.pid
           ExampleRoots.canonPath ExampleRoots.absPath ExampleRoots.dirOf
           Example.isInStore Example.isStorePath ExampleRoots.toStorePath
           Example.isDerivation ExampleRoots.readDirectory
           5 ExampleGC.env ExampleDelete.opts ExampleGC.noResults ExampleGC.rooted
           ExampleDelete.afterCycle "/nix/store/a").
  - reflexivity.
  - vm_compute. reflexivity.
  - simpl. auto.
  - discriminate.
  - discriminate.
Defined.

(** * The verdict on a candidate *)

Section Verdict.

Variable settings : Settings.t.
Variable pid : string.
Variable isStorePath : Path -> bool.
Variable isDerivation : Path -> bool.





End Verdict.


(** * The first pass of the sweep *)

Section FirstPass.

Variable settings : Settings.t.
Variable pid : string.
Variable isStorePath : Path -> bool.
Variable isDerivation : Path -> bool.

Lemma deleteMember_invalid (st : Stat) (i : Path) (s : St) (o : Outcome unit) (s' : St) :
  Db.isValidPath (db (fst s)) i = false ->
  deleteMember pid st i s = Some (o, s') ->
  db (fst s') = db (fst s)
  /\ forall q, q <> i -> fs (fst s') q = fs (fst s) q.
Proof.
  intros Hv H. unfold deleteMember in H. unfold bind at 1 in H. unfold get in H.
  rewrite Hv in H.
  destruct (shouldDelete (action (options (snd s)))).
  - unfold bind, deleteGarbage, modify, checkLimit, onState, Fs.deletePathWrapped in H.
    cbn [fst snd db fs] in H.
    destruct (fs (fst s) i) as [info|];
      cbn [fst snd db fs] in H;
      destruct (_ <? _)%N; inversion H; subst o s'; cbn [fst snd db fs];
        (split; [reflexivity|]); intros q Hq; try reflexivity;
        apply set_other; exact Hq.
  - unfold bind, ret, onState, modify in H. inversion H; subst o s'.
    cbn [fst snd]. auto.
Qed.

Lemma tryToDelete_invalid (fuel : nat) (path : Path) (s : St)
    (o : Outcome bool) (s' : St) :
  Db.isValidPath (db (fst s)) path = false ->
  tryToDelete settings pid isStorePath isDerivation fuel path s = Some (o, s') ->
  db (fst s') = db (fst s)
  /\ forall q, q <> path -> fs (fst s') q = fs (fst s) q.
Proof.
  intros Hv. destruct fuel as [|fuel]; [discriminate|]. rewrite tryToDelete_S.
  intros H.
  destruct (String.eqb path (linksDir settings));
    [inversion H; subst s'; auto|].
  unfold bind at 1 in H. unfold get in H.
  destruct (Fs.lstat (fs (fst s)) path) as [st|]; [|inversion H; subst s'; auto].
  destruct (PathSet.mem path (deleted (snd s))); [inversion H; subst s'; auto|].
  destruct (PathSet.mem path (live (snd s))); [inversion H; subst s'; auto|].
  apply bind_inv in H. destruct H as [[e [H He]]|[c [s1 [H1 H]]]].
  { apply candidates_pure in H. subst s'. auto. }
  assert (s1 = s) by (apply (candidates_pure _ _ _ _ _ _ H1)). subst s1.
  destruct c as [|ps]; [inversion H; subst s'; auto|].
  apply (candidates_members isStorePath isDerivation) in H1.
  destruct H1 as [_ [_ Hps]]. specialize (Hps Hv). subst ps.
  assert (Hlive : forall r s2,
            (markLive [path] ;;; ret false) s = Some (r, s2) ->
            db (fst s2) = db (fst s)
            /\ forall q, q <> path -> fs (fst s2) q = fs (fst s) q).
  { intros r s2 K. destruct (markLive_spec [path] s) as [s3 [K1 [K2 _]]].
    rewrite (bind_ret _ _ _ _ _ K1) in K. inversion K; subst s2.
    rewrite K2. auto. }
  destruct (anyRoot (snd s) [path]); [apply (Hlive _ _ H)|].
  assert (Hrefs : collectReferrers (db (fst s)) [path] = []).
  { unfold collectReferrers. simpl. now rewrite Hv. }
  rewrite Hrefs in H. simpl referrersLoop in H.
  unfold bind at 1 in H. unfold ret at 1 in H.
  unfold bind at 1 in H. unfold gets in H.
  assert (Ht : Db.topoSortPaths (db (fst s)) [path] = [path]).
  { unfold Db.topoSortPaths. simpl. unfold Db.unreferenced. simpl.
    rewrite String.eqb_refl. reflexivity. }
  rewrite Ht in H. simpl forEach in H.
  apply bind_inv in H. destruct H as [[e [H He]]|[[] [s2 [H2 H]]]].
  - apply bind_inv in H. destruct H as [[e' [H He']]|[[] [s3 [H3 H]]]];
      [|discriminate].
    apply (deleteMember_invalid _ _ _ _ _ Hv H).
  - apply bind_inv in H2. destruct H2 as [[e' [_ He']]|[[] [s3 [H3 H2]]]];
      [discriminate|].
    inversion H2; subst s3. inversion H; subst s'.
    apply (deleteMember_invalid _ _ _ _ _ Hv H3).
Qed.

(** X25.  The first pass over the store directory deletes only what
    is not valid: however it ends, the database is as before and
    every valid path is on disk as before; when it returns, the
    entries it hands to the second pass are the valid entries of the
    directory listing, in the order of the listing, [.] and [..]
    left out. *)
Theorem readStore_deletes_invalid_entries_only
    (fuel : nat) (names : list string) (found : Paths) (g : GC)
    (o : Outcome Paths) (g' : GC) :
  readStore settings pid isStorePath isDerivation fuel names found g = Some (o, g') ->
  db (store (sys g')) = db (store (sys g))
  /\ (forall q, Db.isValidPath (db (store (sys g))) q = true ->
                fs (store (sys g')) q = fs (store (sys g)) q)
  /\ (forall found', o = Ret found' ->
        found'
        = (found
           ++ filter (Db.isValidPath (db (store (sys g))))
                (map (fun name => (Settings.nixStore settings ++ "/" ++ name)%string)
                   (filter (fun name => negb (String.eqb name "."%string
                                              || String.eqb name ".."%string))
                           names)))%list).
Proof.
  revert found g. induction names as [|name rest IH]; intros found g H; simpl in H.
  - inversion H; subst o g'. repeat split; auto.
    intros found' E. inversion E. simpl. now rewrite app_nil_r.
  - simpl. destruct (String.eqb name "." || String.eqb name ".."); simpl;
      [apply (IH _ _ H)|].
    unfold bind at 1 in H. unfold get in H.
    destruct (Db.isValidPath (db (store (sys g))) _) eqn:Ev.
    + destruct (IH _ _ H) as [K1 [K2 K3]]. split; [exact K1|]. split; [exact K2|].
      intros found' E. rewrite (K3 found' E), <- app_assoc. reflexivity.
    + apply bind_inv in H. destruct H as [[e [H He]]|[a [g1 [H1 H]]]].
      * unfold liftSt in H.
        destruct (tryToDelete settings pid isStorePath isDerivation fuel _
                    (store (sys g), state g)) as [[r s1]|] eqn:E; [|discriminate].
        inversion H; subst r g'; clear H. cbn [sys store].
        destruct (tryToDelete_invalid fuel _ (store (sys g), state g) _ _ Ev E) as [T1 T2].
        cbn [fst] in T1, T2. split; [exact T1|]. split.
        -- intros q Hq. apply T2. intros Eq. subst q. congruence.
        -- intros found' Ef. subst o. discriminate.
      * unfold liftSt in H1.
        destruct (tryToDelete settings pid isStorePath isDerivation fuel _
                    (store (sys g), state g)) as [[r s1]|] eqn:E; [|discriminate].
        inversion H1; subst r g1; clear H1.
        destruct (tryToDelete_invalid fuel _ (store (sys g), state g) _ _ Ev E) as [T1 T2].
        cbn [fst] in T1, T2.
        destruct (IH _ _ H) as [K1 [K2 K3]]. cbn [sys store] in K1, K2, K3.
        rewrite T1 in K1, K2, K3.
        split; [exact K1|]. split.
        -- intros q Hq. rewrite (K2 q Hq). apply T2. intros Eq. subst q. congruence.
        -- exact K3.
Qed.

End FirstPass.

Lemma readStore_deletes_invalid_entries_only_witness :
  db (store (sys ExampleFirst.afterPass)) = db (store (sys ExampleFirst.start))
  /\ (forall q, Db.isValidPath (db (store (sys ExampleFirst.start))) q = true ->
                fs (store (sys ExampleFirst.afterPass)) q
                = fs (store (sys ExampleFirst.start)) q)
  /\ (forall found',
        Ret ["/nix/store/a"; "/nix/store/b"; "/nix/store/c"] = Ret found' ->
        found'
        = ([]
           ++ filter (Db.isValidPath (db (store (sys ExampleFirst.start))))
                (map (fun name =>
                        (Settings.nixStore Example.settings ++ "/" ++ name)%string)
                   (filter (fun name => negb (String.eqb name "."%string
                                              || String.eqb name ".."%string))
                           ExampleFirst.names)))%list).
Proof.
  apply (readStore_deletes_invalid_entries_only Example.settings Example.pid
           Example.isStorePath Example.isDerivation 3 ExampleFirst.names []
           ExampleFirst.start (Ret ["/nix/store/a"; "/nix/store/b"; "/nix/store/c"])
           ExampleFirst.afterPass).
  vm_compute. reflexivity.
Defined.
